(* ===== verification/_CoqProject ===== *)
-Q . S2P
Prelude.v
BigInt.v
JsNumber.v
JsMap.v
Charge.v
Ledger.v
Wallet.v
Processor.v
Sweep.v
Payment.v
Expiry.v
Recovery.v
Scenarios.v
Lifecycle.v
Typing.v
Monotone.v
Cli.v
Listener.v
CliV1.v
Termination.v
WalletCli.v
WalletConfig.v
WalletWatch.v
