(* ===== verification/Prelude.v ===== *)
(** * BerryPay payment processor: a verification development

    This library models the payment processor of the BerryPay CLI
    (strawberry-labs/berrypay-cli) and proves what makes it correct.

    ** The program

    The repository is a TypeScript CLI for the Nano ledger.  Its parts are:
    - [src/src/wallet.ts], class [BerryPayWallet]: the ledger client.  It
      derives sub-account addresses from a seed (caching them in a
      [Map<number, ...>]), and talks JSON-RPC to a node: [getBalance],
      [getAccountInfo], [getPendingBlocks] (at most 10 items),
      [send], [receive], [receivePending].  RPC failures are swallowed by the
      read operations ([getBalance] answers ["0"], [getPendingBlocks]
      answers [[]], [getAccountInfo] answers [null]) and propagated by the
      write operations.
    - [src/unnamed/part_001] ([processor.ts]), class [PaymentProcessor]:
      the charge processor.  Its state is two JS [Map]s ([charges] by id,
      [addressToChargeId] by address), the next sub-account index, a
      debounce timer for the snapshot file, the set of addresses the event
      monitor watches, and the listeners of its events.  Its operations are
      [createCharge], [handlePayment] (a monitor [payment] event),
      [sweepCharge], [callWebhook], [checkChargeStatus],
      [checkExpiredCharges] (a 10 s interval), [deleteCharge],
      [cleanupSweptCharges], [importCharges], the constructor (which loads
      the snapshot), [start] (which runs [checkMissedPayments]) and [stop].
    - [src/unnamed/part_000]: the [commander] CLI ([bin/cli.ts], in two
      revisions).  It builds a processor per command and prints JSON.
    - [monitor.ts] (the websocket event monitor) and [config.ts] are not
      under [src/]; the monitor is modelled from the spec as the set of
      watched addresses ([addAccount]/[removeAccount]), the configuration
      store from the README as a file with the seed and the node URLs
      under the environment variables [BERRYPAY_SEED], [BERRYPAY_RPC_URL]
      and [BERRYPAY_WS_URL], which are read first.

    ** The development (files in dependency order)

    - [Prelude] (this file): the state-and-exception monad [M] in which
      every asynchronous method is written ([Throw] is a rejected promise:
      state changes made before it persist, as they do on a mutable
      object), [try!]/[catch!], [for_each], the [within] logic (a
      computation stays inside a preorder), the scope [berry_scope], the
      tactics and the hint databases [berry] and [berry_rw].
    - [BigInt]: [BigInt(string)] (the StringToBigInt grammar of ECMAScript
      restricted to ASCII) and [n.toString()], with their round trip;
      amounts are kept as decimal strings, exactly as the source keeps them.
    - [JsNumber]: [parseInt] without radix and the [parseFloat(s) > 0] test
      of the CLI, and the PID-file round trip [parseInt(String(n)) = n].
    - [JsMap]: a JS [Map] as an insertion-ordered association list, with
      its refinement of stdpp's [gmap].
    - [Charge]: [ChargeStatus], [PaymentTransaction], [Charge], the field
      assignments as setters, and the state machine of the spec (§4.2).
    - [Ledger]: the RPC node (an environment model from the spec:
      accounts, receivable blocks, failing actions).
    - [Wallet]: [BerryPayWallet] over that node; key derivation and unit
      conversion are the class [WalletLib].
    - [Processor]: the processor's state and world, the snapshot writes
      ([persistState] arms the 500 ms debounce timer, [persistStateNow]
      writes), the queries, [createCharge], [deleteCharge],
      [cleanupSweptCharges], [importCharges] and the constructor.
    - [Sweep]: [callWebhook], [sweepCharge], [checkChargeStatus].
    - [Payment]: [handlePayment].
    - [Expiry]: [checkExpiredCharges] and its specification by map/filter.
    - [Recovery]: [checkMissedPayments], [start], [stop].
    - [Scenarios]: the scenarios of the spec (§8) and the executions
      behind some findings, run on concrete worlds as examples; the
      properties themselves are stated for all states in the other files.
    - [Lifecycle]: the processor as a transition system (every entry point,
      the environment's steps, restarts), the structural invariant [inv],
      proved for every reachable world by rule induction, and its decision
      procedure [inv_check].
    - [Typing]: the charge record read as the tagged union its status
      announces ([ch_typed]: a [completed] charge has [completedAt], a
      [swept] one [sweptAt], and [sweptAt] and [sweepTxHash] come
      together), kept by every entry point, the constructor and the
      environment.
    - [Monotone]: status monotonicity: every entry point moves each
      charge along the spec's state machine; a frame relation and small
      Hoare-style rules carry the status a handler read to the change it
      guards.
    - [Cli]: the [charge] commands of [src/unnamed/part_000] (lines 1-918),
      each a new process on the shared file and ledger, and the listener's
      PID file with the process table ([Os]).
    - [Listener]: [charge listen] as a long-lived process with its own
      processor memory over the shared file, ledger and PID file
      ([in_listener]), the monitor's payments and the timers delivered to
      it, [checkAutoStop] and [cleanup], and its exit on an unhandled
      rejection.
    - [CliV1]: the earlier copy of the [charge] commands (lines 919-1590)
      where it differs ([charge create], [charge sweep]), related to the
      current ones.
    - [Termination]: the command processes end by themselves (no timer,
      interval or monitor connection left).
    - [WalletCli]: the wallet commands [balance], [send], [receive] and
      [autoReceiveMain] on a fresh wallet over the node, and the older
      [balance] and [send] (lines 1042-1129), which do not auto-receive.
    - [WalletConfig]: the configuration store and the wallet management
      commands [init], [import], [address], [export], [delete] and
      [config] on it; the key derivation is a parameter [seed_address].
    - [WalletWatch]: [watch], its initial receive and its [payment]
      handler on the monitor's events, run in sequence or interleaved at
      the [await]s of [receive] ([receive_split] cuts [receive] there;
      [receive_opened] is [receive] on any opened account).

    ** What the theorems show

    - Functional specifications of each handler on every branch, errors
      included: [handlePayment] (ignored, partial, completed, bad amount),
      [sweepCharge] (success, nothing to sweep, already swept, not found,
      node down; on success the node after it is the node before with
      the transfer [Ledger.node_transfer]), [checkChargeStatus] (the
      balance plus the first ten receivable blocks), [createCharge],
      [deleteCharge], [cleanupSweptCharges], the expiry scan, the
      recovery of one pending block, the CLI's [charge cleanup] and
      [charge create], [balance] on a sub-account, [watch] printing one
      line per event.
    - Invariants: the ledger invariant ([receivedRaw] is the sum of the
      transactions) under [handlePayment]; the structural invariant of
      world reachable by every entry point but [importCharges]
      ([Lifecycle.reachable_inv]); status monotonicity along the spec's
      machine ([Monotone.run_op_status], same entry points).
      [importCharges] is left out of both because it breaks the first:
      it does not advance [nextAccountIndex]
      ([Lifecycle.importCharges_reuses_index]).
    - Typing: the status of every charge in memory and in the snapshot
      file of a reachable world determines which of its optional fields
      are present ([Typing.reachable_typed]).
    - Round trips: [BigInt(n.toString()) = n], the snapshot written and
      reloaded, the PID file written with [String] and read with
      [parseInt], a seed imported then exported
      ([WalletConfig.import_export_roundtrip]).
    - Refinement: the expiry scan equals its map/filter specification;
      [JsMap] refines [gmap].
    - Bounds: [charge create] succeeds exactly when the deadline fits the
      JavaScript [Date] range.
    - Interleavings: two [charge create] processes racing on the PID file;
      [charge create] writing the file while the listener runs; two
      [payment] handlers of [watch] interleaved at the [await]s of
      [receive], on any opened account with two pending blocks
      ([WalletWatch.watch_race_loses_receive]).
    - Equivalence and refinement between the two revisions of the CLI:
      [CliV1.charge_sweep_revisions], [CliV1.charge_create_revisions],
      [WalletCli.balance_revisions].
    - Termination: [Termination.commands_terminate].
    - Liveness: a listener whose active charges are past their deadlines
      stops itself at the next expiry tick
      ([Listener.listener_stops_after_deadlines]); one with no active
      charge never does ([Listener.idle_listener_stays]).
    - Findings (see [PROJECT.json]): payments counted twice after a restart
      ([Recovery.recover_block_double_counts]), more than ten pending
      blocks not counted or stranded ([Sweep.checkChargeStatus_counts_ten]),
      a sub-account index reused after [importCharges], ledger errors
      swallowed, swept
      addresses registered again on reload, a transaction recorded without
      its amount, the listener that misses charges created after it
      started, [charge status] sweeping an unrecorded payment and notifying
      "completed" with nothing received, two listeners after racing
      creates, a bad [--timeout] losing the charge, the listener erasing a
      charge created while it runs and reusing its sub-account, [import]
      and [delete] that do not affect a wallet given by [BERRYPAY_SEED]
      ([WalletConfig.env_seed_overrides]), a payment lost by two [watch]
      handlers racing on the account frontier
      ([WalletWatch.watch_race_loses_receive]).

    ** Choices

    - Time is [Z] milliseconds since the epoch, read from the world; a
      [Date] object is its millisecond value.  A JavaScript [Date] holds
      at most 8.64e15 ms either way; only [charge create] can exceed it,
      and that is modelled ([Cli.date_valid]).
    - Random charge ids ([crypto.randomBytes]) are inputs: an operation
      receives the id it would draw; [Monotone.op_fresh] takes it unused.
    - Key derivation and [tools.convert] (raw to display units) are library
      functions the code only calls: the class [WalletLib] carries them,
      and the examples use [Wallet.example_lib].
    - Asynchronous code runs to completion between two entry points; the
      sweeps that [checkExpiredCharges] starts without awaiting run after
      its synchronous loop, in order.  Concurrency between processes (the
      CLI's commands and the listener) is modelled by explicit orders of
      their atomic steps.
    - Node's default for an unhandled promise rejection
      ([--unhandled-rejections=throw], Node 15 and later) is assumed: the
      listener process dies at once, without its [cleanup].
    - Fuel: no modelled loop needs fuel; they iterate over finite lists
      (the charges, the pending blocks, at most 10 per RPC).  [N_to_string]
      takes one digit per bit of its argument, which is enough (proved by
      the round trip).

    ** Not modelled

    - The WebSocket connection of [watch] and [SIGINT]; a
      non-numeric [--index]; console output, spinners and QR codes, which
      are I/O only; the path of the configuration file.
    - The handlers of [charge listen] that only print.
    - Of the earlier copy of the CLI (lines 919-1590), [charge listen]
      (a processor stopped by [SIGINT] only, without PID file) and the
      [watch]; its [charge create] and [charge sweep] are [CliV1]'s, its
      [balance] and [send] are [WalletCli]'s, the rest is the same text as
      the current commands.
    - [monitor.ts] (the websocket) beyond its set of watched addresses, and
      the cryptography of [wallet.ts] (signatures, proof of work).
    - The ISO-8601 text of timestamps in the snapshot (the model stores
      milliseconds), and [JSON.parse] of [--metadata] (a parameter). *)

From stdpp Require Export base strings gmap list.
From Stdlib Require Export ZArith Lia.

Declare Scope berry_scope.
Delimit Scope berry_scope with berry.
Open Scope berry_scope.

(** ** The state-and-exception monad *)

(** The result of an asynchronous method: it resolves with a value, or it
    rejects with an error message. *)
Inductive outcome (A : Type) : Type :=
| Ret (a : A)
| Throw (e : string).
Arguments Ret {A} a.
Arguments Throw {A} e.

(** A computation over a state [S]: the state is threaded through, and it
    is kept when the computation throws. *)
Definition M (S A : Type) : Type := S -> S * outcome A.

#[export] Instance M_ret S : MRet (M S) := fun A a s => (s, Ret a).
#[export] Instance M_bind S : MBind (M S) := fun A B f m s =>
  let '(s', r) := m s in
  match r with
  | Ret a => f a s'
  | Throw e => (s', Throw e)
  end.

Definition get {S} : M S S := fun s => (s, Ret s).
Definition gets {S A} (f : S -> A) : M S A := fun s => (s, Ret (f s)).
Definition put {S} (s : S) : M S unit := fun _ => (s, Ret tt).
Definition modify {S} (f : S -> S) : M S unit := fun s => (f s, Ret tt).
Definition throw {S A} (e : string) : M S A := fun s => (s, Throw e).

(** [try { m } catch (e) { h(e) }] *)
Definition try_catch {S A} (m : M S A) (h : string -> M S A) : M S A :=
  fun s => let '(s', r) := m s in
  match r with
  | Ret a => (s', Ret a)
  | Throw e => h e s'
  end.

(** [for (const x of xs) { await f(x) }] *)
Fixpoint for_each {S A} (xs : list A) (f : A -> M S unit) : M S unit :=
  match xs with
  | [] => mret tt
  | x :: xs' => f x ;; for_each xs' f
  end.

Notation "'try!' m 'catch!' h" := (try_catch m h)
  (at level 10, m at level 100, h at level 200) : berry_scope.

(** Lifting a computation on a component of the state. *)
Definition lift {S T A} (getc : S -> T) (setc : T -> S -> S) (m : M T A) : M S A :=
  fun s => let '(t', r) := m (getc s) in (setc t' s, r).

(** ** Evaluation lemmas *)

Lemma bind_eval {S A B} (m : M S A) (f : A -> M S B) s :
  (m ≫= f) s = match m s with
               | (s', Ret a) => f a s'
               | (s', Throw e) => (s', Throw e)
               end.
Proof. unfold mbind, M_bind. by destruct (m s) as [? []]. Qed.

Lemma lift_bind_eval {S T A B} (getc : S -> T) setc (m : M T A) (f : A -> M S B) s :
  (lift getc setc m ≫= f) s = match m (getc s) with
                              | (t, Ret a) => f a (setc t s)
                              | (t, Throw e) => (setc t s, Throw e)
                              end.
Proof. unfold lift. rewrite bind_eval. by destruct (m (getc s)) as [? []]. Qed.

Lemma bind_ret_eval {S A B} (m : M S A) (f : A -> M S B) s s' a :
  m s = (s', Ret a) -> (m ≫= f) s = f a s'.
Proof. intros H. by rewrite bind_eval, H. Qed.

Lemma bind_throw_eval {S A B} (m : M S A) (f : A -> M S B) s s' e :
  m s = (s', Throw e) -> (m ≫= f) s = (s', Throw e).
Proof. intros H. by rewrite bind_eval, H. Qed.

Lemma for_each_app {S A} (xs ys : list A) (f : A -> M S unit) s :
  for_each (xs ++ ys) f s = (for_each xs f ;; for_each ys f) s.
Proof.
  revert s. induction xs as [|x xs IH]; intros s; simpl.
  - reflexivity.
  - rewrite !bind_eval. destruct (f x s) as [s1 [[]|e]]; [|done].
    rewrite IH, bind_eval. reflexivity.
Qed.

(** ** Shared lemmas on lists and integers *)

Definition sum_Z (l : list Z) : Z := foldr Z.add 0%Z l.

Lemma sum_Z_app l1 l2 : sum_Z (l1 ++ l2) = (sum_Z l1 + sum_Z l2)%Z.
Proof. induction l1; simpl; lia. Qed.

Lemma sum_Z_snoc l x : sum_Z (l ++ [x]) = (sum_Z l + x)%Z.
Proof. rewrite sum_Z_app. simpl. lia. Qed.

Lemma sum_Z_nonneg l : Forall (fun x => 0 <= x)%Z l -> (0 <= sum_Z l)%Z.
Proof. induction 1; simpl; lia. Qed.

(** A filter none of whose elements passes is empty. *)
Lemma filter_nil_all {A} (P : A -> Prop) `{forall x, Decision (P x)} l :
  (forall x, x ∈ l -> ~ P x) -> filter P l = [].
Proof.
  induction l as [|x l IH]; intros Hl; [done|].
  rewrite filter_cons_False; [|apply Hl; left]. apply IH. intros y Hy. apply Hl. by right.
Qed.

Create HintDb berry discriminated.
Create Rewrite HintDb berry_rw.
#[export] Hint Rewrite sum_Z_app sum_Z_snoc : berry_rw.
#[export] Hint Resolve sum_Z_nonneg : berry.

(** Unfold the monad combinators and compute. *)
Ltac run_m :=
  repeat (unfold mbind, M_bind, mret, M_ret, get, gets, put, modify, throw,
                 try_catch, lift in *; cbn -[sum_Z] in *).

(** Case analysis on the matches left by [run_m], keeping equations. *)
Ltac split_m := repeat (case_match; simplify_eq/=; try done).

(** Turn the boolean comparisons of the code into arithmetic facts. *)
Ltac bool_lia :=
  repeat match goal with
  | |- context [Nat.leb ?a ?b] => destruct (Nat.leb_spec a b)
  | |- context [Nat.ltb ?a ?b] => destruct (Nat.ltb_spec a b)
  | |- context [Nat.eqb ?a ?b] => destruct (Nat.eqb_spec a b)
  | |- context [Z.leb ?a ?b] => destruct (Z.leb_spec a b)
  | |- context [Z.ltb ?a ?b] => destruct (Z.ltb_spec a b)
  | |- context [Z.eqb ?a ?b] => destruct (Z.eqb_spec a b)
  | H : context [Nat.leb ?a ?b] |- _ => destruct (Nat.leb_spec a b)
  | H : context [Nat.ltb ?a ?b] |- _ => destruct (Nat.ltb_spec a b)
  | H : context [Nat.eqb ?a ?b] |- _ => destruct (Nat.eqb_spec a b)
  | H : context [Z.leb ?a ?b] |- _ => destruct (Z.leb_spec a b)
  | H : context [Z.ltb ?a ?b] |- _ => destruct (Z.ltb_spec a b)
  | H : context [Z.eqb ?a ?b] |- _ => destruct (Z.eqb_spec a b)
  end; simpl in *; try lia; try congruence.

(** ** A logic of state changes

    [within R m]: whatever [m] does (returning or throwing), the final
    state is related to the initial one by the preorder [R].  An invariant
    [Q] is the preorder [fun s s' => Q s -> Q s']; monotonicity of a field
    is its order.  The lemmas follow the combinators, so a proof about a
    method follows its code. *)
Section Within.
Context {S : Type} (R : relation S) `{!PreOrder R}.

Definition within {A} (m : M S A) : Prop :=
  forall s s' r, m s = (s', r) -> R s s'.

Lemma within_ret {A} (a : A) : within (mret a).
Proof. intros s s' r [= <- _]. reflexivity. Qed.

Lemma within_bind {A B} (m : M S A) (f : A -> M S B) :
  within m -> (forall a, within (f a)) -> within (m ≫= f).
Proof.
  intros Hm Hf s s' r. rewrite bind_eval.
  destruct (m s) as [s1 [a|e]] eqn:E; intros Hr.
  - etrans; [exact (Hm _ _ _ E)|exact (Hf a _ _ _ Hr)].
  - injection Hr as <- _. exact (Hm _ _ _ E).
Qed.

Lemma within_throw {A} e : within (throw (A:=A) e).
Proof. intros s s' r [= <- _]. reflexivity. Qed.

Lemma within_try {A} (m : M S A) h :
  within m -> (forall e, within (h e)) -> within (try_catch m h).
Proof.
  intros Hm Hh s s' r. unfold try_catch.
  destruct (m s) as [s1 [a|e]] eqn:E; intros Hr.
  - injection Hr as <- _. exact (Hm _ _ _ E).
  - etrans; [exact (Hm _ _ _ E)|exact (Hh e _ _ _ Hr)].
Qed.

Lemma within_get : within get.
Proof. intros s s' r [= <- _]. reflexivity. Qed.

Lemma within_gets {A} (f : S -> A) : within (gets f).
Proof. intros s s' r [= <- _]. reflexivity. Qed.

Lemma within_modify f : (forall s, R s (f s)) -> within (modify f).
Proof. intros Hf s s' r [= <- _]. apply Hf. Qed.

Lemma within_for_each {A} (xs : list A) (f : A -> M S unit) :
  (forall x, within (f x)) -> within (for_each xs f).
Proof.
  intros Hf. induction xs as [|x xs IH]; simpl.
  - apply within_ret.
  - apply within_bind; [apply Hf|intros; apply IH].
Qed.

Lemma within_lift {T A} (getc : S -> T) setc (m : M T A) :
  (forall s t, R s (setc t s)) -> within (lift getc setc m).
Proof.
  intros Hs s s' r. unfold lift. destruct (m (getc s)). intros [= <- _]. apply Hs.
Qed.
End Within.

#[export] Hint Resolve within_ret within_throw within_get within_gets within_for_each : berry.
#[export] Hint Extern 2 (within _ (_ ≫= _)) => apply within_bind; [|intros] : berry.
#[export] Hint Extern 2 (within _ (try_catch _ _)) => apply within_try; [|intros] : berry.
#[export] Hint Extern 3 (within _ (match ?x with _ => _ end)) => destruct x : berry.
#[export] Hint Extern 3 (within _ (if ?x then _ else _)) => destruct x : berry.
#[export] Hint Extern 4 (within _ (let '(_, _) := ?x in _)) => destruct x : berry.

(** Walk a method's code with the [within] lemmas. *)
Ltac within_walk := repeat (progress (eauto 20 with berry; cbn beta iota zeta)).

(** Run the first action of a [≫=] chain with its specification [H]. *)
Ltac bind_step H := rewrite bind_eval, H; cbn beta.

(** Run the first action of a [≫=] chain when it computes by itself. *)
Ltac m_step := rewrite bind_eval; cbn beta iota zeta delta [mret M_ret throw get gets put modify].

(** The combinators that compute by themselves, as rewriting rules. *)
Lemma mret_bind_eval {S A B} (a : A) (f : A -> M S B) s : (mret a ≫= f) s = f a s.
Proof. reflexivity. Qed.
Lemma throw_bind_eval {S A B} e (f : A -> M S B) s : (throw e ≫= f) s = (s, Throw e).
Proof. reflexivity. Qed.
Lemma get_bind_eval {S B} (f : S -> M S B) s : (get ≫= f) s = f s s.
Proof. reflexivity. Qed.
Lemma gets_bind_eval {S A B} (g : S -> A) (f : A -> M S B) s : (gets g ≫= f) s = f (g s) s.
Proof. reflexivity. Qed.
Lemma modify_bind_eval {S B} (g : S -> S) (f : unit -> M S B) s : (modify g ≫= f) s = f tt (g s).
Proof. reflexivity. Qed.
Lemma bind_assoc_eval {S A B C} (m : M S A) (f : A -> M S B) (g : B -> M S C) s :
  ((m ≫= f) ≫= g) s = (m ≫= fun a => f a ≫= g) s.
Proof. rewrite !bind_eval. destruct (m s) as [s' []]; [|done]. by rewrite bind_eval. Qed.
Lemma try_ret_eval {S A} (m : M S A) h s s' a : m s = (s', Ret a) -> try_catch m h s = (s', Ret a).
Proof. intros H. unfold try_catch. by rewrite H. Qed.
Lemma try_throw_eval {S A} (m : M S A) h s s' e : m s = (s', Throw e) -> try_catch m h s = h e s'.
Proof. intros H. unfold try_catch. by rewrite H. Qed.

#[export] Hint Rewrite @mret_bind_eval @throw_bind_eval @get_bind_eval @gets_bind_eval
  @modify_bind_eval @bind_assoc_eval : berry_rw.

(** Symbolic execution of the steps that compute by themselves. *)
Ltac m_simp := repeat (autorewrite with berry_rw; cbn beta iota zeta).
