(* ===== verification/BigInt.v ===== *)
(** * JavaScript [BigInt] conversions

    The processor keeps every amount as a decimal string ([amountRaw],
    [receivedRaw], the [balance] of an RPC answer) and converts at each use
    with [BigInt(s)] and back with [n.toString()].  This file models both:
    [BigInt_of_string] is ECMAScript's StringToBigInt over ASCII strings
    (surrounding white space is trimmed, the empty string is [0n], a sign is
    allowed on decimal literals only, [0x]/[0o]/[0b] prefixes select a base,
    anything else throws a [SyntaxError], here [None]); [BigInt_to_string]
    is [toString()] in base 10.  The main theorem is the round trip
    [BigInt(n.toString()) = n], on which every [receivedRaw] update
    relies. *)

From S2P Require Import Prelude.
From Stdlib Require Import Ascii String.

Local Open Scope char_scope.
Local Open Scope Z_scope.

(** White space and line terminators of ECMAScript that are ASCII. *)
Definition is_ws (c : ascii) : bool :=
  let n := nat_of_ascii c in ((9 <=? n) && (n <=? 13) || (n =? 32))%nat.

Fixpoint trim_start (s : string) : string :=
  match s with
  | EmptyString => EmptyString
  | String c t => if is_ws c then trim_start t else s
  end.

Fixpoint trim_end (s : string) : string :=
  match s with
  | EmptyString => EmptyString
  | String c t =>
      let t' := trim_end t in
      if is_ws c && String.eqb t' EmptyString then EmptyString else String c t'
  end.

Definition trim (s : string) : string := trim_end (trim_start s).

(** The value of a digit in a base (2, 8, 10 or 16). *)
Definition digit_val (base : Z) (c : ascii) : option Z :=
  let n := Z.of_nat (nat_of_ascii c) in
  let d :=
    if (48 <=? n) && (n <=? 57) then n - 48
    else if (97 <=? n) && (n <=? 102) then n - 87
    else if (65 <=? n) && (n <=? 70) then n - 55
    else base in
  if d <? base then Some d else None.

(** Digits read most significant first, accumulating in [acc]. *)
Fixpoint digits_val (base acc : Z) (s : string) : option Z :=
  match s with
  | EmptyString => Some acc
  | String c t =>
      match digit_val base c with
      | Some d => digits_val base (acc * base + d) t
      | None => None
      end
  end.

(** A non-empty sequence of digits. *)
Definition digits (base : Z) (s : string) : option Z :=
  match s with
  | EmptyString => None
  | _ => digits_val base 0 s
  end.

Definition radix_prefix (c : ascii) : option Z :=
  if Ascii.eqb c "x" || Ascii.eqb c "X" then Some 16
  else if Ascii.eqb c "o" || Ascii.eqb c "O" then Some 8
  else if Ascii.eqb c "b" || Ascii.eqb c "B" then Some 2
  else None.

(** StringToBigInt: [None] is the [SyntaxError] that [BigInt(s)] throws. *)
Definition BigInt_of_string (s : string) : option Z :=
  match trim s with
  | EmptyString => Some 0
  | String c rest =>
      if Ascii.eqb c "-" then Z.opp <$> digits 10 rest
      else if Ascii.eqb c "+" then digits 10 rest
      else
        match rest with
        | String p r =>
            match (if Ascii.eqb c "0" then radix_prefix p else None) with
            | Some b => digits b r
            | None => digits 10 (String c rest)
            end
        | EmptyString => digits 10 (String c rest)
        end
  end.

Definition digit_char (d : N) : ascii := ascii_of_N (48 + d).

(** Base-10 digits of [n] prepended to [acc]; [fuel] bounds their number. *)
Fixpoint N_digits (fuel : nat) (n : N) (acc : string) : string :=
  match fuel with
  | O => acc
  | S f =>
      let acc' := String (digit_char (n mod 10)) acc in
      if (n <? 10)%N then acc' else N_digits f (n / 10)%N acc'
  end.

Definition N_to_string (n : N) : string := N_digits (S (N.to_nat (N.size n))) n EmptyString.

(** [n.toString()] for a [bigint] [n]. *)
Definition BigInt_to_string (z : Z) : string :=
  if z <? 0 then String "-" (N_to_string (Z.abs_N z)) else N_to_string (Z.to_N z).

(** ** The round trip *)

Definition is_digit (c : ascii) : Prop := exists d, (d < 10)%N /\ c = digit_char d.

Lemma digit_val_char d : (d < 10)%N -> digit_val 10 (digit_char d) = Some (Z.of_N d).
Proof.
  intros Hd. unfold digit_val, digit_char.
  unfold nat_of_ascii. rewrite N_ascii_embedding by lia.
  assert (Z.of_nat (N.to_nat (48 + d)) = 48 + Z.of_N d) as -> by lia.
  bool_lia. f_equal. lia.
Qed.

Lemma N_digits_val fuel n acc :
  (n < 10 ^ N.of_nat fuel)%N ->
  digits_val 10 0 (N_digits fuel n acc) = digits_val 10 (Z.of_N n) acc.
Proof.
  revert n acc. induction fuel as [|f IH]; intros n acc Hn.
  { rewrite N.pow_0_r in Hn. assert (n = 0%N) as -> by lia. done. }
  cbn [N_digits]. assert (Hm : (n mod 10 < 10)%N) by (apply N.mod_lt; lia).
  destruct (N.ltb_spec n 10).
  - cbn. rewrite digit_val_char by done. f_equal. rewrite N.mod_small; lia.
  - rewrite IH.
    + cbn. rewrite digit_val_char by done.
      f_equal. pose proof (N.div_mod n 10). lia.
    + apply N.Div0.div_lt_upper_bound.
      rewrite Nnat.Nat2N.inj_succ, N.pow_succ_r' in Hn. lia.
Qed.


Definition is_digit_b (c : ascii) : bool :=
  let n := nat_of_ascii c in ((48 <=? n) && (n <=? 57))%nat.

Definition all_digits (s : string) : bool := forallb is_digit_b (list_ascii_of_string s).

Lemma digit_char_is_digit d : (d < 10)%N -> is_digit_b (digit_char d) = true.
Proof.
  intros Hd. unfold is_digit_b, digit_char, nat_of_ascii.
  rewrite N_ascii_embedding by lia. bool_lia.
Qed.

Lemma is_digit_not_ws c : is_digit_b c = true -> is_ws c = false.
Proof. unfold is_digit_b, is_ws. intros H. bool_lia. Qed.

Lemma N_digits_all fuel n acc :
  all_digits acc = true -> all_digits (N_digits fuel n acc) = true.
Proof.
  revert n acc. induction fuel as [|f IH]; intros n acc Hacc; [done|]. cbn [N_digits].
  assert (Hc : is_digit_b (digit_char (n mod 10)) = true)
    by (apply digit_char_is_digit, N.mod_lt; lia).
  destruct (n <? 10)%N; [|apply IH];
    unfold all_digits in *; cbn [list_ascii_of_string forallb]; by rewrite Hc, Hacc.
Qed.

Lemma N_digits_nonempty fuel n acc : N_digits (S fuel) n acc <> EmptyString.
Proof.
  revert n acc. induction fuel as [|f IH]; intros n acc; cbn [N_digits].
  - by destruct (n <? 10)%N.
  - destruct (n <? 10)%N; [done|]. apply IH.
Qed.

Lemma trim_end_id s :
  Forall (fun c => is_ws c = false) (list_ascii_of_string s) -> trim_end s = s.
Proof.
  induction s as [|c t IH]; intros H; [done|]. inversion H as [|? ? Hc Ht]; subst.
  simpl. rewrite IH, Hc by done. done.
Qed.

Lemma all_digits_no_ws s :
  all_digits s = true -> Forall (fun c => is_ws c = false) (list_ascii_of_string s).
Proof.
  unfold all_digits. rewrite forallb_forall, Forall_forall.
  intros H c Hc. apply is_digit_not_ws, H. by apply list_elem_of_In.
Qed.

Local Ltac not_char H :=
  match goal with
  | |- context [Ascii.eqb ?c ?k] =>
      destruct (Ascii.eqb_spec c k); [subst; discriminate H|]
  end.

Lemma radix_prefix_digit p : is_digit_b p = true -> radix_prefix p = None.
Proof. intros H. unfold radix_prefix. repeat not_char H. done. Qed.

(** A non-empty string of digits reads as a decimal literal. *)
Lemma BigInt_of_digits t :
  all_digits t = true -> t <> EmptyString -> BigInt_of_string t = digits_val 10 0 t.
Proof.
  intros Ht Hne. unfold BigInt_of_string, trim.
  destruct t as [|c rest]; [done|].
  pose proof (all_digits_no_ws _ Ht) as Hws.
  unfold all_digits in Ht; cbn [list_ascii_of_string forallb] in Ht.
  apply andb_true_iff in Ht as [Hc Hr].
  cbn [trim_start]. rewrite (is_digit_not_ws c Hc), trim_end_id by exact Hws.
  repeat not_char Hc. destruct rest as [|p r]; [done|].
  cbn [list_ascii_of_string forallb] in Hr. apply andb_true_iff in Hr as [Hp _].
  rewrite (radix_prefix_digit p Hp). by destruct (Ascii.eqb c "0").
Qed.

Lemma BigInt_of_neg_digits t :
  all_digits t = true -> t <> EmptyString ->
  BigInt_of_string (String "-" t) = Z.opp <$> digits_val 10 0 t.
Proof.
  intros Ht Hne. unfold BigInt_of_string, trim. cbn [trim_start is_ws]. simpl.
  rewrite trim_end_id by (apply all_digits_no_ws, Ht). simpl.
  by destruct t.
Qed.

Lemma N_to_string_val n : digits_val 10 0 (N_to_string n) = Some (Z.of_N n).
Proof.
  unfold N_to_string. rewrite N_digits_val; [done|].
  pose proof (N.size_gt n) as Hs.
  assert (2 ^ N.size n <= 10 ^ N.size n)%N by (apply N.pow_le_mono_l; lia).
  rewrite Nnat.Nat2N.inj_succ, Nnat.N2Nat.id, N.pow_succ_r'. lia.
Qed.

(** [BigInt(n.toString()) === n] for every [bigint] [n]. *)
Theorem BigInt_roundtrip z : BigInt_of_string (BigInt_to_string z) = Some z.
Proof.
  unfold BigInt_to_string. destruct (Z.ltb_spec z 0).
  - rewrite BigInt_of_neg_digits.
    + rewrite N_to_string_val. simpl. f_equal. lia.
    + apply N_digits_all. done.
    + apply N_digits_nonempty.
  - rewrite BigInt_of_digits.
    + rewrite N_to_string_val. f_equal. lia.
    + apply N_digits_all. done.
    + apply N_digits_nonempty.
Qed.

#[export] Hint Rewrite BigInt_roundtrip : berry_rw.

(** [BigInt(s)] in code: it throws a [SyntaxError] when [s] is not a
    literal. *)
Definition bigint {S} (s : string) : M S Z :=
  match BigInt_of_string s with
  | Some z => mret z
  | None => throw ("SyntaxError: Cannot convert " +:+ s +:+ " to a BigInt")
  end.

Lemma bigint_to_string {S} z (s : S) : bigint (BigInt_to_string z) s = (s, Ret z).
Proof. unfold bigint. by rewrite BigInt_roundtrip. Qed.

#[export] Hint Rewrite @bigint_to_string : berry_rw.

