(* ===== verification/JsNumber.v ===== *)
(** * JavaScript number parsing used by the command line

    [parseInt(s)] without a radix (the CLI reads the listener's PID file
    and the [--timeout] option with it) and the test
    [isNaN(parseFloat(s)) || parseFloat(s) <= 0] that rejects an amount.
    Both read the longest prefix of [s] that is a numeric literal after
    leading white space, as ECMAScript specifies; [None] is [NaN].  The
    PID file round trip [parseInt(String(pid).trim()) = pid] is proved
    here. *)

From S2P Require Import Prelude BigInt.
From Stdlib Require Import Ascii String.

Local Open Scope char_scope.
Local Open Scope Z_scope.

(** The longest prefix of digits of [base], [acc] holding the value read
    so far ([None]: no digit yet). *)
Fixpoint digits_prefix (base : Z) (acc : option Z) (s : string) : option Z :=
  match s with
  | EmptyString => acc
  | String c t =>
      match digit_val base c with
      | Some d => digits_prefix base (Some (default 0 acc * base + d)) t
      | None => acc
      end
  end.

(** An optional sign: [true] for [-]. *)
Definition split_sign (s : string) : bool * string :=
  match s with
  | String c t => if Ascii.eqb c "-" then (true, t) else if Ascii.eqb c "+" then (false, t) else (false, s)
  | EmptyString => (false, s)
  end.

(** [0x] or [0X] selects base 16 when no radix is given. *)
Definition split_radix (s : string) : Z * string :=
  match s with
  | String c (String x t) =>
      if Ascii.eqb c "0" && (Ascii.eqb x "x" || Ascii.eqb x "X") then (16, t) else (10, s)
  | _ => (10, s)
  end.

(** [parseInt(s)]. *)
Definition js_parseInt (s : string) : option Z :=
  let '(neg, s1) := split_sign (trim_start s) in
  let '(base, s2) := split_radix s1 in
  (fun v => if neg then - v else v) <$> digits_prefix base None s2.

(** Decimal digits: whether there is one, and a non-zero one, and the rest. *)
Fixpoint scan_digits (s : string) : bool * bool * string :=
  match s with
  | String c t =>
      match digit_val 10 c with
      | Some d => let '(_, nz, r) := scan_digits t in (true, (negb (d =? 0)) || nz, r)
      | None => (false, false, s)
      end
  | EmptyString => (false, false, s)
  end.

(** [parseFloat(s) > 0] (false on [NaN]): a positive [Infinity], or a
    decimal literal with a non-zero digit before or after the point and no
    minus sign.  The exponent of the literal does not change the sign of
    the value; its underflow to [0] beyond [1e-324] is not modelled. *)
Definition js_parseFloat_positive (s : string) : bool :=
  let '(neg, s1) := split_sign (trim_start s) in
  if String.prefix "Infinity" s1 then negb neg
  else
    let '(_, nz1, r) := scan_digits s1 in
    let nz2 := match r with
               | String c t => if Ascii.eqb c "." then (scan_digits t).1.2 else false
               | EmptyString => false
               end in
    negb neg && (nz1 || nz2).

(** ** The PID file round trip *)

Lemma digits_prefix_val base acc s v :
  digits_val base acc s = Some v -> digits_prefix base (Some acc) s = Some v.
Proof.
  revert acc. induction s as [|c t IH]; intros acc; simpl; [done|].
  destruct (digit_val base c); [apply IH|done].
Qed.

Lemma digits_prefix_digits base s v :
  s <> EmptyString -> digits_val base 0 s = Some v -> digits_prefix base None s = Some v.
Proof.
  destruct s as [|c t]; [done|]. intros _. simpl.
  destruct (digit_val base c); [apply digits_prefix_val|done].
Qed.

Lemma is_digit_not_x x : is_digit_b x = true -> (Ascii.eqb x "x" || Ascii.eqb x "X") = false.
Proof.
  intros H. destruct (Ascii.eqb_spec x "x") as [->|_]; [discriminate H|].
  destruct (Ascii.eqb_spec x "X") as [->|_]; [discriminate H|done].
Qed.

Lemma split_radix_digits s : all_digits s = true -> split_radix s = (10, s).
Proof.
  destruct s as [|c [|x t]]; try done. unfold all_digits. cbn [list_ascii_of_string forallb].
  intros [_ [Hx _]%andb_true_iff]%andb_true_iff. cbn. by rewrite is_digit_not_x, andb_false_r.
Qed.

Lemma N_to_string_digits n : all_digits (N_to_string n) = true /\ N_to_string n <> EmptyString.
Proof. split; [by apply N_digits_all|apply N_digits_nonempty]. Qed.

Lemma trim_digits s : all_digits s = true -> trim_start s = s /\ trim_end s = s.
Proof.
  intros H. split; [|by apply trim_end_id, all_digits_no_ws].
  destruct s as [|c t]; [done|]. unfold all_digits in H. cbn [list_ascii_of_string forallb] in H.
  apply andb_true_iff in H as [Hc _]. cbn. by rewrite is_digit_not_ws.
Qed.

(** [parseInt(String(n).trim()) === n]: the listener writes [String(pid)]
    and the CLI reads it back with [parseInt]. *)
Lemma parseInt_String z : js_parseInt (trim (BigInt_to_string z)) = Some z.
Proof.
  unfold BigInt_to_string. destruct (Z.ltb_spec z 0) as [Hneg|Hpos].
  - destruct (N_to_string_digits (Z.abs_N z)) as [Hd Hne].
    remember (N_to_string (Z.abs_N z)) as t eqn:Et.
    destruct (trim_digits _ Hd) as [Hs He].
    unfold trim, js_parseInt. simpl. rewrite He. simpl. rewrite split_radix_digits by done.
    rewrite (digits_prefix_digits _ _ (Z.of_N (Z.abs_N z)) Hne); [|subst t; apply N_to_string_val]. cbn. f_equal. lia.
  - destruct (N_to_string_digits (Z.to_N z)) as [Hd Hne].
    remember (N_to_string (Z.to_N z)) as t eqn:Et.
    destruct (trim_digits _ Hd) as [Hs He].
    unfold trim, js_parseInt. rewrite Hs, He, Hs.
    assert (Hsign : split_sign t = (false, t)).
    { destruct t as [|c u]; [done|]. unfold all_digits in Hd. cbn [list_ascii_of_string forallb] in Hd.
      apply andb_true_iff in Hd as [Hc _]. cbn.
      destruct (Ascii.eqb_spec c "-") as [->|_]; [discriminate Hc|].
      destruct (Ascii.eqb_spec c "+") as [->|_]; [discriminate Hc|done]. }
    rewrite Hsign, split_radix_digits by done.
    rewrite (digits_prefix_digits _ _ (Z.of_N (Z.to_N z)) Hne); [|subst t; apply N_to_string_val]. cbn. f_equal. lia.
Qed.
