(* ===== verification/JsMap.v ===== *)
(** * JavaScript [Map] as an insertion-ordered association list

    The processor keeps its charges in [Map<string, Charge>] and its
    address index in [Map<string, string>].  A JS [Map] iterates in
    insertion order, [set] on a present key replaces the value in place,
    [delete] removes the entry.  [Array.from(map.values())] is what the
    snapshot file and [listCharges] see, so the order is part of the
    observable behaviour: the model is a list of pairs with distinct keys,
    and [to_gmap] forgets the order to relate it to stdpp's [gmap]
    (the abstract specification of a finite map). *)

From S2P Require Import Prelude.

Abbreviation JsMap K V := (list (K * V)).

Section JsMap.
Context {K V : Type} `{EqDecision K}.
Implicit Types (m : JsMap K V) (k : K) (v : V).

(** [map.get(k)] *)
Fixpoint jm_get k m : option V :=
  match m with
  | [] => None
  | (k', v') :: m' => if decide (k = k') then Some v' else jm_get k m'
  end.

(** [map.has(k)] *)
Definition jm_has k m : bool := bool_decide (is_Some (jm_get k m)).

(** [map.set(k, v)]: replace in place, or append a new entry. *)
Fixpoint jm_set k v m : JsMap K V :=
  match m with
  | [] => [(k, v)]
  | (k', v') :: m' => if decide (k = k') then (k, v) :: m' else (k', v') :: jm_set k v m'
  end.

(** [map.delete(k)] *)
Fixpoint jm_delete k m : JsMap K V :=
  match m with
  | [] => []
  | (k', v') :: m' => if decide (k = k') then m' else (k', v') :: jm_delete k m'
  end.

(** Mutating the object stored under [k] ([map.get(k)!.f = ...]): the
    entry keeps its position. *)
Fixpoint jm_alter (f : V -> V) k m : JsMap K V :=
  match m with
  | [] => []
  | (k', v') :: m' => if decide (k = k') then (k', f v') :: m' else (k', v') :: jm_alter f k m'
  end.

Definition jm_keys m : list K := map fst m.
Definition jm_values m : list V := map snd m.

(** The keys of a [Map] are distinct. *)
Definition jm_wf m : Prop := NoDup (jm_keys m).

(** ** Lookup laws *)

Lemma jm_get_set_eq k v m : jm_get k (jm_set k v m) = Some v.
Proof. induction m as [|[k' v'] m IH]; simpl; repeat case_decide; simpl; try case_decide; naive_solver. Qed.

Lemma jm_get_set_ne k k' v m : k <> k' -> jm_get k' (jm_set k v m) = jm_get k' m.
Proof.
  intros Hne. induction m as [|[k0 v0] m IH]; simpl; repeat (case_decide; simpl); congruence.
Qed.

Lemma jm_get_alter f k k' m :
  jm_get k' (jm_alter f k m) = if decide (k = k') then f <$> jm_get k' m else jm_get k' m.
Proof.
  induction m as [|[k0 v0] m IH]; simpl; repeat (case_decide; simpl); subst; congruence.
Qed.

Lemma jm_get_delete_ne k k' m : k <> k' -> jm_get k' (jm_delete k m) = jm_get k' m.
Proof.
  intros Hne. induction m as [|[k0 v0] m IH]; simpl; repeat (case_decide; simpl); congruence.
Qed.

Lemma jm_get_None_keys k m : jm_get k m = None <-> k ∉ jm_keys m.
Proof.
  induction m as [|[k0 v0] m IH]; simpl; [set_solver|].
  case_decide; subst; rewrite elem_of_cons; naive_solver.
Qed.

Lemma jm_get_delete_eq k m : jm_wf m -> jm_get k (jm_delete k m) = None.
Proof.
  unfold jm_wf, jm_keys. induction m as [|[k0 v0] m IH]; intros Hwf; simpl; [done|].
  inversion Hwf as [|? ? Hnotin Hwf']; subst.
  case_decide; subst; simpl.
  - by apply jm_get_None_keys.
  - case_decide; [done|]. by apply IH.
Qed.

(** ** Shape laws *)

Lemma jm_keys_set_present k v m : k ∈ jm_keys m -> jm_keys (jm_set k v m) = jm_keys m.
Proof.
  induction m as [|[k0 v0] m IH]; simpl; [set_solver|].
  rewrite elem_of_cons. intros Hk. case_decide; subst; simpl; [done|].
  f_equal. apply IH. naive_solver.
Qed.

Lemma jm_keys_set_absent k v m : k ∉ jm_keys m -> jm_keys (jm_set k v m) = jm_keys m ++ [k].
Proof.
  induction m as [|[k0 v0] m IH]; simpl; [done|].
  rewrite elem_of_cons. intros Hk. case_decide; [naive_solver|]. simpl. f_equal. naive_solver.
Qed.

Lemma jm_keys_alter f k m : jm_keys (jm_alter f k m) = jm_keys m.
Proof. induction m as [|[k0 v0] m IH]; simpl; [done|]. case_decide; simpl; congruence. Qed.

(** Two mutations of the same object are one. *)
Lemma jm_alter_alter f g k m : jm_alter g k (jm_alter f k m) = jm_alter (fun v => g (f v)) k m.
Proof. induction m as [|[k0 v0] m IH]; simpl; [done|]. case_decide; simpl; [by case_decide|]. by rewrite decide_False, IH. Qed.

(** Deleting the first entry with key [k] past a prefix without [k]. *)
Lemma jm_delete_app k v kept rest :
  k ∉ jm_keys kept -> jm_delete k (kept ++ (k, v) :: rest) = kept ++ rest.
Proof.
  induction kept as [|[k0 v0] kept IH]; simpl; intros Hk; [by rewrite decide_True|].
  rewrite elem_of_cons in Hk. rewrite decide_False by naive_solver. f_equal. naive_solver.
Qed.

(** Mutating the first entry with key [k] past a prefix without [k]. *)
Lemma jm_set_absent k v m : k ∉ jm_keys m -> jm_set k v m = m ++ [(k, v)].
Proof.
  induction m as [|[k0 v0] m IH]; simpl; [done|]. rewrite elem_of_cons.
  intros Hk. rewrite decide_False by naive_solver. f_equal. naive_solver.
Qed.

Lemma jm_get_foldl_set_notin {A} (f : A -> K) (g : A -> V) l m k :
  k ∉ f <$> l -> jm_get k (foldl (fun m a => jm_set (f a) (g a) m) m l) = jm_get k m.
Proof.
  revert m. induction l as [|a l IH]; intros m Hk; [done|]. rewrite fmap_cons, elem_of_cons in Hk.
  simpl. rewrite IH by naive_solver. apply jm_get_set_ne. naive_solver.
Qed.

(** Setting the keys [f <$> l], distinct, one by one: each is found. *)
Lemma jm_get_foldl_set {A} (f : A -> K) (g : A -> V) l m x :
  NoDup (f <$> l) -> x ∈ l -> jm_get (f x) (foldl (fun m a => jm_set (f a) (g a) m) m l) = Some (g x).
Proof.
  revert m. induction l as [|a l IH]; intros m Hd Hx; [set_solver|].
  rewrite fmap_cons in Hd. apply NoDup_cons in Hd as [Ha Hd]. apply elem_of_cons in Hx as [->|Hx]; simpl.
  - rewrite jm_get_foldl_set_notin by done. apply jm_get_set_eq.
  - by apply IH.
Qed.

(** A map of the values keeps the keys. *)
Lemma jm_get_map_values (g : V -> V) k m :
  jm_get k (map (fun e => (e.1, g e.2)) m) = g <$> jm_get k m.
Proof. induction m as [|[k0 v0] m IH]; simpl; [done|]. by case_decide. Qed.

Lemma jm_alter_app f k v kept rest :
  k ∉ jm_keys kept -> jm_alter f k (kept ++ (k, v) :: rest) = kept ++ (k, f v) :: rest.
Proof.
  induction kept as [|[k0 v0] kept IH]; simpl; intros Hk; [by rewrite decide_True|].
  rewrite elem_of_cons in Hk. rewrite decide_False by naive_solver. f_equal. naive_solver.
Qed.

Lemma jm_wf_app_cons_notin kept k v rest : jm_wf (kept ++ (k, v) :: rest) -> k ∉ jm_keys kept.
Proof.
  unfold jm_wf, jm_keys. rewrite map_app. intros Hwf%NoDup_app. destruct Hwf as (_ & Hd & _).
  intros Hin. apply (Hd k Hin). simpl. set_solver.
Qed.

Lemma jm_wf_remove kept x rest : jm_wf (kept ++ x :: rest) -> jm_wf (kept ++ rest).
Proof.
  unfold jm_wf, jm_keys. rewrite !map_app. simpl. rewrite !NoDup_app, NoDup_cons. set_solver.
Qed.

Lemma jm_keys_delete_sub k m : jm_keys (jm_delete k m) ⊆ jm_keys m.
Proof.
  induction m as [|[k0 v0] m IH]; simpl; [done|].
  case_decide; simpl; set_solver.
Qed.

Lemma jm_set_wf k v m : jm_wf m -> jm_wf (jm_set k v m).
Proof.
  unfold jm_wf. intros Hwf. destruct (decide (k ∈ jm_keys m)) as [Hin|Hin].
  - by rewrite jm_keys_set_present.
  - rewrite jm_keys_set_absent by done. apply NoDup_app. split; [done|].
    split; [set_solver|]. apply NoDup_singleton.
Qed.

Lemma jm_alter_wf f k m : jm_wf m -> jm_wf (jm_alter f k m).
Proof. unfold jm_wf. by rewrite jm_keys_alter. Qed.

Lemma jm_delete_wf k m : jm_wf m -> jm_wf (jm_delete k m).
Proof.
  unfold jm_wf, jm_keys. induction m as [|[k0 v0] m IH]; simpl; [done|].
  intros Hwf. inversion Hwf as [|? ? Hnotin Hwf']; subst.
  case_decide; simpl; [done|]. constructor; [|by apply IH].
  intros Hin. apply Hnotin. by apply (jm_keys_delete_sub k m).
Qed.

Lemma jm_get_delete_None k k' m : jm_get k m = None -> jm_get k (jm_delete k' m) = None.
Proof.
  induction m as [|[k0 v0] m IH]; simpl; [done|].
  repeat (case_decide; simpl); subst; try congruence; auto.
Qed.

(** After deleting the keys [f <$> l] one by one, none of them is found. *)
Lemma jm_get_foldl_delete {A} (f : A -> K) l k m :
  jm_wf m -> k ∈ f <$> l -> jm_get k (foldl (fun m e => jm_delete (f e) m) m l) = None.
Proof.
  revert m. induction l as [|e l IH]; intros m Hwf Hk; simpl in *; [set_solver|].
  rewrite elem_of_cons in Hk. destruct (decide (k ∈ f <$> l)) as [Hin|Hin].
  - apply IH; [by apply jm_delete_wf|done].
  - destruct Hk as [->|]; [|done].
    assert (Hg : jm_get (f e) (jm_delete (f e) m) = None) by (by apply jm_get_delete_eq).
    clear IH. revert Hin Hg. generalize (jm_delete (f e) m). induction l as [|e' l IH]; intros m' Hin Hg; [done|].
    simpl. rewrite fmap_cons, elem_of_cons in Hin. apply IH; [set_solver|].
    by apply jm_get_delete_None.
Qed.

Lemma jm_get_Some_keys k m v : jm_get k m = Some v -> k ∈ jm_keys m.
Proof.
  intros H. destruct (decide (k ∈ jm_keys m)) as [|Hn]; [done|].
  apply jm_get_None_keys in Hn. congruence.
Qed.

Lemma jm_get_values k m v : jm_get k m = Some v -> v ∈ jm_values m.
Proof.
  induction m as [|[k0 v0] m IH]; simpl; [done|].
  case_decide; intros Hg; simplify_eq; set_solver.
Qed.
Lemma jm_get_elem k m v : jm_get k m = Some v -> (k, v) ∈ m.
Proof.
  induction m as [|[k0 v0] m IH]; simpl; [done|].
  case_decide; intros Hg; simplify_eq; set_solver.
Qed.

(** On a map with distinct keys, an entry is what [get] finds. *)
Lemma jm_elem_get k m v : jm_wf m -> (k, v) ∈ m -> jm_get k m = Some v.
Proof.
  unfold jm_wf, jm_keys. induction m as [|[k0 v0] m IH]; simpl; [by intros _ []%elem_of_nil|].
  intros Hnd [[= -> ->]|Hin]%elem_of_cons; rewrite NoDup_cons in Hnd; destruct Hnd as [Hk Hnd].
  - by rewrite decide_True.
  - rewrite decide_False; [by apply IH|]. intros ->. apply Hk. by apply (list_elem_of_fmap_2 fst) in Hin.
Qed.

End JsMap.

#[export] Hint Resolve jm_set_wf jm_alter_wf jm_delete_wf : berry.
#[export] Hint Rewrite @jm_get_set_eq @jm_get_alter @jm_keys_alter @jm_alter_alter : berry_rw.

(** ** Refinement of stdpp's finite maps

    Forgetting the order, a [Map] is a [gmap]; [get], [set], [delete] and
    in-place mutation implement [lookup], [insert], [delete] and [alter]. *)
Section Refinement.
Context {K V : Type} `{Countable K}.
Implicit Types (m : JsMap K V) (k : K) (v : V).

Definition to_gmap m : gmap K V := list_to_map m.

Lemma to_gmap_lookup k m : to_gmap m !! k = jm_get k m.
Proof.
  unfold to_gmap. induction m as [|[k0 v0] m IH]; simpl.
  - apply lookup_empty.
  - rewrite lookup_insert. do 2 case_decide; congruence.
Qed.

Lemma jm_set_refines k v m : to_gmap (jm_set k v m) = <[k:=v]> (to_gmap m).
Proof.
  apply map_eq. intros k'. rewrite lookup_insert, !to_gmap_lookup.
  case_decide; subst; [apply jm_get_set_eq | by apply jm_get_set_ne].
Qed.

Lemma jm_delete_refines k m : jm_wf m -> to_gmap (jm_delete k m) = delete k (to_gmap m).
Proof.
  intros Hwf. apply map_eq. intros k'. rewrite lookup_delete, !to_gmap_lookup.
  case_decide; subst; [by apply jm_get_delete_eq | by apply jm_get_delete_ne].
Qed.

Lemma jm_alter_refines f k m : to_gmap (jm_alter f k m) = alter f k (to_gmap m).
Proof.
  apply map_eq. intros k'. rewrite lookup_alter, !to_gmap_lookup, jm_get_alter.
  repeat case_decide; congruence.
Qed.
End Refinement.
