(* ===== verification/Charge.v ===== *)
(** * Charges and their state machine

    The data model of [processor.ts] (lines 9-37 of [src/unnamed/part_001]):
    [ChargeStatus], [PaymentTransaction] and [Charge], field for field.
    Amounts are the decimal strings of the source; dates are milliseconds.
    [metadata] ([Record<string, unknown>]) is passed through untouched, so
    it is kept as its JSON text.  The spec's state machine (§4.2) is the
    relation [spec_step]; [status_rank] orders the statuses. *)

From S2P Require Import Prelude BigInt.

(** [type ChargeStatus = "pending" | "partial" | "completed" | "expired" | "swept"] *)
Inductive ChargeStatus : Type :=
| Pending | Partial | Completed | Expired | Swept.

#[export] Instance ChargeStatus_eq_dec : EqDecision ChargeStatus.
Proof. solve_decision. Defined.

(** The string the status is written as (JSON, CLI). *)
Definition status_string (s : ChargeStatus) : string :=
  match s with
  | Pending => "pending" | Partial => "partial" | Completed => "completed"
  | Expired => "expired" | Swept => "swept"
  end.

Definition status_of_string (s : string) : option ChargeStatus :=
  if String.eqb s "pending" then Some Pending
  else if String.eqb s "partial" then Some Partial
  else if String.eqb s "completed" then Some Completed
  else if String.eqb s "expired" then Some Expired
  else if String.eqb s "swept" then Some Swept
  else None.

(** [interface PaymentTransaction] *)
Record PaymentTransaction : Type := mkTx {
  tx_hash : string;
  tx_from : string;
  tx_amountRaw : string;
  tx_amountNano : string;
  tx_timestamp : Z;
}.

(** [interface Charge] *)
Record Charge : Type := mkCharge {
  ch_id : string;
  ch_address : string;
  ch_accountIndex : Z;
  ch_amountRaw : string;
  ch_amountNano : string;
  ch_receivedRaw : string;
  ch_receivedNano : string;
  ch_status : ChargeStatus;
  ch_transactions : list PaymentTransaction;
  ch_createdAt : Z;
  ch_expiresAt : Z;
  ch_completedAt : option Z;
  ch_sweptAt : option Z;
  ch_sweepTxHash : option string;
  ch_webhookUrl : option string;
  ch_webhookSent : option bool;
  ch_metadata : option string;
}.

(** ** Field assignments ([charge.f = v]) *)

Definition set_status (s : ChargeStatus) (c : Charge) : Charge :=
  {| ch_id := ch_id c; ch_address := ch_address c; ch_accountIndex := ch_accountIndex c;
     ch_amountRaw := ch_amountRaw c; ch_amountNano := ch_amountNano c;
     ch_receivedRaw := ch_receivedRaw c; ch_receivedNano := ch_receivedNano c;
     ch_status := s; ch_transactions := ch_transactions c;
     ch_createdAt := ch_createdAt c; ch_expiresAt := ch_expiresAt c;
     ch_completedAt := ch_completedAt c; ch_sweptAt := ch_sweptAt c;
     ch_sweepTxHash := ch_sweepTxHash c; ch_webhookUrl := ch_webhookUrl c;
     ch_webhookSent := ch_webhookSent c; ch_metadata := ch_metadata c |}.

(** [charge.transactions.push(tx)] *)
Definition push_tx (tx : PaymentTransaction) (c : Charge) : Charge :=
  {| ch_id := ch_id c; ch_address := ch_address c; ch_accountIndex := ch_accountIndex c;
     ch_amountRaw := ch_amountRaw c; ch_amountNano := ch_amountNano c;
     ch_receivedRaw := ch_receivedRaw c; ch_receivedNano := ch_receivedNano c;
     ch_status := ch_status c; ch_transactions := ch_transactions c ++ [tx];
     ch_createdAt := ch_createdAt c; ch_expiresAt := ch_expiresAt c;
     ch_completedAt := ch_completedAt c; ch_sweptAt := ch_sweptAt c;
     ch_sweepTxHash := ch_sweepTxHash c; ch_webhookUrl := ch_webhookUrl c;
     ch_webhookSent := ch_webhookSent c; ch_metadata := ch_metadata c |}.

(** [charge.receivedRaw = r; charge.receivedNano = n] *)
Definition set_received (r n : string) (c : Charge) : Charge :=
  {| ch_id := ch_id c; ch_address := ch_address c; ch_accountIndex := ch_accountIndex c;
     ch_amountRaw := ch_amountRaw c; ch_amountNano := ch_amountNano c;
     ch_receivedRaw := r; ch_receivedNano := n;
     ch_status := ch_status c; ch_transactions := ch_transactions c;
     ch_createdAt := ch_createdAt c; ch_expiresAt := ch_expiresAt c;
     ch_completedAt := ch_completedAt c; ch_sweptAt := ch_sweptAt c;
     ch_sweepTxHash := ch_sweepTxHash c; ch_webhookUrl := ch_webhookUrl c;
     ch_webhookSent := ch_webhookSent c; ch_metadata := ch_metadata c |}.

(** [charge.status = "completed"; charge.completedAt = now] *)
Definition set_completed (now : Z) (c : Charge) : Charge :=
  {| ch_id := ch_id c; ch_address := ch_address c; ch_accountIndex := ch_accountIndex c;
     ch_amountRaw := ch_amountRaw c; ch_amountNano := ch_amountNano c;
     ch_receivedRaw := ch_receivedRaw c; ch_receivedNano := ch_receivedNano c;
     ch_status := Completed; ch_transactions := ch_transactions c;
     ch_createdAt := ch_createdAt c; ch_expiresAt := ch_expiresAt c;
     ch_completedAt := Some now; ch_sweptAt := ch_sweptAt c;
     ch_sweepTxHash := ch_sweepTxHash c; ch_webhookUrl := ch_webhookUrl c;
     ch_webhookSent := ch_webhookSent c; ch_metadata := ch_metadata c |}.

(** [charge.status = "swept"; charge.sweptAt = now; charge.sweepTxHash = h] *)
Definition set_swept (now : Z) (h : string) (c : Charge) : Charge :=
  {| ch_id := ch_id c; ch_address := ch_address c; ch_accountIndex := ch_accountIndex c;
     ch_amountRaw := ch_amountRaw c; ch_amountNano := ch_amountNano c;
     ch_receivedRaw := ch_receivedRaw c; ch_receivedNano := ch_receivedNano c;
     ch_status := Swept; ch_transactions := ch_transactions c;
     ch_createdAt := ch_createdAt c; ch_expiresAt := ch_expiresAt c;
     ch_completedAt := ch_completedAt c; ch_sweptAt := Some now;
     ch_sweepTxHash := Some h; ch_webhookUrl := ch_webhookUrl c;
     ch_webhookSent := ch_webhookSent c; ch_metadata := ch_metadata c |}.

(** [charge.webhookSent = true] *)
Definition set_webhook_sent (c : Charge) : Charge :=
  {| ch_id := ch_id c; ch_address := ch_address c; ch_accountIndex := ch_accountIndex c;
     ch_amountRaw := ch_amountRaw c; ch_amountNano := ch_amountNano c;
     ch_receivedRaw := ch_receivedRaw c; ch_receivedNano := ch_receivedNano c;
     ch_status := ch_status c; ch_transactions := ch_transactions c;
     ch_createdAt := ch_createdAt c; ch_expiresAt := ch_expiresAt c;
     ch_completedAt := ch_completedAt c; ch_sweptAt := ch_sweptAt c;
     ch_sweepTxHash := ch_sweepTxHash c; ch_webhookUrl := ch_webhookUrl c;
     ch_webhookSent := Some true; ch_metadata := ch_metadata c |}.

(** [c.status === "pending" || c.status === "partial"] *)
Definition is_active (c : Charge) : bool :=
  match ch_status c with Pending | Partial => true | _ => false end.

(** ** The spec's state machine (§4.2) *)

Inductive spec_step : ChargeStatus -> ChargeStatus -> Prop :=
| spec_pay_partial : spec_step Pending Partial
| spec_pay_full_pending : spec_step Pending Completed
| spec_pay_full_partial : spec_step Partial Completed
| spec_expire_pending : spec_step Pending Expired
| spec_expire_partial : spec_step Partial Expired
| spec_sweep_completed : spec_step Completed Swept
| spec_sweep_expired : spec_step Expired Swept.

(** A status is never left for an earlier one. *)
Definition status_rank (s : ChargeStatus) : nat :=
  match s with Pending => 0 | Partial => 1 | Completed | Expired => 2 | Swept => 3 end.

(** ** Amounts

    The sum of the recorded transactions, as [BigInt] would read them;
    [None] when one of them is not a valid [BigInt] literal. *)
Fixpoint tx_total (txs : list PaymentTransaction) : option Z :=
  match txs with
  | [] => Some 0%Z
  | tx :: txs' =>
      match BigInt_of_string (tx_amountRaw tx), tx_total txs' with
      | Some a, Some r => Some (a + r)%Z
      | _, _ => None
      end
  end.

(** The ledger invariant of the spec (§3, §8): the received amount is the
    sum of the recorded transactions. *)
Definition received_consistent (c : Charge) : Prop :=
  BigInt_of_string (ch_receivedRaw c) = tx_total (ch_transactions c).

(** ** Lemmas *)

Lemma status_string_roundtrip s : status_of_string (status_string s) = Some s.
Proof. by destruct s. Qed.

#[export] Instance spec_step_dec s1 s2 : Decision (spec_step s1 s2).
Proof.
  destruct s1, s2;
    first [left; constructor | right; intros Hs; inversion Hs].
Defined.

Lemma spec_step_rank s1 s2 : spec_step s1 s2 -> status_rank s1 < status_rank s2.
Proof. intros []; simpl; lia. Qed.

Lemma tx_total_snoc txs tx :
  tx_total (txs ++ [tx]) =
    match tx_total txs, BigInt_of_string (tx_amountRaw tx) with
    | Some r, Some a => Some (r + a)%Z
    | _, _ => None
    end.
Proof.
  induction txs as [|t txs IH]; simpl.
  - destruct (BigInt_of_string (tx_amountRaw tx)); f_equal; lia.
  - rewrite IH. destruct (BigInt_of_string (tx_amountRaw t)), (tx_total txs),
      (BigInt_of_string (tx_amountRaw tx)); f_equal; try done; lia.
Qed.

(** Appending a transaction and adding its amount keeps the ledger
    invariant: the update [handlePayment] and the recovery scan make. *)
Lemma received_consistent_pay c tx r a n :
  received_consistent c ->
  BigInt_of_string (ch_receivedRaw c) = Some r ->
  BigInt_of_string (tx_amountRaw tx) = Some a ->
  received_consistent (set_received (BigInt_to_string (r + a)) n (push_tx tx c)).
Proof.
  unfold received_consistent. simpl. intros Hc Hr Ha.
  rewrite BigInt_roundtrip, tx_total_snoc, <- Hc, Hr, Ha. done.
Qed.

#[export] Hint Resolve spec_step_rank received_consistent_pay : berry.
