(* ===== verification/Ledger.v ===== *)
(** * The ledger node (environment)

    The Nano node the wallet talks to is not part of the repository; this
    file models what the wallet relies on, as the spec's §6 describes it:
    per address an account (opened or not, balance, frontier,
    representative) and its receivable blocks; the RPC actions
    [account_balance], [account_info], [pending], [work_generate] and
    [process]; and a list of actions that currently fail (a node that is
    down, or answers with an HTTP error).  A block is represented by the
    arguments [wallet.ts] gives to [block.send] / [block.receive] of
    [nanocurrency-web] (the signature and the proof of work are not
    modelled); [process] checks it against the account and applies it. *)

From S2P Require Import Prelude BigInt.

(** A receivable (pending) block: hash, amount, sending account. *)
Record PendingEntry : Type := mkPending {
  pe_hash : string;
  pe_amount : Z;
  pe_source : string;
}.

Record NodeAccount : Type := mkNodeAccount {
  na_opened : bool;
  na_balance : Z;
  na_frontier : string;
  na_representative : string;
  na_receivable : list PendingEntry;
}.

Record Node : Type := mkNode {
  nd_accounts : gmap string NodeAccount;
  nd_failing : list string;
  nd_next : N;
}.

Definition fresh_account : NodeAccount := mkNodeAccount false 0 "" "" [].

Definition node_account (n : Node) (a : string) : NodeAccount :=
  default fresh_account (nd_accounts n !! a).

Definition put_account (a : string) (acc : NodeAccount) (n : Node) : Node :=
  mkNode (<[a := acc]> (nd_accounts n)) (nd_failing n) (nd_next n).

(** The block arguments of [block.send] and [block.receive]. *)
Inductive Block : Type :=
| SendBlock (walletBalanceRaw fromAddress toAddress representativeAddress
             frontier amountRaw work : string)
| ReceiveBlock (walletBalanceRaw toAddress representativeAddress frontier
                transactionHash amountRaw work : string).

(** Answers of the RPC actions. *)
Record BalanceAnswer : Type := mkBalanceAnswer {
  ba_balance : string; ba_pending : string; ba_receivable : option string }.
Record InfoAnswer : Type := mkInfoAnswer {
  ia_balance : string; ia_pending : string; ia_representative : string; ia_frontier : string }.
(** The [blocks] field of [pending]: [""] when there is none, else an
    object from hashes to [{amount, source}] (or to the bare amount in the
    older format). *)
Inductive PendingInfo : Type := PIAmount (amount : string) | PIObject (amount source : string).
Inductive BlocksField : Type := BFString (s : string) | BFMap (entries : list (string * PendingInfo)).

(** The answer of the node: a value or the [error] field. *)
Abbreviation answer A := (Node * (A + string))%type.

Definition receivable_sum (acc : NodeAccount) : Z := sum_Z (pe_amount <$> na_receivable acc).

Definition node_account_balance (a : string) (n : Node) : answer BalanceAnswer :=
  let acc := node_account n a in
  let p := BigInt_to_string (receivable_sum acc) in
  (n, inl (mkBalanceAnswer (BigInt_to_string (na_balance acc)) p (Some p))).

Definition node_account_info (a : string) (n : Node) : answer InfoAnswer :=
  let acc := node_account n a in
  if na_opened acc then
    (n, inl (mkInfoAnswer (BigInt_to_string (na_balance acc))
               (BigInt_to_string (receivable_sum acc)) (na_representative acc) (na_frontier acc)))
  else (n, inr "Account not found").

Definition node_pending (a : string) (count : nat) (n : Node) : answer BlocksField :=
  match take count (na_receivable (node_account n a)) with
  | [] => (n, inl (BFString ""))
  | es => (n, inl (BFMap ((fun e => (pe_hash e, PIObject (BigInt_to_string (pe_amount e))
                                                   (pe_source e))) <$> es)))
  end.

Definition node_work_generate (h : string) (n : Node) : answer string :=
  (n, inl ("work:" +:+ h)).

Definition fresh_hash (n : Node) : string := "B" +:+ BigInt_to_string (Z.of_N (nd_next n)).

Definition bump (n : Node) : Node := mkNode (nd_accounts n) (nd_failing n) (N.succ (nd_next n)).

Fixpoint find_pending (h : string) (l : list PendingEntry) : option PendingEntry :=
  match l with
  | [] => None
  | e :: l' => if String.eqb (pe_hash e) h then Some e else find_pending h l'
  end.

Definition remove_pending (h : string) (l : list PendingEntry) : list PendingEntry :=
  filter (fun e => negb (String.eqb (pe_hash e) h)) l.

(** [process]: validate the block against the account and apply it. *)
Definition node_process (subtype : string) (b : Block) (n : Node) : answer string :=
  let h := fresh_hash n in
  match b with
  | SendBlock wb from to rep prev amt _ =>
      let acc := node_account n from in
      match BigInt_of_string wb, BigInt_of_string amt with
      | Some w, Some x =>
          if negb (na_opened acc) then (n, inr "Account not found")
          else if negb (String.eqb prev (na_frontier acc)) then (n, inr "Fork")
          else if negb (w =? na_balance acc)%Z || (x <? 0)%Z || (w <? x)%Z
          then (n, inr "Balance mismatch")
          else
            let n1 := put_account from (mkNodeAccount true (w - x) h rep (na_receivable acc)) n in
            let dst := node_account n1 to in
            let n2 := put_account to (mkNodeAccount (na_opened dst) (na_balance dst)
                        (na_frontier dst) (na_representative dst)
                        (na_receivable dst ++ [mkPending h x from])) n1 in
            (bump n2, inl h)
      | _, _ => (n, inr "Invalid block")
      end
  | ReceiveBlock wb to rep prev link amt _ =>
      let acc := node_account n to in
      match BigInt_of_string wb, BigInt_of_string amt, find_pending link (na_receivable acc) with
      | Some w, Some x, Some e =>
          if String.eqb subtype "open" && na_opened acc then (n, inr "Fork")
          else if negb (String.eqb subtype "open") &&
                  (negb (na_opened acc) || negb (String.eqb prev (na_frontier acc)))
          then (n, inr "Fork")
          else if negb (w =? na_balance acc)%Z || negb (x =? pe_amount e)%Z
          then (n, inr "Balance mismatch")
          else
            let rep' := if na_opened acc then na_representative acc else rep in
            (bump (put_account to (mkNodeAccount true (w + x) h rep'
                      (remove_pending link (na_receivable acc))) n), inl h)
      | _, _, None => (n, inr "Unreceivable")
      | _, _, _ => (n, inr "Invalid block")
      end
  end.

(** What an accepted send of [x] from [from] to [to] does to the node:
    the sender's balance drops by [x] and its frontier becomes the new
    block, which the receiver finds receivable. *)
Definition node_transfer (from to : string) (x : Z) (n : Node) : Node :=
  let acc := node_account n from in
  let h := fresh_hash n in
  let n1 := put_account from (mkNodeAccount true (na_balance acc - x) h (na_representative acc)
                                (na_receivable acc)) n in
  let dst := node_account n1 to in
  bump (put_account to (mkNodeAccount (na_opened dst) (na_balance dst) (na_frontier dst)
                          (na_representative dst) (na_receivable dst ++ [mkPending h x from])) n1).
