(* ===== verification/Wallet.v ===== *)
(** * The wallet ([src/src/wallet.ts])

    [BerryPayWallet] as computations over its state: the cache of derived
    accounts ([this.accounts], a [Map<number, ...>] that is never
    iterated, hence a [gmap]) and the node its RPC URL points at.  The seed
    is fixed for a wallet, so the derivation [nanoWallet.accounts(seed, i,
    i)[0]] is a function of the index, provided with the unit conversion
    of [tools.convert] by the [WalletLib] class: both are library code the
    wallet only calls. *)

From S2P Require Import Prelude BigInt Ledger.
From Stdlib Require Import Ascii.

Record KeyPair : Type := mkKeyPair {
  kp_privateKey : string;
  kp_publicKey : string;
  kp_address : string;
}.

(** The libraries the wallet calls: key derivation from the seed and
    [tools.convert] between raw and display units. *)
Class WalletLib : Type := {
  derive_keys : Z -> KeyPair;
  rawToNano : string -> string;
  nanoToRaw : string -> string;
}.

Record Wallet : Type := mkWallet {
  wl_accounts : gmap Z KeyPair;
  wl_node : Node;
}.

(** [interface AccountInfo] *)
Record AccountInfo : Type := mkAccountInfo {
  ai_address : string; ai_balance : string; ai_balanceNano : string;
  ai_pending : string; ai_representative : string; ai_frontier : string }.

(** [interface PendingBlock] *)
Record PendingBlock : Type := mkPendingBlock { pb_hash : string; pb_amount : string; pb_source : string }.

(** [interface SendResult] and [interface ReceiveResult] *)
Record SendResult : Type := mkSendResult { sr_hash : string; sr_block : Block }.
Record ReceiveResult : Type := mkReceiveResult { rr_hash : string; rr_amount : string }.

Definition DEFAULT_REPRESENTATIVE : string :=
  "nano_1xnopay1bfmyx5eit8ut4gg1j488kt8bjukijerbn37jh3wdm81y6mxjg8qj".

Definition zero_frontier : string := String.string_of_list_ascii (repeat "0"%char 64).

Section Wallet.
Context `{WalletLib}.

(** [deriveAccount(index)] *)
Definition deriveAccount (index : Z) : M Wallet string :=
  w ← get;
  match wl_accounts w !! index with
  | Some kp => mret (kp_address kp)
  | None =>
      let account := derive_keys index in
      put (mkWallet (<[index := account]> (wl_accounts w)) (wl_node w));;
      mret (kp_address account)
  end.

(** [getAddress(index = 0)] *)
Definition getAddress (index : Z) : M Wallet string := deriveAccount index.

(** [getPrivateKey(index)]: [this.accounts.get(index)!.privateKey]. *)
Definition getPrivateKey (index : Z) : M Wallet string :=
  deriveAccount index;;
  w ← get;
  match wl_accounts w !! index with
  | Some kp => mret (kp_privateKey kp)
  | None => throw "TypeError: Cannot read properties of undefined"
  end.

(** [rpcCall(action, params)]: a failing action is an HTTP error, an
    [error] field of the answer is thrown too. *)
Definition rpcCall {A} (action : string) (f : Node -> answer A) : M Wallet A := fun w =>
  if bool_decide (action ∈ nd_failing (wl_node w))
  then (w, Throw ("RPC error: " +:+ action))
  else let '(n', r) := f (wl_node w) in
       (mkWallet (wl_accounts w) n',
        match r with inl a => Ret a | inr e => Throw ("RPC error: " +:+ e) end).

(** [getBalance(accountIndex = 0)] *)
Definition getBalance (accountIndex : Z) : M Wallet (string * string) :=
  address ← getAddress accountIndex;
  try! (result ← rpcCall "account_balance" (node_account_balance address);
        mret (ba_balance result, default (ba_pending result) (ba_receivable result)))
  catch! (fun _ => mret ("0", "0")).

(** [getAccountInfo(accountIndex = 0)] *)
Definition getAccountInfo (accountIndex : Z) : M Wallet (option AccountInfo) :=
  address ← getAddress accountIndex;
  try! (result ← rpcCall "account_info" (node_account_info address);
        mret (Some (mkAccountInfo address (ia_balance result) (rawToNano (ia_balance result))
                      (ia_pending result) (ia_representative result) (ia_frontier result))))
  catch! (fun _ => mret None).

Definition pending_of_entry (e : string * PendingInfo) : PendingBlock :=
  match e.2 with
  | PIAmount amount => mkPendingBlock e.1 amount ""
  | PIObject amount source => mkPendingBlock e.1 amount source
  end.

(** [getPendingBlocks(accountIndex = 0, count = 10)] *)
Definition getPendingBlocks (accountIndex : Z) (count : nat) : M Wallet (list PendingBlock) :=
  address ← getAddress accountIndex;
  try! (result ← rpcCall "pending" (node_pending address count);
        match result with
        | BFString _ => mret []
        | BFMap entries => mret (pending_of_entry <$> entries)
        end)
  catch! (fun _ => mret []).

(** [getWork(hash)] *)
Definition getWork (hash : string) : M Wallet string :=
  rpcCall "work_generate" (node_work_generate hash).

(** [send(toAddress, amountRaw, accountIndex = 0)] *)
Definition send (toAddress amountRaw : string) (accountIndex : Z) : M Wallet SendResult :=
  fromAddress ← getAddress accountIndex;
  _ ← getPrivateKey accountIndex;
  info ← getAccountInfo accountIndex;
  match info with
  | None => throw "Account not opened. Receive some Nano first."
  | Some info =>
      balance ← bigint (ai_balance info);
      amount ← bigint amountRaw;
      if (balance <? amount)%Z then
        throw ("Insufficient balance. Have: " +:+ rawToNano (ai_balance info) +:+ " XNO")
      else
        work ← getWork (ai_frontier info);
        let sendBlock := SendBlock (ai_balance info) fromAddress toAddress
                           (ai_representative info) (ai_frontier info) amountRaw work in
        hash ← rpcCall "process" (node_process "send" sendBlock);
        mret (mkSendResult hash sendBlock)
  end.

(** [receive(pendingHash, amountRaw, accountIndex = 0)] *)
Definition receive (pendingHash amountRaw : string) (accountIndex : Z) : M Wallet ReceiveResult :=
  address ← getAddress accountIndex;
  _ ← getPrivateKey accountIndex;
  info ← getAccountInfo accountIndex;
  receiveBlock ←
    match info with
    | Some info =>
        work ← getWork (ai_frontier info);
        mret (ReceiveBlock (ai_balance info) address (ai_representative info)
                (ai_frontier info) pendingHash amountRaw work)
    | None =>
        w ← get;
        match wl_accounts w !! accountIndex with
        | None => throw "TypeError: Cannot read properties of undefined"
        | Some kp =>
            work ← getWork (kp_publicKey kp);
            mret (ReceiveBlock "0" address DEFAULT_REPRESENTATIVE zero_frontier
                    pendingHash amountRaw work)
        end
    end;
  hash ← rpcCall "process"
           (node_process (match info with Some _ => "receive" | None => "open" end) receiveBlock);
  mret (mkReceiveResult hash amountRaw).

(** The loop of [receivePending]: a failure is re-thrown with the hash. *)
Fixpoint receive_each (accountIndex : Z) (pending : list PendingBlock)
    (results : list ReceiveResult) : M Wallet (list ReceiveResult) :=
  match pending with
  | [] => mret results
  | pendingBlock :: rest =>
      result ← try! receive (pb_hash pendingBlock) (pb_amount pendingBlock) accountIndex
               catch! (fun e => throw ("Failed to receive " +:+ pb_hash pendingBlock +:+ ": " +:+ e));
      receive_each accountIndex rest (results ++ [result])
  end.

(** [receivePending(accountIndex = 0)]; when no block is listed the
    balance is read for a warning on the console only. *)
Definition receivePending (accountIndex : Z) : M Wallet (list ReceiveResult) :=
  pending ← getPendingBlocks accountIndex 10;
  (match pending with
   | [] => '(_, pendingRaw) ← getBalance accountIndex; _ ← bigint pendingRaw; mret tt
   | _ => mret tt
   end);;
  receive_each accountIndex pending [].
End Wallet.

(** ** Concrete data for the examples

    A library whose account [i] has the address ["nano_" ^ i] and which
    shows amounts unconverted, a node with no account, and a wallet over
    it: the inputs at which the examples evaluate the operations. *)
Definition example_lib : WalletLib := {|
  derive_keys i := mkKeyPair ("priv" +:+ BigInt_to_string i) ("pub" +:+ BigInt_to_string i)
                             ("nano_" +:+ BigInt_to_string i);
  rawToNano s := s;
  nanoToRaw s := s |}.

Definition example_node (accounts : list (string * NodeAccount)) : Node :=
  mkNode (list_to_map accounts) [] 0.

Definition example_wallet (accounts : list (string * NodeAccount)) : Wallet :=
  mkWallet ∅ (example_node accounts).

(** ** Specifications of the read operations

    The cache of derived accounts only holds what the derivation gives, so
    [getAddress] is the derivation; the read operations leave the node
    unchanged, never throw, and answer a view of the node's account. *)
Section WalletSpec.
Context `{WalletLib}.

Definition cache_ok (w : Wallet) : Prop :=
  forall i kp, wl_accounts w !! i = Some kp -> kp = derive_keys i.

(** The wallet after a read operation: same node, coherent cache. *)
Definition read_only (w w' : Wallet) : Prop := cache_ok w' /\ wl_node w' = wl_node w.

Definition address_of (i : Z) : string := kp_address (derive_keys i).

Definition balance_view (n : Node) (a : string) : string * string :=
  if bool_decide ("account_balance" ∈ nd_failing n) then ("0", "0")
  else let acc := node_account n a in
       (BigInt_to_string (na_balance acc), BigInt_to_string (receivable_sum acc)).

Definition pending_view (n : Node) (a : string) (count : nat) : list PendingBlock :=
  if bool_decide ("pending" ∈ nd_failing n) then []
  else (fun e => mkPendingBlock (pe_hash e) (BigInt_to_string (pe_amount e)) (pe_source e))
         <$> take count (na_receivable (node_account n a)).

Lemma cache_ok_empty n : cache_ok (mkWallet ∅ n).
Proof. intros i kp Hk. cbn [wl_accounts] in Hk. by rewrite lookup_empty in Hk. Qed.

Lemma deriveAccount_spec i w :
  cache_ok w ->
  exists w', deriveAccount i w = (w', Ret (address_of i)) /\ read_only w w' /\
             wl_accounts w' !! i = Some (derive_keys i).
Proof.
  intros Hok. unfold deriveAccount, address_of. run_m.
  destruct (wl_accounts w !! i) as [kp|] eqn:E.
  - pose proof (Hok _ _ E); subst. exists w. by repeat split.
  - eexists. split; [reflexivity|]. split; [split|].
    + intros j kp. simpl. rewrite lookup_insert. case_decide; [naive_solver|]. apply Hok.
    + done.
    + simpl. by rewrite lookup_insert_eq.
Qed.

Lemma getBalance_spec i w :
  cache_ok w ->
  exists w', getBalance i w = (w', Ret (balance_view (wl_node w) (address_of i))) /\
             read_only w w'.
Proof.
  intros Hok. destruct (deriveAccount_spec i w Hok) as (w1 & Hd & [Hok1 Hn1] & _).
  unfold getBalance, getAddress, balance_view. rewrite bind_eval, Hd. unfold rpcCall. run_m.
  rewrite Hn1. case_bool_decide; simpl; eexists; split; eauto; by split.
Qed.

Lemma getPendingBlocks_spec i count w :
  cache_ok w ->
  exists w', getPendingBlocks i count w = (w', Ret (pending_view (wl_node w) (address_of i) count)) /\
             read_only w w'.
Proof.
  intros Hok. destruct (deriveAccount_spec i w Hok) as (w1 & Hd & [Hok1 Hn1] & _).
  unfold getPendingBlocks, getAddress, pending_view, node_pending. rewrite bind_eval, Hd. unfold rpcCall. run_m.
  rewrite Hn1. case_bool_decide; simpl; [eexists; split; eauto; by split|].
  destruct (take count _) eqn:E; simpl; eexists; (split; [f_equal|by split]).
  rewrite <- list_fmap_compose. done.
Qed.

Lemma pending_view_length n a count : length (pending_view n a count) <= count.
Proof.
  unfold pending_view. case_bool_decide; simpl; [lia|].
  rewrite length_fmap, length_take. lia.
Qed.

Definition info_view (n : Node) (a : string) : option AccountInfo :=
  let acc := node_account n a in
  if bool_decide ("account_info" ∈ nd_failing n) || negb (na_opened acc) then None
  else Some (mkAccountInfo a (BigInt_to_string (na_balance acc))
               (rawToNano (BigInt_to_string (na_balance acc)))
               (BigInt_to_string (receivable_sum acc)) (na_representative acc) (na_frontier acc)).

Lemma getAccountInfo_spec i w :
  cache_ok w ->
  exists w', getAccountInfo i w = (w', Ret (info_view (wl_node w) (address_of i))) /\
             read_only w w'.
Proof.
  intros Hok. destruct (deriveAccount_spec i w Hok) as (w1 & Hd & [Hok1 Hn1] & _).
  unfold getAccountInfo, getAddress, info_view, node_account_info.
  rewrite bind_eval, Hd. unfold rpcCall. run_m. rewrite Hn1.
  case_bool_decide; simpl; [eexists; split; eauto; by split|].
  destruct (na_opened _); simpl; eexists; split; eauto; by split.
Qed.

Lemma getPrivateKey_spec i w :
  cache_ok w ->
  exists w', getPrivateKey i w = (w', Ret (kp_privateKey (derive_keys i))) /\ read_only w w' /\
             wl_accounts w' !! i = Some (derive_keys i).
Proof.
  intros Hok. destruct (deriveAccount_spec i w Hok) as (w1 & Hd & [Hok1 Hn1] & Hl).
  unfold getPrivateKey. rewrite bind_eval, Hd. run_m. rewrite Hl.
  eexists; split_and!; eauto. by split.
Qed.

Lemma getWork_spec h w :
  "work_generate" ∉ nd_failing (wl_node w) ->
  getWork h w = (w, Ret ("work:" +:+ h)).
Proof.
  intros Hf. unfold getWork, rpcCall. rewrite bool_decide_eq_false_2 by done.
  by destruct w.
Qed.

Lemma balance_view_pending_parses n a : is_Some (BigInt_of_string (balance_view n a).2).
Proof. unfold balance_view. case_bool_decide; simpl; [by eexists|]. rewrite BigInt_roundtrip. by eexists. Qed.

(** With nothing listed as pending, [receivePending] receives nothing. *)
Lemma receivePending_empty i w :
  cache_ok w -> pending_view (wl_node w) (address_of i) 10 = [] ->
  exists w', receivePending i w = (w', Ret []) /\ read_only w w'.
Proof.
  intros Hok Hp. destruct (getPendingBlocks_spec i 10 w Hok) as (w1 & H1 & [Hok1 Hn1]).
  unfold receivePending. rewrite bind_eval, H1, Hp. cbn [receive_each].
  destruct (getBalance_spec i w1 Hok1) as (w2 & H2 & [Hok2 Hn2]).
  rewrite !bind_eval, H2. destruct (balance_view_pending_parses (wl_node w1) (address_of i)) as [z Hz].
  destruct (balance_view _ _) as [b p] eqn:Eb. simpl in Hz. unfold bigint. rewrite Hz.
  run_m. eexists; split; [done|]. split; [done|congruence].
Qed.

(** [send] from an opened account holding at least the amount, on a node
    where nothing fails: the block reaches the node, which debits the
    account and makes the amount receivable at the destination. *)
Lemma send_spec to x i w :
  cache_ok w -> nd_failing (wl_node w) = [] ->
  let n := wl_node w in let acc := node_account n (address_of i) in
  na_opened acc = true -> (0 <= x <= na_balance acc)%Z ->
  exists w' blk,
    send to (BigInt_to_string x) i w = (w', Ret (mkSendResult (fresh_hash n) blk)) /\
    cache_ok w' /\
    node_process "send" blk n = (wl_node w', inl (fresh_hash n)) /\
    wl_node w' = node_transfer (address_of i) to x n.
Proof.
  intros Hok Hf n acc Hop Hx.
  destruct (deriveAccount_spec i w Hok) as (w1 & Hd & [Hok1 Hn1] & _).
  destruct (getPrivateKey_spec i w1 Hok1) as (w2 & Hk & [Hok2 Hn2] & _).
  destruct (getAccountInfo_spec i w2 Hok2) as (w3 & Hi & [Hok3 Hn3]).
  unfold send, getAddress. bind_step Hd. bind_step Hk. bind_step Hi.
  unfold info_view. rewrite Hn2, Hn1, Hf. fold n acc. rewrite Hop.
  rewrite bool_decide_eq_false_2 by set_solver. cbn beta iota delta [orb negb].
  unfold bigint. cbn beta iota delta [ai_balance ai_frontier ai_representative ai_address].
  rewrite !BigInt_roundtrip. do 2 m_step.
  destruct (Z.ltb_spec (na_balance acc) x); [lia|].
  assert (Hw : "work_generate" ∉ nd_failing (wl_node w3)) by (rewrite Hn3, Hn2, Hn1, Hf; set_solver).
  rewrite bind_eval, (getWork_spec _ _ Hw). cbn beta iota.
  rewrite bind_eval. unfold rpcCall. cbn beta.
  rewrite Hn3, Hn2, Hn1, Hf, bool_decide_eq_false_2 by set_solver.
  set (blk := SendBlock _ _ _ _ _ _ _).
  assert (Hp : node_process "send" blk n = (fst (node_process "send" blk n), inl (fresh_hash n))).
  { unfold blk, node_process. rewrite !BigInt_roundtrip. fold acc. rewrite Hop, String.eqb_refl.
    bool_lia. }
  unfold n in Hp. rewrite Hp. simpl.
  do 2 eexists. split; [reflexivity|]. split; [exact Hok3|]. simpl. split; [exact Hp|].
  unfold blk, node_process, node_transfer. rewrite !BigInt_roundtrip. fold n acc. rewrite Hop, String.eqb_refl.
  bool_lia.
Qed.

(** ** The cache of derived keys

    A read caches the key it derives and changes nothing else; no
    operation drops a cached key or caches a wrong one. *)
Definition cache_of (i : Z) (w : Wallet) : Wallet :=
  mkWallet (<[i := derive_keys i]> (wl_accounts w)) (wl_node w).

Lemma cache_of_ok i w : cache_ok w -> cache_ok (cache_of i w).
Proof.
  intros Hok j kp. cbn [cache_of wl_accounts]. rewrite lookup_insert.
  case_decide; [subst; by intros [= <-]|apply Hok].
Qed.

Lemma cache_of_idem i w : cache_of i (cache_of i w) = cache_of i w.
Proof. unfold cache_of. cbn. by rewrite insert_insert_eq. Qed.

Lemma cache_of_cached i w : wl_accounts w !! i = Some (derive_keys i) -> cache_of i w = w.
Proof. intros E. destruct w as [acc n]. unfold cache_of. cbn in *. by rewrite insert_id. Qed.

Lemma deriveAccount_cache i w : cache_ok w -> deriveAccount i w = (cache_of i w, Ret (address_of i)).
Proof.
  intros Hok. unfold deriveAccount, address_of. run_m.
  destruct (wl_accounts w !! i) as [kp|] eqn:E; [|done].
  pose proof (Hok _ _ E); subst. by rewrite cache_of_cached.
Qed.

Lemma getBalance_state i w : cache_ok w -> fst (getBalance i w) = cache_of i w.
Proof.
  intros Hok. unfold getBalance, getAddress. rewrite bind_eval, deriveAccount_cache by done.
  cbn beta iota. unfold try_catch. rewrite bind_eval. unfold rpcCall. case_bool_decide; [done|].
  cbn. reflexivity.
Qed.

Lemma getPendingBlocks_state i count w : cache_ok w -> fst (getPendingBlocks i count w) = cache_of i w.
Proof.
  intros Hok. unfold getPendingBlocks, getAddress. rewrite bind_eval, deriveAccount_cache by done.
  cbn beta iota. unfold try_catch. rewrite bind_eval. unfold rpcCall. case_bool_decide; [done|].
  unfold node_pending. destruct (take _ _); cbn; reflexivity.
Qed.

(** [receivePending] derives its key first: caching it before changes nothing. *)
Lemma receivePending_cached i w : cache_ok w -> receivePending i (cache_of i w) = receivePending i w.
Proof.
  intros Hok. unfold receivePending, getPendingBlocks, getAddress.
  rewrite !bind_assoc_eval, !bind_eval, !deriveAccount_cache by auto using cache_of_ok.
  by rewrite cache_of_idem.
Qed.

Definition Rcache (w w' : Wallet) : Prop := (cache_ok w -> cache_ok w') /\ wl_accounts w ⊆ wl_accounts w'.

#[export] Instance Rcache_preorder : PreOrder Rcache.
Proof.
  split; [intros w; by split|].
  intros w1 w2 w3 [H12 S12] [H23 S23]. split; [auto|by trans (wl_accounts w2)].
Qed.

Lemma cache_deriveAccount i : within Rcache (deriveAccount i).
Proof.
  intros w w' r. unfold deriveAccount. run_m. destruct (wl_accounts w !! i) eqn:E; run_m;
    intros [= <- _]; [reflexivity|]. split; [|by apply insert_subseteq].
  intros Hok. exact (cache_of_ok i w Hok).
Qed.

Lemma cache_rpcCall {A} act (f : Node -> answer A) : within Rcache (rpcCall act f).
Proof.
  intros w w' r. unfold rpcCall. case_bool_decide; [intros [= <- _]; reflexivity|].
  destruct (f (wl_node w)) as [n' o]. intros [= <- _]. split; [|done].
  intros Hok j kp. apply Hok.
Qed.

Lemma cache_bigint (s : string) : within Rcache (bigint s).
Proof. unfold bigint. destruct (BigInt_of_string s); [apply within_ret|apply within_throw]; apply _. Qed.
End WalletSpec.

(** Walk a wallet method's code under [Rcache]. *)
Ltac cache_walk :=
  repeat (cbn beta iota zeta;
    first
    [ apply (within_ret Rcache) | apply (within_throw Rcache) | apply (within_get Rcache)
    | apply cache_deriveAccount | apply cache_rpcCall | apply cache_bigint
    | apply (within_bind Rcache); [|intros]
    | apply (within_try Rcache); [|intros]
    | match goal with
      | |- within _ (match ?x with _ => _ end) => destruct x
      | |- within _ (if ?x then _ else _) => destruct x
      | |- within _ (let '(_, _) := ?x in _) => destruct x
      end
    | progress unfold getAddress, getPrivateKey, getAccountInfo, getPendingBlocks, getBalance, getWork,
        receive ]).

Section WalletCache.
Context `{WalletLib}.

Lemma cache_receive_each i l rs : within Rcache (receive_each i l rs).
Proof.
  revert rs. induction l as [|pb l IH]; intros rs; cbn [receive_each]; [apply within_ret; apply _|].
  apply (within_bind Rcache); [|intros; apply IH]. cache_walk.
Qed.

Lemma cache_receivePending i : within Rcache (receivePending i).
Proof. unfold receivePending. cache_walk. apply cache_receive_each. Qed.
End WalletCache.
