(* ===== verification/Processor.v ===== *)
(** * The payment processor: state, snapshot, queries, creation, deletion

    [class PaymentProcessor] of [src/unnamed/part_001] (lines 39-172 and
    288-345, 565-622).  [Processor] holds its fields: the two [Map]s, the
    next sub-account index, the configuration, whether it runs, whether the
    expiry interval and the debounce timer are armed, and the addresses
    the monitor watches.  [World] adds what the methods reach outside the
    object: the wallet, the snapshot file, the clock, the webhook
    endpoints (an HTTP status per URL, [None] for a transport error), the
    POSTs sent and the events emitted. *)

From S2P Require Import Prelude BigInt JsMap Charge Ledger Wallet.

(** Events of the [EventEmitter], with the ids they carry. *)
Inductive ProcEvent : Type :=
| EvStateLoaded (chargeCount : nat)
| EvStarted (resumedCharges : nat)
| EvStopped
| EvRecoveryFound (chargeId : string) (pendingCount : nat)
| EvCreated (chargeId : string)
| EvPayment (chargeId txHash : string)
| EvCompleted (chargeId : string)
| EvPartial (chargeId : string)
| EvSwept (chargeId hash amount : string)
| EvExpired (chargeId : string)
| EvDeleted (chargeId : string)
| EvWebhookSent (chargeId url : string)
| EvWebhookFailed (chargeId url : string) (status : Z)
| EvWebhookError (chargeId url : string)
| EvError (message : string).

(** [interface PersistedState] *)
Record PersistedState : Type := mkPersisted {
  ps_nextAccountIndex : Z;
  ps_charges : list Charge;
  ps_updatedAt : Z;
}.

(** The file at [persistPath]: absent, unreadable, or a snapshot. *)
Inductive DiskFile : Type := NoFile | Corrupt | Snapshot (ps : PersistedState).

(** The webhook body of [callWebhook] (lines 397-415). *)
Record WebhookPayload : Type := mkPayload {
  wp_event : string;
  wp_id : string; wp_address : string;
  wp_amountNano : string; wp_amountRaw : string;
  wp_receivedNano : string; wp_receivedRaw : string;
  wp_status : string; wp_sweepTxHash : string;
  wp_sweptAmountNano : string; wp_sweptAmountRaw : string;
  wp_completedAt : option Z; wp_sweptAt : option Z;
  wp_metadata : option string;
  wp_timestamp : Z;
}.

Record Processor : Type := mkProcessor {
  pr_charges : JsMap string Charge;
  pr_addressToChargeId : JsMap string string;
  pr_nextAccountIndex : Z;
  pr_mainAccountIndex : Z;
  pr_autoSweep : bool;
  pr_isRunning : bool;
  pr_expiryCheckInterval : bool;
  pr_saveDebounceTimer : bool;
  pr_monitorAccounts : gset string;
  pr_monitorRunning : bool;
}.

Record World : Type := mkWorld {
  w_proc : Processor;
  w_wallet : Wallet;
  w_disk : DiskFile;
  w_now : Z;
  w_http : string -> option Z;
  w_posts : list (string * WebhookPayload);
  w_events : list ProcEvent;
}.

(** ** Updates of the state *)

Definition set_proc (p : Processor) (w : World) : World :=
  mkWorld p (w_wallet w) (w_disk w) (w_now w) (w_http w) (w_posts w) (w_events w).
Definition set_wallet (wl : Wallet) (w : World) : World :=
  mkWorld (w_proc w) wl (w_disk w) (w_now w) (w_http w) (w_posts w) (w_events w).
Definition set_disk (d : DiskFile) (w : World) : World :=
  mkWorld (w_proc w) (w_wallet w) d (w_now w) (w_http w) (w_posts w) (w_events w).
Definition add_post (u : string) (pl : WebhookPayload) (w : World) : World :=
  mkWorld (w_proc w) (w_wallet w) (w_disk w) (w_now w) (w_http w) (w_posts w ++ [(u, pl)]) (w_events w).
Definition add_event (e : ProcEvent) (w : World) : World :=
  mkWorld (w_proc w) (w_wallet w) (w_disk w) (w_now w) (w_http w) (w_posts w) (w_events w ++ [e]).

Definition upd_charges (f : JsMap string Charge -> JsMap string Charge) (p : Processor) : Processor :=
  mkProcessor (f (pr_charges p)) (pr_addressToChargeId p) (pr_nextAccountIndex p)
    (pr_mainAccountIndex p) (pr_autoSweep p) (pr_isRunning p) (pr_expiryCheckInterval p)
    (pr_saveDebounceTimer p) (pr_monitorAccounts p) (pr_monitorRunning p).
Definition upd_addresses (f : JsMap string string -> JsMap string string) (p : Processor) : Processor :=
  mkProcessor (pr_charges p) (f (pr_addressToChargeId p)) (pr_nextAccountIndex p)
    (pr_mainAccountIndex p) (pr_autoSweep p) (pr_isRunning p) (pr_expiryCheckInterval p)
    (pr_saveDebounceTimer p) (pr_monitorAccounts p) (pr_monitorRunning p).
Definition upd_next (n : Z) (p : Processor) : Processor :=
  mkProcessor (pr_charges p) (pr_addressToChargeId p) n
    (pr_mainAccountIndex p) (pr_autoSweep p) (pr_isRunning p) (pr_expiryCheckInterval p)
    (pr_saveDebounceTimer p) (pr_monitorAccounts p) (pr_monitorRunning p).
Definition upd_timers (running interval debounce : bool) (p : Processor) : Processor :=
  mkProcessor (pr_charges p) (pr_addressToChargeId p) (pr_nextAccountIndex p)
    (pr_mainAccountIndex p) (pr_autoSweep p) running interval debounce
    (pr_monitorAccounts p) (pr_monitorRunning p).
Definition upd_monitor (f : gset string -> gset string) (running : bool) (p : Processor) : Processor :=
  mkProcessor (pr_charges p) (pr_addressToChargeId p) (pr_nextAccountIndex p)
    (pr_mainAccountIndex p) (pr_autoSweep p) (pr_isRunning p) (pr_expiryCheckInterval p)
    (pr_saveDebounceTimer p) (f (pr_monitorAccounts p)) running.

Definition modify_proc (f : Processor -> Processor) : M World unit :=
  modify (fun w => set_proc (f (w_proc w)) w).

Lemma modify_proc_bind_eval {B} f (k : unit -> M World B) w :
  (modify_proc f ≫= k) w = k tt (set_proc (f (w_proc w)) w).
Proof. done. Qed.
#[export] Hint Rewrite @modify_proc_bind_eval : berry_rw.

(** [this.emit(e, ...)] *)
Definition emit (e : ProcEvent) : M World unit := modify (add_event e).

(** [new Date()] *)
Definition now : M World Z := gets w_now.

(** A call on [this.wallet]. *)
Definition wallet {A} (m : M Wallet A) : M World A := lift w_wallet set_wallet m.

Lemma wallet_bind_eval {A B} (m : M Wallet A) (f : A -> M World B) w :
  (wallet m ≫= f) w = match m (w_wallet w) with
                      | (t, Ret a) => f a (set_wallet t w)
                      | (t, Throw e) => (set_wallet t w, Throw e)
                      end.
Proof. unfold wallet, lift. rewrite bind_eval. by destruct (m (w_wallet w)) as [? []]. Qed.

(** Run a wallet call of the chain with its specification [H]. *)
Ltac w_simpl := cbn beta iota delta [w_proc w_wallet w_disk w_now w_http w_posts w_events
  set_wallet set_proc set_disk add_post add_event
  pr_charges pr_addressToChargeId pr_nextAccountIndex pr_mainAccountIndex pr_autoSweep
  pr_isRunning pr_expiryCheckInterval pr_saveDebounceTimer pr_monitorAccounts pr_monitorRunning
  upd_charges upd_addresses upd_next upd_timers upd_monitor].
Ltac wallet_step H := rewrite wallet_bind_eval; w_simpl; rewrite H; cbn beta iota.

(** [this.monitor.addAccount(a)] / [removeAccount(a)] (the monitor is not
    under [src/]; it keeps the set of watched addresses). *)
Definition monitor_add (a : string) : M World unit :=
  modify_proc (fun p => upd_monitor (union {[a]}) (pr_monitorRunning p) p).
Definition monitor_remove (a : string) : M World unit :=
  modify_proc (fun p => upd_monitor (fun s => s ∖ {[a]}) (pr_monitorRunning p) p).

(** A field assignment on the charge object stored under [id]. *)
Definition mutate (id : string) (f : Charge -> Charge) : M World unit :=
  modify_proc (upd_charges (jm_alter f id)).

(** ** The snapshot file (lines 144-172) *)

Definition snapshot (w : World) : PersistedState :=
  mkPersisted (pr_nextAccountIndex (w_proc w)) (jm_values (pr_charges (w_proc w))) (w_now w).

(** [persistState()]: (re)arm the 500 ms debounce timer. *)
Definition persistState : M World unit :=
  modify_proc (fun p => upd_timers (pr_isRunning p) (pr_expiryCheckInterval p) true p).

(** The debounce timer fires: write the snapshot of that moment. *)
Definition saveDebounceFire : M World unit :=
  w ← get;
  if pr_saveDebounceTimer (w_proc w) then
    modify (fun w => set_disk (Snapshot (snapshot w)) w);;
    modify_proc (fun p => upd_timers (pr_isRunning p) (pr_expiryCheckInterval p) false p)
  else mret tt.

(** [persistStateNow()]: cancel the timer, write now. *)
Definition persistStateNow : M World unit :=
  modify_proc (fun p => upd_timers (pr_isRunning p) (pr_expiryCheckInterval p) false p);;
  modify (fun w => set_disk (Snapshot (snapshot w)) w).

(** ** Queries (lines 324-345) *)

(** [getCharge(id)] *)
Definition getCharge (id : string) : M World (option Charge) :=
  gets (fun w => jm_get id (pr_charges (w_proc w))).

(** [getChargeByAddress(address)]: [id ? this.charges.get(id) : undefined]. *)
Definition charge_by_address (p : Processor) (address : string) : option Charge :=
  match jm_get address (pr_addressToChargeId p) with
  | Some id => if String.eqb id "" then None else jm_get id (pr_charges p)
  | None => None
  end.

Definition getChargeByAddress (address : string) : M World (option Charge) :=
  gets (fun w => charge_by_address (w_proc w) address).

(** [listCharges(status?)] *)
Definition listCharges (p : Processor) (status : option ChargeStatus) : list Charge :=
  match status with
  | Some s => filter (fun c => ch_status c = s) (jm_values (pr_charges p))
  | None => jm_values (pr_charges p)
  end.

(** [listActiveCharges()] *)
Definition listActiveCharges (p : Processor) : list Charge :=
  filter (fun c => is_active c = true) (listCharges p None).

(** ** [createCharge(options)] (lines 288-322) *)

Record CreateChargeOptions : Type := mkCreateChargeOptions {
  opt_amountNano : string;
  opt_timeoutMs : option Z;
  opt_metadata : option string;
  opt_webhookUrl : option string;
}.

Definition DEFAULT_TIMEOUT_MS : Z := 30 * 60 * 1000.

Section Create.
Context `{WalletLib}.

(** [id] is the value [generateChargeId()] draws. *)
Definition createCharge (id : string) (options : CreateChargeOptions) : M World Charge :=
  w ← get;
  let accountIndex := pr_nextAccountIndex (w_proc w) in
  modify_proc (upd_next (accountIndex + 1));;
  address ← wallet (deriveAccount accountIndex);
  let amountRaw := nanoToRaw (opt_amountNano options) in
  let timeoutMs := default DEFAULT_TIMEOUT_MS (opt_timeoutMs options) in
  t ← now;
  let charge := mkCharge id address accountIndex amountRaw (opt_amountNano options)
                  "0" "0" Pending [] t (t + timeoutMs) None None None
                  (opt_webhookUrl options) None (opt_metadata options) in
  modify_proc (upd_charges (jm_set id charge));;
  modify_proc (upd_addresses (jm_set address id));;
  monitor_add address;;
  persistState;;
  emit (EvCreated id);;
  mret charge.
End Create.

(** ** [deleteCharge(chargeId)] (lines 565-582) *)

Definition deleteCharge (chargeId : string) : M World bool :=
  c ← getCharge chargeId;
  match c with
  | None => mret false
  | Some charge =>
      deletable ←
        match ch_status charge with
        | Swept => mret true
        | Expired => r ← bigint (ch_receivedRaw charge); mret (r =? 0)%Z
        | _ => mret false
        end;
      if negb deletable then throw "Cannot delete charge with pending funds. Sweep first."
      else
        modify_proc (upd_addresses (jm_delete (ch_address charge)));;
        modify_proc (upd_charges (jm_delete chargeId));;
        monitor_remove (ch_address charge);;
        persistState;;
        emit (EvDeleted chargeId);;
        mret true
  end.

(** ** [cleanupSweptCharges()] (lines 584-596)

    The loop runs over the entries the map had when it started: deleting
    the entry being visited does not disturb a JS [Map] iteration. *)
Fixpoint cleanup_loop (entries : list (string * Charge)) (count : nat) : M World nat :=
  match entries with
  | [] => mret count
  | (id, charge) :: rest =>
      if decide (ch_status charge = Swept) then
        modify_proc (upd_charges (jm_delete id));; cleanup_loop rest (S count)
      else cleanup_loop rest count
  end.

Definition cleanupSweptCharges : M World nat :=
  w ← get;
  count ← cleanup_loop (pr_charges (w_proc w)) 0;
  (if decide (0 < count)%nat then persistState else mret tt);;
  mret count.

(** [getMainAddress()] (lines 598-600) *)
Section MainAddress.
Context `{WalletLib}.
Definition getMainAddress : M World string :=
  w ← get; wallet (getAddress (pr_mainAccountIndex (w_proc w))).
End MainAddress.

(** [exportCharges()] (lines 607-609) *)
Definition exportCharges (p : Processor) : list Charge := jm_values (pr_charges p).

(** ** [importCharges(charges)] (lines 612-622) *)

Definition importCharges (charges : list Charge) : M World unit :=
  for_each charges (fun charge =>
    modify_proc (upd_charges (jm_set (ch_id charge) charge));;
    modify_proc (upd_addresses (jm_set (ch_address charge) (ch_id charge)));;
    if is_active charge then monitor_add (ch_address charge) else mret tt).

(** ** The constructor (lines 117-142) *)

Record ProcessorConfig : Type := mkConfig {
  cfg_mainAccountIndex : option Z;
  cfg_startingIndex : option Z;
  cfg_autoSweep : option bool;
}.

(** The state of [new PaymentProcessor(config)] before the snapshot is
    read. *)
Definition initial_processor (cfg : ProcessorConfig) (next : Z) : Processor :=
  mkProcessor [] [] next (default 0%Z (cfg_mainAccountIndex cfg)) (default true (cfg_autoSweep cfg))
    false false false ∅ false.

(** [loadPersistedState] answers [null] for a missing or unreadable file;
    otherwise every charge is put back in both maps. *)
Definition construct (cfg : ProcessorConfig) : M World unit :=
  w ← get;
  match w_disk w with
  | Snapshot ps =>
      modify_proc (fun _ => initial_processor cfg (ps_nextAccountIndex ps));;
      for_each (ps_charges ps) (fun charge =>
        modify_proc (upd_charges (jm_set (ch_id charge) charge));;
        modify_proc (upd_addresses (jm_set (ch_address charge) (ch_id charge))));;
      emit (EvStateLoaded (length (ps_charges ps)))
  | _ =>
      modify_proc (fun _ => initial_processor cfg (default 1000%Z (cfg_startingIndex cfg)))
  end.

(** ** Concrete data for the examples

    A processor holding [charges], each registered under its address, with
    the next index 1000, the main account 0, [autoSweep] as given; the
    clock at 5000 ms and every webhook answering 200. *)
Definition example_world (autoSweep : bool) (charges : JsMap string Charge) (wl : Wallet) : World :=
  mkWorld (mkProcessor charges ((fun '(id, c) => (ch_address c, id)) <$> charges) 1000 0 autoSweep
             true false false (list_to_set ((fun '(_, c) => ch_address c) <$> charges)) true)
    wl NoFile 5000 (fun _ => Some 200%Z) [] [].

(** A charge of [amount] raw at sub-account [index], created at 0 and
    expiring at 1800000, with the given received amount and status. *)
Definition example_charge (id : string) (index : Z) (amount received : string)
    (status : ChargeStatus) (txs : list PaymentTransaction) (webhook : option string) : Charge :=
  mkCharge id ("nano_" +:+ BigInt_to_string index) index amount amount received received status txs
    0 DEFAULT_TIMEOUT_MS None None None webhook None None.

(** ** Specifications *)
Section ProcessorSpec.
Context `{WalletLib}.

(** C18: [createCharge] takes the next sub-account index and advances it by
    one, derives the address of that index, stores a [pending] charge of
    the converted amount that expires [timeoutMs] (default 30 minutes)
    after now under its id, registers the address in the index and the
    monitor, arms the debounced write and emits [charge:created]. *)
Theorem createCharge_spec id opts w :
  cache_ok (w_wallet w) ->
  let i := pr_nextAccountIndex (w_proc w) in
  let t := w_now w in
  let ch := mkCharge id (address_of i) i (nanoToRaw (opt_amountNano opts)) (opt_amountNano opts)
              "0" "0" Pending [] t (t + default DEFAULT_TIMEOUT_MS (opt_timeoutMs opts))
              None None None (opt_webhookUrl opts) None (opt_metadata opts) in
  exists w', createCharge id opts w = (w', Ret ch) /\
    pr_nextAccountIndex (w_proc w') = (i + 1)%Z /\
    pr_charges (w_proc w') = jm_set id ch (pr_charges (w_proc w)) /\
    pr_addressToChargeId (w_proc w') = jm_set (address_of i) id (pr_addressToChargeId (w_proc w)) /\
    pr_monitorAccounts (w_proc w') = {[address_of i]} ∪ pr_monitorAccounts (w_proc w) /\
    pr_saveDebounceTimer (w_proc w') = true /\
    w_events w' = w_events w ++ [EvCreated id] /\
    cache_ok (w_wallet w') /\ wl_node (w_wallet w') = wl_node (w_wallet w).
Proof.
  intros Hok i t ch. subst i t ch.
  destruct (deriveAccount_spec (pr_nextAccountIndex (w_proc w)) (w_wallet w) Hok)
    as (wl & Hd & [Hok' Hn] & _).
  unfold createCharge, monitor_add, persistState, emit, now, modify_proc. m_simp. w_simpl.
  wallet_step Hd. m_simp. w_simpl.
  eexists; split_and!; [reflexivity|done..].
Qed.

(** C24: [deleteCharge] refuses a charge that may still hold funds: one that is
    [pending], [partial] or [completed], or [expired] with a non-zero
    received amount; nothing changes. *)
Theorem deleteCharge_refuses id c w :
  jm_get id (pr_charges (w_proc w)) = Some c ->
  is_active c = true \/ ch_status c = Completed \/
  (ch_status c = Expired /\ exists r, BigInt_of_string (ch_receivedRaw c) = Some r /\ r <> 0%Z) ->
  deleteCharge id w = (w, Throw "Cannot delete charge with pending funds. Sweep first.").
Proof.
  intros Hc Hst. unfold deleteCharge, getCharge. m_simp. rewrite Hc. unfold is_active in Hst.
  destruct Hst as [Ha|[Hs|(Hs & r & Hr & Hr0)]];
    [destruct (ch_status c); try discriminate; by m_simp|by rewrite Hs; m_simp|].
  rewrite Hs. unfold bigint. rewrite Hr. m_simp. rewrite (proj2 (Z.eqb_neq r 0) Hr0). cbn [negb]. reflexivity.
Qed.

(** C25: [deleteCharge] of a [swept] charge, or of an [expired] one that
    received nothing: the charge leaves the map (the others stay), its
    address leaves the index and the monitor, the debounced write is
    armed and [charge:deleted] emitted. *)
Theorem deleteCharge_removes id c w :
  jm_get id (pr_charges (w_proc w)) = Some c ->
  jm_wf (pr_charges (w_proc w)) -> jm_wf (pr_addressToChargeId (w_proc w)) ->
  ch_status c = Swept \/ (ch_status c = Expired /\ BigInt_of_string (ch_receivedRaw c) = Some 0%Z) ->
  exists w', deleteCharge id w = (w', Ret true) /\
    jm_get id (pr_charges (w_proc w')) = None /\
    (forall id', id' <> id -> jm_get id' (pr_charges (w_proc w')) = jm_get id' (pr_charges (w_proc w))) /\
    jm_get (ch_address c) (pr_addressToChargeId (w_proc w')) = None /\
    ch_address c ∉ pr_monitorAccounts (w_proc w') /\
    pr_saveDebounceTimer (w_proc w') = true /\ w_events w' = w_events w ++ [EvDeleted id].
Proof.
  intros Hc Hwf Hwa Hst. unfold deleteCharge, getCharge. m_simp. rewrite Hc.
  unfold monitor_remove, persistState, emit, modify_proc.
  destruct Hst as [Hs|[Hs Hr]]; rewrite Hs; cbn iota;
    [|unfold bigint; rewrite Hr]; m_simp; w_simpl;
    (eexists; split_and!; [reflexivity|..]); w_simpl;
    first [done | by apply jm_get_delete_eq | set_solver |
           intros ? ?; apply jm_get_delete_ne; congruence].
Qed.

(** The loop of [cleanupSweptCharges] over the entries [l] still to visit,
    the map being [kept ++ l]: it keeps the entries that are not swept and
    counts the others. *)
Lemma cleanup_loop_spec l kept n w :
  pr_charges (w_proc w) = kept ++ l -> jm_wf (kept ++ l) ->
  cleanup_loop l n w =
    (set_proc (upd_charges (fun _ => kept ++ filter (fun e => ch_status e.2 <> Swept) l) (w_proc w)) w,
     Ret (n + length (filter (fun e => ch_status e.2 = Swept) l))%nat).
Proof.
  revert kept n w. induction l as [|[k v] l IH]; intros kept n w Hm Hwf; cbn [cleanup_loop].
  - destruct w as [[]]; simpl in *. subst. rewrite !app_nil_r, Nat.add_0_r. done.
  - case_decide as Hs.
    + rewrite filter_cons_False, filter_cons_True by (simpl; auto).
      unfold modify_proc. m_simp. rewrite (IH kept); w_simpl.
      * destruct w as [[]]. unfold set_proc, upd_charges. simpl. do 3 f_equal. lia.
      * rewrite Hm. by apply jm_delete_app, (jm_wf_app_cons_notin _ _ v l).
      * by apply jm_wf_remove in Hwf.
    + rewrite filter_cons_True, filter_cons_False by (simpl; auto).
      rewrite (IH (kept ++ [(k, v)])); rewrite <- ?app_assoc; done.
Qed.

Lemma length_filter_values (P : Charge -> Prop) `{!∀ c, Decision (P c)} (m : JsMap string Charge) :
  length (filter P (jm_values m)) = length (filter (fun e => P e.2) m).
Proof.
  unfold jm_values. induction m as [|[k v] m IH]; [done|]. cbn [map].
  destruct (decide (P v)).
  - rewrite !filter_cons_True by done. simpl. by rewrite IH.
  - by rewrite !filter_cons_False.
Qed.

(** [cleanupSweptCharges] removes exactly the [swept] charges, keeping
    the others in their order, answers how many it removed (the number
    [listCharges("swept")] had), arms the debounced write when it removed
    one, and leaves the address index as it was. *)
Theorem cleanupSweptCharges_spec w :
  jm_wf (pr_charges (w_proc w)) ->
  let n := length (listCharges (w_proc w) (Some Swept)) in
  exists w', cleanupSweptCharges w = (w', Ret n) /\
    pr_charges (w_proc w') = filter (fun e => ch_status e.2 <> Swept) (pr_charges (w_proc w)) /\
    pr_addressToChargeId (w_proc w') = pr_addressToChargeId (w_proc w) /\
    pr_saveDebounceTimer (w_proc w') = pr_saveDebounceTimer (w_proc w) || bool_decide (0 < n)%nat.
Proof.
  intros Hwf n. unfold cleanupSweptCharges. m_simp.
  rewrite bind_eval, (cleanup_loop_spec _ [] 0 w) by done. cbn beta iota.
  unfold n, listCharges. rewrite length_filter_values. simpl.
  case_decide; unfold persistState, modify_proc; m_simp; w_simpl;
    (eexists; split_and!; [reflexivity|..]); w_simpl;
    first [done | by rewrite bool_decide_eq_true_2, orb_true_r |
           by rewrite bool_decide_eq_false_2, orb_false_r].
Qed.

(** The keys of a map are the ids of its charges. *)
Definition ids_coherent (m : JsMap string Charge) : Prop :=
  forall id c, jm_get id m = Some c -> ch_id c = id.

Lemma ids_coherent_values (m : JsMap string Charge) :
  jm_wf m -> ids_coherent m -> map (fun c => (ch_id c, c)) (jm_values m) = m.
Proof.
  unfold jm_wf, jm_keys, ids_coherent, jm_values. induction m as [|[k v] m IH]; [done|].
  simpl. intros [Hk Hwf]%NoDup_cons Hc. rewrite (Hc k v) by (simpl; by rewrite decide_True).
  f_equal. apply IH; [done|]. intros id c Hg. apply Hc. simpl. rewrite decide_False; [done|].
  intros ->. apply Hk. by eapply jm_get_Some_keys.
Qed.

Lemma ids_coherent_keys (m : JsMap string Charge) :
  jm_wf m -> ids_coherent m -> jm_keys m = ch_id <$> jm_values m.
Proof.
  intros Hwf Hco. rewrite <- (ids_coherent_values m Hwf Hco) at 1.
  unfold jm_keys. generalize (jm_values m). intros l. induction l; simpl; f_equal; auto.
Qed.

(** The reload loop of the constructor: each charge goes back into both
    maps under its id and its address. *)
Lemma construct_loop_spec (l : list Charge) w :
  NoDup (ch_id <$> l) -> Forall (fun c => ch_id c ∉ jm_keys (pr_charges (w_proc w))) l ->
  for_each l (fun charge =>
    modify_proc (upd_charges (jm_set (ch_id charge) charge));;
    modify_proc (upd_addresses (jm_set (ch_address charge) (ch_id charge)))) w =
  (set_proc (upd_addresses (fun a => foldl (fun m c => jm_set (ch_address c) (ch_id c) m) a l)
              (upd_charges (fun m => m ++ map (fun c => (ch_id c, c)) l) (w_proc w))) w, Ret tt).
Proof.
  revert w. induction l as [|c l IH]; intros w Hd Hf; simpl.
  - destruct w as [[]]. unfold set_proc, upd_addresses, upd_charges. simpl. by rewrite app_nil_r.
  - apply NoDup_cons in Hd as [Hc Hd]. apply Forall_cons in Hf as [Hc0 Hf].
    unfold modify_proc. m_simp. rewrite IH; w_simpl.
    + destruct w as [[]]. unfold set_proc, upd_addresses, upd_charges. simpl.
      rewrite jm_set_absent by done. by rewrite <- app_assoc.
    + done.
    + rewrite jm_set_absent by done. apply Forall_forall. intros c' Hin.
      rewrite Forall_forall in Hf. unfold jm_keys. rewrite map_app. simpl.
      rewrite elem_of_app, list_elem_of_singleton. intros [Hk|Hk]; [by apply (Hf c')|].
      apply Hc. rewrite <- Hk. by apply list_elem_of_fmap_2.
Qed.

(** C16: Round trip of the snapshot: a process that starts on the file
    [persistStateNow] wrote gets back the same charges, in the same order,
    and the same next sub-account index. *)
Theorem snapshot_roundtrip w w0 cfg :
  jm_wf (pr_charges (w_proc w)) -> ids_coherent (pr_charges (w_proc w)) ->
  w_disk w0 = w_disk (fst (persistStateNow w)) ->
  exists w', construct cfg w0 = (w', Ret tt) /\
    pr_charges (w_proc w') = pr_charges (w_proc w) /\
    pr_nextAccountIndex (w_proc w') = pr_nextAccountIndex (w_proc w).
Proof.
  intros Hwf Hco Hd.
  assert (Hd' : w_disk w0 = Snapshot (mkPersisted (pr_nextAccountIndex (w_proc w))
                                        (jm_values (pr_charges (w_proc w))) (w_now w)))
    by (rewrite Hd; reflexivity).
  unfold construct. m_simp. rewrite Hd'. m_simp.
  rewrite bind_eval, construct_loop_spec.
  - unfold emit. m_simp. w_simpl. eexists; split_and!; [reflexivity| |done].
    w_simpl. cbn [ps_charges initial_processor pr_charges app]. by rewrite ids_coherent_values.
  - cbn [ps_charges]. unfold jm_wf in Hwf. by rewrite <- ids_coherent_keys.
  - apply Forall_forall. intros c _. simpl. set_solver.
Qed.

(** C21: The constructor puts the address of every charge of the snapshot
    back into the address index, whatever its status: the address of a
    [swept] charge, which [sweepCharge] released, is registered again after
    a restart. *)
Theorem construct_reregisters w0 cfg ps c :
  w_disk w0 = Snapshot ps -> c ∈ ps_charges ps ->
  NoDup (ch_id <$> ps_charges ps) -> NoDup (ch_address <$> ps_charges ps) ->
  exists w', construct cfg w0 = (w', Ret tt) /\
    jm_get (ch_address c) (pr_addressToChargeId (w_proc w')) = Some (ch_id c).
Proof.
  intros Hd Hc Hid Had. unfold construct. m_simp. rewrite Hd. m_simp.
  rewrite bind_eval, construct_loop_spec; [|done|by apply Forall_forall; set_solver].
  unfold emit. m_simp. w_simpl. eexists; split; [reflexivity|].
  cbn [initial_processor pr_addressToChargeId]. by apply (jm_get_foldl_set ch_address ch_id).
Qed.
End ProcessorSpec.

(** ** Examples *)
Definition ex_charges : JsMap string Charge :=
  [("c1", example_charge "c1" 1000 "1000" "0" Expired [] None);
   ("c2", example_charge "c2" 1001 "1000" "1000" Swept [] None);
   ("c3", example_charge "c3" 1002 "1000" "500" Expired [] None)].
Definition ex_proc_world : World := example_world false ex_charges (example_wallet []).

Lemma createCharge_spec_witness :
  exists w', @createCharge example_lib "c4" (mkCreateChargeOptions "5" None None None) ex_proc_world =
    (w', Ret (mkCharge "c4" "nano_1000" 1000 "5" "5" "0" "0" Pending [] 5000 1805000
                None None None None None None)) /\
    pr_nextAccountIndex (w_proc w') = 1001%Z.
Proof.
  destruct (@createCharge_spec example_lib "c4" (mkCreateChargeOptions "5" None None None) ex_proc_world
    (cache_ok_empty _)) as (w' & Hrun & Hn & _). by exists w'.
Defined.

Lemma deleteCharge_refuses_witness :
  deleteCharge "c3" ex_proc_world =
    (ex_proc_world, Throw "Cannot delete charge with pending funds. Sweep first.").
Proof.
  apply (deleteCharge_refuses "c3" (example_charge "c3" 1002 "1000" "500" Expired [] None));
    [reflexivity|]. right; right. split; [reflexivity|]. exists 500%Z. split; [reflexivity|lia].
Defined.

Lemma deleteCharge_removes_witness :
  exists w', deleteCharge "c1" ex_proc_world = (w', Ret true) /\
    jm_get "c1" (pr_charges (w_proc w')) = None /\
    jm_get "nano_1000" (pr_addressToChargeId (w_proc w')) = None.
Proof.
  destruct (deleteCharge_removes "c1" (example_charge "c1" 1000 "1000" "0" Expired [] None)
    ex_proc_world eq_refl ltac:(vm_compute; repeat constructor; set_solver)
    ltac:(vm_compute; repeat constructor; set_solver) ltac:(right; split; reflexivity))
    as (w' & Hrun & Hg & _ & Ha & _). by exists w'.
Defined.

Lemma cleanupSweptCharges_spec_witness :
  exists w', cleanupSweptCharges ex_proc_world = (w', Ret 1%nat) /\
    jm_keys (pr_charges (w_proc w')) = ["c1"; "c3"].
Proof.
  destruct (cleanupSweptCharges_spec ex_proc_world ltac:(vm_compute; repeat constructor; set_solver))
    as (w' & Hrun & Hc & _). exists w'. split; [exact Hrun|]. rewrite Hc. reflexivity.
Defined.

Lemma snapshot_roundtrip_witness :
  exists w', construct (mkConfig None None None) (fst (persistStateNow ex_proc_world)) = (w', Ret tt) /\
    pr_charges (w_proc w') = ex_charges.
Proof.
  destruct (snapshot_roundtrip ex_proc_world (fst (persistStateNow ex_proc_world)) (mkConfig None None None)
    ltac:(vm_compute; repeat constructor; set_solver)
    ltac:(intros id c Hg; repeat (simpl in Hg; case_decide; [simplify_eq; reflexivity|]); done)
    eq_refl) as (w' & Hrun & Hc & _).
  by exists w'.
Defined.

Lemma construct_reregisters_witness :
  exists w', construct (mkConfig None None None) (fst (persistStateNow ex_proc_world)) = (w', Ret tt) /\
    jm_get "nano_1001" (pr_addressToChargeId (w_proc w')) = Some "c2".
Proof.
  destruct (construct_reregisters (fst (persistStateNow ex_proc_world)) (mkConfig None None None)
    (mkPersisted 1000 (jm_values ex_charges) 5000)
    (example_charge "c2" 1001 "1000" "1000" Swept [] None)
    eq_refl ltac:(vm_compute; set_solver)
    ltac:(vm_compute; repeat constructor; set_solver) ltac:(vm_compute; repeat constructor; set_solver))
    as (w' & Hrun & Ha).
  by exists w'.
Defined.
