(* ===== verification/Sweep.v ===== *)
(** * Sweeping a charge and notifying its webhook

    [callWebhook] (lines 394-445), [sweepCharge] (lines 447-502) and
    [checkChargeStatus] (lines 504-532) of [src/unnamed/part_001].  A
    sweep receives what is pending on the charge's sub-account, reads the
    balance, sends all of it to the main account, marks the charge
    [swept], releases its address, writes the snapshot, and POSTs the
    webhook once.  Every failure is reported as an [error] event and
    re-thrown. *)

From S2P Require Import Prelude BigInt JsMap Charge Ledger Wallet Processor.

(** A string field used as a condition ([if (!s)]): [""] is falsy. *)
Definition truthy (o : option string) : bool :=
  match o with Some s => negb (String.eqb s "") | None => false end.

(** [response.ok] *)
Definition response_ok (status : Z) : bool := (200 <=? status)%Z && (status <=? 299)%Z.

Section Sweep.
Context `{WalletLib}.

Definition webhook_payload (charge : Charge) (sweepHash amountRaw : string) (t : Z)
    : WebhookPayload :=
  mkPayload "charge.completed" (ch_id charge) (ch_address charge)
    (ch_amountNano charge) (ch_amountRaw charge)
    (ch_receivedNano charge) (ch_receivedRaw charge)
    (status_string (ch_status charge)) sweepHash
    (rawToNano amountRaw) amountRaw
    (ch_completedAt charge) (ch_sweptAt charge) (ch_metadata charge) t.

(** [callWebhook(charge, sweepHash, amountRaw)]: one POST, no retry;
    success sets [webhookSent] and writes the snapshot at once. *)
Definition callWebhook (charge : Charge) (sweepHash amountRaw : string) : M World unit :=
  match ch_webhookUrl charge with
  | Some url =>
      if String.eqb url "" then mret tt else
      t ← now;
      modify (add_post url (webhook_payload charge sweepHash amountRaw t));;
      w ← get;
      match w_http w url with
      | Some status =>
          if response_ok status then
            mutate (ch_id charge) set_webhook_sent;;
            persistStateNow;;
            emit (EvWebhookSent (ch_id charge) url)
          else emit (EvWebhookFailed (ch_id charge) url status)
      | None => emit (EvWebhookError (ch_id charge) url)
      end
  | None => mret tt
  end.

(** [balance === "0" || BigInt(balance) === BigInt(0)] *)
Definition balance_is_zero (balance : string) : M World bool :=
  if String.eqb balance "0" then mret true
  else b ← bigint balance; mret (b =? 0)%Z.

(** [sweepCharge(chargeId)]: [None] is the [null] of "nothing to sweep". *)
Definition sweepCharge (chargeId : string) : M World (option (string * string)) :=
  c ← getCharge chargeId;
  match c with
  | None => throw "Charge not found"
  | Some charge =>
      if decide (ch_status charge = Swept) then mret None else
      try! (
        wallet (receivePending (ch_accountIndex charge));;
        bal ← wallet (getBalance (ch_accountIndex charge));
        let balance := bal.1 in
        zero ← balance_is_zero balance;
        if (zero : bool) then mret None else
        w ← get;
        mainAddress ← wallet (getAddress (pr_mainAccountIndex (w_proc w)));
        result ← wallet (send mainAddress balance (ch_accountIndex charge));
        t ← now;
        mutate chargeId (set_swept t (sr_hash result));;
        modify_proc (upd_addresses (jm_delete (ch_address charge)));;
        monitor_remove (ch_address charge);;
        persistStateNow;;
        emit (EvSwept chargeId (sr_hash result) balance);;
        c' ← getCharge chargeId;
        (match c' with
         | Some charge' =>
             if truthy (ch_webhookUrl charge') && negb (default false (ch_webhookSent charge'))
             then callWebhook charge' (sr_hash result) balance
             else mret tt
         | None => mret tt
         end);;
        mret (Some (sr_hash result, balance)))
      catch! (fun e => emit (EvError e);; throw e)
  end.

(** The answer of [checkChargeStatus]. *)
Record ChargeStatusResult : Type := mkStatusResult {
  cs_charge : Charge;
  cs_isPaid : bool;
  cs_remainingRaw : string;
  cs_remainingNano : string;
}.

(** [pending.reduce((sum, p) => sum + BigInt(p.amount), BigInt(0))] *)
Fixpoint sum_amounts (acc : Z) (pending : list PendingBlock) : M World Z :=
  match pending with
  | [] => mret acc
  | p :: rest => a ← bigint (pb_amount p); sum_amounts (acc + a)%Z rest
  end.

(** [checkChargeStatus(chargeId)]: reads the ledger, changes nothing. *)
Definition checkChargeStatus (chargeId : string) : M World ChargeStatusResult :=
  c ← getCharge chargeId;
  match c with
  | None => throw "Charge not found"
  | Some charge =>
      pending ← wallet (getPendingBlocks (ch_accountIndex charge) 10);
      bal ← wallet (getBalance (ch_accountIndex charge));
      b ← bigint bal.1;
      totalReceived ← sum_amounts b pending;
      required ← bigint (ch_amountRaw charge);
      let remaining := if (totalReceived <? required)%Z then (required - totalReceived)%Z else 0%Z in
      let isPaid := (required <=? totalReceived)%Z in
      mret (mkStatusResult charge isPaid (BigInt_to_string remaining)
              (rawToNano (BigInt_to_string remaining)))
  end.
End Sweep.

(** ** Specification of [sweepCharge] *)
Section SweepSpec.
Context `{WalletLib}.

(** The parts of the world a sweep that does nothing leaves alone. *)
Definition same_processor (w w' : World) : Prop :=
  w_proc w' = w_proc w /\ w_disk w' = w_disk w /\ w_posts w' = w_posts w /\ w_events w' = w_events w.

(** C37: An unknown charge id is a not-found error; nothing changes. *)
Lemma sweepCharge_not_found id w :
  jm_get id (pr_charges (w_proc w)) = None ->
  sweepCharge id w = (w, Throw "Charge not found").
Proof. intros Hc. unfold sweepCharge, getCharge. m_simp. by rewrite Hc. Qed.

(** C38: Sweeping a charge that is already [swept] answers [null] and changes
    nothing. *)
Lemma sweepCharge_swept id c w :
  jm_get id (pr_charges (w_proc w)) = Some c -> ch_status c = Swept ->
  sweepCharge id w = (w, Ret None).
Proof.
  intros Hc Hs. unfold sweepCharge, getCharge. m_simp. rewrite Hc. cbn iota.
  by rewrite decide_True.
Qed.

Lemma pending_view_empty n a count :
  na_receivable (node_account n a) = [] -> pending_view n a count = [].
Proof. intros Hr. unfold pending_view. rewrite Hr, take_nil. by case_bool_decide. Qed.

Lemma balance_view_zero n a :
  na_balance (node_account n a) = 0%Z -> (balance_view n a).1 = "0".
Proof. intros Hb. unfold balance_view. rewrite Hb. by case_bool_decide. Qed.

(** The sweep when the wallet sees nothing receivable and a balance
    ["0"] on the sub-account: it answers [null], changing nothing. *)
Lemma sweepCharge_no_funds_seen id c w :
  jm_get id (pr_charges (w_proc w)) = Some c -> ch_status c <> Swept ->
  cache_ok (w_wallet w) ->
  pending_view (wl_node (w_wallet w)) (address_of (ch_accountIndex c)) 10 = [] ->
  (balance_view (wl_node (w_wallet w)) (address_of (ch_accountIndex c))).1 = "0" ->
  exists w', sweepCharge id w = (w', Ret None) /\ same_processor w w'.
Proof.
  intros Hc Hs Hok Hp Hb.
  destruct (receivePending_empty (ch_accountIndex c) (w_wallet w) Hok Hp) as (t1 & H1 & [Hok1 Hn1]).
  destruct (getBalance_spec (ch_accountIndex c) t1 Hok1) as (t2 & H2 & [Hok2 Hn2]).
  unfold sweepCharge, getCharge. m_simp. rewrite Hc. cbn iota.
  rewrite decide_False by done. unfold try_catch.
  wallet_step H1. wallet_step H2.
  rewrite Hn1, Hb. unfold balance_is_zero. m_simp.
  eexists; split; [reflexivity|]. unfold same_processor; simpl; done.
Qed.

(** C19: Sweeping a charge whose sub-account holds nothing (no balance, nothing
    receivable) answers "nothing to sweep" and leaves the charge, the
    maps, the snapshot, the webhooks and the events as they were. *)
Theorem sweepCharge_zero_balance id c w :
  jm_get id (pr_charges (w_proc w)) = Some c -> ch_status c <> Swept ->
  cache_ok (w_wallet w) ->
  let acc := node_account (wl_node (w_wallet w)) (address_of (ch_accountIndex c)) in
  na_balance acc = 0%Z -> na_receivable acc = [] ->
  exists w', sweepCharge id w = (w', Ret None) /\ same_processor w w'.
Proof.
  intros Hc Hs Hok acc Hb Hr.
  apply (sweepCharge_no_funds_seen id c w Hc Hs Hok);
    [by apply pending_view_empty | by apply balance_view_zero].
Qed.

(** C20: When the node fails the [pending] and [account_balance] actions, the
    wallet swallows both errors ([getPendingBlocks] answers [[]],
    [getBalance] answers ["0"]): [sweepCharge] answers "nothing to sweep"
    whatever the sub-account holds, instead of propagating the ledger
    error (§7 of the specification). *)
Theorem sweepCharge_node_down id c w :
  jm_get id (pr_charges (w_proc w)) = Some c -> ch_status c <> Swept ->
  cache_ok (w_wallet w) ->
  "pending" ∈ nd_failing (wl_node (w_wallet w)) ->
  "account_balance" ∈ nd_failing (wl_node (w_wallet w)) ->
  exists w', sweepCharge id w = (w', Ret None) /\ same_processor w w'.
Proof.
  intros Hc Hs Hok Hp Hb. apply (sweepCharge_no_funds_seen id c w Hc Hs Hok).
  - unfold pending_view. by rewrite bool_decide_eq_true_2.
  - unfold balance_view. by rewrite bool_decide_eq_true_2.
Qed.

Lemma BigInt_to_string_zero z : BigInt_to_string z = "0" -> z = 0%Z.
Proof.
  intros Hz. pose proof (BigInt_roundtrip z) as Hr. rewrite Hz in Hr. by injection Hr.
Qed.

(** The POSTs a successful sweep makes: the webhook is called once when a
    URL is set and no notification was sent, with the swept amount. *)
Definition webhook_posts_ok (c : Charge) (h amount : string) (posts : list (string * WebhookPayload)) : Prop :=
  length posts = (if truthy (ch_webhookUrl c) && negb (default false (ch_webhookSent c)) then 1 else 0) /\
  Forall (fun '(u, p) => ch_webhookUrl c = Some u /\ wp_id p = ch_id c /\ wp_status p = "swept" /\
                         wp_sweepTxHash p = h /\ wp_sweptAmountRaw p = amount) posts.

(** [callWebhook] POSTs once when the URL is set, and touches nothing of
    the processor but the [webhookSent] flag of its charge. *)
Lemma callWebhook_spec c h amount w :
  exists w', callWebhook c h amount w = (w', Ret tt) /\ w_wallet w' = w_wallet w /\
    pr_addressToChargeId (w_proc w') = pr_addressToChargeId (w_proc w) /\
    pr_monitorAccounts (w_proc w') = pr_monitorAccounts (w_proc w) /\
    (pr_charges (w_proc w') = pr_charges (w_proc w) \/
     pr_charges (w_proc w') = jm_alter set_webhook_sent (ch_id c) (pr_charges (w_proc w))) /\
    exists posts, w_posts w' = w_posts w ++ posts /\
      (if truthy (ch_webhookUrl c) then
         length posts = 1 /\
         Forall (fun '(u, p) => ch_webhookUrl c = Some u /\ wp_id p = ch_id c /\
                   wp_status p = status_string (ch_status c) /\
                   wp_sweepTxHash p = h /\ wp_sweptAmountRaw p = amount) posts
       else posts = []).
Proof.
  unfold callWebhook, truthy. destruct (ch_webhookUrl c) as [u|] eqn:Eu.
  - destruct (String.eqb_spec u ""); simpl.
    + eexists; split_and!; [done..|by left|]. exists []. by rewrite app_nil_r.
    + unfold now, mutate, persistStateNow, emit, modify_proc. m_simp. w_simpl.
      destruct (w_http w u) as [st|]; [destruct (response_ok st)|]; m_simp; w_simpl;
        (eexists; split_and!; [reflexivity|done|done|done|by (left + right)|]);
        (eexists; split; [reflexivity|]); (split; [done|]); repeat constructor; done.
  - eexists; split_and!; [done..|by left|]. exists []. by rewrite app_nil_r.
Qed.

(** C3: A sweep of a charge whose sub-account is opened and holds [b > 0]
    with nothing receivable, on a node where no RPC action fails (the
    conditions under which the sweep reaches its send): the node after
    it is the node before with the transfer of [b] from the charge's
    sub-account to the main account ([node_transfer]: the sub-account
    left with 0 and the main account holding a receivable block of [b]
    whose hash the sweep returns), the charge becomes [swept] with the
    send's hash and time, its address is released from the index and
    from the monitor, and the webhook is POSTed once (when configured and
    not yet notified) with [sweptAmountRaw = b]. *)
Theorem sweepCharge_success id c w :
  jm_get id (pr_charges (w_proc w)) = Some c -> ch_id c = id -> ch_status c <> Swept ->
  jm_wf (pr_addressToChargeId (w_proc w)) ->
  cache_ok (w_wallet w) -> nd_failing (wl_node (w_wallet w)) = [] ->
  let acc := node_account (wl_node (w_wallet w)) (address_of (ch_accountIndex c)) in
  na_opened acc = true -> (0 < na_balance acc)%Z -> na_receivable acc = [] ->
  let amount := BigInt_to_string (na_balance acc) in
  exists w' h,
    sweepCharge id w = (w', Ret (Some (h, amount))) /\
    h = fresh_hash (wl_node (w_wallet w)) /\
    wl_node (w_wallet w') = node_transfer (address_of (ch_accountIndex c))
                              (address_of (pr_mainAccountIndex (w_proc w))) (na_balance acc)
                              (wl_node (w_wallet w)) /\
    (exists c', jm_get id (pr_charges (w_proc w')) = Some c' /\ ch_status c' = Swept /\
                ch_sweepTxHash c' = Some h /\ ch_sweptAt c' = Some (w_now w)) /\
    jm_get (ch_address c) (pr_addressToChargeId (w_proc w')) = None /\
    ch_address c ∉ pr_monitorAccounts (w_proc w') /\
    exists posts, w_posts w' = w_posts w ++ posts /\
      length posts = (if truthy (ch_webhookUrl c) && negb (default false (ch_webhookSent c))
                      then 1 else 0) /\
      Forall (fun '(u, p) => ch_webhookUrl c = Some u /\ wp_id p = id /\ wp_status p = "swept" /\
                             wp_sweepTxHash p = h /\ wp_sweptAmountRaw p = amount) posts.
Proof.
  intros Hc Hid Hs Hwf Hok Hf acc Hop Hpos Hr amount.
  destruct (receivePending_empty (ch_accountIndex c) (w_wallet w) Hok)
    as (t1 & H1 & [Hok1 Hn1]); [by apply pending_view_empty|].
  destruct (getBalance_spec (ch_accountIndex c) t1 Hok1) as (t2 & H2 & [Hok2 Hn2]).
  destruct (deriveAccount_spec (pr_mainAccountIndex (w_proc w)) t2 Hok2)
    as (t3 & H3 & [Hok3 Hn3] & _).
  destruct (send_spec (address_of (pr_mainAccountIndex (w_proc w))) (na_balance acc)
              (ch_accountIndex c) t3 Hok3) as (t4 & blk & H4 & Hok4 & Hp4 & Hn4);
    [rewrite Hn3, Hn2, Hn1; exact Hf|rewrite Hn3, Hn2, Hn1; exact Hop|
     rewrite Hn3, Hn2, Hn1; fold acc; lia|].
  unfold sweepCharge, getCharge. m_simp. rewrite Hc. cbn iota.
  rewrite decide_False by done. unfold try_catch.
  wallet_step H1. wallet_step H2.
  unfold balance_view. rewrite Hn1, Hf, bool_decide_eq_false_2 by set_solver. cbn beta iota.
  fold acc. unfold balance_is_zero. cbn [fst].
  destruct (String.eqb_spec (BigInt_to_string (na_balance acc)) "0") as [Hz|_];
    [apply BigInt_to_string_zero in Hz; lia|].
  unfold bigint. rewrite BigInt_roundtrip. m_simp.
  destruct (Z.eqb_spec (na_balance acc) 0); [lia|]. m_simp.
  unfold getAddress. wallet_step H3. wallet_step H4.
  unfold now, mutate, monitor_remove, persistStateNow, emit, modify_proc. m_simp. w_simpl.
  rewrite jm_get_alter, decide_True, Hc by done. cbn [fmap option_fmap option_map sr_hash].
  set (h := fresh_hash (wl_node t3)). set (c1 := set_swept (w_now w) h c).
  set (w4 := add_event _ _).
  assert (Hw4 : wl_node (w_wallet w4) = node_transfer (address_of (ch_accountIndex c))
                  (address_of (pr_mainAccountIndex (w_proc w))) (na_balance acc) (wl_node (w_wallet w)))
    by (cbn; rewrite Hn4, Hn3, Hn2, Hn1; reflexivity).
  assert (Hh : h = fresh_hash (wl_node (w_wallet w))) by (unfold h; by rewrite Hn3, Hn2, Hn1).
  assert (Ha4 : jm_get (ch_address c) (pr_addressToChargeId (w_proc w4)) = None)
    by (apply jm_get_delete_eq, Hwf).
  assert (Hm4 : ch_address c ∉ pr_monitorAccounts (w_proc w4)) by (simpl; set_solver).
  assert (Hc4 : jm_get id (pr_charges (w_proc w4)) = Some c1)
    by (simpl; rewrite jm_get_alter, decide_True, Hc; done).
  assert (Hp4' : w_posts w4 = w_posts w) by done.
  clearbody w4.
  assert (Hcond : (truthy (ch_webhookUrl c1) && negb (default false (ch_webhookSent c1))) =
                  (truthy (ch_webhookUrl c) && negb (default false (ch_webhookSent c)))) by done.
  rewrite Hcond. fold amount. destruct (truthy (ch_webhookUrl c) && negb _) eqn:Ecd.
  - destruct (callWebhook_spec c1 h amount w4) as (w5 & H5 & Hw5 & Ha5 & Hm5 & Hc5 & posts & Hpo & Hposts).
    rewrite bind_eval, H5. m_simp. exists w5, h. split_and!; [done|done|by rewrite Hw5| | | |].
    + destruct Hc5 as [-> | ->]; [by eexists|].
      eexists. rewrite jm_get_alter. simpl. rewrite Hid, decide_True, Hc4 by done. by eexists.
    + by rewrite Ha5.
    + by rewrite Hm5.
    + exists posts. rewrite Hpo, Hp4'. split; [done|].
      apply andb_true_iff in Ecd as [Et _].
      change (ch_webhookUrl c1) with (ch_webhookUrl c) in Hposts. rewrite Et in Hposts.
      destruct Hposts as [Hl Hf5]. split; [done|].
      eapply Forall_impl; [exact Hf5|]. intros [u p] (? & ? & ? & ? & ?). simpl in *.
      split_and!; congruence.
  - m_simp. exists w4, h. split_and!; [done|done|done| by eexists | done | done |].
    exists []. rewrite app_nil_r. split_and!; done.
Qed.
(** The sum of [sum_amounts] over the blocks the wallet prints. *)
Lemma sum_amounts_view b (l : list PendingEntry) w :
  sum_amounts b ((fun e => mkPendingBlock (pe_hash e) (BigInt_to_string (pe_amount e)) (pe_source e)) <$> l) w
  = (w, Ret (b + sum_Z (pe_amount <$> l))%Z).
Proof.
  revert b. induction l as [|e l IH]; intros b; cbn [fmap list_fmap sum_amounts sum_Z foldr].
  - replace (b + 0)%Z with b by lia. reflexivity.
  - rewrite bind_eval. cbn [pb_amount]. rewrite bigint_to_string. cbn beta iota.
    rewrite IH. unfold sum_Z. do 2 f_equal. lia.
Qed.

(** C11: [checkChargeStatus] on a charge whose amount parses, with the node
    answering: it counts the sub-account's balance plus the amounts of
    the first ten receivable blocks only ([getPendingBlocks(index, 10)]),
    so a charge paid in more than ten blocks is reported by what the
    first ten hold; it answers [isPaid] exactly when that total reaches
    the required amount and the difference as [remainingRaw], and
    changes nothing of the processor. *)
Theorem checkChargeStatus_counts_ten id c w req :
  jm_get id (pr_charges (w_proc w)) = Some c -> cache_ok (w_wallet w) ->
  nd_failing (wl_node (w_wallet w)) = [] ->
  BigInt_of_string (ch_amountRaw c) = Some req ->
  let acc := node_account (wl_node (w_wallet w)) (address_of (ch_accountIndex c)) in
  let total := (na_balance acc + sum_Z (pe_amount <$> take 10 (na_receivable acc)))%Z in
  let remaining := if (total <? req)%Z then (req - total)%Z else 0%Z in
  exists w', checkChargeStatus id w =
      (w', Ret (mkStatusResult c (req <=? total)%Z (BigInt_to_string remaining)
                 (rawToNano (BigInt_to_string remaining)))) /\
    same_processor w w' /\ wl_node (w_wallet w') = wl_node (w_wallet w).
Proof.
  intros Hc Hok Hf Hreq acc total remaining.
  destruct (getPendingBlocks_spec (ch_accountIndex c) 10 (w_wallet w) Hok) as (t1 & H1 & [Hok1 Hn1]).
  destruct (getBalance_spec (ch_accountIndex c) t1 Hok1) as (t2 & H2 & [Hok2 Hn2]).
  unfold checkChargeStatus, getCharge. m_simp. rewrite Hc. cbn iota.
  wallet_step H1. wallet_step H2.
  unfold balance_view, pending_view. rewrite Hn1, Hf, !bool_decide_eq_false_2 by set_solver.
  cbn beta iota. fold acc. cbn [fst]. rewrite bind_eval, bigint_to_string. cbn beta iota.
  rewrite bind_eval, sum_amounts_view. cbn beta iota. fold total.
  unfold bigint. rewrite Hreq. m_simp.
  eexists; split; [reflexivity|]. split; [by unfold same_processor|]. simpl. by rewrite Hn2, Hn1.
Qed.
End SweepSpec.

(** ** Examples

    A completed charge of 1000 raw at index 1000 with a webhook; its
    sub-account holds [balance] and nothing receivable. *)
Definition ex_sweep_charge (status : ChargeStatus) : Charge :=
  example_charge "c1" 1000 "1000" "1000" status [] (Some "https://shop.example/hook").
Definition ex_sweep_world (status : ChargeStatus) (balance : Z) : World :=
  example_world true [("c1", ex_sweep_charge status)]
    (example_wallet [("nano_1000", mkNodeAccount true balance "F1" "nano_rep" [])]).

Lemma sweepCharge_success_witness :
  exists w' h, @sweepCharge example_lib "c1" (ex_sweep_world Completed 1000) = (w', Ret (Some (h, "1000"))) /\
    length (w_posts w') = 1.
Proof.
  destruct (@sweepCharge_success example_lib "c1" (ex_sweep_charge Completed) (ex_sweep_world Completed 1000)
    eq_refl eq_refl ltac:(discriminate) ltac:(vm_compute; repeat constructor; set_solver)
    (cache_ok_empty _) eq_refl eq_refl ltac:(vm_compute; reflexivity) eq_refl)
    as (w' & h & Hrun & _ & _ & _ & _ & _ & posts & Hp & Hl & _).
  exists w', h. split; [exact Hrun|]. rewrite Hp, length_app, Hl. reflexivity.
Defined.

Lemma sweepCharge_zero_balance_witness :
  exists w', @sweepCharge example_lib "c1" (ex_sweep_world Expired 0) = (w', Ret None).
Proof.
  destruct (@sweepCharge_zero_balance example_lib "c1" (ex_sweep_charge Expired) (ex_sweep_world Expired 0)
    eq_refl ltac:(discriminate) (cache_ok_empty _) eq_refl eq_refl) as (w' & Hrun & _).
  by exists w'.
Defined.

Lemma sweepCharge_swept_witness :
  @sweepCharge example_lib "c1" (ex_sweep_world Swept 0) = (ex_sweep_world Swept 0, Ret None).
Proof. apply (@sweepCharge_swept example_lib "c1" (ex_sweep_charge Swept)); reflexivity. Defined.

(** The same world with a node that fails [pending] and [account_balance]. *)
Definition ex_node_down : World :=
  set_wallet (mkWallet ∅ (mkNode (nd_accounts (wl_node (w_wallet (ex_sweep_world Completed 1000))))
                            ["pending"; "account_balance"] 0)) (ex_sweep_world Completed 1000).

Lemma sweepCharge_node_down_witness :
  exists w', @sweepCharge example_lib "c1" ex_node_down = (w', Ret None).
Proof.
  destruct (@sweepCharge_node_down example_lib "c1" (ex_sweep_charge Completed) ex_node_down eq_refl
    ltac:(discriminate) (cache_ok_empty _) ltac:(simpl; set_solver) ltac:(simpl; set_solver))
    as (w' & Hrun & _).
  by exists w'.
Defined.

Lemma sweepCharge_not_found_witness :
  @sweepCharge example_lib "c2" (ex_sweep_world Swept 0) = (ex_sweep_world Swept 0, Throw "Charge not found").
Proof. apply sweepCharge_not_found. reflexivity. Defined.

(** A pending charge of 1000 raw whose sub-account has twelve receivable
    blocks of 90: 1080 have arrived, the first ten hold 900. *)
Definition ex_many_blocks_world : World :=
  example_world true [("c1", ex_sweep_charge Pending)]
    (example_wallet [("nano_1000", mkNodeAccount true 0 "F1" "nano_rep"
                                     (repeat (mkPending "P" 90 "nano_a") 12))]).

Lemma checkChargeStatus_counts_ten_witness :
  exists w' r, @checkChargeStatus example_lib "c1" ex_many_blocks_world = (w', Ret r) /\
    cs_isPaid r = false /\ cs_remainingRaw r = "100".
Proof.
  destruct (@checkChargeStatus_counts_ten example_lib "c1" (ex_sweep_charge Pending) ex_many_blocks_world
    1000 eq_refl (cache_ok_empty _) eq_refl ltac:(vm_compute; reflexivity)) as (w' & Hrun & _).
  eexists w', _. split; [exact Hrun|]. vm_compute. split; reflexivity.
Defined.
