(* ===== verification/Payment.v ===== *)
(** * Applying a payment event ([handlePayment], lines 347-392)

    The monitor's [payment] event names the destination address; the
    charge registered for it, if it is still [pending] or [partial],
    records the transaction, adds the amount to [receivedRaw] and becomes
    [completed] (snapshot written at once, then an automatic sweep) or
    [partial] (snapshot debounced).  The transaction is pushed before the
    amounts are converted, as in the source. *)

From S2P Require Import Prelude BigInt JsMap Charge Ledger Wallet Processor Sweep.

(** [interface PaymentEvent] of [monitor.ts] (not under [src/]: the fields
    the handler reads). *)
Record PaymentEvent : Type := mkPaymentEvent {
  ev_to : string;
  ev_from : string;
  ev_hash : string;
  ev_amount : string;
  ev_amountNano : string;
  ev_timestamp : Z;
}.

(** The [PaymentTransaction] literal of lines 357-363. *)
Definition payment_tx (payment : PaymentEvent) : PaymentTransaction :=
  mkTx (ev_hash payment) (ev_from payment) (ev_amount payment)
    (ev_amountNano payment) (ev_timestamp payment).

Section Payment.
Context `{WalletLib}.

Definition handlePayment (payment : PaymentEvent) : M World unit :=
  c ← getChargeByAddress (ev_to payment);
  match c with
  | None => mret tt
  | Some charge =>
      match ch_status charge with
      | Completed | Expired | Swept => mret tt
      | _ =>
          let id := ch_id charge in
          let tx := payment_tx payment in
          mutate id (push_tx tx);;
          previousReceived ← bigint (ch_receivedRaw charge);
          amount ← bigint (ev_amount payment);
          let newReceived := (previousReceived + amount)%Z in
          mutate id (set_received (BigInt_to_string newReceived)
                                  (rawToNano (BigInt_to_string newReceived)));;
          emit (EvPayment id (ev_hash payment));;
          requiredAmount ← bigint (ch_amountRaw charge);
          if (requiredAmount <=? newReceived)%Z then
            t ← now;
            mutate id (set_completed t);;
            persistStateNow;;
            emit (EvCompleted id);;
            w ← get;
            if pr_autoSweep (w_proc w) then sweepCharge id;; mret tt else mret tt
          else
            mutate id (set_status Partial);;
            persistState;;
            emit (EvPartial id)
      end
  end.
End Payment.

(** Unfold the handler and its primitives down to world updates. *)
Ltac pay_unfold :=
  unfold handlePayment, getChargeByAddress, mutate, emit, persistState, persistStateNow, now,
    modify_proc, bigint; m_simp.

(** ** Specification of [handlePayment] *)
Section PaymentSpec.
Context `{WalletLib}.

(** The charge after lines 365-371: the transaction appended and the
    received amount set to [total]. *)
Definition credit (tx : PaymentTransaction) (total : Z) (c : Charge) : Charge :=
  set_received (BigInt_to_string total) (rawToNano (BigInt_to_string total)) (push_tx tx c).

(** What a handler that only touches the charges map leaves alone. *)
Definition charges_only (w w' : World) : Prop :=
  pr_addressToChargeId (w_proc w') = pr_addressToChargeId (w_proc w) /\
  pr_monitorAccounts (w_proc w') = pr_monitorAccounts (w_proc w) /\
  pr_nextAccountIndex (w_proc w') = pr_nextAccountIndex (w_proc w) /\
  w_wallet w' = w_wallet w /\ w_posts w' = w_posts w.

Context (p : PaymentEvent) (w : World) (c : Charge).
Context (Hc : charge_by_address (w_proc w) (ev_to p) = Some c).


(** C26: The error path: a payment whose amount is not a [BigInt] literal
    makes [BigInt(payment.amount)] throw after the transaction was pushed
    (line 365 runs before line 369), so the stored charge keeps the
    transaction but not its amount, and the ledger invariant is broken. *)
Theorem handlePayment_bad_amount r0 :
  is_active c = true -> jm_get (ch_id c) (pr_charges (w_proc w)) = Some c ->
  received_consistent c -> BigInt_of_string (ch_receivedRaw c) = Some r0 ->
  BigInt_of_string (ev_amount p) = None ->
  exists w' c',
    handlePayment p w = (w', Throw ("SyntaxError: Cannot convert " +:+ ev_amount p +:+ " to a BigInt")) /\
    jm_get (ch_id c) (pr_charges (w_proc w')) = Some c' /\
    ch_transactions c' = ch_transactions c ++ [payment_tx p] /\
    ch_receivedRaw c' = ch_receivedRaw c /\ ~ received_consistent c'.
Proof.
  intros Hact Hk Hcons Hr0 Hbad. pay_unfold. rewrite Hc. unfold is_active in Hact.
  destruct (ch_status c); try discriminate; rewrite Hr0, Hbad; m_simp; w_simpl;
    (eexists _, _; split_and!; [reflexivity|..]); w_simpl;
    rewrite ?jm_get_alter, ?decide_True, ?Hk by done; try reflexivity;
    unfold received_consistent in *; cbn; rewrite tx_total_snoc, <- Hcons, Hr0; cbn;
    rewrite Hbad; discriminate.
Qed.

Context (r a req : Z).
Context (Hact : is_active c = true)
        (Hr : BigInt_of_string (ch_receivedRaw c) = Some r)
        (Ha : BigInt_of_string (ev_amount p) = Some a)
        (Hreq : BigInt_of_string (ch_amountRaw c) = Some req).

(** C2: A payment that leaves the charge short of its amount: the charge
    records the transaction, [receivedRaw] becomes the sum, the status
    becomes [partial], the debounced write is armed, and the events are
    [charge:payment] then [charge:partial]. *)
Theorem handlePayment_partial :
  (r + a < req)%Z ->
  exists w', handlePayment p w = (w', Ret tt) /\
    pr_charges (w_proc w') =
      jm_alter (fun x => set_status Partial (credit (payment_tx p) (r + a) x)) (ch_id c)
        (pr_charges (w_proc w)) /\
    pr_saveDebounceTimer (w_proc w') = true /\ w_disk w' = w_disk w /\
    w_events w' = w_events w ++ [EvPayment (ch_id c) (ev_hash p); EvPartial (ch_id c)] /\
    charges_only w w'.
Proof.
  intros Hlt. pay_unfold. rewrite Hc. unfold is_active in Hact.
  destruct (ch_status c); try discriminate; rewrite Hr, Ha, Hreq; m_simp; w_simpl;
    (destruct (Z.leb_spec req (r + a)); [lia|]); m_simp; w_simpl;
    (eexists; split; [reflexivity|]; split_and!; w_simpl; rewrite ?jm_alter_alter, <- ?app_assoc; done).
Qed.

(** C1: A payment that reaches the amount: the charge records the
    transaction and the sum and becomes [completed] at the current time;
    the snapshot, with the charge completed, is written at once and the
    debounce timer cancelled; the events are [charge:payment] then
    [charge:completed]; then, with [autoSweep] on, the sweep of the
    charge runs on that state and its outcome is the handler's. *)
Theorem handlePayment_completed :
  (req <= r + a)%Z ->
  exists w1,
    pr_charges (w_proc w1) =
      jm_alter (fun x => set_completed (w_now w) (credit (payment_tx p) (r + a) x)) (ch_id c)
        (pr_charges (w_proc w)) /\
    w_disk w1 = Snapshot (snapshot w1) /\ pr_saveDebounceTimer (w_proc w1) = false /\
    w_events w1 = w_events w ++ [EvPayment (ch_id c) (ev_hash p); EvCompleted (ch_id c)] /\
    charges_only w w1 /\ pr_autoSweep (w_proc w1) = pr_autoSweep (w_proc w) /\
    handlePayment p w = if pr_autoSweep (w_proc w) then (sweepCharge (ch_id c);; mret tt) w1
                        else (w1, Ret tt).
Proof.
  intros Hle. pay_unfold. rewrite Hc. unfold is_active in Hact.
  destruct (ch_status c); try discriminate; rewrite Hr, Ha, Hreq; m_simp; w_simpl; (destruct (Z.leb_spec req (r + a)); [|lia]); m_simp; w_simpl;
    destruct (pr_autoSweep (w_proc w)) eqn:Eas; cbn beta iota delta [mret M_ret];
    (eexists; split_and!; [..|reflexivity]; w_simpl; rewrite ?jm_alter_alter, <- ?app_assoc; done).
Qed.

Lemma credit_consistent :
  received_consistent c -> received_consistent (credit (payment_tx p) (r + a) c).
Proof. intros Hcons. by apply received_consistent_pay. Qed.

(** C4: The ledger invariant: when the stored charge's [receivedRaw] is the
    sum of its transactions, it still is after the payment, whichever
    branch is taken (before the automatic sweep, which does not touch
    either field). *)
Theorem handlePayment_ledger :
  jm_get (ch_id c) (pr_charges (w_proc w)) = Some c -> received_consistent c ->
  exists w1 c', jm_get (ch_id c) (pr_charges (w_proc w1)) = Some c' /\
    received_consistent c' /\ BigInt_of_string (ch_receivedRaw c') = Some (r + a)%Z /\
    ch_transactions c' = ch_transactions c ++ [payment_tx p] /\
    (handlePayment p w = (w1, Ret tt) \/ handlePayment p w = (sweepCharge (ch_id c);; mret tt) w1).
Proof.
  intros Hk Hcons. pay_unfold. rewrite Hc. unfold is_active in Hact.
  destruct (ch_status c); try discriminate; rewrite Hr, Ha, Hreq; m_simp; w_simpl;
    destruct (Z.leb _ _); m_simp; w_simpl;
    try (destruct (pr_autoSweep (w_proc w)); cbn beta iota delta [mret M_ret]);
    (eexists _, _; split_and!; [..|first [left; reflexivity | right; reflexivity]]);
    w_simpl; rewrite ?jm_alter_alter, ?jm_get_alter, ?decide_True, ?Hk by done;
    first [reflexivity | exact (credit_consistent Hcons) | exact (BigInt_roundtrip _)].
Qed.
End PaymentSpec.

(** ** Examples

    A charge of 1000 raw at index 1000 and payments to its address. *)
Definition ex_charge (status : ChargeStatus) : Charge :=
  example_charge "c1" 1000 "1000" "0" status [] None.
Definition ex_world (status : ChargeStatus) : World :=
  example_world false [("c1", ex_charge status)] (example_wallet []).
Definition ex_pay (amount : string) : PaymentEvent :=
  mkPaymentEvent "nano_1000" "nano_src" "H1" amount amount 10.


Lemma handlePayment_partial_witness :
  exists w', @handlePayment example_lib (ex_pay "400") (ex_world Pending) = (w', Ret tt) /\
    w_events w' = [EvPayment "c1" "H1"; EvPartial "c1"].
Proof.
  destruct (@handlePayment_partial example_lib (ex_pay "400") (ex_world Pending) (ex_charge Pending)
    eq_refl 0 400 1000 eq_refl eq_refl eq_refl eq_refl) as (w' & Hrun & _ & _ & _ & Hev & _); [lia|].
  exists w'. split; [exact Hrun|]. rewrite Hev. reflexivity.
Defined.

Lemma handlePayment_completed_witness :
  exists w1, @handlePayment example_lib (ex_pay "1000") (ex_world Partial) = (w1, Ret tt) /\
    w_events w1 = [EvPayment "c1" "H1"; EvCompleted "c1"].
Proof.
  destruct (@handlePayment_completed example_lib (ex_pay "1000") (ex_world Partial) (ex_charge Partial)
    eq_refl 0 1000 1000 eq_refl eq_refl eq_refl eq_refl) as (w1 & _ & _ & _ & Hev & _ & _ & Hrun); [lia|].
  exists w1. split; [exact Hrun|]. rewrite Hev. reflexivity.
Defined.

Lemma handlePayment_ledger_witness :
  exists w1 c', jm_get "c1" (pr_charges (w_proc w1)) = Some c' /\ received_consistent c' /\
    BigInt_of_string (ch_receivedRaw c') = Some 400%Z.
Proof.
  destruct (@handlePayment_ledger example_lib (ex_pay "400") (ex_world Pending) (ex_charge Pending)
    eq_refl 0 400 1000 eq_refl eq_refl eq_refl eq_refl eq_refl eq_refl)
    as (w1 & c' & Hg & Hcons & Hr & _).
  by exists w1, c'.
Defined.

Lemma handlePayment_bad_amount_witness :
  exists w' c', @handlePayment example_lib (ex_pay "4e2") (ex_world Pending) =
                  (w', Throw "SyntaxError: Cannot convert 4e2 to a BigInt") /\
    jm_get "c1" (pr_charges (w_proc w')) = Some c' /\ ~ received_consistent c'.
Proof.
  destruct (@handlePayment_bad_amount example_lib (ex_pay "4e2") (ex_world Pending) (ex_charge Pending)
    eq_refl 0 eq_refl eq_refl eq_refl eq_refl eq_refl) as (w' & c' & Hrun & Hg & _ & _ & Hn).
  by exists w', c'.
Defined.
