(* ===== verification/Expiry.v ===== *)
(** * The expiry scan ([checkExpiredCharges], lines 534-563)

    Every 10 s the processor marks each [pending]/[partial] charge whose
    deadline has passed as [expired].  A charge that received funds is
    swept (when [autoSweep] is on), one that did not has its address
    released.  The sweeps are started without [await]: their synchronous
    prefix only derives the sub-account address, so they run here after the
    loop and the debounced write, in order, each failure caught and
    reported. *)

From S2P Require Import Prelude BigInt JsMap Charge Ledger Wallet Processor Sweep.

Section Expiry.
Context `{WalletLib}.

(** The synchronous loop: the flag [stateChanged] and the charges whose
    sweep was started. *)
Fixpoint expire_loop (t : Z) (entries : list (string * Charge)) (stateChanged : bool)
    (toSweep : list string) : M World (bool * list string) :=
  match entries with
  | [] => mret (stateChanged, toSweep)
  | (id, charge) :: rest =>
      if is_active charge && (ch_expiresAt charge <? t)%Z then
        mutate id (set_status Expired);;
        emit (EvExpired id);;
        received ← bigint (ch_receivedRaw charge);
        w ← get;
        if (0 <? received)%Z && pr_autoSweep (w_proc w) then
          expire_loop t rest true (toSweep ++ [ch_id charge])
        else
          modify_proc (upd_addresses (jm_delete (ch_address charge)));;
          monitor_remove (ch_address charge);;
          expire_loop t rest true toSweep
      else expire_loop t rest stateChanged toSweep
  end.

Definition checkExpiredCharges : M World unit :=
  t ← now;
  w ← get;
  '(stateChanged, toSweep) ← expire_loop t (pr_charges (w_proc w)) false [];
  (if (stateChanged : bool) then persistState else mret tt);;
  for_each toSweep (fun id =>
    try! (sweepCharge id;; mret tt) catch! (fun e => emit (EvError e))).
End Expiry.

(** ** Specification of the scan *)

(** The condition of lines 539-542. *)
Definition due (t : Z) (c : Charge) : bool := is_active c && (ch_expiresAt c <? t)%Z.

(** [BigInt(charge.receivedRaw) > BigInt(0)] for a parsable amount. *)
Definition has_funds (c : Charge) : bool :=
  match BigInt_of_string (ch_receivedRaw c) with Some r => (0 <? r)%Z | None => false end.

Definition expire_entry (t : Z) (e : string * Charge) : string * Charge :=
  (e.1, if due t e.2 then set_status Expired e.2 else e.2).

(** The due entries swept, and those whose address is released. *)
Definition to_sweep (t : Z) (auto : bool) (l : JsMap string Charge) : JsMap string Charge :=
  filter (fun e => due t e.2 && has_funds e.2 && auto = true) l.
Definition to_release (t : Z) (auto : bool) (l : JsMap string Charge) : JsMap string Charge :=
  filter (fun e => due t e.2 && negb (has_funds e.2 && auto) = true) l.

(** The world after the loop has visited [l], [done] being the entries
    before it. *)
Definition expired_world (t : Z) (done l : JsMap string Charge) (w : World) : World :=
  let p := w_proc w in
  let rel := to_release t (pr_autoSweep p) l in
  mkWorld
    (mkProcessor (done ++ map (expire_entry t) l)
       (foldl (fun m e => jm_delete (ch_address e.2) m) (pr_addressToChargeId p) rel)
       (pr_nextAccountIndex p) (pr_mainAccountIndex p) (pr_autoSweep p) (pr_isRunning p)
       (pr_expiryCheckInterval p) (pr_saveDebounceTimer p)
       (foldl (fun s e => s ∖ {[ch_address e.2]}) (pr_monitorAccounts p) rel) (pr_monitorRunning p))
    (w_wallet w) (w_disk w) (w_now w) (w_http w) (w_posts w)
    (w_events w ++ map (fun e => EvExpired e.1) (filter (fun e => due t e.2 = true) l)).

Lemma jm_wf_mid_change (done rest : JsMap string Charge) k c c' :
  jm_wf (done ++ (k, c) :: rest) -> jm_wf ((done ++ [(k, c')]) ++ rest).
Proof. unfold jm_wf, jm_keys. rewrite <- app_assoc, !map_app. simpl. done. Qed.

Definition expire_charge (t : Z) (c : Charge) : Charge :=
  if due t c then set_status Expired c else c.

Lemma due_expire_charge t c : due t (expire_charge t c) = false.
Proof. unfold expire_charge. destruct (due t c) eqn:E; [reflexivity|exact E]. Qed.

Lemma jm_get_expire t id m :
  jm_get id (map (expire_entry t) m) = expire_charge t <$> jm_get id m.
Proof. exact (jm_get_map_values (expire_charge t) id m). Qed.

Lemma to_sweep_off t l : to_sweep t false l = [].
Proof.
  unfold to_sweep. induction l as [|e l IH]; [done|].
  rewrite filter_cons_False; [done|]. by rewrite andb_false_r.
Qed.

Lemma foldl_difference {A} (f : A -> string) (l : list A) (s : gset string) :
  foldl (fun s e => s ∖ {[f e]}) s l ≡ s ∖ list_to_set (f <$> l).
Proof. revert s. induction l as [|e l IH]; intros s; simpl; [set_solver|]. rewrite IH. set_solver. Qed.

Lemma foldl_difference_notin {A} (f : A -> string) (l : list A) (s : gset string) a :
  a ∈ f <$> l -> a ∉ foldl (fun s e => s ∖ {[f e]}) s l.
Proof. rewrite foldl_difference, elem_of_difference, elem_of_list_to_set. naive_solver. Qed.

Section ExpirySpec.
Context `{WalletLib}.

(** The loop over the entries [l] still to visit, the map being
    [done ++ l]: it ends in [expired_world], with the flag set when some
    entry was due and the due charges with funds queued for sweeping (when
    [autoSweep] is on), in map order. *)
Lemma expire_loop_spec t l done ch ts w :
  pr_charges (w_proc w) = done ++ l -> jm_wf (done ++ l) ->
  Forall (fun e => is_Some (BigInt_of_string (ch_receivedRaw e.2))) l ->
  expire_loop t l ch ts w =
    (expired_world t done l w,
     Ret (ch || existsb (fun e => due t e.2) l,
          ts ++ map (fun e => ch_id e.2) (to_sweep t (pr_autoSweep (w_proc w)) l))).
Proof.
  revert done ch ts w. induction l as [|[k c] l IH]; intros done ch ts w Hm Hwf Hp; cbn [expire_loop].
  - destruct w as [[]]; simpl in *. subst. unfold expired_world. simpl. by rewrite !app_nil_r, orb_false_r.
  - inversion Hp as [|? ? [r Hr] Hp']; subst. fold (due t c). simpl in Hr.
    destruct (due t c) eqn:Ed.
    + assert (Hf : has_funds c = (0 <? r)%Z) by (unfold has_funds; by rewrite Hr).
      assert (Hk : k ∉ jm_keys done) by (by eapply jm_wf_app_cons_notin).
      assert (He : expire_entry t (k, c) = (k, set_status Expired c))
        by (unfold expire_entry; simpl; by rewrite Ed).
      apply (jm_wf_mid_change _ _ _ _ (set_status Expired c)) in Hwf.
      unfold mutate, emit, monitor_remove, modify_proc, bigint. rewrite Hr. m_simp. w_simpl.
      rewrite <- Hf.
      destruct (has_funds c && pr_autoSweep (w_proc w)) eqn:Es;
        [|m_simp; w_simpl];
        (rewrite (IH (done ++ [(k, set_status Expired c)])); w_simpl;
          [|by rewrite Hm, jm_alter_app, <- app_assoc|done|done]);
        unfold expired_world, to_sweep, to_release; w_simpl;
        cbn [filter list_filter map existsb foldl fst snd]; rewrite He, ?Ed, ?Es;
        repeat case_decide; cbn [andb negb] in *; try congruence;
        rewrite <- ?app_assoc; cbn [foldl app orb map fst snd]; rewrite ?orb_true_r; done.
    + assert (He : expire_entry t (k, c) = (k, c)) by (unfold expire_entry; simpl; by rewrite Ed).
      rewrite (IH (done ++ [(k, c)])); [|by rewrite <- app_assoc, Hm|by rewrite <- app_assoc|done].
      unfold expired_world, to_sweep, to_release.
      cbn [filter list_filter map existsb fst snd]. rewrite He, ?Ed.
      repeat case_decide; cbn [andb negb] in *; try congruence. cbn [orb]. by rewrite <- app_assoc.
Qed.

(** The sweeps [checkExpiredCharges] starts, each rejection reported. *)
Definition sweep_all (ids : list string) : M World unit :=
  for_each ids (fun id => try! (sweepCharge id;; mret tt) catch! (fun e => emit (EvError e))).

(** C5: The expiry scan at time [t = now] is: every [pending]/[partial]
    charge whose [expiresAt] is before [t] becomes [expired] in place
    (the others are untouched), [charge:expired] is emitted for each in
    map order, those without funds (or all of them when [autoSweep] is
    off) have their address released from the index and the monitor, the
    debounced write is armed when one expired, and then the charges with
    funds are swept in map order, each failure reported as [error]. *)
Theorem checkExpiredCharges_spec w :
  jm_wf (pr_charges (w_proc w)) ->
  Forall (fun e => is_Some (BigInt_of_string (ch_receivedRaw e.2))) (pr_charges (w_proc w)) ->
  let t := w_now w in
  let m := pr_charges (w_proc w) in
  let w1 := expired_world t [] m w in
  let w2 := if existsb (fun e => due t e.2) m
            then set_proc (upd_timers (pr_isRunning (w_proc w1)) (pr_expiryCheckInterval (w_proc w1))
                             true (w_proc w1)) w1
            else w1 in
  checkExpiredCharges w =
    sweep_all (map (fun e => ch_id e.2) (to_sweep t (pr_autoSweep (w_proc w)) m)) w2.
Proof.
  intros Hwf Hp t m w1 w2. unfold checkExpiredCharges, now. m_simp.
  rewrite bind_eval, (expire_loop_spec _ _ []) by done. cbn beta iota.
  fold m t w1. unfold w2. destruct (existsb _ _); unfold persistState, modify_proc; m_simp; done.
Qed.

(** C17: With [autoSweep] off, the scan returns having left no charge due:
    each stored charge is the old one, [expired] when it was due; every
    charge that was due has its address released from the index and no
    longer watched by the monitor; nothing is swept (the wallet and the
    webhooks are untouched). *)
Theorem checkExpiredCharges_releases w :
  pr_autoSweep (w_proc w) = false ->
  jm_wf (pr_charges (w_proc w)) -> jm_wf (pr_addressToChargeId (w_proc w)) ->
  Forall (fun e => is_Some (BigInt_of_string (ch_receivedRaw e.2))) (pr_charges (w_proc w)) ->
  exists w', checkExpiredCharges w = (w', Ret tt) /\
    pr_charges (w_proc w') = map (expire_entry (w_now w)) (pr_charges (w_proc w)) /\
    (forall id c, jm_get id (pr_charges (w_proc w')) = Some c -> due (w_now w) c = false) /\
    (forall e, e ∈ pr_charges (w_proc w) -> due (w_now w) e.2 = true ->
       jm_get (ch_address e.2) (pr_addressToChargeId (w_proc w')) = None /\
       ch_address e.2 ∉ pr_monitorAccounts (w_proc w')) /\
    w_wallet w' = w_wallet w /\ w_posts w' = w_posts w.
Proof.
  intros Hoff Hwf Hwa Hp. unfold checkExpiredCharges, now. m_simp.
  rewrite bind_eval, (expire_loop_spec _ _ []) by done. cbn beta iota.
  rewrite Hoff, to_sweep_off. cbn [map app].
  assert (Hrel : forall e, e ∈ pr_charges (w_proc w) -> due (w_now w) e.2 = true ->
            ch_address e.2 ∈ (fun e : string * Charge => ch_address e.2) <$>
                             to_release (w_now w) false (pr_charges (w_proc w))).
  { intros e He Hd. apply (list_elem_of_fmap_2 (fun e : string * Charge => ch_address e.2)).
    apply list_elem_of_filter. by rewrite Hd, andb_false_r. }
  destruct (existsb _ _); unfold persistState, modify_proc; m_simp; unfold expired_world; w_simpl;
    (eexists; split_and!; [reflexivity|..]); w_simpl; try done;
    first
    [intros id c Hg; cbn [app] in Hg; rewrite jm_get_expire in Hg;
       apply fmap_Some in Hg as [c0 [_ ->]]; apply due_expire_charge
    |intros e He Hd; rewrite Hoff; split;
       [apply (jm_get_foldl_delete (fun e => ch_address e.2)); [done|by apply Hrel]
       |apply (foldl_difference_notin (fun e => ch_address e.2)); by apply Hrel]
    ].
Qed.
End ExpirySpec.

(** ** Examples

    At 2000000 ms, past the 30-minute deadline: [c1] pending and unpaid,
    [c2] partial with 400 raw received, [c3] already completed. *)
Definition ex_expiry_world (autoSweep : bool) : World :=
  let w := example_world autoSweep
             [("c1", example_charge "c1" 1000 "1000" "0" Pending [] None);
              ("c2", example_charge "c2" 1001 "1000" "400" Partial [] None);
              ("c3", example_charge "c3" 1002 "1000" "1000" Completed [] None)]
             (example_wallet []) in
  mkWorld (w_proc w) (w_wallet w) (w_disk w) 2000000 (w_http w) (w_posts w) (w_events w).

Lemma checkExpiredCharges_spec_witness :
  exists w2, @checkExpiredCharges example_lib (ex_expiry_world true) = @sweep_all example_lib ["c2"] w2.
Proof.
  eexists. rewrite (@checkExpiredCharges_spec example_lib (ex_expiry_world true)).
  - reflexivity.
  - vm_compute. repeat constructor; set_solver.
  - repeat constructor; eexists; reflexivity.
Defined.

Lemma checkExpiredCharges_releases_witness :
  exists w', @checkExpiredCharges example_lib (ex_expiry_world false) = (w', Ret tt) /\
    map (fun e => ch_status e.2) (pr_charges (w_proc w')) = [Expired; Expired; Completed].
Proof.
  destruct (@checkExpiredCharges_releases example_lib (ex_expiry_world false) eq_refl
    ltac:(vm_compute; repeat constructor; set_solver) ltac:(vm_compute; repeat constructor; set_solver)
    ltac:(repeat constructor; eexists; reflexivity)) as (w' & Hrun & Hc & _).
  exists w'. split; [exact Hrun|]. rewrite Hc. reflexivity.
Defined.
