(* ===== verification/Recovery.v ===== *)
(** * Startup recovery and the processor's lifecycle

    [checkMissedPayments] (lines 219-274), [start] (lines 192-214) and
    [stop] (lines 276-286).  At start the processor re-subscribes the
    active charges, then for each of them receives the blocks still
    pending on its sub-account (at most 10, as [getPendingBlocks] asks),
    records each as a transaction and recomputes the status; a failure on
    one block or one charge is reported and the scan goes on. *)

From S2P Require Import Prelude BigInt JsMap Charge Ledger Wallet Processor Sweep.

Section Recovery.
Context `{WalletLib}.

(** The inner [try]: receive one pending block and record it. *)
Definition recover_block (id : string) (accountIndex : Z) (p : PendingBlock) : M World unit :=
  try! (
    wallet (receive (pb_hash p) (pb_amount p) accountIndex);;
    t ← now;
    let tx := mkTx (pb_hash p) (pb_source p) (pb_amount p) (rawToNano (pb_amount p)) t in
    mutate id (push_tx tx);;
    c ← getCharge id;
    match c with
    | None => mret tt
    | Some charge =>
        r ← bigint (ch_receivedRaw charge);
        a ← bigint (pb_amount p);
        let newReceived := BigInt_to_string (r + a)%Z in
        mutate id (set_received newReceived (rawToNano newReceived));;
        emit (EvPayment id (pb_hash p))
    end)
  catch! (fun e => emit (EvError e)).

(** The body of the outer [try] for one active charge. *)
Definition recover_charge (charge : Charge) : M World unit :=
  let id := ch_id charge in
  pending ← wallet (getPendingBlocks (ch_accountIndex charge) 10);
  match pending with
  | [] => mret tt
  | _ =>
      emit (EvRecoveryFound id (length pending));;
      for_each pending (recover_block id (ch_accountIndex charge));;
      c ← getCharge id;
      match c with
      | None => mret tt
      | Some charge' =>
          received ← bigint (ch_receivedRaw charge');
          required ← bigint (ch_amountRaw charge');
          if (required <=? received)%Z then
            t ← now;
            mutate id (set_completed t);;
            persistStateNow;;
            emit (EvCompleted id);;
            w ← get;
            if pr_autoSweep (w_proc w) then sweepCharge id;; mret tt else mret tt
          else if (0 <? received)%Z then
            mutate id (set_status Partial);;
            persistState
          else mret tt
      end
  end.

Definition checkMissedPayments : M World unit :=
  w ← get;
  for_each (listActiveCharges (w_proc w)) (fun charge =>
    try! recover_charge charge catch! (fun e => emit (EvError e))).

(** [start()] *)
Definition start : M World unit :=
  w ← get;
  if pr_isRunning (w_proc w) then mret tt else
  modify_proc (fun p => upd_timers true (pr_expiryCheckInterval p) (pr_saveDebounceTimer p) p);;
  let activeCharges := listActiveCharges (w_proc w) in
  for_each activeCharges (fun charge => monitor_add (ch_address charge));;
  checkMissedPayments;;
  modify_proc (fun p => upd_monitor id true p);;
  modify_proc (fun p => upd_timers (pr_isRunning p) true (pr_saveDebounceTimer p) p);;
  emit (EvStarted (length activeCharges)).

(** [stop()] *)
Definition stop : M World unit :=
  modify_proc (fun p => upd_timers false (pr_expiryCheckInterval p) (pr_saveDebounceTimer p) p);;
  modify_proc (fun p => upd_monitor id false p);;
  modify_proc (fun p => upd_timers (pr_isRunning p) false (pr_saveDebounceTimer p) p);;
  emit EvStopped.
End Recovery.

(** ** Specification of the recovery scan *)
Section RecoverySpec.
Context `{WalletLib}.

(** The transaction the scan records for a received block at time [t]. *)
Definition recovered_tx (p : PendingBlock) (t : Z) : PaymentTransaction :=
  mkTx (pb_hash p) (pb_source p) (pb_amount p) (rawToNano (pb_amount p)) t.

(** Recovering one pending block: once the wallet received it, the
    charge stored under [id] gets the transaction appended and the amount
    added to [receivedRaw], and [charge:payment] is emitted -- whatever
    transactions the charge already records: a block whose hash is already
    in [transactions] is applied again. *)
Theorem recover_block_applies id i p w c wl rr r a :
  jm_get id (pr_charges (w_proc w)) = Some c ->
  receive (pb_hash p) (pb_amount p) i (w_wallet w) = (wl, Ret rr) ->
  BigInt_of_string (ch_receivedRaw c) = Some r -> BigInt_of_string (pb_amount p) = Some a ->
  exists w', recover_block id i p w = (w', Ret tt) /\
    jm_get id (pr_charges (w_proc w')) =
      Some (set_received (BigInt_to_string (r + a)) (rawToNano (BigInt_to_string (r + a)))
              (push_tx (recovered_tx p (w_now w)) c)) /\
    w_events w' = w_events w ++ [EvPayment id (pb_hash p)] /\ w_wallet w' = wl.
Proof.
  intros Hc Hrcv Hr Ha. unfold recover_block, try_catch, now, mutate, getCharge, emit.
  wallet_step Hrcv. m_simp. w_simpl. rewrite jm_get_alter, decide_True, Hc by done. cbn [fmap option_fmap option_map].
  unfold bigint. cbn [ch_receivedRaw push_tx]. rewrite Hr, Ha. m_simp. w_simpl.
  eexists; split_and!; [reflexivity| |done|done].
  w_simpl. rewrite jm_alter_alter, jm_get_alter, decide_True, Hc by done. reflexivity.
Qed.

Lemma filter_eq_length_pos {A} (f : A -> string) (x : string) (l : list A) :
  x ∈ f <$> l -> 1 <= length (filter (fun y => f y = x) l).
Proof.
  intros (y & -> & Hy)%list_elem_of_fmap. apply list_elem_of_split in Hy as (l1 & l2 & ->).
  rewrite filter_app, filter_cons, decide_True, length_app by done. simpl. lia.
Qed.

(** C10: The recovery scan double counts: [recover_block] does not look at
    the transactions the charge already records.  A block whose hash the
    stored charge already has as a transaction -- as after [handlePayment]
    applied the monitor's event for it, which records the transaction
    without receiving the block, so that it is still pending on the
    ledger at the next start -- is applied a second time once the wallet
    receives it: the hash is then recorded at least twice and its amount
    is added to [receivedRaw] again. *)
Theorem recover_block_double_counts id i p w c wl rr r a :
  jm_get id (pr_charges (w_proc w)) = Some c ->
  pb_hash p ∈ tx_hash <$> ch_transactions c ->
  receive (pb_hash p) (pb_amount p) i (w_wallet w) = (wl, Ret rr) ->
  BigInt_of_string (ch_receivedRaw c) = Some r -> BigInt_of_string (pb_amount p) = Some a ->
  exists w' c', recover_block id i p w = (w', Ret tt) /\ jm_get id (pr_charges (w_proc w')) = Some c' /\
    BigInt_of_string (ch_receivedRaw c') = Some (r + a)%Z /\
    2 <= length (filter (fun tx => tx_hash tx = pb_hash p) (ch_transactions c')).
Proof.
  intros Hc Hin Hrcv Hr Ha.
  destruct (recover_block_applies id i p w c wl rr r a Hc Hrcv Hr Ha) as (w' & Hrun & Hg & _).
  eexists _, _. split_and!; [exact Hrun|exact Hg|apply BigInt_roundtrip|].
  cbn [ch_transactions set_received push_tx]. rewrite filter_app, length_app, filter_cons, decide_True by done.
  pose proof (filter_eq_length_pos tx_hash (pb_hash p) _ Hin). simpl. lia.
Qed.
End RecoverySpec.

(** ** Examples

    A partial charge that already recorded the block [P1] of 500, whose
    sub-account still has [P1] receivable. *)
Definition ex_recovered_charge : Charge :=
  example_charge "c1" 1000 "1000" "500" Partial [mkTx "P1" "nano_payer" "500" "500" 10] None.
Definition ex_recovery_world : World :=
  example_world true [("c1", ex_recovered_charge)]
    (example_wallet [("nano_1000", mkNodeAccount false 0 "" "" [mkPending "P1" 500 "nano_payer"])]).
Definition ex_pending : PendingBlock := mkPendingBlock "P1" "500" "nano_payer".

Lemma recover_block_applies_witness :
  exists w', @recover_block example_lib "c1" 1000 ex_pending ex_recovery_world = (w', Ret tt) /\
    (fun c => (ch_receivedRaw c, tx_hash <$> ch_transactions c)) <$> jm_get "c1" (pr_charges (w_proc w'))
      = Some ("1000", ["P1"; "P1"]).
Proof.
  destruct (@recover_block_applies example_lib "c1" 1000 ex_pending ex_recovery_world ex_recovered_charge
    (fst (@receive example_lib "P1" "500" 1000 (w_wallet ex_recovery_world))) (mkReceiveResult "B0" "500")
    500 500 eq_refl ltac:(vm_compute; reflexivity) eq_refl eq_refl) as (w' & Hrun & Hg & _).
  exists w'. split; [exact Hrun|]. rewrite Hg. reflexivity.
Defined.

Lemma recover_block_double_counts_witness :
  exists w' c', @recover_block example_lib "c1" 1000 ex_pending ex_recovery_world = (w', Ret tt) /\
    jm_get "c1" (pr_charges (w_proc w')) = Some c' /\
    BigInt_of_string (ch_receivedRaw c') = Some (500 + 500)%Z /\
    2 <= length (filter (fun tx => tx_hash tx = pb_hash ex_pending) (ch_transactions c')).
Proof.
  apply (@recover_block_double_counts example_lib "c1" 1000 ex_pending ex_recovery_world ex_recovered_charge
    (fst (@receive example_lib "P1" "500" 1000 (w_wallet ex_recovery_world))) (mkReceiveResult "B0" "500"));
    [reflexivity|vm_compute; left|vm_compute; reflexivity|reflexivity|reflexivity].
Defined.
