(* ===== verification/Scenarios.v ===== *)
(** * Scenarios of the specification, run on the model

    Each scenario is a sequence of operations of the processor and of
    steps of its environment (payments arriving on the ledger, the clock
    advancing, a restart of the process), evaluated on concrete data with
    [vm_compute]: the three scenarios of §8 of the specification, and the
    runs that exhibit the defects the other files prove in general. *)

From S2P Require Import Prelude BigInt JsMap Charge Ledger Wallet Processor Sweep Payment Expiry Recovery.

Local Open Scope Z_scope.

(** ** Steps of the environment *)

(** A payment of [amount] raw from [from] lands on [to]: a receivable
    block with hash [h]. *)
Definition ledger_pay (h from to : string) (amount : Z) (w : World) : World :=
  let n := wl_node (w_wallet w) in
  let acc := node_account n to in
  set_wallet (mkWallet (wl_accounts (w_wallet w))
    (put_account to (mkNodeAccount (na_opened acc) (na_balance acc) (na_frontier acc)
                       (na_representative acc) (na_receivable acc ++ [mkPending h amount from])) n)) w.

(** The clock moves to [t]. *)
Definition advance (t : Z) (w : World) : World :=
  mkWorld (w_proc w) (w_wallet w) (w_disk w) t (w_http w) (w_posts w) (w_events w).

(** The process stops and a new one starts: the memory is lost, the file,
    the wallet's node, the clock and what was sent stay. *)
Definition restart (w : World) : World :=
  mkWorld (initial_processor (mkConfig None None None) 0) (mkWallet ∅ (wl_node (w_wallet w)))
    (w_disk w) (w_now w) (w_http w) (w_posts w) (w_events w).

(** Run a computation and keep the final state. *)
Definition run {A} (m : M World A) (w : World) : World := fst (m w).

(** ** Reading the results *)
Definition status_of (id : string) (w : World) : option ChargeStatus :=
  ch_status <$> jm_get id (pr_charges (w_proc w)).
Definition received_of (id : string) (w : World) : option string :=
  ch_receivedRaw <$> jm_get id (pr_charges (w_proc w)).
Definition swept_amounts (w : World) : list string := (fun p => wp_sweptAmountRaw p.2) <$> w_posts w.
Definition on_chain (a : string) (w : World) : Z * list Z :=
  let acc := node_account (wl_node (w_wallet w)) a in (na_balance acc, pe_amount <$> na_receivable acc).

(** The initial state: no file, an empty ledger, the clock at 0. *)
Definition world0 : World :=
  mkWorld (initial_processor (mkConfig None None None) 1000) (example_wallet []) NoFile 0
    (fun _ => Some 200%Z) [] [].

Definition hook : string := "https://shop.example/hook".

Definition opts (amount : string) : CreateChargeOptions :=
  mkCreateChargeOptions amount (Some 60000) None (Some hook).

Definition payment (h to : string) (amount : string) (t : Z) : PaymentEvent :=
  mkPaymentEvent to "nano_payer" h amount amount t.

Section Runs.
Local Existing Instance example_lib.

(** Scenario 1 of §8: a charge of 1000000, paid in full. *)
Definition scenario1 : World :=
  let w1 := run (createCharge "chg1" (opts "1000000")) world0 in
  let w2 := ledger_pay "P1" "nano_payer" "nano_1000" 1000000 (advance 1000 w1) in
  run (handlePayment (payment "P1" "nano_1000" "1000000" 1000)) w2.

(** Scenario 2 of §8: a partial payment of 400000, then the deadline. *)
Definition scenario2_paid : World :=
  let w1 := run (createCharge "chg1" (opts "1000000")) world0 in
  let w2 := ledger_pay "P1" "nano_payer" "nano_1000" 400000 (advance 1000 w1) in
  run (handlePayment (payment "P1" "nano_1000" "400000" 1000)) w2.
Definition scenario2_status : ChargeStatusResult :=
  match (checkChargeStatus "chg1" scenario2_paid).2 with
  | Ret r => r
  | Throw _ => mkStatusResult (example_charge "" 0 "" "" Pending [] None) false "" ""
  end.
Definition scenario2_expired : World :=
  run checkExpiredCharges (advance 70000 scenario2_paid).

(** Scenario 3 of §8: a restart on a snapshot with one [pending] charge
    whose payment arrived on the ledger while the processor was down. *)
Definition scenario3_before : World :=
  let w1 := run (createCharge "chg1" (opts "1000000")) world0 in
  let w2 := run saveDebounceFire w1 in
  ledger_pay "P1" "nano_payer" "nano_1000" 1000000 (advance 1000 w2).
Definition scenario3 : World :=
  run (construct (mkConfig None None None);; start) (restart scenario3_before).

(** A partial payment of 500 of 1000 seen live, written by the debounced
    save, then a restart: the recovery scan receives the same block and
    adds it a second time. *)
Definition double_count : World :=
  let w1 := run (createCharge "chg1" (opts "1000")) world0 in
  let w2 := ledger_pay "P1" "nano_payer" "nano_1000" 500 (advance 1000 w1) in
  let w3 := run (handlePayment (payment "P1" "nano_1000" "500" 1000)) w2 in
  let w4 := run saveDebounceFire w3 in
  run (construct (mkConfig None None None);; start) (restart w4).

(** Eleven payments of 100 on the ledger for a charge of 1100, then a
    sweep: [getPendingBlocks] asks for ten. *)
Fixpoint pay_n (n : nat) (w : World) : World :=
  match n with
  | O => w
  | S k => pay_n k (ledger_pay ("P" +:+ BigInt_to_string (Z.of_nat n)) "nano_payer" "nano_1000" 100 w)
  end.
Definition many_blocks_before : World :=
  pay_n 11 (run (createCharge "chg1" (opts "1100")) world0).
Definition many_blocks_status : bool :=
  match (checkChargeStatus "chg1" many_blocks_before).2 with
  | Ret r => cs_isPaid r | Throw _ => false end.
Definition many_blocks : World :=
  run (sweepCharge "chg1") many_blocks_before.

(** A [charge create] command and the listener it starts, two processes
    sharing the file: the listener reads the file before the command's
    debounced save wrote the new charge, and never reads it again. *)
Definition cli_process : World := run (createCharge "chg1" (opts "1000")) world0.
Definition listener0 : World :=
  run (construct (mkConfig None None None);; start) (restart cli_process).
Definition cli_saved : World := run saveDebounceFire cli_process.
Definition listener_paid : World :=
  run (handlePayment (payment "P1" "nano_1000" "1000" 1000))
    (ledger_pay "P1" "nano_payer" "nano_1000" 1000 (advance 1000 listener0)).
End Runs.

(** ** The scenarios of §8 *)

(** Scenario 1 of §8: after a full payment of 1000000 the charge is
    completed, the automatic sweep sends 1000000 to the main account, the
    charge is [swept], and one notification carries
    [sweptAmountRaw = "1000000"]. *)
Theorem scenario1_swept :
  status_of "chg1" scenario1 = Some Swept /\ swept_amounts scenario1 = ["1000000"] /\
  w_events scenario1 = [EvCreated "chg1"; EvPayment "chg1" "P1"; EvCompleted "chg1";
                        EvSwept "chg1" "B1" "1000000"; EvWebhookSent "chg1" hook] /\
  on_chain "nano_1000" scenario1 = (0, []) /\ on_chain "nano_0" scenario1 = (0, [1000000]).
Proof. split_and!; vm_compute; reflexivity. Qed.

(** Scenario 2 of §8: after a payment of 400000 of 1000000 the charge
    is [partial] and [checkChargeStatus] reports 600000 remaining; past the
    deadline the scan expires it and sweeps the 400000 it holds. *)
Theorem scenario2_expired_swept :
  status_of "chg1" scenario2_paid = Some Partial /\
  cs_remainingRaw scenario2_status = "600000" /\ cs_isPaid scenario2_status = false /\
  swept_amounts scenario2_expired = ["400000"] /\
  w_events scenario2_expired = [EvCreated "chg1"; EvPayment "chg1" "P1"; EvPartial "chg1";
                                EvExpired "chg1"; EvSwept "chg1" "B1" "400000";
                                EvWebhookSent "chg1" hook].
Proof. split_and!; vm_compute; reflexivity. Qed.

(** Scenario 3 of §8: restarted on a snapshot with a [pending] charge
    whose payment arrived while it was down, the processor finds it in the
    recovery scan, completes and sweeps the charge, without any live
    event. *)
Theorem scenario3_recovered :
  status_of "chg1" scenario3 = Some Swept /\ swept_amounts scenario3 = ["1000000"] /\
  w_events scenario3 = [EvCreated "chg1"; EvStateLoaded 1; EvRecoveryFound "chg1" 1;
                        EvPayment "chg1" "P1"; EvCompleted "chg1"; EvSwept "chg1" "B1" "1000000";
                        EvWebhookSent "chg1" hook; EvStarted 1].
Proof. split_and!; vm_compute; reflexivity. Qed.

(** ** Runs that exhibit defects *)

(** Double counting: a payment of 500 to a charge of 1000 is applied
    live (the funds stay receivable on the ledger, [handlePayment] does not
    receive them); after a restart the recovery scan receives the same
    block and applies it again.  The charge records 1000 received, becomes
    [completed] and is [swept] with 500, the only funds there are, and the
    shop is notified of a completed charge. *)
Theorem double_count_completes :
  received_of "chg1" double_count = Some "1000" /\ status_of "chg1" double_count = Some Swept /\
  swept_amounts double_count = ["500"] /\ on_chain "nano_0" double_count = (0, [500]).
Proof. split_and!; vm_compute; reflexivity. Qed.

(** Eleven blocks of 100 on the sub-account of a charge of 1100:
    [checkChargeStatus] reports it unpaid (it counts ten pending blocks),
    and [sweepCharge] receives ten, sends 1000, marks the charge [swept],
    and releases its address from the index and the monitor while 100 stay
    receivable on the sub-account. *)
Theorem many_blocks_strand :
  many_blocks_status = false /\ status_of "chg1" many_blocks = Some Swept /\
  on_chain "nano_1000" many_blocks = (0, [100]) /\
  "nano_1000" ∉ pr_monitorAccounts (w_proc many_blocks) /\
  jm_get "nano_1000" (pr_addressToChargeId (w_proc many_blocks)) = None.
Proof. split_and!; vm_compute; [reflexivity..|set_solver|reflexivity]. Qed.

(** The listener started by [charge create] loads the file before the
    command's debounced save wrote the charge: the file holds the pending
    charge, but the listener knows no charge, and the payment to its
    address is ignored. *)
Theorem listener_misses_charge :
  (exists ps, w_disk cli_saved = Snapshot ps /\ map ch_id (ps_charges ps) = ["chg1"]) /\
  pr_charges (w_proc listener0) = [] /\ status_of "chg1" listener_paid = None /\
  w_events listener_paid = [EvCreated "chg1"; EvStarted 0].
Proof. split_and!; [eexists; split|..]; vm_compute; reflexivity. Qed.
