(* ===== verification/Lifecycle.v ===== *)
(** * The processor as a transition system, and its invariants

    The entry points of the processor (the public methods but
    [importCharges], the monitor's [payment] event, the two timers) are
    the rules of a step relation on
    worlds, with the steps of the environment (the clock, the ledger, the
    webhook endpoints, a crash that corrupts the file) and the restart of
    the process.  The structural invariant [inv] -- both maps have distinct
    keys, a charge is stored under its id, its sub-account index is below
    [nextAccountIndex] and no other charge has it, its [receivedRaw] is a
    [BigInt] literal, and the same of the snapshot file -- holds in every
    reachable world, by rule induction.  The preservation proofs follow the
    code with the [within] logic of [Prelude].  [importCharges] breaks
    the invariant: it does not advance [nextAccountIndex], and the next
    [createCharge] reuses an imported sub-account. *)

From S2P Require Import Prelude BigInt JsMap Charge Ledger Wallet Processor Sweep Payment Expiry Recovery.

(** ** The invariant *)

Definition indices_below (m : JsMap string Charge) (next : Z) : Prop :=
  forall id c, jm_get id m = Some c -> (ch_accountIndex c < next)%Z.

Definition indices_distinct (m : JsMap string Charge) : Prop :=
  forall id1 c1 id2 c2, jm_get id1 m = Some c1 -> jm_get id2 m = Some c2 ->
    ch_accountIndex c1 = ch_accountIndex c2 -> id1 = id2.

Definition received_parses (c : Charge) : Prop := is_Some (BigInt_of_string (ch_receivedRaw c)).

Definition charges_inv (m : JsMap string Charge) (next : Z) : Prop :=
  jm_wf m /\ ids_coherent m /\ indices_below m next /\ indices_distinct m /\
  (forall id c, jm_get id m = Some c -> received_parses c).

Definition proc_inv (p : Processor) : Prop :=
  charges_inv (pr_charges p) (pr_nextAccountIndex p) /\ jm_wf (pr_addressToChargeId p).

(** The snapshot holds the charges of a map satisfying the invariant. *)
Definition disk_inv (d : DiskFile) : Prop :=
  match d with
  | Snapshot ps => exists m, charges_inv m (ps_nextAccountIndex ps) /\ ps_charges ps = jm_values m
  | _ => True
  end.

Definition inv (w : World) : Prop := proc_inv (w_proc w) /\ disk_inv (w_disk w).

(** An invariant as a preorder, for [within]. *)
Definition Rinv (w w' : World) : Prop := inv w -> inv w'.

#[export] Instance Rinv_preorder : PreOrder Rinv.
Proof. split; [intros w H; exact H|intros w1 w2 w3 H12 H23 H; auto]. Qed.

(** A mutation of a stored charge that keeps what the invariant reads. *)
Definition charge_frame (f : Charge -> Charge) : Prop :=
  forall c, ch_id (f c) = ch_id c /\ ch_accountIndex (f c) = ch_accountIndex c /\
            (received_parses c -> received_parses (f c)).

(** ** The invariant under the edits of a map *)

Lemma jm_get_delete_Some (m : JsMap string Charge) id k c :
  jm_wf m -> jm_get k (jm_delete id m) = Some c -> k <> id /\ jm_get k m = Some c.
Proof.
  intros Hwf Hg. destruct (decide (k = id)) as [->|Hne].
  - by rewrite jm_get_delete_eq in Hg.
  - rewrite jm_get_delete_ne in Hg by congruence. done.
Qed.

Lemma charges_inv_next m n n' : (n <= n')%Z -> charges_inv m n -> charges_inv m n'.
Proof.
  intros Hle (Hwf & Hco & Hb & Hd & Hp). split_and!; try done.
  intros id c Hg. specialize (Hb id c Hg). lia.
Qed.

Lemma charges_inv_alter f id m n :
  charge_frame f -> charges_inv m n -> charges_inv (jm_alter f id m) n.
Proof.
  intros Hf (Hwf & Hco & Hb & Hd & Hp).
  assert (Hg : forall k c', jm_get k (jm_alter f id m) = Some c' ->
            exists c, jm_get k m = Some c /\ (c' = c \/ c' = f c)).
  { intros k c' Hk. rewrite jm_get_alter in Hk. case_decide.
    - apply fmap_Some in Hk as (c & Hc & ->). eauto.
    - eauto. }
  split_and!; [by apply jm_alter_wf| | | |].
  - intros k c' (c & Hc & [->| ->])%Hg; [by eapply Hco|]. rewrite (proj1 (Hf c)). by eapply Hco.
  - intros k c' (c & Hc & [->| ->])%Hg; [by eapply Hb|]. rewrite (proj1 (proj2 (Hf c))). by eapply Hb.
  - intros k1 c1' k2 c2' (c1 & Hc1 & E1)%Hg (c2 & Hc2 & E2)%Hg.
    assert (ch_accountIndex c1' = ch_accountIndex c1) as ->
      by (destruct E1 as [->| ->]; [done|apply Hf]).
    assert (ch_accountIndex c2' = ch_accountIndex c2) as -> by (destruct E2 as [->| ->]; [done|apply Hf]).
    by apply Hd.
  - intros k c' (c & Hc & [->| ->])%Hg; [by eapply Hp|]. apply Hf. by eapply Hp.
Qed.

Lemma charges_inv_delete id m n : charges_inv m n -> charges_inv (jm_delete id m) n.
Proof.
  intros (Hwf & Hco & Hb & Hd & Hp).
  split_and!; [by apply jm_delete_wf| | | |];
    [intros k c (_ & Hk)%jm_get_delete_Some; eauto..| |].
  - intros k1 c1 k2 c2 (_ & H1)%jm_get_delete_Some (_ & H2)%jm_get_delete_Some; eauto.
  - intros k c (_ & Hk)%jm_get_delete_Some; eauto.
Qed.

(** A new charge at the next index. *)
Lemma charges_inv_set_new id c m n :
  charges_inv m n -> ch_id c = id -> ch_accountIndex c = n -> received_parses c ->
  charges_inv (jm_set id c m) (n + 1).
Proof.
  intros (Hwf & Hco & Hb & Hd & Hp) Hid Hi Hr.
  assert (Hg : forall k c', jm_get k (jm_set id c m) = Some c' ->
            (k = id /\ c' = c) \/ (k <> id /\ jm_get k m = Some c')).
  { intros k c' Hk. destruct (decide (k = id)) as [->|Hne].
    - rewrite jm_get_set_eq in Hk. left. by injection Hk.
    - rewrite jm_get_set_ne in Hk by congruence. by right. }
  split_and!; [by apply jm_set_wf| | | |].
  - intros k c' [[-> ->]|[_ Hk]]%Hg; [done|by eapply Hco].
  - intros k c' [[-> ->]|[_ Hk]]%Hg; [lia|]. specialize (Hb k c' Hk). lia.
  - intros k1 c1 k2 c2 [[-> ->]|[Hn1 H1]]%Hg [[-> ->]|[Hn2 H2]]%Hg Heq; try done.
    + specialize (Hb k2 c2 H2). lia.
    + specialize (Hb k1 c1 H1). lia.
    + by eapply Hd.
  - intros k c' [[-> ->]|[_ Hk]]%Hg; [done|by eapply Hp].
Qed.

Lemma disk_inv_snapshot w : proc_inv (w_proc w) -> disk_inv (Snapshot (snapshot w)).
Proof. intros [Hc _]. by exists (pr_charges (w_proc w)). Qed.

(** ** The invariant, decided

    [inv] on a concrete world is computed: [inv_check] is sound for it. *)
Definition charge_ok (next : Z) (e : string * Charge) : bool :=
  String.eqb (ch_id e.2) e.1 && (ch_accountIndex e.2 <? next)%Z &&
  bool_decide (is_Some (BigInt_of_string (ch_receivedRaw e.2))).

Definition charges_check (m : JsMap string Charge) (next : Z) : bool :=
  bool_decide (NoDup (jm_keys m)) && forallb (charge_ok next) m &&
  bool_decide (NoDup (map ch_accountIndex (jm_values m))).

Definition inv_check (w : World) : bool :=
  charges_check (pr_charges (w_proc w)) (pr_nextAccountIndex (w_proc w)) &&
  bool_decide (NoDup (jm_keys (pr_addressToChargeId (w_proc w)))) &&
  match w_disk w with
  | Snapshot ps => charges_check (map (fun c => (ch_id c, c)) (ps_charges ps)) (ps_nextAccountIndex ps)
  | _ => true
  end.

Lemma NoDup_map_eq {A B} (f : A -> B) l x y : NoDup (map f l) -> x ∈ l -> y ∈ l -> f x = f y -> x = y.
Proof.
  induction l as [|a l IH]; intros Hnd Hx Hy E; [by apply elem_of_nil in Hx|].
  cbn in Hnd. apply NoDup_cons in Hnd as [Ha Hnd].
  apply elem_of_cons in Hx as [->|Hx], Hy as [->|Hy]; try done; [| |by apply IH];
    exfalso; apply Ha; rewrite list_elem_of_In; apply in_map_iff; eexists; split;
    [|by apply list_elem_of_In; eassumption| |by apply list_elem_of_In; eassumption]; done.
Qed.

Lemma charges_check_sound m n : charges_check m n = true -> charges_inv m n.
Proof.
  unfold charges_check. intros [[H1 H2]%andb_prop H3]%andb_prop.
  apply bool_decide_eq_true_1 in H1, H3. rewrite forallb_forall in H2.
  assert (Hok : forall id c, jm_get id m = Some c ->
            ch_id c = id /\ (ch_accountIndex c < n)%Z /\ received_parses c).
  { intros id c Hg. apply jm_get_elem, list_elem_of_In, H2 in Hg. unfold charge_ok in Hg. cbn in Hg.
    apply andb_prop in Hg as [[Hi Hb]%andb_prop Hp]. apply String.eqb_eq in Hi. apply Z.ltb_lt in Hb.
    apply bool_decide_eq_true_1 in Hp. done. }
  split_and!; [done|intros id c Hg; apply (Hok id c Hg)|intros id c Hg; apply (Hok id c Hg)| |].
  - intros id1 c1 id2 c2 G1 G2 E.
    assert (c1 = c2) as <- by (eapply NoDup_map_eq; [exact H3|eapply jm_get_values..|]; done).
    by rewrite <- (proj1 (Hok _ _ G1)), <- (proj1 (Hok _ _ G2)).
  - intros id c Hg. apply (Hok id c Hg).
Qed.

Lemma inv_check_sound w : inv_check w = true -> inv w.
Proof.
  unfold inv_check. intros [[Hc Ha]%andb_prop Hd]%andb_prop. split; [split|].
  - by apply charges_check_sound.
  - by apply bool_decide_eq_true_1 in Ha.
  - unfold disk_inv. destruct (w_disk w) as [| |ps]; try done.
    exists (map (fun c => (ch_id c, c)) (ps_charges ps)). split; [by apply charges_check_sound|].
    unfold jm_values. rewrite map_map. cbn. symmetry. apply map_id.
Qed.

(** ** The primitives keep the invariant *)

(** The rules of [within] at [Rinv]. *)
Definition inv_bind {A B} (m : M World A) (f : A -> M World B) := within_bind Rinv m f.
Definition inv_try {A} (m : M World A) h := within_try Rinv m h.
Definition inv_for_each {A} (xs : list A) f := within_for_each Rinv xs f.
Definition inv_ret {A} (a : A) := within_ret Rinv a.
Definition inv_throw {A} e := within_throw Rinv (A:=A) e.
Definition inv_get := within_get Rinv.
Definition inv_gets {A} (f : World -> A) := within_gets Rinv f.

(** A change of the processor record that keeps [proc_inv]. *)
Lemma within_modify_proc f :
  (forall p, proc_inv p -> proc_inv (f p)) -> within Rinv (modify_proc f).
Proof. intros Hf. apply within_modify. intros w [Hp Hd]. split; [by apply Hf|done]. Qed.

Lemma within_mutate id f : charge_frame f -> within Rinv (mutate id f).
Proof. intros Hf. apply within_modify_proc. intros p [Hc Ha]. split; [by apply charges_inv_alter|done]. Qed.

Lemma within_emit e : within Rinv (emit e).
Proof. apply within_modify. intros w H; exact H. Qed.

Lemma within_timers r i d : within Rinv (modify_proc (upd_timers r i d)).
Proof. apply within_modify_proc. intros p H; exact H. Qed.

Lemma within_monitor_add a : within Rinv (monitor_add a).
Proof. apply within_modify_proc. intros p H; exact H. Qed.

Lemma within_monitor_remove a : within Rinv (monitor_remove a).
Proof. apply within_modify_proc. intros p H; exact H. Qed.

Lemma within_delete_address a : within Rinv (modify_proc (upd_addresses (jm_delete a))).
Proof. apply within_modify_proc. intros p [Hc Ha]. split; [done|by apply jm_delete_wf]. Qed.

Lemma within_delete_charge id : within Rinv (modify_proc (upd_charges (jm_delete id))).
Proof. apply within_modify_proc. intros p [Hc Ha]. split; [by apply charges_inv_delete|done]. Qed.

Lemma within_write : within Rinv (modify (fun w => set_disk (Snapshot (snapshot w)) w)).
Proof. apply within_modify. intros w [Hp Hd]. split; [done|by apply disk_inv_snapshot]. Qed.

Lemma within_persistState : within Rinv persistState.
Proof. apply within_modify_proc. intros p H; exact H. Qed.

Lemma within_persistStateNow : within Rinv persistStateNow.
Proof. unfold persistStateNow. apply inv_bind; [apply within_modify_proc; intros p H; exact H|intros; apply within_write]. Qed.

Lemma within_saveDebounceFire : within Rinv saveDebounceFire.
Proof.
  unfold saveDebounceFire. apply inv_bind; [apply inv_get|intros w].
  destruct (pr_saveDebounceTimer _); [|apply inv_ret].
  apply inv_bind; [apply within_write|intros; apply within_modify_proc; intros p H; exact H].
Qed.

Lemma within_add_post u pl : within Rinv (modify (add_post u pl)).
Proof. apply within_modify. intros w H; exact H. Qed.

Lemma within_wallet {A} (m : M Wallet A) : within Rinv (wallet m).
Proof. apply within_lift. intros w t H; exact H. Qed.

Lemma within_bigint (s : string) : within Rinv (bigint s).
Proof. unfold bigint. destruct (BigInt_of_string s); [apply inv_ret|apply inv_throw]. Qed.

Lemma within_now : within Rinv now.
Proof. apply inv_gets. Qed.

Lemma within_getCharge id : within Rinv (getCharge id).
Proof. apply inv_gets. Qed.

Lemma within_getChargeByAddress a : within Rinv (getChargeByAddress a).
Proof. apply inv_gets. Qed.

(** The setters of [Charge] keep what the invariant reads. *)
Lemma frame_push_tx tx : charge_frame (push_tx tx).
Proof. by intros c. Qed.
Lemma frame_set_status s : charge_frame (set_status s).
Proof. by intros c. Qed.
Lemma frame_set_completed t : charge_frame (set_completed t).
Proof. by intros c. Qed.
Lemma frame_set_swept t h : charge_frame (set_swept t h).
Proof. by intros c. Qed.
Lemma frame_set_webhook_sent : charge_frame set_webhook_sent.
Proof. by intros c. Qed.
Lemma frame_set_received z n : charge_frame (set_received (BigInt_to_string z) n).
Proof. intros c. split_and!; [done|done|]. intros _. unfold received_parses. simpl. by rewrite BigInt_roundtrip. Qed.

Create HintDb lifecycle discriminated.
#[export] Hint Resolve inv_ret inv_throw inv_get inv_gets within_emit within_add_post within_timers
  within_monitor_add within_monitor_remove within_delete_address within_delete_charge
  within_persistState within_persistStateNow within_saveDebounceFire within_wallet within_bigint
  within_now within_getCharge within_getChargeByAddress
  frame_push_tx frame_set_status frame_set_completed frame_set_swept frame_set_webhook_sent
  frame_set_received : lifecycle.
#[export] Hint Extern 1 (within Rinv (mutate _ _)) => apply within_mutate : lifecycle.
(** A change of the timers or of the monitor leaves what [inv] reads. *)
#[export] Hint Extern 2 (within Rinv (modify_proc _)) =>
  apply within_modify_proc; intros ? Hp; exact Hp : lifecycle.

(** Walk a method's code: a step of the walk applies the rule of the
    combinator at the head, or a lemma of [lifecycle]. *)
Ltac inv_walk :=
  repeat (cbn beta iota zeta;
    first
    [ solve [eauto with lifecycle]
    | apply inv_bind; [|intros]
    | apply inv_try; [|intros]
    | apply inv_for_each; intros
    | match goal with
      | |- within _ (match ?x with _ => _ end) => destruct x
      | |- within _ (if ?x then _ else _) => destruct x
      end ]).

Lemma foldl_set_wf {A} (f g : A -> string) (l : list A) (m : JsMap string string) :
  jm_wf m -> jm_wf (foldl (fun m a => jm_set (f a) (g a) m) m l).
Proof. revert m. induction l; intros m Hm; simpl; [done|]. by apply IHl, jm_set_wf. Qed.

Lemma charges_inv_nil n : charges_inv [] n.
Proof. split_and!; [constructor|by intros ??|by intros ??|by intros ????|by intros ??]. Qed.

(** ** The operations keep the invariant *)
Section Operations.
Context `{WalletLib}.

Lemma within_callWebhook c h a : within Rinv (callWebhook c h a).
Proof. unfold callWebhook. inv_walk. Qed.
#[local] Hint Resolve within_callWebhook : lifecycle.

Lemma within_sweepCharge id : within Rinv (sweepCharge id).
Proof. unfold sweepCharge, balance_is_zero. inv_walk. Qed.
#[local] Hint Resolve within_sweepCharge : lifecycle.

Lemma within_handlePayment p : within Rinv (handlePayment p).
Proof. unfold handlePayment. inv_walk. Qed.

Lemma within_sum_amounts acc l : within Rinv (sum_amounts acc l).
Proof. revert acc. induction l; intros; simpl; inv_walk. Qed.
#[local] Hint Resolve within_sum_amounts : lifecycle.

Lemma within_checkChargeStatus id : within Rinv (checkChargeStatus id).
Proof. unfold checkChargeStatus. inv_walk. Qed.

Lemma within_deleteCharge id : within Rinv (deleteCharge id).
Proof. unfold deleteCharge. inv_walk. Qed.

Lemma within_cleanup_loop l n : within Rinv (cleanup_loop l n).
Proof. revert n. induction l as [|[k c] l IH]; intros; simpl; inv_walk. Qed.
#[local] Hint Resolve within_cleanup_loop : lifecycle.

Lemma within_cleanupSweptCharges : within Rinv cleanupSweptCharges.
Proof. unfold cleanupSweptCharges. inv_walk. Qed.

Lemma within_expire_loop t l ch ts : within Rinv (expire_loop t l ch ts).
Proof. revert ch ts. induction l as [|[k c] l IH]; intros; simpl; inv_walk. Qed.
#[local] Hint Resolve within_expire_loop : lifecycle.

Lemma within_checkExpiredCharges : within Rinv checkExpiredCharges.
Proof. unfold checkExpiredCharges. inv_walk. Qed.

Lemma within_recover_block id i p : within Rinv (recover_block id i p).
Proof. unfold recover_block. inv_walk. Qed.
#[local] Hint Resolve within_recover_block : lifecycle.

Lemma within_checkMissedPayments : within Rinv checkMissedPayments.
Proof. unfold checkMissedPayments, recover_charge. inv_walk. Qed.
#[local] Hint Resolve within_checkMissedPayments : lifecycle.

Lemma within_start : within Rinv start.
Proof. unfold start. inv_walk. Qed.

Lemma within_stop : within Rinv stop.
Proof. unfold stop. inv_walk. Qed.

Lemma within_getMainAddress : within Rinv getMainAddress.
Proof. unfold getMainAddress. inv_walk. Qed.

(** [createCharge] allocates the index [nextAccountIndex], which no stored
    charge has, and advances it: the invariant holds after it, whichever
    way it ends. *)
Lemma createCharge_inv id o w w' r : inv w -> createCharge id o w = (w', r) -> inv w'.
Proof.
  intros [[Hc Ha] Hd]. unfold createCharge. m_simp. rewrite wallet_bind_eval. w_simpl.
  destruct (deriveAccount _ _) as [wl [a|e]]; cbn iota.
  - unfold now, monitor_add, persistState, emit. m_simp. intros [= <- <-].
    unfold inv, proc_inv. w_simpl. split_and!; [|by apply jm_set_wf|done].
    apply charges_inv_set_new; [done..|by eexists].
  - intros [= <- <-]. unfold inv, proc_inv. w_simpl. split_and!; [|done|done].
    apply (charges_inv_next _ (pr_nextAccountIndex (w_proc w))); [lia|done].
Qed.

(** The constructor restores a map satisfying the invariant from a file
    that satisfies it, and starts empty otherwise. *)
Lemma construct_inv cfg w0 w' r : disk_inv (w_disk w0) -> construct cfg w0 = (w', r) -> inv w'.
Proof.
  unfold construct. m_simp. destruct (w_disk w0) as [| |ps] eqn:Ed; intros Hd; m_simp.
  - intros [= <- <-]. unfold inv, proc_inv. w_simpl. rewrite Ed. split_and!; [apply charges_inv_nil|constructor|done].
  - intros [= <- <-]. unfold inv, proc_inv. w_simpl. rewrite Ed. split_and!; [apply charges_inv_nil|constructor|done].
  - destruct Hd as (m & Hm & Hps). pose proof Hm as (Hwf & Hco & _).
    rewrite bind_eval, construct_loop_spec.
    + unfold emit. m_simp. intros [= <- <-]. unfold inv, proc_inv. w_simpl. rewrite Ed.
      split_and!; [|apply foldl_set_wf; constructor|by exists m].
      cbn [initial_processor pr_charges pr_nextAccountIndex app]. rewrite Hps, ids_coherent_values; done.
    + rewrite Hps, <- ids_coherent_keys; done.
    + apply Forall_forall. intros c _. simpl. set_solver.
Qed.
End Operations.

(** ** The transition system *)

(** The entry points of the processor: the public methods, the monitor's
    [payment] event, the expiry interval and the debounce timer -- all but
    [importCharges], which no command of the CLI calls and which breaks
    the invariant ([importCharges_reuses_index]); [listCharges] and
    [exportCharges] only read. *)
Inductive op : Type :=
| OpCreate (id : string) (options : CreateChargeOptions)
| OpPayment (payment : PaymentEvent)
| OpSweep (id : string)
| OpStatus (id : string)
| OpExpiryTick
| OpDelete (id : string)
| OpCleanup
| OpSaveTimer
| OpStart
| OpStop
| OpMainAddress.

Section Steps.
Context `{WalletLib}.

Definition run_op (o : op) : M World unit :=
  match o with
  | OpCreate id options => createCharge id options;; mret tt
  | OpPayment p => handlePayment p
  | OpSweep id => sweepCharge id;; mret tt
  | OpStatus id => checkChargeStatus id;; mret tt
  | OpExpiryTick => checkExpiredCharges
  | OpDelete id => deleteCharge id;; mret tt
  | OpCleanup => cleanupSweptCharges;; mret tt
  | OpSaveTimer => saveDebounceFire
  | OpStart => start
  | OpStop => stop
  | OpMainAddress => getMainAddress;; mret tt
  end.
End Steps.

(** The world outside the process: the clock, the ledger (other parties
    pay, the node fails or recovers), the webhook endpoints, and a crash
    that leaves the file unreadable. *)
Inductive env_step : World -> World -> Prop :=
| env_clock w t :
    env_step w (mkWorld (w_proc w) (w_wallet w) (w_disk w) t (w_http w) (w_posts w) (w_events w))
| env_ledger w n :
    env_step w (set_wallet (mkWallet (wl_accounts (w_wallet w)) n) w)
| env_http w h :
    env_step w (mkWorld (w_proc w) (w_wallet w) (w_disk w) (w_now w) h (w_posts w) (w_events w))
| env_corrupt w : env_step w (set_disk Corrupt w).

(** A new process on the same file and the same ledger: the memory and the
    wallet's cache are lost. *)
Definition restart_world (w : World) : World :=
  mkWorld (initial_processor (mkConfig None None None) 0) (mkWallet ∅ (wl_node (w_wallet w)))
    (w_disk w) (w_now w) (w_http w) (w_posts w) (w_events w).

Section Reach.
Context `{WalletLib}.

Inductive reachable : World -> Prop :=
| reach_init cfg w : w_disk w = NoFile -> reachable (fst (construct cfg w))
| reach_op o w : reachable w -> reachable (fst (run_op o w))
| reach_env w w' : reachable w -> env_step w w' -> reachable w'
| reach_restart cfg w : reachable w -> reachable (fst (construct cfg (restart_world w))).

Lemma within_run_op o : within Rinv (run_op o).
Proof.
  destruct o; simpl;
    [|apply within_handlePayment|..|apply within_checkExpiredCharges| | |apply within_saveDebounceFire
     |apply within_start|apply within_stop|];
    try (apply inv_bind; [|intros; apply inv_ret]);
    auto using within_sweepCharge, within_checkChargeStatus, within_deleteCharge,
      within_cleanupSweptCharges, within_getMainAddress.
  intros w w' r E Hi. by eapply createCharge_inv.
Qed.

End Reach.

(** ** [importCharges], the entry point left out of [reachable] *)

Section ImportCharges.
Context `{WalletLib}.

(** [importCharges([c])] stores [c] under its id and registers its
    address; it leaves [nextAccountIndex] and the wallet alone. *)
Lemma importCharges_one c w :
  exists w1, importCharges [c] w = (w1, Ret tt) /\
    pr_charges (w_proc w1) = jm_set (ch_id c) c (pr_charges (w_proc w)) /\
    pr_nextAccountIndex (w_proc w1) = pr_nextAccountIndex (w_proc w) /\
    w_wallet w1 = w_wallet w /\ w_now w1 = w_now w.
Proof.
  unfold importCharges, monitor_add, modify_proc. cbn [for_each].
  destruct (is_active c); m_simp; w_simpl; eexists; split_and!; reflexivity.
Qed.

(** C9: [importCharges] (lines 612-622) does not advance
    [nextAccountIndex]: a charge imported with the index the processor
    would allocate next (the case of charges exported from one processor
    and imported into a new one, which starts at [startingIndex]) shares
    its sub-account with the next charge [createCharge] makes, so the
    map no longer has distinct sub-account indices and the two charges
    watch and sweep the same address. *)
Theorem importCharges_reuses_index id o c w :
  cache_ok (w_wallet w) -> ch_accountIndex c = pr_nextAccountIndex (w_proc w) -> id <> ch_id c ->
  exists w2 ch, (importCharges [c];; createCharge id o) w = (w2, Ret ch) /\
    jm_get (ch_id c) (pr_charges (w_proc w2)) = Some c /\
    jm_get id (pr_charges (w_proc w2)) = Some ch /\
    ch_accountIndex ch = ch_accountIndex c /\ ch_address ch = address_of (ch_accountIndex c) /\
    ~ indices_distinct (pr_charges (w_proc w2)).
Proof.
  intros Hok Hi Hne. destruct (importCharges_one c w) as (w1 & E1 & Hc1 & Hn1 & Hw1 & _).
  rewrite bind_eval, E1. cbn beta iota.
  destruct (deriveAccount_spec (pr_nextAccountIndex (w_proc w1)) (w_wallet w1)) as (wl & Hd & _);
    [by rewrite Hw1|].
  unfold createCharge, monitor_add, persistState, emit, now, modify_proc. m_simp. w_simpl.
  wallet_step Hd. m_simp. w_simpl. rewrite Hn1, <- Hi.
  eexists _, _; split; [reflexivity|]. w_simpl. rewrite Hc1.
  assert (Hget : jm_get (ch_id c) (jm_set id (mkCharge id (address_of (ch_accountIndex c)) (ch_accountIndex c)
      (nanoToRaw (opt_amountNano o)) (opt_amountNano o) "0" "0" Pending [] (w_now w1)
      (w_now w1 + default DEFAULT_TIMEOUT_MS (opt_timeoutMs o)) None None None (opt_webhookUrl o) None
      (opt_metadata o)) (jm_set (ch_id c) c (pr_charges (w_proc w)))) = Some c)
    by (rewrite jm_get_set_ne by done; apply jm_get_set_eq).
  split_and!; [exact Hget|apply jm_get_set_eq|done|done|].
  intros Hd'. apply Hne. eapply Hd'; [apply jm_get_set_eq|exact Hget|done].
Qed.
End ImportCharges.

(** ** Examples *)
Definition ex_start_world : World := example_world false [] (example_wallet []).


Definition ex_import_charge : Charge :=
  mkCharge "old" "nano_1000" 1000 "5" "5" "0" "0" Pending [] 0 1800000 None None None None None None.

Lemma importCharges_reuses_index_witness :
  let w0 := fst (construct (mkConfig None None None) ex_start_world) in
  exists w2 ch, (importCharges [ex_import_charge];;
                 @createCharge example_lib "new" (mkCreateChargeOptions "5" None None None)) w0 = (w2, Ret ch) /\
    jm_get (ch_id ex_import_charge) (pr_charges (w_proc w2)) = Some ex_import_charge /\
    jm_get "new" (pr_charges (w_proc w2)) = Some ch /\
    ch_accountIndex ch = ch_accountIndex ex_import_charge /\
    ch_address ch = @address_of example_lib (ch_accountIndex ex_import_charge) /\
    ~ indices_distinct (pr_charges (w_proc w2)).
Proof.
  intros w0. apply (@importCharges_reuses_index example_lib);
    [apply cache_ok_empty|vm_compute; reflexivity|discriminate].
Defined.
