(* ===== verification/Typing.v ===== *)
(** * The charge record as a tagged union

    [interface Charge] (lines 11-29 of [src/unnamed/part_001]) declares
    [completedAt], [sweptAt] and [sweepTxHash] optional, but the code sets
    them together with the status: [charge.status = "completed";
    charge.completedAt = new Date()] (lines 378-379, 241-242) and
    [charge.status = "swept"; charge.sweptAt = new Date();
    charge.sweepTxHash = result.hash] (lines 474-476).  Read as the tagged
    union the CLI and the webhook consumers assume, a [completed] charge
    carries its completion time, a [swept] one its sweep time, and the
    sweep's time and hash are present together.  [ch_typed] is that
    reading, [world_typed] asks it of the charges in memory and in the
    snapshot file, and [reachable_typed] shows that every reachable world
    of [Lifecycle] satisfies it.  The proofs walk the code with the
    [within] logic of [Prelude], as [Lifecycle] does for [inv]. *)

From S2P Require Import Prelude BigInt JsMap Charge Ledger Wallet Processor Sweep Payment Expiry Recovery Lifecycle.

(** ** The typing judgement *)

(** A field that is not [undefined]. *)
Definition present {A} (o : option A) : bool :=
  match o with Some _ => true | None => false end.

Definition ch_typed (c : Charge) : bool :=
  Bool.eqb (present (ch_sweptAt c)) (present (ch_sweepTxHash c)) &&
  match ch_status c with
  | Completed => present (ch_completedAt c)
  | Swept => present (ch_sweptAt c)
  | Pending | Partial | Expired => true
  end.

Definition charges_typed (l : list Charge) : Prop := Forall (fun c => ch_typed c = true) l.

Definition disk_typed (d : DiskFile) : Prop :=
  match d with Snapshot ps => charges_typed (ps_charges ps) | _ => True end.

Definition world_typed (w : World) : Prop :=
  charges_typed (jm_values (pr_charges (w_proc w))) /\ disk_typed (w_disk w).

Definition Rtyped (w w' : World) : Prop := world_typed w -> world_typed w'.

#[export] Instance Rtyped_preorder : PreOrder Rtyped.
Proof. split; [intros w H; exact H|intros w1 w2 w3 H12 H23 H; auto]. Qed.

(** A mutation of a charge that keeps it well typed. *)
Definition typed_step (f : Charge -> Charge) : Prop := forall c, ch_typed c = true -> ch_typed (f c) = true.

(** ** The setters of [Charge] *)

Lemma typed_push_tx tx : typed_step (push_tx tx).
Proof. by intros c. Qed.
Lemma typed_set_received r n : typed_step (set_received r n).
Proof. by intros c. Qed.
Lemma typed_set_webhook_sent : typed_step set_webhook_sent.
Proof. by intros c. Qed.
Lemma typed_set_completed t : typed_step (set_completed t).
Proof. intros c. unfold ch_typed. cbn. by destruct (ch_sweptAt c), (ch_sweepTxHash c). Qed.
Lemma typed_set_swept t h : typed_step (set_swept t h).
Proof. by intros c. Qed.
Lemma typed_set_status s : s <> Completed -> s <> Swept -> typed_step (set_status s).
Proof. intros H1 H2 c. unfold ch_typed. cbn. by destruct s, (ch_status c), (Bool.eqb _ _). Qed.

(** ** The edits of the charges map *)

Lemma charges_typed_alter f id (m : JsMap string Charge) :
  typed_step f -> charges_typed (jm_values m) -> charges_typed (jm_values (jm_alter f id m)).
Proof.
  unfold charges_typed, jm_values. intros Hf. induction m as [|[k c] m IH]; intros Hm; [done|].
  cbn [jm_alter map snd] in *. apply Forall_cons in Hm as [Hc Hm].
  destruct (decide (id = k)); constructor; auto; by apply Hf.
Qed.

Lemma charges_typed_set id c (m : JsMap string Charge) :
  ch_typed c = true -> charges_typed (jm_values m) -> charges_typed (jm_values (jm_set id c m)).
Proof.
  unfold charges_typed, jm_values. intros Hc. induction m as [|[k c'] m IH]; intros Hm; [by constructor|].
  cbn [jm_set map snd] in *. apply Forall_cons in Hm as [Hc' Hm].
  destruct (decide (id = k)); constructor; auto.
Qed.

Lemma charges_typed_delete id (m : JsMap string Charge) :
  charges_typed (jm_values m) -> charges_typed (jm_values (jm_delete id m)).
Proof.
  unfold charges_typed, jm_values. induction m as [|[k c'] m IH]; intros Hm; [done|].
  cbn [jm_delete map snd] in *. apply Forall_cons in Hm as [Hc' Hm].
  destruct (decide (id = k)); [done|]. constructor; auto.
Qed.

(** ** The primitives of the processor *)

Definition ty_bind {A B} (m : M World A) (f : A -> M World B) := within_bind Rtyped m f.
Definition ty_try {A} (m : M World A) h := within_try Rtyped m h.
Definition ty_for_each {A} (xs : list A) f := within_for_each Rtyped xs f.
Definition ty_ret {A} (a : A) := within_ret Rtyped a.
Definition ty_throw {A} e := within_throw Rtyped (A:=A) e.
Definition ty_get := within_get Rtyped.
Definition ty_gets {A} (f : World -> A) := within_gets Rtyped f.

(** A change of the processor record that keeps its charges well typed. *)
Lemma ty_modify_proc f :
  (forall p, charges_typed (jm_values (pr_charges p)) -> charges_typed (jm_values (pr_charges (f p)))) ->
  within Rtyped (modify_proc f).
Proof. intros Hf. apply within_modify. intros w [Hp Hd]. split; [by apply Hf|done]. Qed.

(** A change of the world that keeps the processor and the file. *)
Lemma ty_modify f :
  (forall w, w_proc (f w) = w_proc w /\ w_disk (f w) = w_disk w) -> within Rtyped (modify f).
Proof.
  intros Hf. apply within_modify. intros w [Hp Hd]. destruct (Hf w) as [E1 E2].
  unfold world_typed. rewrite E1, E2. by split.
Qed.

Lemma ty_mutate id f : typed_step f -> within Rtyped (mutate id f).
Proof. intros Hf. apply ty_modify_proc. intros p. by apply charges_typed_alter. Qed.

Lemma ty_set_charge id c : ch_typed c = true -> within Rtyped (modify_proc (upd_charges (jm_set id c))).
Proof. intros Hc. apply ty_modify_proc. intros p. by apply charges_typed_set. Qed.

Lemma ty_delete_charge id : within Rtyped (modify_proc (upd_charges (jm_delete id))).
Proof. apply ty_modify_proc. intros p. apply charges_typed_delete. Qed.

(** The snapshot holds the charges of memory. *)
Lemma ty_write : within Rtyped (modify (fun w => set_disk (Snapshot (snapshot w)) w)).
Proof. apply within_modify. intros w [Hp Hd]. by split. Qed.

Lemma ty_wallet {A} (m : M Wallet A) : within Rtyped (wallet m).
Proof. apply within_lift. intros w t H; exact H. Qed.

Lemma ty_bigint (s : string) : within Rtyped (bigint s).
Proof. unfold bigint. destruct (BigInt_of_string s); [apply ty_ret|apply ty_throw]. Qed.

Lemma ty_emit e : within Rtyped (emit e).
Proof. apply ty_modify. by intros w. Qed.

Lemma ty_add_post u pl : within Rtyped (modify (add_post u pl)).
Proof. apply ty_modify. by intros w. Qed.

Lemma ty_persistStateNow : within Rtyped persistStateNow.
Proof.
  unfold persistStateNow. apply ty_bind; [apply ty_modify_proc; intros p H; exact H|intros; apply ty_write].
Qed.

Lemma ty_saveDebounceFire : within Rtyped saveDebounceFire.
Proof.
  unfold saveDebounceFire. apply ty_bind; [apply ty_get|intros w].
  destruct (pr_saveDebounceTimer _); [|apply ty_ret].
  apply ty_bind; [apply ty_write|intros; apply ty_modify_proc; intros p H; exact H].
Qed.

Lemma typed_set_partial : typed_step (set_status Partial).
Proof. by apply typed_set_status. Qed.
Lemma typed_set_expired : typed_step (set_status Expired).
Proof. by apply typed_set_status. Qed.

Create HintDb typing discriminated.
#[export] Hint Resolve ty_ret ty_throw ty_get ty_gets ty_emit ty_add_post ty_delete_charge ty_write
  ty_wallet ty_bigint ty_persistStateNow ty_saveDebounceFire
  typed_push_tx typed_set_received typed_set_webhook_sent typed_set_completed typed_set_swept
  typed_set_partial typed_set_expired : typing.
#[export] Hint Extern 1 (within Rtyped (mutate _ _)) => apply ty_mutate : typing.
#[export] Hint Extern 1 (within Rtyped (modify_proc (upd_charges (jm_set _ _)))) =>
  apply ty_set_charge; reflexivity : typing.
(** A change of the timers, the monitor, the index or the address map
    leaves the charges. *)
#[export] Hint Extern 2 (within Rtyped (modify_proc _)) =>
  apply ty_modify_proc; intros ? Hp; exact Hp : typing.
#[export] Hint Extern 2 (within Rtyped (monitor_add _)) =>
  apply ty_modify_proc; intros ? Hp; exact Hp : typing.
#[export] Hint Extern 2 (within Rtyped (monitor_remove _)) =>
  apply ty_modify_proc; intros ? Hp; exact Hp : typing.
#[export] Hint Extern 2 (within Rtyped persistState) =>
  apply ty_modify_proc; intros ? Hp; exact Hp : typing.
#[export] Hint Extern 2 (within Rtyped now) => apply ty_gets : typing.
#[export] Hint Extern 2 (within Rtyped (getCharge _)) => apply ty_gets : typing.
#[export] Hint Extern 2 (within Rtyped (getChargeByAddress _)) => apply ty_gets : typing.

Ltac ty_walk :=
  repeat (cbn beta iota zeta;
    first
    [ solve [eauto with typing]
    | apply ty_bind; [|intros]
    | apply ty_try; [|intros]
    | apply ty_for_each; intros
    | match goal with
      | |- within _ (match ?x with _ => _ end) => destruct x
      | |- within _ (if ?x then _ else _) => destruct x
      end ]).

(** ** The operations keep the charges well typed *)
Section Operations.
Context `{WalletLib}.

Lemma ty_callWebhook c h a : within Rtyped (callWebhook c h a).
Proof. unfold callWebhook. ty_walk. Qed.
#[local] Hint Resolve ty_callWebhook : typing.

Lemma ty_sweepCharge id : within Rtyped (sweepCharge id).
Proof. unfold sweepCharge, balance_is_zero. ty_walk. Qed.
#[local] Hint Resolve ty_sweepCharge : typing.

Lemma ty_handlePayment p : within Rtyped (handlePayment p).
Proof. unfold handlePayment. ty_walk. Qed.

Lemma ty_sum_amounts acc l : within Rtyped (sum_amounts acc l).
Proof. revert acc. induction l; intros; simpl; ty_walk. Qed.
#[local] Hint Resolve ty_sum_amounts : typing.

Lemma ty_checkChargeStatus id : within Rtyped (checkChargeStatus id).
Proof. unfold checkChargeStatus. ty_walk. Qed.

Lemma ty_deleteCharge id : within Rtyped (deleteCharge id).
Proof. unfold deleteCharge. ty_walk. Qed.

Lemma ty_cleanup_loop l n : within Rtyped (cleanup_loop l n).
Proof. revert n. induction l as [|[k c] l IH]; intros; simpl; ty_walk. Qed.
#[local] Hint Resolve ty_cleanup_loop : typing.

Lemma ty_cleanupSweptCharges : within Rtyped cleanupSweptCharges.
Proof. unfold cleanupSweptCharges. ty_walk. Qed.

Lemma ty_expire_loop t l ch ts : within Rtyped (expire_loop t l ch ts).
Proof. revert ch ts. induction l as [|[k c] l IH]; intros; simpl; ty_walk. Qed.
#[local] Hint Resolve ty_expire_loop : typing.

Lemma ty_checkExpiredCharges : within Rtyped checkExpiredCharges.
Proof. unfold checkExpiredCharges. ty_walk. Qed.

Lemma ty_recover_block id i p : within Rtyped (recover_block id i p).
Proof. unfold recover_block. ty_walk. Qed.
#[local] Hint Resolve ty_recover_block : typing.

Lemma ty_start : within Rtyped start.
Proof. unfold start, checkMissedPayments, recover_charge. ty_walk. Qed.

Lemma ty_stop : within Rtyped stop.
Proof. unfold stop. ty_walk. Qed.

Lemma ty_getMainAddress : within Rtyped getMainAddress.
Proof. unfold getMainAddress. ty_walk. Qed.

Lemma ty_createCharge id o : within Rtyped (createCharge id o).
Proof. unfold createCharge. ty_walk. Qed.
End Operations.

(** ** Start, restart and the transition system *)

(** The constructor's loop (lines 126-133) puts back charges of the
    file, which are well typed. *)
Lemma ty_load (l : list Charge) :
  charges_typed l ->
  within Rtyped (for_each l (fun charge =>
    modify_proc (upd_charges (jm_set (ch_id charge) charge));;
    modify_proc (upd_addresses (jm_set (ch_address charge) (ch_id charge))))).
Proof.
  induction 1 as [|c l Hc _ IH]; cbn [for_each]; [apply ty_ret|].
  apply ty_bind; [|intros; exact IH]. apply ty_bind; [by apply ty_set_charge|intros; ty_walk].
Qed.

(** The constructor starts from no charge, then reads the file, which is
    well typed. *)
Lemma construct_typed cfg w0 w' r : disk_typed (w_disk w0) -> construct cfg w0 = (w', r) -> world_typed w'.
Proof.
  unfold construct. m_simp. destruct (w_disk w0) as [| |ps] eqn:Ed; intros Hd; m_simp.
  1,2: intros [= <- <-]; split; [by apply Forall_nil|w_simpl; by rewrite Ed].
  intros E. refine (ty_bind _ _ (ty_load _ Hd) (fun _ => ty_emit _) _ _ _ E _).
  split; [by apply Forall_nil|]. w_simpl. by rewrite Ed.
Qed.

Section Reach.
Context `{WalletLib}.

Lemma ty_run_op o : within Rtyped (run_op o).
Proof.
  destruct o; cbn [run_op];
    auto using ty_handlePayment, ty_checkExpiredCharges, ty_saveDebounceFire, ty_start, ty_stop;
    (apply ty_bind; [|intros; apply ty_ret]);
    auto using ty_createCharge, ty_sweepCharge, ty_checkChargeStatus, ty_deleteCharge,
      ty_cleanupSweptCharges, ty_getMainAddress.
Qed.

(** C7: In every reachable world each charge, in memory and in the
    snapshot file, is of the shape its status announces: a [completed]
    charge has its [completedAt], a [swept] one its [sweptAt], and
    [sweptAt] and [sweepTxHash] are both present or both absent. *)
Theorem reachable_typed w : reachable w -> world_typed w.
Proof.
  induction 1 as [cfg w Hd|o w _ IH|w w' _ IH Hs|cfg w _ IH].
  - destruct (construct cfg w) as [w' r] eqn:E. eapply construct_typed; [by rewrite Hd|exact E].
  - destruct (run_op o w) as [w' r] eqn:E. exact (ty_run_op o w w' r E IH).
  - destruct IH as [Hp Hd]. inversion Hs; subst; split; done.
  - destruct (construct cfg (restart_world w)) as [w' r] eqn:E.
    exact (construct_typed cfg (restart_world w) w' r (proj2 IH) E).
Qed.
End Reach.

(** ** Examples *)
Lemma reachable_typed_witness :
  world_typed (fst (@run_op example_lib OpExpiryTick
    (fst (@run_op example_lib (OpCreate "c1" (mkCreateChargeOptions "5" None None None))
      (fst (construct (mkConfig None None None) ex_start_world)))))).
Proof. apply (@reachable_typed example_lib). apply reach_op, reach_op, reach_init. reflexivity. Defined.
