(* ===== verification/Monotone.v ===== *)
(** * Statuses only move forward

    The order in which the code moves a charge's status ([status_le]):
    [pending] before [partial], both before [completed] and [expired],
    everything before [swept].  Every entry point of the processor, on a
    world satisfying the invariant of [Lifecycle], moves each stored
    charge forward in this order and never brings back a deleted id
    ([Rst]).  The order is the reflexive-transitive closure of the state
    machine of the spec (§4.2) with two more edges, [pending] and
    [partial] to [swept]: a manual sweep of a charge that has not been
    completed. *)

From S2P Require Import Prelude BigInt JsMap Charge Ledger Wallet Processor Sweep Payment Expiry Recovery Lifecycle.

Definition status_le (s s' : ChargeStatus) : bool :=
  match s, s' with
  | Pending, _ => true
  | Partial, (Partial | Completed | Expired | Swept) => true
  | Completed, (Completed | Swept) => true
  | Expired, (Expired | Swept) => true
  | Swept, Swept => true
  | _, _ => false
  end.

(** A change of the charges map that moves every stored charge forward
    and brings back no deleted id. *)
Definition map_forward (m m' : JsMap string Charge) : Prop :=
  (forall id, jm_get id m = None -> jm_get id m' = None) /\
  (forall id c c', jm_get id m = Some c -> jm_get id m' = Some c' -> status_le (ch_status c) (ch_status c') = true).

(** Between two worlds, from one satisfying the invariant: the invariant
    holds after, and the charges moved forward. *)
Definition Rmono (w w' : World) : Prop :=
  inv w -> inv w' /\ map_forward (pr_charges (w_proc w)) (pr_charges (w_proc w')).

Lemma status_le_refl s : status_le s s = true.
Proof. by destruct s. Qed.

Lemma status_le_trans s1 s2 s3 : status_le s1 s2 = true -> status_le s2 s3 = true -> status_le s1 s3 = true.
Proof. by destruct s1, s2, s3. Qed.

Lemma status_le_swept s : status_le s Swept = true.
Proof. by destruct s. Qed.

(** The order is the reflexive-transitive closure of the spec's machine. *)
Lemma status_le_spec s s' : status_le s s' = true <-> rtc spec_step s s'.
Proof.
  split.
  - destruct s, s'; intros E; try discriminate; try reflexivity;
      repeat first [apply rtc_once; constructor | eapply rtc_l; [constructor|]].
  - induction 1 as [s|s1 s2 s3 Hs _ IH]; [apply status_le_refl|].
    apply (status_le_trans _ s2); [|exact IH]. by destruct Hs.
Qed.

Lemma map_forward_refl m : map_forward m m.
Proof. split; [done|]. intros id c c' H1 H2. rewrite H1 in H2. injection H2 as ->. apply status_le_refl. Qed.

Lemma map_forward_trans m1 m2 m3 : map_forward m1 m2 -> map_forward m2 m3 -> map_forward m1 m3.
Proof.
  intros [N12 S12] [N23 S23]. split; [auto|]. intros id c c3 H1 H3.
  destruct (jm_get id m2) as [c2|] eqn:H2.
  - eapply status_le_trans; [exact (S12 _ _ _ H1 H2)|exact (S23 _ _ _ H2 H3)].
  - by rewrite (N23 _ H2) in H3.
Qed.

#[export] Instance Rmono_preorder : PreOrder Rmono.
Proof.
  split.
  - intros w Hi. split; [exact Hi|apply map_forward_refl].
  - intros w1 w2 w3 H12 H23 Hi. destruct (H12 Hi) as [Hi2 F12]. destruct (H23 Hi2) as [Hi3 F23].
    split; [exact Hi3|exact (map_forward_trans _ _ _ F12 F23)].
Qed.

(** ** The edits of the map *)

Lemma map_forward_alter f id m :
  (forall c, jm_get id m = Some c -> status_le (ch_status c) (ch_status (f c)) = true) ->
  map_forward m (jm_alter f id m).
Proof.
  intros Hf. split; intros k; rewrite jm_get_alter; case_decide as E; subst; [|done| |].
  - by intros ->.
  - intros c c' Hc. rewrite Hc. intros [= <-]. by apply Hf.
  - intros c c' Hc. rewrite Hc. intros [= <-]. apply status_le_refl.
Qed.

Lemma map_forward_delete id m : jm_wf m -> map_forward m (jm_delete id m).
Proof.
  intros Hwf. split; [intros k; apply jm_get_delete_None|].
  intros k c c' Hc Hd. apply jm_get_delete_Some in Hd as [_ Hd]; [|done].
  rewrite Hc in Hd. injection Hd as ->. apply status_le_refl.
Qed.

(** ** The primitives move the charges forward *)

(** The rules of [within] at [Rmono]. *)
Definition mono_bind {A B} (m : M World A) (f : A -> M World B) := within_bind Rmono m f.
Definition mono_try {A} (m : M World A) h := within_try Rmono m h.
Definition mono_for_each {A} (xs : list A) f := within_for_each Rmono xs f.
Definition mono_ret {A} (a : A) := within_ret Rmono a.
Definition mono_throw {A} e := within_throw Rmono (A:=A) e.
Definition mono_get := within_get Rmono.
Definition mono_gets {A} (f : World -> A) := within_gets Rmono f.

(** A step that keeps the invariant and moves the charges forward from a
    world satisfying it. *)
Lemma within_mono {A} (m : M World A) :
  within Rinv m ->
  (forall w w' r, inv w -> m w = (w', r) -> map_forward (pr_charges (w_proc w)) (pr_charges (w_proc w'))) ->
  within Rmono m.
Proof. intros Hi Hf w w' r E Hw. split; [exact (Hi w w' r E Hw)|exact (Hf w w' r Hw E)]. Qed.

(** A step that leaves the charges map alone. *)
Lemma within_mono_fixed {A} (m : M World A) :
  within Rinv m ->
  (forall w w' r, m w = (w', r) -> pr_charges (w_proc w') = pr_charges (w_proc w)) ->
  within Rmono m.
Proof.
  intros Hi Hf. apply within_mono; [exact Hi|]. intros w w' r _ E. rewrite (Hf w w' r E).
  apply map_forward_refl.
Qed.

Lemma mono_modify_proc f :
  (forall p, proc_inv p -> proc_inv (f p)) -> (forall p, pr_charges (f p) = pr_charges p) ->
  within Rmono (modify_proc f).
Proof.
  intros Hi Hf. apply within_mono_fixed; [by apply within_modify_proc|].
  intros w w' r [= <- _]. apply Hf.
Qed.

Lemma mono_modify f :
  within Rinv (modify f) -> (forall w, w_proc (f w) = w_proc w) -> within Rmono (modify f).
Proof. intros Hi Hf. apply within_mono_fixed; [exact Hi|]. intros w w' r [= <- _]. by rewrite Hf. Qed.

(** A field assignment that moves the status forward. *)
Lemma mono_mutate id f :
  charge_frame f -> (forall c, status_le (ch_status c) (ch_status (f c)) = true) ->
  within Rmono (mutate id f).
Proof.
  intros Hi Hf. apply within_mono; [by apply within_mutate|]. intros w w' r _ [= <- _].
  apply map_forward_alter. intros c _. apply Hf.
Qed.

Lemma mono_delete_charge id : within Rmono (modify_proc (upd_charges (jm_delete id))).
Proof.
  apply within_mono; [apply within_delete_charge|]. intros w w' r [[[Hwf _] _] _] [= <- _].
  by apply map_forward_delete.
Qed.

Lemma mono_emit e : within Rmono (emit e).
Proof. apply mono_modify; [apply within_emit|done]. Qed.
Lemma mono_add_post u pl : within Rmono (modify (add_post u pl)).
Proof. apply mono_modify; [apply within_add_post|done]. Qed.
Lemma mono_write : within Rmono (modify (fun w => set_disk (Snapshot (snapshot w)) w)).
Proof. apply mono_modify; [apply within_write|done]. Qed.
Lemma mono_timers r i d : within Rmono (modify_proc (upd_timers r i d)).
Proof. apply mono_modify_proc; [intros p H; exact H|done]. Qed.
Lemma mono_monitor_add a : within Rmono (monitor_add a).
Proof. apply mono_modify_proc; [intros p H; exact H|done]. Qed.
Lemma mono_monitor_remove a : within Rmono (monitor_remove a).
Proof. apply mono_modify_proc; [intros p H; exact H|done]. Qed.
Lemma mono_delete_address a : within Rmono (modify_proc (upd_addresses (jm_delete a))).
Proof. apply mono_modify_proc; [intros p [Hc Ha]; split; [done|by apply jm_delete_wf]|done]. Qed.
Lemma mono_wallet {A} (m : M Wallet A) : within Rmono (wallet m).
Proof.
  apply within_mono_fixed; [apply within_wallet|]. intros w w' r E.
  unfold wallet, lift in E. destruct (m (w_wallet w)) as [wl o]. by injection E as <- _.
Qed.
Lemma mono_bigint (s : string) : within Rmono (bigint s).
Proof. unfold bigint. destruct (BigInt_of_string s); [apply mono_ret|apply mono_throw]. Qed.
Lemma mono_now : within Rmono now.
Proof. apply mono_gets. Qed.
Lemma mono_getCharge id : within Rmono (getCharge id).
Proof. apply mono_gets. Qed.
Lemma mono_getChargeByAddress a : within Rmono (getChargeByAddress a).
Proof. apply mono_gets. Qed.

(** The setters that leave the status, and [set_swept]. *)
Lemma le_push_tx tx c : status_le (ch_status c) (ch_status (push_tx tx c)) = true.
Proof. apply status_le_refl. Qed.
Lemma le_set_received r n c : status_le (ch_status c) (ch_status (set_received r n c)) = true.
Proof. apply status_le_refl. Qed.
Lemma le_set_webhook_sent c : status_le (ch_status c) (ch_status (set_webhook_sent c)) = true.
Proof. apply status_le_refl. Qed.
Lemma le_set_swept t h c : status_le (ch_status c) (ch_status (set_swept t h c)) = true.
Proof. apply status_le_swept. Qed.

Create HintDb monotone discriminated.
#[export] Hint Resolve mono_ret mono_throw mono_get mono_gets mono_emit mono_add_post mono_write
  mono_timers mono_monitor_add mono_monitor_remove mono_delete_address mono_delete_charge
  mono_wallet mono_bigint mono_now mono_getCharge mono_getChargeByAddress
  le_push_tx le_set_received le_set_webhook_sent le_set_swept
  frame_push_tx frame_set_webhook_sent frame_set_swept frame_set_received : monotone.
#[export] Hint Extern 1 (within Rmono (mutate _ _)) => apply mono_mutate : monotone.
(** A change of the timers or of the monitor leaves the charges. *)
#[export] Hint Extern 2 (within Rmono (modify_proc _)) =>
  apply mono_modify_proc; [intros ? Hp; exact Hp|done] : monotone.

(** Walk a method's code with the rules of [within] at [Rmono]. *)
Ltac mono_walk :=
  repeat (cbn beta iota zeta;
    first
    [ solve [eauto with monotone]
    | apply mono_bind; [|intros]
    | apply mono_try; [|intros]
    | apply mono_for_each; intros
    | match goal with
      | |- within _ (match ?x with _ => _ end) => destruct x
      | |- within _ (if ?x then _ else _) => destruct x
      end ]).

Lemma mono_persistState : within Rmono persistState.
Proof. unfold persistState. mono_walk. Qed.
Lemma mono_persistStateNow : within Rmono persistStateNow.
Proof. unfold persistStateNow. mono_walk. Qed.
Lemma mono_saveDebounceFire : within Rmono saveDebounceFire.
Proof. unfold saveDebounceFire. mono_walk. Qed.
#[export] Hint Resolve mono_persistState mono_persistStateNow mono_saveDebounceFire : monotone.

(** ** The operations without a guarded status change *)
Section Unguarded.
Context `{WalletLib}.

Lemma mono_callWebhook c h a : within Rmono (callWebhook c h a).
Proof. unfold callWebhook. mono_walk. Qed.
#[local] Hint Resolve mono_callWebhook : monotone.

Lemma mono_sweepCharge id : within Rmono (sweepCharge id).
Proof. unfold sweepCharge, balance_is_zero. mono_walk. Qed.

Lemma mono_sum_amounts acc l : within Rmono (sum_amounts acc l).
Proof. revert acc. induction l; intros; simpl; mono_walk. Qed.
#[local] Hint Resolve mono_sum_amounts : monotone.

Lemma mono_checkChargeStatus id : within Rmono (checkChargeStatus id).
Proof. unfold checkChargeStatus. mono_walk. Qed.

Lemma mono_deleteCharge id : within Rmono (deleteCharge id).
Proof. unfold deleteCharge. mono_walk. Qed.

Lemma mono_cleanup_loop l n : within Rmono (cleanup_loop l n).
Proof. revert n. induction l as [|[k c] l IH]; intros; simpl; mono_walk. Qed.
#[local] Hint Resolve mono_cleanup_loop : monotone.

Lemma mono_cleanupSweptCharges : within Rmono cleanupSweptCharges.
Proof. unfold cleanupSweptCharges. mono_walk. Qed.

Lemma mono_stop : within Rmono stop.
Proof. unfold stop. mono_walk. Qed.

Lemma mono_getMainAddress : within Rmono getMainAddress.
Proof. unfold getMainAddress. mono_walk. Qed.
End Unguarded.

(** ** Frames: the statuses an operation leaves alone *)

(** The status stored under [X]. *)
Definition stat (X : string) (w : World) : option ChargeStatus :=
  ch_status <$> jm_get X (pr_charges (w_proc w)).

(** The statuses outside [S] are unchanged. *)
Definition Rframe (S : string -> Prop) (w w' : World) : Prop :=
  forall X, ~ S X -> stat X w' = stat X w.

#[export] Instance Rframe_preorder S : PreOrder (Rframe S).
Proof. split; [by intros w X _|intros w1 w2 w3 H12 H23 X HX; by rewrite H23, H12]. Qed.

(** A setter that leaves the status. *)
Definition neutral (f : Charge -> Charge) : Prop := forall c, ch_status (f c) = ch_status c.

Lemma stat_alter f (id X : string) (m : JsMap string Charge) :
  ch_status <$> jm_get X (jm_alter f id m) =
    if decide (id = X) then (fun c => ch_status (f c)) <$> jm_get X m else ch_status <$> jm_get X m.
Proof. rewrite jm_get_alter. case_decide; [|done]. by destruct (jm_get X m). Qed.

Section Frame.
Context (S : string -> Prop).

(** The rules of [within] at [Rframe S]. *)
Definition frame_bind {A B} (m : M World A) (f : A -> M World B) := within_bind (Rframe S) m f.
Definition frame_try {A} (m : M World A) h := within_try (Rframe S) m h.
Definition frame_for_each {A} (xs : list A) f := within_for_each (Rframe S) xs f.
Definition frame_ret {A} (a : A) := within_ret (Rframe S) a.
Definition frame_throw {A} e := within_throw (Rframe S) (A:=A) e.
Definition frame_get := within_get (Rframe S).
Definition frame_gets {A} (f : World -> A) := within_gets (Rframe S) f.

(** A step that leaves the charges map alone. *)
Lemma frame_fixed {A} (m : M World A) :
  (forall w w' r, m w = (w', r) -> pr_charges (w_proc w') = pr_charges (w_proc w)) ->
  within (Rframe S) m.
Proof. intros Hf w w' r E X _. unfold stat. by rewrite (Hf w w' r E). Qed.

Lemma frame_modify_proc f : (forall p, pr_charges (f p) = pr_charges p) -> within (Rframe S) (modify_proc f).
Proof. intros Hf. apply frame_fixed. intros w w' r [= <- _]. apply Hf. Qed.

Lemma frame_modify f : (forall w, w_proc (f w) = w_proc w) -> within (Rframe S) (modify f).
Proof. intros Hf. apply frame_fixed. intros w w' r [= <- _]. by rewrite Hf. Qed.

Lemma frame_wallet {A} (m : M Wallet A) : within (Rframe S) (wallet m).
Proof. apply frame_fixed. intros w w' r E. unfold wallet, lift in E. destruct (m (w_wallet w)). by injection E as <- _. Qed.

Lemma frame_bigint (s : string) : within (Rframe S) (bigint s).
Proof. unfold bigint. destruct (BigInt_of_string s); [apply frame_ret|apply frame_throw]. Qed.

Lemma frame_emit e : within (Rframe S) (emit e).
Proof. by apply frame_modify. Qed.
Lemma frame_now : within (Rframe S) now.
Proof. apply frame_gets. Qed.
Lemma frame_getCharge id : within (Rframe S) (getCharge id).
Proof. apply frame_gets. Qed.
Lemma frame_persistState : within (Rframe S) persistState.
Proof. by apply frame_modify_proc. Qed.
Lemma frame_persistStateNow : within (Rframe S) persistStateNow.
Proof. apply frame_bind; [by apply frame_modify_proc|intros; by apply frame_modify]. Qed.

(** A setter that leaves the status, on any charge. *)
Lemma frame_mutate_neutral id f : neutral f -> within (Rframe S) (mutate id f).
Proof.
  intros Hf. intros w w' r [= <- _] X _. unfold stat. cbn. rewrite stat_alter.
  case_decide; [|done]. destruct (jm_get X _); simpl; [by rewrite Hf|done].
Qed.

(** Any setter on a charge of [S]. *)
Lemma frame_mutate_in id f : S id -> within (Rframe S) (mutate id f).
Proof.
  intros HS. intros w w' r [= <- _] X HX. unfold stat. cbn. rewrite stat_alter.
  case_decide; [subst; contradiction|done].
Qed.
End Frame.

Lemma neutral_push_tx tx : neutral (push_tx tx).
Proof. by intros c. Qed.
Lemma neutral_set_received r n : neutral (set_received r n).
Proof. by intros c. Qed.
Lemma neutral_set_webhook_sent : neutral set_webhook_sent.
Proof. by intros c. Qed.

Create HintDb frame discriminated.
#[export] Hint Resolve frame_ret frame_throw frame_get frame_gets frame_wallet frame_bigint
  frame_emit frame_now frame_getCharge frame_persistState frame_persistStateNow
  neutral_push_tx neutral_set_received neutral_set_webhook_sent : frame.
#[export] Hint Extern 1 (within (Rframe _) (mutate _ _)) =>
  first [apply frame_mutate_neutral; solve [eauto with frame] | apply frame_mutate_in; done] : frame.
#[export] Hint Extern 2 (within (Rframe _) (modify_proc _)) => apply frame_modify_proc; done : frame.
#[export] Hint Extern 2 (within (Rframe _) (modify _)) => apply frame_modify; done : frame.
#[export] Hint Extern 2 (within (Rframe _) (monitor_add _)) => apply frame_modify_proc; done : frame.
#[export] Hint Extern 2 (within (Rframe _) (monitor_remove _)) => apply frame_modify_proc; done : frame.

Ltac frame_walk :=
  repeat (cbn beta iota zeta;
    first
    [ solve [eauto with frame]
    | apply frame_bind; [|intros]
    | apply frame_try; [|intros]
    | apply frame_for_each; intros
    | match goal with
      | |- within _ (match ?x with _ => _ end) => destruct x
      | |- within _ (if ?x then _ else _) => destruct x
      end ]).

Section Frames.
Context `{WalletLib}.

(** Receiving one pending block leaves every status. *)
Lemma frame_recover_block S id i p : within (Rframe S) (recover_block id i p).
Proof. unfold recover_block. frame_walk. Qed.

(** A sweep changes the status of its own charge only. *)
Lemma frame_sweepCharge S id : S id -> within (Rframe S) (sweepCharge id).
Proof.
  intros HS. unfold sweepCharge, balance_is_zero, callWebhook. frame_walk.
Qed.
End Frames.

(** ** Guarded steps

    [hoare P m Q]: from a world satisfying the invariant and [P], [m]
    moves the charges forward, and when it returns [a] the world satisfies
    [Q a].  It carries what a handler read to the status change it guards. *)
Definition hoare {A} (P : World -> Prop) (m : M World A) (Q : A -> World -> Prop) : Prop :=
  forall w w' r, inv w -> P w -> m w = (w', r) -> Rmono w w' /\ (forall a, r = Ret a -> Q a w').

Lemma hoare_bind {A B} P (m : M World A) Q (f : A -> M World B) R :
  hoare P m Q -> (forall a, hoare (Q a) (f a) R) -> hoare P (m ≫= f) R.
Proof.
  intros Hm Hf w w' r Hi HP E. rewrite bind_eval in E.
  destruct (m w) as [w1 [a|e]] eqn:E1; destruct (Hm w w1 _ Hi HP E1) as [R1 Q1].
  - destruct (R1 Hi) as [Hi1 _]. destruct (Hf a w1 w' r Hi1 (Q1 a eq_refl) E) as [R2 Q2].
    split; [by transitivity w1|exact Q2].
  - injection E as <- <-. split; [exact R1|discriminate].
Qed.

Lemma hoare_mono {A} P (m : M World A) : within Rmono m -> hoare P m (fun _ _ => True).
Proof. intros Hm w w' r _ _ E. split; [exact (Hm w w' r E)|done]. Qed.

Lemma hoare_pre {A} P P' (m : M World A) Q :
  (forall w, inv w -> P' w -> P w) -> hoare P m Q -> hoare P' m Q.
Proof. intros HP Hm w w' r Hi H'. apply Hm; [exact Hi|by apply HP]. Qed.

Lemma hoare_to_within {A} (m : M World A) : hoare (fun _ => True) m (fun _ _ => True) -> within Rmono m.
Proof. intros Hm w w' r E Hi. exact (proj1 (Hm w w' r Hi I E) Hi). Qed.

(** A step that leaves the status of [X]. *)
Lemma hoare_keep {A} S X s (m : M World A) :
  within Rmono m -> within (Rframe S) m -> ~ S X ->
  hoare (fun w => stat X w = Some s) m (fun _ w => stat X w = Some s).
Proof.
  intros Hm Hf HX w w' r _ Hs E. split; [exact (Hm w w' r E)|]. intros a _.
  by rewrite (Hf w w' r E X HX).
Qed.

(** The guarded change: the status read is [s], and [f] moves it forward. *)
Lemma hoare_mutate X f s :
  charge_frame f -> (forall c, ch_status c = s -> status_le s (ch_status (f c)) = true) ->
  hoare (fun w => stat X w = Some s) (mutate X f) (fun _ _ => True).
Proof.
  intros Hfr Hf w w' r Hi Hs E. split; [|done]. intros _.
  split; [exact (within_mutate X f Hfr w w' r E Hi)|]. injection E as <- _.
  apply map_forward_alter. intros c Hc. unfold stat in Hs. rewrite Hc in Hs. injection Hs as <-.
  by apply Hf.
Qed.

(** What the invariant says of the charge an address is registered for. *)
Lemma stat_by_address w a c :
  inv w -> charge_by_address (w_proc w) a = Some c -> stat (ch_id c) w = Some (ch_status c).
Proof.
  intros [[[_ [Hco _]] _] _]. unfold charge_by_address.
  destruct (jm_get a _) as [id|]; [|done]. destruct (String.eqb id ""); [done|].
  intros Hc. unfold stat. by rewrite (Hco _ _ Hc), Hc.
Qed.

(** A step of the prefix of a guarded change: it leaves the status of [X]. *)
Lemma hoare_keep_bind {A B} S X s (m : M World A) (f : A -> M World B) R :
  within Rmono m -> within (Rframe S) m -> ~ S X ->
  (forall a, hoare (fun w => stat X w = Some s) (f a) R) ->
  hoare (fun w => stat X w = Some s) (m ≫= f) R.
Proof. intros Hm Hf HX Hk. eapply hoare_bind; [exact (hoare_keep S X s m Hm Hf HX)|exact Hk]. Qed.

(** The guarded change, followed by steps that need no guard. *)
Lemma hoare_mutate_bind {B} X f s (k : unit -> M World B) :
  charge_frame f -> (forall c, ch_status c = s -> status_le s (ch_status (f c)) = true) ->
  (forall u, within Rmono (k u)) ->
  hoare (fun w => stat X w = Some s) (mutate X f ≫= k) (fun _ _ => True).
Proof.
  intros Hfr Hf Hk. eapply hoare_bind; [exact (hoare_mutate X f s Hfr Hf)|].
  intros u. apply hoare_mono, Hk.
Qed.

Ltac keep_step := apply (hoare_keep_bind (fun _ => False)); [mono_walk|frame_walk|tauto|intros].

#[export] Hint Resolve mono_sweepCharge : monotone.

Lemma le_set_partial c : is_active c = true -> status_le (ch_status c) (ch_status (set_status Partial c)) = true.
Proof. unfold is_active. by destruct (ch_status c). Qed.

Lemma hoare_gets {A} P (f : World -> A) : hoare P (gets f) (fun a w => a = f w /\ P w).
Proof. intros w w' r _ HP [= <- <-]. split; [reflexivity|]. by intros a [= <-]. Qed.

Section Guarded.
Context `{WalletLib}.

(** [handlePayment] sets [partial] or [completed] only on the charge it
    read [pending] or [partial]. *)
Lemma mono_handlePayment p : within Rmono (handlePayment p).
Proof.
  apply hoare_to_within. unfold handlePayment, getChargeByAddress.
  eapply hoare_bind; [apply hoare_gets|].
  intros [c|]; cbn beta iota.
  2:{ apply hoare_mono, mono_ret. }
  destruct (ch_status c) eqn:Hs; try (apply hoare_mono, mono_ret);
    (eapply (hoare_pre (fun w => stat (ch_id c) w = Some (ch_status c)));
      [intros w Hi [Hc _]; by eapply stat_by_address|]);
    do 6 keep_step; destruct (_ <=? _)%Z; try (progress (lazymatch goal with |- hoare _ (now ≫= _) _ => keep_step end));
    (apply hoare_mutate_bind; [eauto with lifecycle|intros c' _; by rewrite Hs|intros; mono_walk]).
Qed.
End Guarded.

(** ** The recovery scan *)

Lemma hoare_ret {A} P (a : A) : hoare P (mret a) (fun _ => P).
Proof. intros w w' r _ HP [= <- <-]. split; [reflexivity|]. by intros ? [= <-]. Qed.

Lemma hoare_get P : hoare P get (fun a w => a = w /\ P w).
Proof. intros w w' r _ HP [= <- <-]. split; [reflexivity|]. by intros ? [= <-]. Qed.

Lemma hoare_post {A} P (m : M World A) Q Q' :
  (forall a w, Q a w -> Q' a w) -> hoare P m Q -> hoare P m Q'.
Proof. intros HQ Hm w w' r Hi HP E. destruct (Hm w w' r Hi HP E) as [R HQa]. split; [exact R|eauto]. Qed.

Lemma hoare_false {A} P (m : M World A) Q : (forall w, ~ P w) -> hoare P m Q.
Proof. intros HP w w' r _ H. by destruct (HP w H). Qed.

(** A loop with an invariant indexed by the elements left. *)
Lemma hoare_for_each {A} (I : list A -> World -> Prop) xs f :
  (forall x rest, hoare (I (x :: rest)) (f x) (fun _ => I rest)) ->
  hoare (I xs) (for_each xs f) (fun _ => I []).
Proof.
  intros Hf. induction xs as [|x xs IH]; simpl; [apply hoare_ret|].
  eapply hoare_bind; [apply Hf|intros; exact IH].
Qed.

(** A [try] whose handler needs no guard. *)
Lemma hoare_try {A} P (m : M World A) h :
  hoare P m (fun _ _ => True) -> (forall e, within Rmono (h e)) ->
  hoare P (try_catch m h) (fun _ _ => True).
Proof.
  intros Hm Hh w w' r Hi HP E. unfold try_catch in E.
  destruct (m w) as [w1 [a|e]] eqn:E1; destruct (Hm w w1 _ Hi HP E1) as [R1 _]; split; try done.
  - by injection E as <- <-.
  - transitivity w1; [exact R1|exact (Hh e w1 w' r E)].
Qed.

(** The frame rule: what a step outside [S] cannot see is kept. *)
Lemma hoare_frame {A} P (m : M World A) S (I : World -> Prop) :
  hoare P m (fun _ _ => True) -> within (Rframe S) m ->
  (forall w w', I w -> Rframe S w w' -> I w') ->
  hoare (fun w => P w /\ I w) m (fun _ => I).
Proof.
  intros Hm Hf HI w w' r Hi [HP HIw] E. split; [exact (proj1 (Hm w w' r Hi HP E))|].
  intros _ _. exact (HI w w' HIw (Hf w w' r E)).
Qed.

(** The loop invariant of [checkMissedPayments]: the charges still to
    visit have distinct ids, are active, and are stored with the status
    read at the start. *)
Definition active_ok (l : list Charge) (w : World) : Prop :=
  NoDup (ch_id <$> l) /\ Forall (fun c => is_active c = true /\ stat (ch_id c) w = Some (ch_status c)) l.

Lemma active_ok_frame X rest w w' :
  X ∉ ch_id <$> rest -> active_ok rest w -> Rframe (eq X) w w' -> active_ok rest w'.
Proof.
  intros HX [Hnd HF] Hfr. split; [exact Hnd|]. rewrite Forall_forall in HF |- *.
  intros c Hc. destruct (HF c Hc) as [Ha Hs]. split; [exact Ha|]. rewrite Hfr; [exact Hs|].
  intros ->. apply HX. by apply list_elem_of_fmap_2.
Qed.

Lemma active_ok_init w : inv w -> active_ok (listActiveCharges (w_proc w)) w.
Proof.
  intros [[[Hwf [Hco _]] _] _]. unfold listActiveCharges, listCharges. split.
  - apply (sublist_NoDup _ (ch_id <$> jm_values (pr_charges (w_proc w)))); [by rewrite <- ids_coherent_keys|].
    apply fmap_sublist, sublist_filter.
  - apply Forall_forall. intros c [Ha Hc]%list_elem_of_filter. split; [exact Ha|].
    unfold stat. rewrite (jm_elem_get (ch_id c) _ c Hwf); [done|].
    rewrite <- (ids_coherent_values _ Hwf Hco). by apply (list_elem_of_fmap_2 (fun c => (ch_id c, c))).
Qed.

#[export] Hint Resolve frame_recover_block : frame.
#[export] Hint Extern 2 (within (Rframe _) (sweepCharge _)) => apply frame_sweepCharge; done : frame.

Section Recovery.
Context `{WalletLib}.

Lemma mono_recover_block id i p : within Rmono (recover_block id i p).
Proof. unfold recover_block. mono_walk. Qed.
#[local] Hint Resolve mono_recover_block : monotone.

(** Recovering a charge changes the status of that charge only. *)
Lemma frame_recover_charge c : within (Rframe (eq (ch_id c))) (recover_charge c).
Proof. unfold recover_charge. frame_walk. Qed.

(** Recovering an active charge read with the status it has: [completed]
    or [partial] are set on that status, then the sweep. *)
Lemma hoare_recover_charge c :
  is_active c = true ->
  hoare (fun w => stat (ch_id c) w = Some (ch_status c)) (recover_charge c) (fun _ _ => True).
Proof.
  intros Ha. unfold recover_charge. keep_step. destruct a as [|? ?]; [apply hoare_mono, mono_ret|].
  do 3 keep_step. match goal with x : option Charge |- _ => destruct x as [c'|] end;
    [|apply hoare_mono, mono_ret].
  do 2 keep_step. destruct (_ <=? _)%Z; [keep_step|destruct (0 <? _)%Z; [|apply hoare_mono, mono_ret]];
    (apply hoare_mutate_bind; [eauto with lifecycle|intros c0 _|intros; mono_walk]);
    unfold is_active in Ha; by destruct (ch_status c).
Qed.

(** One round of the scan: the charge visited moves forward, the others
    are still as read. *)
Lemma hoare_recover_step c rest :
  hoare (active_ok (c :: rest)) (try_catch (recover_charge c) (fun e => emit (EvError e)))
    (fun _ => active_ok rest).
Proof.
  destruct (decide (ch_id c ∈ ch_id <$> rest)) as [Hin|Hnin].
  { apply hoare_false. intros w [Hnd _]. cbn in Hnd. by apply NoDup_cons in Hnd as [? _]. }
  destruct (is_active c) eqn:Ha.
  2:{ apply hoare_false. intros w [_ HF]. apply Forall_cons in HF as [[Ha' _] _]. congruence. }
  eapply hoare_pre;
    [|apply (hoare_frame (fun w => stat (ch_id c) w = Some (ch_status c)) _ (eq (ch_id c)) (active_ok rest))].
  - intros w _ [Hnd HF]. apply Forall_cons in HF as [[_ Hs] HF]. cbn in Hnd.
    apply NoDup_cons in Hnd as [_ Hnd]. done.
  - apply hoare_try; [by apply hoare_recover_charge|intros; apply mono_emit].
  - apply frame_try; [apply frame_recover_charge|intros; apply frame_emit].
  - intros w w'. by apply active_ok_frame.
Qed.

Lemma mono_checkMissedPayments : within Rmono checkMissedPayments.
Proof.
  apply hoare_to_within. unfold checkMissedPayments. eapply hoare_bind; [apply hoare_get|intros w0].
  eapply hoare_pre; [|eapply hoare_post; [|apply (hoare_for_each active_ok), hoare_recover_step]].
  - intros w Hi [<- _]. by apply active_ok_init.
  - done.
Qed.
#[local] Hint Resolve mono_checkMissedPayments : monotone.

Lemma mono_start : within Rmono start.
Proof. unfold start. mono_walk. Qed.
End Recovery.

(** ** The expiry scan *)

Lemma expire_charge_forward t c : status_le (ch_status c) (ch_status (expire_charge t c)) = true.
Proof.
  unfold expire_charge, due, is_active. destruct (ch_status c) eqn:Hs; cbn [andb];
    try destruct (_ <? _)%Z; cbn; rewrite ?Hs; reflexivity.
Qed.

Lemma map_forward_expire t m : map_forward m (map (expire_entry t) m).
Proof.
  split; intros id; rewrite jm_get_expire; [by intros ->|].
  intros c c' -> [= <-]. apply expire_charge_forward.
Qed.

Lemma inv_parses w :
  inv w -> Forall (fun e => is_Some (BigInt_of_string (ch_receivedRaw e.2))) (pr_charges (w_proc w)).
Proof.
  intros [[[Hwf [_ [_ [_ Hp]]]] _] _]. apply Forall_forall. intros [k c] He.
  exact (Hp k c (jm_elem_get k _ c Hwf He)).
Qed.

Section ExpiryMono.
Context `{WalletLib}.

(** The loop of the scan, started on the charges of the world it runs in. *)
Lemma hoare_expire_loop t w0 :
  hoare (fun w => w = w0) (expire_loop t (pr_charges (w_proc w0)) false []) (fun _ _ => True).
Proof.
  intros w w' r Hi -> E. split; [|done]. intros _.
  split; [exact (within_expire_loop _ _ _ _ w0 w' r E Hi)|].
  rewrite (expire_loop_spec _ _ []) in E; [|done|apply Hi|by apply inv_parses].
  injection E as <- _. apply map_forward_expire.
Qed.

Lemma mono_checkExpiredCharges : within Rmono checkExpiredCharges.
Proof.
  apply hoare_to_within. unfold checkExpiredCharges.
  eapply hoare_bind; [apply hoare_mono, mono_now|intros t].
  eapply hoare_bind; [apply hoare_get|intros w0].
  eapply hoare_bind; [eapply hoare_pre; [|apply (hoare_expire_loop t w0)]; by intros w _ [-> _]|].
  intros [ch ts]. apply hoare_mono. mono_walk.
Qed.
End ExpiryMono.

(** ** Creation *)

(** The id a step needs fresh: [createCharge] stores its charge under the
    id [generateChargeId] draws, 12 random bytes, taken here as unused. *)
Definition op_fresh (o : op) (w : World) : Prop :=
  match o with
  | OpCreate id _ => jm_get id (pr_charges (w_proc w)) = None
  | _ => True
  end.

Section Create.
Context `{WalletLib}.

Lemma createCharge_charges id o w w' r :
  createCharge id o w = (w', r) ->
  pr_charges (w_proc w') = pr_charges (w_proc w) \/
  exists c, ch_status c = Pending /\ pr_charges (w_proc w') = jm_set id c (pr_charges (w_proc w)).
Proof.
  unfold createCharge. m_simp. rewrite wallet_bind_eval. w_simpl.
  destruct (deriveAccount _ _) as [wl [a|e]]; cbn iota.
  - unfold now, monitor_add, persistState, emit. m_simp. cbn beta iota delta [mret M_ret]. intros [= <- _]. right. eexists; split; [|w_simpl; reflexivity]; reflexivity.
  - intros [= <- _]. by left.
Qed.

(** Every operation on a world satisfying the invariant: statuses of the
    charges it keeps move forward, and a charge it adds is a new pending
    one created under a fresh id. *)
Lemma run_op_forward o w w' r :
  inv w -> op_fresh o w -> run_op o w = (w', r) ->
  map_forward (pr_charges (w_proc w)) (pr_charges (w_proc w')) \/
  exists id options c, o = OpCreate id options /\ ch_status c = Pending /\
    jm_get id (pr_charges (w_proc w)) = None /\
    pr_charges (w_proc w') = jm_set id c (pr_charges (w_proc w)).
Proof.
  intros Hi Hf E. destruct o as [id options| | | | | | | | | |]; cbn [run_op] in E;
    [|left; refine (proj2 (_ w w' r E Hi));
      first [apply mono_handlePayment|apply mono_checkExpiredCharges|apply mono_saveDebounceFire
            |apply mono_start|apply mono_stop
            |apply mono_bind; [|intros; apply mono_ret];
             first [apply mono_sweepCharge|apply mono_checkChargeStatus|apply mono_deleteCharge
                   |apply mono_cleanupSweptCharges|apply mono_getMainAddress]]..].
  rewrite bind_eval in E. destruct (createCharge id options w) as [w1 o1] eqn:E1.
  assert (Hw : w1 = w') by (destruct o1; by injection E as <- _). subst w1.
  destruct (createCharge_charges _ _ _ _ _ E1) as [Eq|[c [Hs Eq]]].
  - left. rewrite Eq. apply map_forward_refl.
  - right. by exists id, options, c.
Qed.
End Create.

(** ** Statuses follow the state machine of the spec *)
Section Status.
Context `{WalletLib}.

(** C8: Status monotonicity: on a world satisfying the invariant, every
    entry point of [op] (payment event, sweep, status query, expiry tick,
    delete, cleanup, debounce timer, start and its recovery scan, stop,
    create; not [importCharges], which stores whatever it is given) moves the
    status of each charge it keeps along the state machine of the spec
    (zero or more of its transitions), and the only charge that appears
    is the [pending] one [createCharge] stores under its fresh id. *)
Theorem run_op_status o w w' r :
  inv w -> op_fresh o w -> run_op o w = (w', r) ->
  (forall id c c', jm_get id (pr_charges (w_proc w)) = Some c ->
     jm_get id (pr_charges (w_proc w')) = Some c' -> rtc spec_step (ch_status c) (ch_status c')) /\
  (forall id c', jm_get id (pr_charges (w_proc w)) = None ->
     jm_get id (pr_charges (w_proc w')) = Some c' ->
     (exists options, o = OpCreate id options) /\ ch_status c' = Pending).
Proof.
  intros Hi Hf E. destruct (run_op_forward o w w' r Hi Hf E) as [[N F]|(id0 & opts & c & -> & Hs & Hn & Eq)].
  - split; [intros; apply status_le_spec; eauto|intros id c' H1 H2; by rewrite (N _ H1) in H2].
  - rewrite Eq. split; intros id; (destruct (decide (id0 = id)) as [<-|Hne];
      [rewrite jm_get_set_eq|rewrite jm_get_set_ne by done]).
    + intros c0 c' H1. congruence.
    + intros c0 c' -> [= <-]. reflexivity.
    + intros c' _ [= <-]. by eauto.
    + congruence.
Qed.
End Status.

(** A payment that completes [c1] and, with [autoSweep] on, its sweep. *)
Definition ex_status_charge : Charge := example_charge "c1" 999 "1000" "0" Pending [] None.
Definition ex_status_world : World :=
  example_world true [("c1", ex_status_charge)]
    (example_wallet [("nano_999", mkNodeAccount true 1000 "F1" "nano_rep" [])]).
Definition ex_status_op : op := OpPayment (mkPaymentEvent "nano_999" "nano_src" "H1" "1000" "1000" 10).
Definition ex_status_after : Charge :=
  default ex_status_charge
    (jm_get "c1" (pr_charges (w_proc (fst (@run_op example_lib ex_status_op ex_status_world))))).

Lemma run_op_status_witness :
  ch_status ex_status_after = Swept /\ rtc spec_step (ch_status ex_status_charge) (ch_status ex_status_after).
Proof.
  split; [vm_compute; reflexivity|].
  apply (proj1 (@run_op_status example_lib ex_status_op ex_status_world _ _
    (inv_check_sound ex_status_world ltac:(vm_compute; reflexivity)) I (surjective_pairing _)) "c1");
    vm_compute; reflexivity.
Defined.
