(* ===== verification/Cli.v ===== *)
(** * The command line ([src/unnamed/part_000], lines 1-918)

    Every [berrypay] command is a new Node process: it builds a
    [PaymentProcessor] that reads the snapshot file, runs one operation,
    prints JSON, and stays alive until the debounced write has fired.  The
    [charge] commands share the snapshot file, the ledger node and the
    listener's PID file ([~/.berrypay/listener.pid]) with each other and
    with the background listener ([charge listen]).

    - [Os]: the PID file and the live processes, with
      [isListenerRunning] (lines 26-41), [startListenerInBackground]
      (lines 43-59), the listener's own PID write and exit (lines 548-575),
      [charge listener] (lines 878-895) and [charge stop] (lines 898-917).
    - [Cli]: the world of the processor and the [Os]; the commands
      [charge create], [charge status], [charge list], [charge sweep] and
      [charge cleanup] as computations on it, each in a fresh process.

    The seed store of [getWallet] ([config.ts], not under [src/]) is
    assumed to hold a seed; console output other than the JSON printed is
    not modelled; [process.exit(1)] is a [Throw] carrying the message. *)

From S2P Require Import Prelude BigInt JsNumber JsMap Charge Ledger Wallet Processor Sweep Payment Expiry Recovery Lifecycle.

Local Open Scope Z_scope.

(** ** Processes and the PID file *)

Record Os : Type := mkOs {
  os_pidFile : option string;   (** contents of [listener.pid], if it exists *)
  os_live : list Z;             (** the live processes *)
  os_nextPid : Z;               (** the pid the next [spawn] gets *)
}.

Definition set_pidFile (f : option string) (os : Os) : Os := mkOs f (os_live os) (os_nextPid os).

(** [process.kill(pid, 0)]: throws unless the process exists; [NaN] is a
    [TypeError].  Process groups (pids [0] and below) are not modelled. *)
Definition pid_arg (pid : option Z) : M Os Z :=
  match pid with
  | Some p => mret p
  | None => throw "TypeError [ERR_INVALID_ARG_TYPE]: The pid argument must be of type number"
  end.

Definition kill0 (pid : option Z) : M Os unit :=
  p ← pid_arg pid;
  os ← get;
  if bool_decide (p ∈ os_live os) then mret tt else throw "kill ESRCH".

(** [parseInt(fs.readFileSync(LISTENER_PID_FILE, "utf-8").trim())] *)
Definition read_pid (contents : string) : option Z := js_parseInt (trim contents).

Definition isListenerRunning : M Os bool :=
  try!
    (os ← get;
     match os_pidFile os with
     | Some contents => kill0 (read_pid contents);; mret true
     | None => mret false
     end)
  catch! (fun _ => modify (set_pidFile None);; mret false).

(** [spawn(process.execPath, [berrypayPath, "charge", "listen"], {detached: true})],
    then the child's PID written to the file. *)
Definition startListenerInBackground : M Os Z := fun os =>
  let pid := os_nextPid os in
  (mkOs (Some (BigInt_to_string pid)) (os_live os ++ [pid]) (pid + 1), Ret pid).

(** The first action of [charge listen]: its own PID in the file. *)
Definition listen_writes_pid (pid : Z) : M Os unit := modify (set_pidFile (Some (BigInt_to_string pid))).

(** [cleanup] of [charge listen]: the PID file removed if it exists (whoever
    it names), then [process.exit(0)]. *)
Definition listener_exit (pid : Z) : M Os unit :=
  modify (fun os => mkOs None (filter (fun p => p <> pid) (os_live os)) (os_nextPid os)).

(** [process.kill(pid, "SIGTERM")]: the listener's [SIGTERM] handler is
    [cleanup]; it runs before any other command does. *)
Definition kill_term (pid : option Z) : M Os Z :=
  p ← pid_arg pid;
  kill0 (Some p);;
  listener_exit p;;
  mret p.

(** The tail of [charge create] (lines 511-514): the check, then the
    spawn it decides; two [charge create] processes can interleave
    between the two. *)
Definition spawn_unless (running : bool) : M Os bool :=
  if running then mret false else startListenerInBackground;; mret true.

Definition ensure_listener : M Os bool :=
  running ← isListenerRunning;
  spawn_unless running.

(** [charge listener]: [{running, pid}]. *)
Definition charge_listener : M Os (bool * option Z) :=
  running ← isListenerRunning;
  if (running : bool) then
    os ← get;
    mret (true, match os_pidFile os with Some c => read_pid c | None => None end)
  else mret (false, None).

(** The JSON [charge stop] prints. *)
Inductive StopJson : Type :=
| StopNotRunning
| Stopped (pid : Z)
| StopFailed (error : string).

Definition charge_stop : M Os StopJson :=
  running ← isListenerRunning;
  if negb (running : bool) then mret StopNotRunning else
  try!
    (os ← get;
     match os_pidFile os with
     | None => throw "ENOENT: no such file or directory"
     | Some c => p ← kill_term (read_pid c); mret (Stopped p)
     end)
  catch! (fun e => mret (StopFailed e)).

(** ** Specification of the listener's bookkeeping *)

(** The file names a live process. *)
Definition listener_up (os : Os) : bool :=
  match os_pidFile os with
  | Some c => match read_pid c with Some p => bool_decide (p ∈ os_live os) | None => false end
  | None => false
  end.

Lemma isListenerRunning_spec os :
  isListenerRunning os = (if listener_up os then os else set_pidFile None os, Ret (listener_up os)).
Proof.
  destruct os as [[c|] live n];
    unfold isListenerRunning, listener_up, try_catch, kill0, pid_arg, set_pidFile; m_simp;
    cbn [os_pidFile os_live os_nextPid]; m_simp; [|done].
  destruct (read_pid c) as [p|]; m_simp; [|done]. cbn [os_live]. case_bool_decide; m_simp; done.
Qed.

Lemma listener_up_spawned live n m :
  listener_up (mkOs (Some (BigInt_to_string n)) (live ++ [n]) m) = true.
Proof.
  unfold listener_up, read_pid. cbn. rewrite parseInt_String.
  apply bool_decide_eq_true_2, elem_of_app. right. by apply list_elem_of_singleton.
Qed.

(** The two halves of two [charge create] processes, both checks first. *)
Definition creates_race : M Os (bool * bool) :=
  r1 ← isListenerRunning;
  r2 ← isListenerRunning;
  s1 ← spawn_unless r1;
  s2 ← spawn_unless r2;
  mret (s1, s2).

Lemma read_pid_String p : read_pid (BigInt_to_string p) = Some p.
Proof. apply parseInt_String. Qed.

(** Run the bookkeeping of the listener on a state. *)
Ltac os_simp :=
  repeat (rewrite ?bind_eval, ?isListenerRunning_spec;
          cbn beta iota zeta delta [mret M_ret negb spawn_unless startListenerInBackground get modify pid_arg
                                    os_pidFile os_live os_nextPid set_pidFile]).

(** [charge create] run twice in sequence starts one listener at most:
    the first starts one unless a live process is named by the PID file,
    the second then finds it running (its PID, written with [String],
    reads back with [parseInt]). *)
Theorem ensure_listener_once os :
  exists os', (b1 ← ensure_listener; b2 ← ensure_listener; mret (b1, b2)) os =
                (os', Ret (negb (listener_up os), false)) /\
    listener_up os' = true /\
    length (os_live os') = (length (os_live os) + if listener_up os then 0 else 1)%nat.
Proof.
  unfold ensure_listener. os_simp. destruct (listener_up os) eqn:U; os_simp.
  - rewrite U. eexists. split_and!; [done|done|lia].
  - rewrite listener_up_spawned. os_simp. eexists. split_and!; [done|apply listener_up_spawned|]. cbn. rewrite length_app. cbn. lia.
Qed.

Lemma not_listener_up_cleared os : listener_up (set_pidFile None os) = false.
Proof. done. Qed.

(** C13: Two [charge create] processes that both check the PID file before
    either spawns start two listeners; the file names the second only, so
    [charge stop] stops the second, and the first keeps running while
    [charge listener] reports that no listener runs. *)
Theorem creates_race_orphan os :
  listener_up os = false ->
  let n := os_nextPid os in
  exists os1 os2,
    creates_race os = (os1, Ret (true, true)) /\
    os_live os1 = os_live os ++ [n; n + 1] /\
    charge_stop os1 = (os2, Ret (Stopped (n + 1))) /\
    n ∈ os_live os2 /\ charge_listener os2 = (os2, Ret (false, None)).
Proof.
  intros U n. unfold creates_race. os_simp. rewrite U. os_simp. rewrite not_listener_up_cleared. os_simp.
  eexists _, _. split_and!; [reflexivity|by rewrite <- app_assoc| | |].
  - unfold charge_stop. os_simp. rewrite listener_up_spawned. os_simp.
    unfold try_catch, kill_term, kill0, listener_exit. os_simp. rewrite read_pid_String. os_simp.
    rewrite bool_decide_true by set_solver. os_simp. reflexivity.
  - apply list_elem_of_filter. split; [lia|set_solver].
  - unfold charge_listener. os_simp. reflexivity.
Qed.

(** ** The commands that drive the processor *)

(** A command's process: memory and the wallet's cache start empty, and
    the process lives on until the debounced write it armed has fired
    ([process.exit(1)] ends it at once: a [Throw] skips the write). *)
Definition in_new_process {A} (m : M World A) : M World A :=
  modify restart_world;;
  a ← m;
  saveDebounceFire;;
  mret a.

(** The JSON of [charge status] (lines 738-750). *)
Record StatusJson : Type := mkStatusJson {
  sj_id : string;
  sj_address : string;
  sj_status : string;
  sj_required : string;
  sj_requiredRaw : string;
  sj_onChainBalance : string;
  sj_onChainPending : string;
  sj_isPaid : bool;
  sj_remaining : string;
  sj_swept : bool;
  sj_sweepHash : option string;
}.

Section Commands.
Context `{WalletLib}.

(** [charge status <id>] (lines 669-761), [--no-sweep] making [sweep]
    false.  The processor is built with [autoSweep: false]. *)
Definition charge_status (id : string) (sweep : bool) : M World StatusJson :=
  construct (mkConfig None None (Some false));;
  c ← getCharge id;
  match c with
  | None => throw ("Charge not found: " +:+ id)
  | Some chargeData =>
      let idx := ch_accountIndex chargeData in
      bp ← wallet (getBalance idx);
      pendingBlocks ← wallet (getPendingBlocks idx 10);
      b ← bigint bp.1;
      p ← bigint bp.2;
      let totalOnChain := (b + p)%Z in
      required ← bigint (ch_amountRaw chargeData);
      let isPaid := (required <=? totalOnChain)%Z in
      let remaining := if (totalOnChain <? required)%Z then (required - totalOnChain)%Z else 0%Z in
      bp' ← (match pendingBlocks return M World (string * string) with
             | [] => mret bp
             | _ => wallet (receivePending idx);; wallet (getBalance idx)
             end);
      '(swept, sweepHash) ← (if isPaid && sweep && negb (bool_decide (ch_status chargeData = Swept)) then
              try! (r ← sweepCharge id;
                    mret (match r with Some (h, _) => (true, Some h) | None => (false, None) end))
              catch! (fun _ => mret (false, None))
            else mret (false, None));
      let finalStatus := if (swept : bool) then "swept" else if isPaid then "completed"
                         else status_string (ch_status chargeData) in
      mret (mkStatusJson (ch_id chargeData) (ch_address chargeData) finalStatus
              (ch_amountNano chargeData) (ch_amountRaw chargeData)
              (rawToNano bp'.1) (rawToNano bp'.2) isPaid
              (rawToNano (BigInt_to_string remaining)) swept sweepHash)
  end.

(** [processor.listCharges(options.status)]: the option is any string,
    compared with [c.status]; an empty one lists everything. *)
Definition list_by_status (status : option string) (p : Processor) : list Charge :=
  match status with
  | Some s => if String.eqb s "" then jm_values (pr_charges p)
              else filter (fun c => status_string (ch_status c) = s) (jm_values (pr_charges p))
  | None => jm_values (pr_charges p)
  end.

(** [charge list [--status s]] (lines 763-787): [{id, status, amount, received}]. *)
Definition charge_list (status : option string) : M World (list (string * string * string * string)) :=
  construct (mkConfig None None None);;
  w ← get;
  mret ((fun c => (ch_id c, status_string (ch_status c), ch_amountNano c, ch_receivedNano c))
          <$> list_by_status status (w_proc w)).

(** The JSON of [charge sweep]. *)
Inductive SweepJson : Type :=
| SweepDone (hash amount mainAddress : string)
| NothingToSweep.

(** [charge sweep <id>] (lines 789-865), without [--verbose] output. *)
Definition charge_sweep (id : string) : M World SweepJson :=
  construct (mkConfig None None None);;
  c ← getCharge id;
  match c with
  | None => throw "Charge not found"
  | Some charge =>
      let idx := ch_accountIndex charge in
      wallet (getBalance idx);;
      wallet (getPendingBlocks idx 10);;
      wallet (receivePending idx);;
      wallet (getBalance idx);;
      r ← sweepCharge id;
      match r with
      | Some (hash, amount) => a ← getMainAddress; mret (SweepDone hash (rawToNano amount) a)
      | None => mret NothingToSweep
      end
  end.

(** [charge cleanup] (lines 867-876). *)
Definition charge_cleanup : M World nat :=
  construct (mkConfig None None None);;
  cleanupSweptCharges.
End Commands.

(** ** Specifications of the commands *)

Lemma status_string_inj s s' : status_string s = status_string s' -> s = s'.
Proof. intros E. apply (f_equal status_of_string) in E. rewrite !status_string_roundtrip in E. congruence. Qed.

Lemma status_of_string_Some s st : status_of_string s = Some st -> s = status_string st.
Proof.
  unfold status_of_string.
  repeat match goal with
    | |- context [String.eqb s ?k] => destruct (String.eqb_spec s k) as [->|_]; [by intros [= <-]|]
    end.
  discriminate.
Qed.

Lemma filter_none {A} (P : A -> Prop) `{forall x, Decision (P x)} l :
  (forall x, ~ P x) -> filter P l = [].
Proof. intros HP. induction l as [|x l IH]; [done|]. rewrite filter_cons_False; [exact IH|apply HP]. Qed.

(** The [--status] option of [charge list] is compared as a string:
    a status name lists the charges [listCharges] lists for that status,
    in map order, and any other non-empty string lists none. *)
Theorem list_by_status_spec s p :
  s <> "" ->
  list_by_status (Some s) p =
    match status_of_string s with Some st => listCharges p (Some st) | None => [] end.
Proof.
  intros Hs. unfold list_by_status. destruct (String.eqb_spec s "") as [|_]; [done|].
  destruct (status_of_string s) as [st|] eqn:E.
  - apply status_of_string_Some in E as ->. apply list_filter_iff. intros c.
    split; [apply status_string_inj|by intros ->].
  - apply filter_none. intros c Hc. rewrite <- Hc, status_string_roundtrip in E. discriminate.
Qed.

(** A new process reads a snapshot whose ids are distinct: its charges
    are those of the file, in order, and no write is pending. *)
Lemma construct_snapshot cfg w ps :
  w_disk w = Snapshot ps -> NoDup (ch_id <$> ps_charges ps) ->
  exists w', construct cfg w = (w', Ret tt) /\
    pr_charges (w_proc w') = map (fun c => (ch_id c, c)) (ps_charges ps) /\
    pr_nextAccountIndex (w_proc w') = ps_nextAccountIndex ps /\
    pr_saveDebounceTimer (w_proc w') = false /\
    w_disk w' = w_disk w /\ w_now w' = w_now w /\ w_wallet w' = w_wallet w /\ w_posts w' = w_posts w.
Proof.
  intros Hd Hid. unfold construct. m_simp. rewrite Hd. m_simp.
  rewrite bind_eval, construct_loop_spec; [|done|by apply Forall_forall; set_solver].
  unfold emit. m_simp. w_simpl. by eexists.
Qed.

Lemma filter_status_entries s l :
  filter (fun e : string * Charge => ch_status e.2 = s) (map (fun c => (ch_id c, c)) l) =
  map (fun c => (ch_id c, c)) (filter (fun c => ch_status c = s) l).
Proof.
  induction l as [|c l IH]; [done|]. cbn [map]. rewrite !filter_cons. cbn.
  destruct (decide (ch_status c = s)); by rewrite IH.
Qed.

Lemma filter_not_status_entries s l :
  filter (fun e : string * Charge => ch_status e.2 <> s) (map (fun c => (ch_id c, c)) l) =
  map (fun c => (ch_id c, c)) (filter (fun c => ch_status c <> s) l).
Proof.
  induction l as [|c l IH]; [done|]. cbn [map]. rewrite !filter_cons. cbn.
  destruct (decide (ch_status c <> s)); by rewrite IH.
Qed.

Lemma jm_wf_entries l : NoDup (ch_id <$> l) -> jm_wf (map (fun c => (ch_id c, c)) l).
Proof.
  unfold jm_wf, jm_keys. assert (E : map fst (map (fun c => (ch_id c, c)) l) = ch_id <$> l)
    by (induction l; simpl; f_equal; auto). by rewrite E.
Qed.

Lemma values_entries l : jm_values (map (fun c => (ch_id c, c)) l) = l.
Proof. unfold jm_values. rewrite map_map. apply map_id. Qed.

Section CommandSpecs.
Context `{WalletLib}.

(** C27: [charge cleanup] as a process, on a snapshot with distinct ids: it
    answers the number of [swept] charges, and when there was one the file
    is rewritten with the other charges in their order (by the debounced
    write the process waits for); otherwise the file is left as it was. *)
Theorem charge_cleanup_spec w ps :
  w_disk w = Snapshot ps -> NoDup (ch_id <$> ps_charges ps) ->
  let n := length (filter (fun c => ch_status c = Swept) (ps_charges ps)) in
  exists w', in_new_process charge_cleanup w = (w', Ret n) /\
    w_disk w' = if (n =? 0)%nat then Snapshot ps
                else Snapshot (mkPersisted (ps_nextAccountIndex ps)
                                 (filter (fun c => ch_status c <> Swept) (ps_charges ps)) (w_now w)).
Proof.
  intros Hd Hid n. unfold in_new_process, charge_cleanup. m_simp.
  destruct (construct_snapshot (mkConfig None None None) (restart_world w) ps Hd Hid)
    as (w1 & E1 & Hc & Hn & Ht & Hd1 & Hnow & _).
  rewrite !bind_eval, E1. unfold cleanupSweptCharges. m_simp.
  rewrite bind_eval, (cleanup_loop_spec _ [] 0 w1); [|done|rewrite Hc; by apply jm_wf_entries].
  cbn [app]. rewrite Hc, filter_status_entries, filter_not_status_entries, length_map. cbn [Nat.add]. fold n.
  unfold saveDebounceFire, persistState, modify_proc.
  destruct (decide (0 < n)%nat) as [Hpos|Hz]; m_simp; w_simpl; rewrite ?Ht.
  - eexists. split; [reflexivity|]. w_simpl. destruct (Nat.eqb_spec n 0) as [->|_]; [lia|].
    unfold snapshot. w_simpl. rewrite values_entries, Hn, Hnow. done.
  - eexists. split; [reflexivity|]. w_simpl. destruct (Nat.eqb_spec n 0) as [_|Hn0]; [|lia].
    by rewrite Hd1.
Qed.
End CommandSpecs.

(** ** Examples

    The snapshot holds [c1], pending for 1000 raw at sub-account 1000 with
    a webhook; the ledger holds a receivable block of 1000 raw on its
    address, which no listener has seen. *)
Definition ex_hook : string := "https://shop.example/hook".
Definition ex_cli_charge : Charge := example_charge "c1" 1000 "1000" "0" Pending [] (Some ex_hook).
Definition ex_cli_world : World :=
  mkWorld (initial_processor (mkConfig None None None) 1000)
    (example_wallet [("nano_1000", mkNodeAccount false 0 "" "" [mkPending "P1" 1000 "nano_payer"])])
    (Snapshot (mkPersisted 1001 [ex_cli_charge] 0)) 5000 (fun _ => Some 200%Z) [] [].

(** [charge status] on a pending charge whose funds are on its
    sub-account but were never applied: it reports [swept] and paid, the
    snapshot now holds the charge [swept] with [receivedRaw] still ["0"]
    and no transaction, and the [charge.completed] webhook it sends says
    that nothing was received, no completion time, and 1000 raw swept. *)
Theorem charge_status_sweeps_unrecorded :
  let '(w', r) := in_new_process (@charge_status example_lib "c1" true) ex_cli_world in
  (exists j, r = Ret j /\ sj_status j = "swept" /\ sj_isPaid j = true) /\
  (exists ps, w_disk w' = Snapshot ps /\
     map (fun c => (ch_status c, ch_receivedRaw c, ch_transactions c)) (ps_charges ps) = [(Swept, "0", [])]) /\
  map (fun p => (wp_status p.2, wp_receivedRaw p.2, wp_completedAt p.2, wp_sweptAmountRaw p.2)) (w_posts w')
    = [("swept", "0", None, "1000")].
Proof. vm_compute. split_and!; [by eexists|by eexists|reflexivity]. Qed.

Lemma list_by_status_spec_witness :
  list_by_status (Some "swept") (w_proc ex_cli_world) = listCharges (w_proc ex_cli_world) (Some Swept).
Proof. apply (list_by_status_spec "swept"). discriminate. Defined.

Definition ex_os : Os := mkOs None [] 100.

Lemma creates_race_orphan_witness :
  exists os1 os2, creates_race ex_os = (os1, Ret (true, true)) /\
    charge_stop os1 = (os2, Ret (Stopped 101)) /\ 100 ∈ os_live os2.
Proof.
  destruct (creates_race_orphan ex_os eq_refl) as (os1 & os2 & H1 & _ & H3 & H4 & _).
  exists os1, os2. split_and!; [exact H1|exact H3|exact H4].
Defined.

Definition ex_cleanup_world : World :=
  mkWorld (initial_processor (mkConfig None None None) 1000) (example_wallet [])
    (Snapshot (mkPersisted 1002 [example_charge "c1" 1000 "1000" "1000" Swept [] None;
                                example_charge "c2" 1001 "1000" "0" Pending [] None] 0))
    5000 (fun _ => Some 200%Z) [] [].

Lemma charge_cleanup_spec_witness :
  exists w', in_new_process charge_cleanup ex_cleanup_world = (w', Ret 1%nat) /\
    option_map (fun ps => map ch_id (ps_charges ps))
      (match w_disk w' with Snapshot ps => Some ps | _ => None end) = Some ["c2"].
Proof.
  destruct (charge_cleanup_spec ex_cleanup_world
    (mkPersisted 1002 [example_charge "c1" 1000 "1000" "1000" Swept [] None;
                       example_charge "c2" 1001 "1000" "0" Pending [] None] 0)
    eq_refl ltac:(vm_compute; repeat constructor; set_solver)) as (w' & E & D).
  exists w'. split; [exact E|]. rewrite D. reflexivity.
Defined.

(** ** [charge create] *)

(** What the commands share: the processor's world (snapshot file,
    ledger, clock, webhook endpoints) and the processes. *)
Record Cli : Type := mkCli { cli_world : World; cli_os : Os }.

Definition in_world {A} (m : M World A) : M Cli A := lift cli_world (fun w c => mkCli w (cli_os c)) m.
Definition in_os {A} (m : M Os A) : M Cli A := lift cli_os (fun o c => mkCli (cli_world c) o) m.

(** [in_new_process] on the shared state. *)
Definition cli_process {A} (m : M Cli A) : M Cli A :=
  in_world (modify restart_world);;
  a ← m;
  in_world saveDebounceFire;;
  mret a.

(** The range of a JavaScript [Date]: beyond it, [new Date(t)] is an
    Invalid Date and [toISOString()] throws a [RangeError]. *)
Definition MAX_DATE_MS : Z := 8640000000000000.
Definition date_valid (t : Z) : bool := (Z.abs t <=? MAX_DATE_MS)%Z.

(** The JSON [charge create] prints (lines 537-545). *)
Record CreateJson : Type := mkCreateJson {
  cj_id : string;
  cj_address : string;
  cj_amount : string;
  cj_amountRaw : string;
  cj_expiresAt : Z;
  cj_webhookUrl : option string;
  cj_metadata : option string;
}.

Section Create.
Context `{WalletLib}.
(** [JSON.parse(s)] does not throw. *)
Variable json_ok : string -> bool.

(** [charge create <amount> [-t minutes] [-w url] [-m json]] (lines
    472-546), [id] being the id [generateChargeId] draws.  When
    [parseInt(options.timeout)] is [NaN], [createCharge] builds a charge
    whose [expiresAt] is an Invalid Date, which the model's integer
    timestamps cannot hold; [toISOString()] then throws before the
    debounced write, so that charge is lost with the process and the
    model does not build it. *)
Definition charge_create (id amount timeout : string) (webhook metadata : option string)
    : M Cli CreateJson :=
  if negb (js_parseFloat_positive amount) then throw "Invalid amount." else
  let metadata := if truthy metadata then metadata else None in
  (match metadata with
   | Some m => if json_ok m then mret tt else throw "Invalid metadata JSON."
   | None => mret tt
   end);;
  in_world (construct (mkConfig None None (Some true)));;
  match js_parseInt timeout with
  | Some minutes =>
      chargeData ← in_world (createCharge id
                     (mkCreateChargeOptions amount (Some (minutes * 60 * 1000)) metadata webhook));
      in_os ensure_listener;;
      if date_valid (ch_expiresAt chargeData) then
        mret (mkCreateJson (ch_id chargeData) (ch_address chargeData) (ch_amountNano chargeData)
                (ch_amountRaw chargeData) (ch_expiresAt chargeData) webhook metadata)
      else throw "RangeError: Invalid time value"
  | None => in_os ensure_listener;; throw "RangeError: Invalid time value"
  end.
End Create.

(** ** Specification of [charge create] *)

Lemma ensure_listener_up os : listener_up (fst (ensure_listener os)) = true.
Proof.
  unfold ensure_listener. os_simp. destruct (listener_up os) eqn:U; os_simp; [done|].
  apply listener_up_spawned.
Qed.

(** The loop of the constructor only fills the two maps. *)
Lemma construct_loop_frame (l : list Charge) w :
  exists w', for_each l (fun charge =>
      modify_proc (upd_charges (jm_set (ch_id charge) charge));;
      modify_proc (upd_addresses (jm_set (ch_address charge) (ch_id charge)))) w = (w', Ret tt) /\
    w_disk w' = w_disk w /\ w_now w' = w_now w /\ w_wallet w' = w_wallet w /\
    pr_saveDebounceTimer (w_proc w') = pr_saveDebounceTimer (w_proc w).
Proof.
  revert w. induction l as [|c l IH]; intros w; cbn [for_each].
  - by eexists.
  - unfold modify_proc. m_simp. destruct (IH (set_proc (upd_addresses (jm_set (ch_address c) (ch_id c))
      (w_proc (set_proc (upd_charges (jm_set (ch_id c) c) (w_proc w)) w)))
      (set_proc (upd_charges (jm_set (ch_id c) c) (w_proc w)) w))) as (w' & E & F).
    exists w'. split; [exact E|]. exact F.
Qed.

(** The constructor on any file: it keeps the file, the clock and the
    ledger, and arms no write. *)
Lemma construct_frame cfg w :
  exists w', construct cfg w = (w', Ret tt) /\
    w_disk w' = w_disk w /\ w_now w' = w_now w /\ w_wallet w' = w_wallet w /\
    pr_saveDebounceTimer (w_proc w') = false.
Proof.
  unfold construct. m_simp. destruct (w_disk w) as [| |ps] eqn:D; m_simp; [by eexists..|].
  unfold modify_proc. m_simp. rewrite bind_eval.
  match goal with |- context [for_each ?l _ ?w0] => destruct (construct_loop_frame l w0) as (w' & E & F) end.
  unfold modify_proc in E. rewrite E. unfold emit. m_simp. eexists. split; [reflexivity|]. w_simpl. by rewrite <- D.
Qed.

Lemma in_world_bind_eval {A B} (m : M World A) (f : A -> M Cli B) c :
  (in_world m ≫= f) c = match m (cli_world c) with
                        | (w', Ret a) => f a (mkCli w' (cli_os c))
                        | (w', Throw e) => (mkCli w' (cli_os c), Throw e)
                        end.
Proof. unfold in_world, in_os. by rewrite lift_bind_eval. Qed.

Lemma in_os_bind_eval {A B} (m : M Os A) (f : A -> M Cli B) c :
  (in_os m ≫= f) c = match m (cli_os c) with
                     | (o', Ret a) => f a (mkCli (cli_world c) o')
                     | (o', Throw e) => (mkCli (cli_world c) o', Throw e)
                     end.
Proof. unfold in_world, in_os. by rewrite lift_bind_eval. Qed.

Ltac cli_simp :=
  repeat (rewrite ?in_world_bind_eval, ?in_os_bind_eval; m_simp; cbn [cli_world cli_os modify]).

Lemma ensure_listener_eval os :
  ensure_listener os = (fst (ensure_listener os), Ret (negb (listener_up os))).
Proof. unfold ensure_listener. os_simp. by destruct (listener_up os); os_simp. Qed.

Lemma deriveAccount_ok `{WalletLib} i wl : exists wl' a, deriveAccount i wl = (wl', Ret a).
Proof. unfold deriveAccount. m_simp. destruct (wl_accounts wl !! i); m_simp; by eexists _, _. Qed.

(** What [createCharge] leaves that the command reads: it never fails. *)
Lemma createCharge_run `{WalletLib} id o w :
  exists w' c, createCharge id o w = (w', Ret c) /\ ch_id c = id /\
    ch_expiresAt c = w_now w + default DEFAULT_TIMEOUT_MS (opt_timeoutMs o) /\
    jm_get id (pr_charges (w_proc w')) = Some c /\ pr_saveDebounceTimer (w_proc w') = true /\
    w_disk w' = w_disk w /\ w_now w' = w_now w.
Proof.
  unfold createCharge. m_simp. rewrite wallet_bind_eval. w_simpl.
  destruct (deriveAccount_ok (pr_nextAccountIndex (w_proc w)) (w_wallet w)) as (wl & a & ->).
  unfold now, monitor_add, persistState, emit. m_simp. cbn beta iota delta [mret M_ret].
  eexists _, _. split; [reflexivity|]. w_simpl. split_and!; try reflexivity. apply jm_get_set_eq.
Qed.

Section CreateSpec.
Context `{WalletLib}.
Variable json_ok : string -> bool.

(** C14: [charge create] reads [--timeout] with [parseInt] and multiplies
    it to milliseconds without a check: with a valid amount, the command
    prints the charge, and the file written before the process ends holds
    it, exactly when the timeout is a number whose deadline lies within the
    range of a JavaScript [Date]; otherwise it exits on a [RangeError]
    after the listener was started, and the charge, never written, is
    lost.  Either way a listener is running afterwards. *)
Theorem charge_create_timeout id amount timeout webhook c c' r :
  js_parseFloat_positive amount = true ->
  cli_process (charge_create json_ok id amount timeout webhook None) c = (c', r) ->
  listener_up (cli_os c') = true /\
  match js_parseInt timeout with
  | Some m =>
      if date_valid (w_now (cli_world c) + m * 60 * 1000) then
        (exists j, r = Ret j /\ cj_id j = id /\ cj_expiresAt j = w_now (cli_world c) + m * 60 * 1000) /\
        (exists ps, w_disk (cli_world c') = Snapshot ps /\ id ∈ ch_id <$> ps_charges ps)
      else r = Throw "RangeError: Invalid time value" /\ w_disk (cli_world c') = w_disk (cli_world c)
  | None => r = Throw "RangeError: Invalid time value" /\ w_disk (cli_world c') = w_disk (cli_world c)
  end.
Proof.
  intros Ha. unfold cli_process, charge_create. rewrite Ha. cbn [negb truthy].
  destruct c as [w os]. cli_simp.
  destruct (construct_frame (mkConfig None None (Some true)) (restart_world w)) as (w1 & E1 & D1 & N1 & W1 & T1).
  rewrite E1. destruct (js_parseInt timeout) as [m|]; cli_simp.
  - destruct (createCharge_run id (mkCreateChargeOptions amount (Some (m * 60 * 1000)) None webhook) w1)
      as (w2 & ch & E2 & Hid & Hexp & Hget & Ht & D2 & N2).
    rewrite E2. cli_simp. rewrite ensure_listener_eval. cli_simp.
    cbn [default opt_timeoutMs] in Hexp. rewrite Hexp, N1. cbn [restart_world w_now].
    destruct (date_valid _); cli_simp.
    + unfold saveDebounceFire. m_simp. rewrite Ht. m_simp. intros [= <- <-]. cbn.
      split; [apply ensure_listener_up|]. split; [eexists; split_and!; [reflexivity|done|done]|].
      eexists. split; [reflexivity|]. cbn. rewrite <- Hid. apply (list_elem_of_fmap_2 ch_id).
      by eapply jm_get_values.
    + intros [= <- <-]. split; [apply ensure_listener_up|]. cbn. split; [done|]. by rewrite D2, D1.
  - rewrite ensure_listener_eval. cli_simp. intros [= <- <-]. split; [apply ensure_listener_up|].
    cbn. split; [done|]. by rewrite D1.
Qed.
End CreateSpec.

Lemma charge_create_timeout_witness :
  let '(c', r) := cli_process (@charge_create example_lib (fun _ => true) "chg_x" "5" "999999999999" None None)
                    (mkCli ex_cli_world ex_os) in
  r = Throw "RangeError: Invalid time value" /\ w_disk (cli_world c') = w_disk ex_cli_world.
Proof.
  destruct (cli_process _ _) as [c' r] eqn:E.
  destruct (@charge_create_timeout example_lib (fun _ => true) "chg_x" "5" "999999999999" None
    (mkCli ex_cli_world ex_os) c' r eq_refl E) as [_ Hm].
  vm_compute in Hm. exact Hm.
Defined.
