(* ===== verification/Listener.v ===== *)
(** * The background listener ([charge listen], [src/unnamed/part_000] lines 548-666)

    [charge listen] is a long-lived process with its own
    [PaymentProcessor]: its memory (the processor's fields and the
    wallet's cache of derived keys) is its own, while the snapshot file,
    the ledger node, the clock, the webhook endpoints and the PID file are
    shared with the short [charge] commands of [Cli].

    - [Sys]: the shared state of [Cli] and the live listener processes,
      each a [Listener] (its pid, its processor, its key cache, the
      [setTimeout(checkAutoStop, 1000)] armed and not yet fired, and the
      events it emitted).
    - [in_listener]: a handler runs in a listener's memory on the shared
      world.  A rejected promise there is unhandled ([handlePayment] is
      called without [await] or [catch] by the monitor's listener, the
      interval calls [checkExpiredCharges] the same way, [start] is
      awaited by the command's action): under Node's default
      [--unhandled-rejections=throw] the process dies at once, without
      its [cleanup], so its PID file stays.
    - [charge_listen], the handlers of the monitor and the timers
      ([listener_input]), [checkAutoStop] and [cleanup] (lines 575-623),
      the timers the [charge:swept] and [charge:expired] handlers arm
      (lines 625-637), and [charge stop] with the [SIGTERM] handler.

    Console output is not modelled; the events a listener emitted are kept
    in its log, which is what it prints as JSON. *)

From S2P Require Import Prelude BigInt JsNumber JsMap Charge Ledger Wallet Processor Sweep Payment Expiry Recovery Scenarios Lifecycle Monotone Cli.

Local Open Scope Z_scope.

(** ** Processes *)

Record Listener : Type := mkListener {
  ls_pid : Z;
  ls_proc : Processor;               (** the [processor] of the action *)
  ls_cache : gmap Z KeyPair;         (** the keys its wallet derived *)
  ls_autoStops : nat;                (** [setTimeout(checkAutoStop, 1000)] pending *)
  ls_log : list ProcEvent;           (** the events its processor emitted *)
}.

Record Sys : Type := mkSys {
  sys_cli : Cli;
  sys_listeners : list Listener;
}.

Definition find_listener (pid : Z) (ls : list Listener) : option Listener :=
  head (filter (fun l => ls_pid l = pid) ls).

Definition put_listener (l : Listener) (ls : list Listener) : list Listener :=
  (fun l' => if decide (ls_pid l' = ls_pid l) then l else l') <$> ls.

Definition drop_listener (pid : Z) (ls : list Listener) : list Listener :=
  filter (fun l => ls_pid l <> pid) ls.

(** The world as a listener sees it: its memory over the shared parts. *)
Definition enter (l : Listener) (w : World) : World :=
  mkWorld (ls_proc l) (mkWallet (ls_cache l) (wl_node (w_wallet w))) (w_disk w) (w_now w)
    (w_http w) (w_posts w) [].

(** Back to the commands' world: the shared parts as the listener left them. *)
Definition leave (w0 w : World) : World :=
  mkWorld (w_proc w0) (mkWallet (wl_accounts (w_wallet w0)) (wl_node (w_wallet w))) (w_disk w)
    (w_now w) (w_http w) (w_posts w) (w_events w0).

(** The events whose handler arms [setTimeout(checkAutoStop, 1000)]. *)
Definition autostop_event (e : ProcEvent) : bool :=
  match e with EvSwept _ _ _ | EvExpired _ => true | _ => false end.

(** A process that dies of an unhandled rejection: its PID file stays. *)
Definition crash (pid : Z) (os : Os) : Os :=
  mkOs (os_pidFile os) (filter (fun p => p <> pid) (os_live os)) (os_nextPid os).

(** Run a handler in the listener [pid]; a process that is gone runs nothing. *)
Definition in_listener (pid : Z) (m : M World unit) : M Sys unit := fun s =>
  match find_listener pid (sys_listeners s) with
  | None => (s, Ret tt)
  | Some l =>
      let w0 := cli_world (sys_cli s) in
      let os := cli_os (sys_cli s) in
      match m (enter l w0) with
      | (w, Ret _) =>
          let l' := mkListener pid (w_proc w) (wl_accounts (w_wallet w))
                      (ls_autoStops l + length (filter (fun e => autostop_event e = true) (w_events w)))
                      (ls_log l ++ w_events w) in
          (mkSys (mkCli (leave w0 w) os) (put_listener l' (sys_listeners s)), Ret tt)
      | (w, Throw _) =>
          (mkSys (mkCli (leave w0 w) (crash pid os)) (drop_listener pid (sys_listeners s)), Ret tt)
      end
  end.

Definition sys_os {A} (m : M Os A) : M Sys A :=
  lift (fun s => cli_os (sys_cli s)) (fun o s => mkSys (mkCli (cli_world (sys_cli s)) o) (sys_listeners s)) m.

(** A short command: a new process on the shared state. *)
Definition command {A} (m : M Cli A) : M Sys A :=
  lift sys_cli (fun c s => mkSys c (sys_listeners s)) (cli_process m).

(** A step of the environment on the shared world (a payment on the
    ledger, the clock). *)
Definition env (f : World -> World) : M Sys unit :=
  modify (fun s => mkSys (mkCli (f (cli_world (sys_cli s))) (cli_os (sys_cli s))) (sys_listeners s)).

(** ** [charge listen] *)

Section Listen.
Context `{WalletLib}.

(** The action of [charge listen [--no-auto-sweep]] run by the process
    [pid]: its PID in the file, [getWallet().getAddress(0)], the
    processor, [start()]. *)
Definition charge_listen (pid : Z) (autoSweep : bool) : M Sys unit :=
  sys_os (listen_writes_pid pid);;
  modify (fun s => mkSys (sys_cli s)
    (sys_listeners s ++ [mkListener pid (initial_processor (mkConfig None None None) 0) ∅ 0 []]));;
  in_listener pid (wallet (getAddress 0);; construct (mkConfig None None (Some autoSweep));; start).

(** What reaches a listener's processor: a payment of the monitor on an
    address it watches (lines 174-177 of [part_001]), the tick of the
    expiry interval (lines 209-211) and the debounce timer. *)
Inductive ListenerInput : Type :=
| LPayment (p : PaymentEvent)
| LExpiryTick
| LSaveTimer.

Definition listener_handler (i : ListenerInput) : M World unit :=
  w ← get;
  match i with
  | LPayment p =>
      if bool_decide (ev_to p ∈ pr_monitorAccounts (w_proc w)) && pr_monitorRunning (w_proc w)
      then handlePayment p else mret tt
  | LExpiryTick => if pr_expiryCheckInterval (w_proc w) then checkExpiredCharges else mret tt
  | LSaveTimer => saveDebounceFire
  end.

Definition listener_input (pid : Z) (i : ListenerInput) : M Sys unit :=
  in_listener pid (listener_handler i).

(** [cleanup] (lines 575-583): [processor.stop()], the PID file removed
    whoever it names, [process.exit(0)]. *)
Definition cleanup (pid : Z) : M Sys unit :=
  in_listener pid stop;;
  sys_os (listener_exit pid);;
  modify (fun s => mkSys (sys_cli s) (drop_listener pid (sys_listeners s))).

(** [checkAutoStop] (lines 616-623). *)
Definition checkAutoStop (pid : Z) : M Sys unit :=
  s ← get;
  match find_listener pid (sys_listeners s) with
  | Some l => if (length (listActiveCharges (ls_proc l)) =? 0)%nat then cleanup pid else mret tt
  | None => mret tt
  end.

(** One of the timers armed by the [charge:swept] or [charge:expired]
    handler fires. *)
Definition autostop_timer (pid : Z) : M Sys unit :=
  s ← get;
  match find_listener pid (sys_listeners s) with
  | Some l =>
      if (0 <? ls_autoStops l)%nat then
        modify (fun s => mkSys (sys_cli s)
          (put_listener (mkListener pid (ls_proc l) (ls_cache l) (pred (ls_autoStops l)) (ls_log l))
             (sys_listeners s)));;
        checkAutoStop pid
      else mret tt
  | None => mret tt
  end.

(** [charge stop]; the [SIGTERM] it sends runs the listener's [cleanup]
    before any other command runs. *)
Definition sys_charge_stop : M Sys StopJson :=
  r ← sys_os charge_stop;
  (match r with
   | Stopped p => in_listener p stop;; modify (fun s => mkSys (sys_cli s) (drop_listener p (sys_listeners s)))
   | _ => mret tt
   end);;
  mret r.
End Listen.

(** ** The process layer *)

Lemma find_put l ls : is_Some (find_listener (ls_pid l) ls) ->
  find_listener (ls_pid l) (put_listener l ls) = Some l.
Proof.
  unfold find_listener, put_listener. induction ls as [|l' ls IH]; [by intros []|].
  cbn [fmap list_fmap]. rewrite !filter_cons.
  destruct (decide (ls_pid l' = ls_pid l)) as [E|E]; cbn.
  - by rewrite decide_True.
  - rewrite decide_False by done. exact IH.
Qed.

Lemma find_drop pid ls : find_listener pid (drop_listener pid ls) = None.
Proof.
  unfold find_listener, drop_listener. rewrite list_filter_filter.
  rewrite (filter_nil_all _ _); [done|]. intros x _ [? ?]; done.
Qed.

Lemma find_Some pid ls l : find_listener pid ls = Some l -> ls_pid l = pid.
Proof.
  unfold find_listener. intros E. destruct (filter _ ls) as [|x r] eqn:F; [done|].
  injection E as <-. assert (Hx : x ∈ filter (fun l => ls_pid l = pid) ls) by (rewrite F; left).
  by apply list_elem_of_filter in Hx as [? _].
Qed.

(** A handler that returns, run in a live listener. *)
Lemma in_listener_ret pid m s l w u :
  find_listener pid (sys_listeners s) = Some l -> m (enter l (cli_world (sys_cli s))) = (w, Ret u) ->
  in_listener pid m s =
    (mkSys (mkCli (leave (cli_world (sys_cli s)) w) (cli_os (sys_cli s)))
       (put_listener (mkListener pid (w_proc w) (wl_accounts (w_wallet w))
          (ls_autoStops l + length (filter (fun e => autostop_event e = true) (w_events w)))
          (ls_log l ++ w_events w)) (sys_listeners s)), Ret tt).
Proof. intros Hf Hm. unfold in_listener. by rewrite Hf, Hm. Qed.

(** ** A listener with no active charge *)

Lemma active_nil p c : listActiveCharges p = [] -> c ∈ jm_values (pr_charges p) -> is_active c = false.
Proof.
  intros E Hc. destruct (is_active c) eqn:A; [|done].
  exfalso. by apply (filter_nil_not_elem_of _ _ c E A).
Qed.

Lemma expire_loop_idle `{WalletLib} t l ch ts w :
  Forall (fun e => is_active e.2 = false) l -> expire_loop t l ch ts w = (w, Ret (ch, ts)).
Proof.
  revert ch ts. induction l as [|[k c] l IH]; intros ch ts Hl; [done|].
  inversion Hl as [|? ? Hc Hl']; subst. cbn [expire_loop]. cbn in Hc. rewrite Hc. by apply IH.
Qed.

Lemma charge_by_address_values p a c : charge_by_address p a = Some c -> c ∈ jm_values (pr_charges p).
Proof.
  unfold charge_by_address. destruct (jm_get a _) as [id|]; [|done].
  destruct (String.eqb id ""); [done|]. apply jm_get_values.
Qed.

Definition idle (p : Processor) : Prop := forall c, c ∈ jm_values (pr_charges p) -> is_active c = false.

Lemma idle_active p : listActiveCharges p = [] -> idle p.
Proof. intros E c. by apply active_nil. Qed.

Lemma listActiveCharges_charges p p' :
  pr_charges p' = pr_charges p -> listActiveCharges p' = listActiveCharges p.
Proof. intros E. unfold listActiveCharges, listCharges. by rewrite E. Qed.

Section Idle.
Context `{WalletLib}.

Lemma handlePayment_idle w p : idle (w_proc w) -> handlePayment p w = (w, Ret tt).
Proof.
  intros Hi. unfold handlePayment, getChargeByAddress. m_simp.
  destruct (charge_by_address _ _) as [c|] eqn:E; [|done].
  apply charge_by_address_values, Hi in E. unfold is_active in E. by destruct (ch_status c).
Qed.

Lemma checkExpiredCharges_idle w : idle (w_proc w) -> checkExpiredCharges w = (w, Ret tt).
Proof.
  intros Hi. unfold checkExpiredCharges, now. m_simp.
  rewrite bind_eval, expire_loop_idle; [done|]. apply Forall_forall. intros e He.
  apply Hi. by apply (list_elem_of_fmap_2 snd).
Qed.

(** The handlers of a listener with no active charge emit nothing and
    leave its charges as they are. *)
Lemma listener_handler_idle w i : idle (w_proc w) ->
  exists w', listener_handler i w = (w', Ret tt) /\
    pr_charges (w_proc w') = pr_charges (w_proc w) /\ w_events w' = w_events w.
Proof.
  intros Hi. unfold listener_handler. m_simp. destruct i as [p| |].
  - destruct (_ && _); [rewrite handlePayment_idle by done|]; by eexists.
  - destruct (pr_expiryCheckInterval _); [rewrite checkExpiredCharges_idle by done|]; by eexists.
  - unfold saveDebounceFire. m_simp. destruct (pr_saveDebounceTimer _); m_simp; by eexists.
Qed.
(** One input to a listener with no active charge. *)
Lemma listener_input_idle pid i s l :
  find_listener pid (sys_listeners s) = Some l -> idle (ls_proc l) ->
  exists s' l', listener_input pid i s = (s', Ret tt) /\ cli_os (sys_cli s') = cli_os (sys_cli s) /\
    find_listener pid (sys_listeners s') = Some l' /\
    pr_charges (ls_proc l') = pr_charges (ls_proc l) /\ ls_autoStops l' = ls_autoStops l.
Proof.
  intros Hf Hi. destruct (listener_handler_idle (enter l (cli_world (sys_cli s))) i Hi) as (w' & E & Hc & Hev).
  unfold listener_input. rewrite (in_listener_ret _ _ _ _ _ _ Hf E), Hev. cbn.
  eexists _, (mkListener pid (w_proc w') (wl_accounts (w_wallet w')) (ls_autoStops l + 0) (ls_log l ++ [])).
  split_and!; [reflexivity|reflexivity| |exact Hc|cbn; lia].
  apply (find_put (mkListener pid _ _ _ _)). cbn. by rewrite Hf.
Qed.

(** C22: A listener holding no active charge never stops by itself: the
    [checkAutoStop] timers are armed only by [charge:swept] and
    [charge:expired], which such a listener never emits, and it never reads
    the file again.  Whatever payments, expiry ticks and debounce timers
    reach it, its charges stay as they were (so none becomes active), no
    auto-stop fires, and the PID file and the processes are untouched. *)
Theorem idle_listener_stays s pid l (inputs : list ListenerInput) :
  find_listener pid (sys_listeners s) = Some l ->
  listActiveCharges (ls_proc l) = [] -> ls_autoStops l = 0%nat ->
  exists s' l', (for_each inputs (listener_input pid);; autostop_timer pid) s = (s', Ret tt) /\
    cli_os (sys_cli s') = cli_os (sys_cli s) /\ find_listener pid (sys_listeners s') = Some l' /\
    pr_charges (ls_proc l') = pr_charges (ls_proc l) /\ listActiveCharges (ls_proc l') = [].
Proof.
  intros Hf Ha Hz. apply idle_active in Ha as Hi. revert s l Hf Ha Hi Hz.
  induction inputs as [|i rest IH]; intros s l Hf Ha Hi Hz; cbn [for_each].
  - rewrite mret_bind_eval. unfold autostop_timer. m_simp. rewrite Hf, Hz. cbn. by eexists _, l.
  - destruct (listener_input_idle pid i s l Hf Hi) as (s1 & l1 & E & Hos & Hf1 & Hc & Hz1).
    rewrite bind_assoc_eval, bind_eval, E. cbn beta iota.
    assert (Ha1 : listActiveCharges (ls_proc l1) = []) by (by rewrite (listActiveCharges_charges _ _ Hc)).
    destruct (IH s1 l1 Hf1 Ha1 (idle_active _ Ha1) ltac:(lia)) as (s' & l' & E' & Hos' & Hf' & Hc' & Ha').
    exists s', l'. split_and!; [exact E'|congruence|exact Hf'|congruence|exact Ha'].
Qed.
End Idle.

(** ** Events are only appended *)

Definition Rlog (w w' : World) : Prop := exists l, w_events w' = w_events w ++ l.

#[export] Instance Rlog_preorder : PreOrder Rlog.
Proof.
  split; [intros w; exists []; by rewrite app_nil_r|].
  intros w1 w2 w3 [l1 E1] [l2 E2]. exists (l1 ++ l2). by rewrite E2, E1, app_assoc.
Qed.

Lemma log_modify f : (forall w, exists l, w_events (f w) = w_events w ++ l) -> within Rlog (modify f).
Proof. intros Hf. by apply within_modify. Qed.

Lemma log_wallet {A} (m : M Wallet A) : within Rlog (wallet m).
Proof. apply within_lift. intros w t. exists []. by rewrite app_nil_r. Qed.

(** Walk a method with the rules of [within] at [Rlog]. *)
Ltac log_walk :=
  repeat (cbn beta iota zeta;
    first
    [ apply (within_ret Rlog) | apply (within_throw Rlog) | apply (within_get Rlog)
    | apply (within_gets Rlog) | apply log_wallet
    | apply log_modify; intros ?; cbn; first [exists []; by rewrite app_nil_r | eexists; reflexivity]
    | apply (within_bind Rlog); [|intros]
    | apply (within_try Rlog); [|intros]
    | apply (within_for_each Rlog); intros
    | match goal with
      | |- within _ (match ?x with _ => _ end) => destruct x
      | |- within _ (if ?x then _ else _) => destruct x
      end
    | progress unfold modify_proc, mutate, emit, monitor_remove, persistStateNow, now, getCharge,
        bigint, balance_is_zero, callWebhook ]).

Section Log.
Context `{WalletLib}.

Lemma log_sweep_all ids : within Rlog (sweep_all ids).
Proof. unfold sweep_all, sweepCharge. log_walk. Qed.

(** The sweeps the scan starts are each caught: the scan never rejects. *)
Lemma sweep_all_ret ids w : exists w', sweep_all ids w = (w', Ret tt).
Proof.
  revert w. induction ids as [|id ids IH]; intros w; [by eexists|].
  unfold sweep_all. cbn [for_each]. rewrite bind_eval. unfold try_catch. rewrite bind_eval.
  destruct (sweepCharge id w) as [w1 [a|e]]; cbn; apply IH.
Qed.
End Log.

(** ** A listener past all its deadlines *)

Lemma inactive_forward c c' :
  is_active c = false -> status_le (ch_status c) (ch_status c') = true -> is_active c' = false.
Proof. unfold is_active. destruct (ch_status c), (ch_status c'); done. Qed.

Lemma expire_charge_inactive t c :
  (is_active c = true -> ch_expiresAt c < t) -> is_active (expire_charge t c) = false.
Proof.
  intros Hd. unfold expire_charge, due. destruct (is_active c) eqn:A; [|done].
  rewrite (proj2 (Z.ltb_lt _ _) (Hd eq_refl)). done.
Qed.

(** Every value of a well-formed map is stored under some key. *)
Lemma jm_values_get (m : JsMap string Charge) c :
  jm_wf m -> c ∈ jm_values m -> exists id, jm_get id m = Some c.
Proof.
  intros Hwf Hc. apply list_elem_of_fmap in Hc as [[k c0] [-> He]].
  exists k. exact (jm_elem_get k m c0 Hwf He).
Qed.

Section Settle.
Context `{WalletLib}.

Lemma mono_sweep_all ids : within Rmono (sweep_all ids).
Proof. unfold sweep_all. mono_walk. Qed.

(** Statuses only move forward: a map without active charges keeps none. *)
Lemma no_active_forward w w' :
  inv w' -> map_forward (pr_charges (w_proc w)) (pr_charges (w_proc w')) ->
  (forall id c, jm_get id (pr_charges (w_proc w)) = Some c -> is_active c = false) ->
  listActiveCharges (w_proc w') = [].
Proof.
  intros Hi' [Hn Hs] Hw. apply filter_nil_all. intros c Hc Ha.
  destruct (jm_values_get _ c (proj1 (proj1 (proj1 Hi'))) Hc) as [id Hg].
  destruct (jm_get id (pr_charges (w_proc w))) as [c0|] eqn:E.
  - rewrite (inactive_forward c0 c (Hw id c0 E) (Hs id c0 c E Hg)) in Ha. discriminate.
  - rewrite (Hn id E) in Hg. discriminate.
Qed.

(** The scan at a time past the deadline of every active charge: it
    returns, no charge is left active, and [charge:expired] is emitted for
    each charge that was active, in map order, before anything else. *)
Lemma expiry_settles w :
  inv w -> (forall c, c ∈ listActiveCharges (w_proc w) -> ch_expiresAt c < w_now w) ->
  exists w', checkExpiredCharges w = (w', Ret tt) /\ listActiveCharges (w_proc w') = [] /\
    exists l, w_events w' = w_events w ++
      map (fun e => EvExpired e.1) (filter (fun e => due (w_now w) e.2 = true) (pr_charges (w_proc w))) ++ l.
Proof.
  intros Hi Hd. pose proof (proj1 (proj1 (proj1 Hi))) as Hwf.
  rewrite (checkExpiredCharges_spec w Hwf (inv_parses w Hi)).
  set (t := w_now w). set (m := pr_charges (w_proc w)).
  assert (Hi1 : inv (expired_world t [] m w)).
  { eapply (within_expire_loop t m false [] w); [|exact Hi].
    apply (expire_loop_spec _ _ []); [done|done|apply inv_parses, Hi]. }
  match goal with |- context [sweep_all ?l ?v] => set (w2 := v); set (ids := l) end.
  assert (Hi2 : inv w2 /\ pr_charges (w_proc w2) = map (expire_entry t) m /\
                w_events w2 = w_events (expired_world t [] m w)).
  { unfold w2. destruct (existsb _ _); [|done].
    split; [|done]. exact (within_timers _ _ _ _ _ _ eq_refl Hi1). }
  destruct Hi2 as (Hi2 & Hc2 & He2).
  destruct (sweep_all_ret ids w2) as [w' E]. rewrite E. exists w'.
  destruct (mono_sweep_all ids w2 w' _ E Hi2) as [Hi' Hf].
  split_and!; [done| |].
  - apply (no_active_forward w2 w' Hi' Hf). intros id c. rewrite Hc2, jm_get_expire.
    intros (c1 & Hg & ->)%fmap_Some. apply expire_charge_inactive. intros Ha.
    apply Hd, list_elem_of_filter. split; [done|]. by eapply jm_get_values.
  - destruct (log_sweep_all ids w2 w' _ E) as [l El]. exists l.
    rewrite El, He2. unfold expired_world. cbn [w_events]. by rewrite <- app_assoc.
Qed.
End Settle.

Lemma autostop_count (F : JsMap string Charge) l :
  (length F <= length (filter (fun e => autostop_event e = true) (map (fun e => EvExpired e.1) F ++ l)))%nat.
Proof.
  rewrite filter_app, length_app. induction F as [|e F IH]; cbn [map length]; [lia|].
  rewrite filter_cons_True by done. cbn [length]. lia.
Qed.

Lemma stop_ret w : exists w', stop w = (w', Ret tt).
Proof. unfold stop, emit. m_simp. by eexists. Qed.

(** A charge active in the map and past its deadline is due. *)
Lemma due_of_active (m : JsMap string Charge) t c :
  c ∈ filter (fun c => is_active c = true) (jm_values m) -> ch_expiresAt c < t ->
  filter (fun e => due t e.2 = true) m <> [].
Proof.
  intros [Ha Hc]%list_elem_of_filter Ht. apply list_elem_of_fmap in Hc as [[k c0] [-> He]].
  intros E. apply (filter_nil_not_elem_of _ _ (k, c0) E); [|exact He].
  unfold due. cbn [snd] in *. rewrite Ha. cbn. by apply Z.ltb_lt.
Qed.

Section Stops.
Context `{WalletLib}.

(** A timer armed by [charge:swept] or [charge:expired] fires in a
    listener with no active charge: [cleanup] runs. *)
Lemma autostop_timer_stops s pid l :
  find_listener pid (sys_listeners s) = Some l -> (0 < ls_autoStops l)%nat ->
  listActiveCharges (ls_proc l) = [] ->
  exists s', autostop_timer pid s = (s', Ret tt) /\ find_listener pid (sys_listeners s') = None /\
    os_pidFile (cli_os (sys_cli s')) = None /\ pid ∉ os_live (cli_os (sys_cli s')).
Proof.
  intros Hf Hn Ha. unfold autostop_timer. m_simp. rewrite Hf. destruct (Nat.ltb_spec 0 (ls_autoStops l)); [|lia].
  m_simp. set (l2 := mkListener pid (ls_proc l) (ls_cache l) (pred (ls_autoStops l)) (ls_log l)).
  assert (Hf2 : find_listener pid (put_listener l2 (sys_listeners s)) = Some l2)
    by (apply (find_put l2); cbn; by rewrite Hf).
  unfold checkAutoStop. m_simp. cbn [sys_listeners]. rewrite Hf2. cbn [ls_proc l2]. rewrite Ha. cbn.
  unfold cleanup. destruct (stop_ret (enter l2 (cli_world (sys_cli s)))) as [w E].
  rewrite bind_eval, (in_listener_ret pid stop (mkSys (sys_cli s) (put_listener l2 (sys_listeners s))) l2 w tt Hf2 E). cbn. unfold sys_os, lift, listener_exit. m_simp. cbn.
  eexists. split_and!; [reflexivity|apply find_drop|reflexivity|].
  cbn. intros [Hp _]%list_elem_of_filter. done.
Qed.
(** C15: Liveness of the auto-stop.  A listener (with the structural
    invariant on its memory and the file) whose active charges are all past
    their deadline stops at the next tick of its expiry interval followed by
    the timer that tick armed: the scan expires every active charge (and
    sweeps those with funds, failures caught), each [charge:expired] arms
    [checkAutoStop], which finds no active charge and runs [cleanup]: the
    process is gone and the PID file removed. *)
Theorem listener_stops_after_deadlines s pid l :
  find_listener pid (sys_listeners s) = Some l ->
  inv (enter l (cli_world (sys_cli s))) ->
  pr_expiryCheckInterval (ls_proc l) = true ->
  listActiveCharges (ls_proc l) <> [] ->
  (forall c, c ∈ listActiveCharges (ls_proc l) -> ch_expiresAt c < w_now (cli_world (sys_cli s))) ->
  exists s', (listener_input pid LExpiryTick;; autostop_timer pid) s = (s', Ret tt) /\
    find_listener pid (sys_listeners s') = None /\
    os_pidFile (cli_os (sys_cli s')) = None /\ pid ∉ os_live (cli_os (sys_cli s')).
Proof.
  intros Hf Hi Hint Hne Hd.
  destruct (expiry_settles (enter l (cli_world (sys_cli s))) Hi Hd) as (w' & E & Ha & [ev Hev]).
  assert (Eh : listener_handler LExpiryTick (enter l (cli_world (sys_cli s))) = (w', Ret tt))
    by (unfold listener_handler; m_simp; cbn [w_proc enter]; by rewrite Hint).
  unfold listener_input. rewrite bind_eval, (in_listener_ret _ _ _ _ _ _ Hf Eh). cbn beta iota.
  eapply autostop_timer_stops; [apply (find_put (mkListener pid _ _ _ _)); cbn; by rewrite Hf| |exact Ha].
  cbn [ls_autoStops]. rewrite Hev. cbn [w_events w_now w_proc enter app].
  assert (exists c, c ∈ listActiveCharges (ls_proc l)) as [c Hc]
    by (destruct (listActiveCharges (ls_proc l)) as [|c r]; [done|exists c; left]).
  set (F := filter (fun e => due (w_now (cli_world (sys_cli s))) e.2 = true) (pr_charges (ls_proc l))).
  assert (HF : F <> []) by exact (due_of_active _ _ c Hc (Hd c Hc)).
  pose proof (autostop_count F ev). destruct F; [done|]. cbn [length] in *. lia.
Qed.
End Stops.


(** ** Examples

    The commands and the listener on one machine: no file, an empty ledger,
    the clock at 0, pids from 100.  Charges of 1000 raw with a timeout of
    30 minutes and a webhook; payments of 1000 raw from [nano_payer]. *)
Section Examples.
Local Existing Instance example_lib.

Definition ex_json (_ : string) : bool := true.
Definition ex_sys : Sys := mkSys (mkCli world0 (mkOs None [] 100)) [].
Definition ex_create (id : string) : M Sys CreateJson :=
  command (charge_create ex_json id "1000" "30" (Some hook) None).
Definition ex_pay (h to : string) : M Sys unit := env (ledger_pay h "nano_payer" to 1000).

Definition disk_charges (s : Sys) : list Charge :=
  match w_disk (cli_world (sys_cli s)) with Snapshot ps => ps_charges ps | _ => [] end.

(** [charge create c1] starts listener 100, which loads [c1]; [charge
    create c2] finds it running; both charges are paid; the listener
    handles the payment of [c1] (it does not watch [c2]'s address) and,
    one second after the sweep, its [checkAutoStop]. *)
Definition ex_created : Sys := fst ((ex_create "c1";; charge_listen 100 true;; ex_create "c2") ex_sys).
Definition ex_settled : Sys :=
  fst ((ex_pay "P1" "nano_1000";; ex_pay "P2" "nano_1001";;
        listener_input 100 (LPayment (payment "P1" "nano_1000" "1000" 0));;
        listener_input 100 (LPayment (payment "P2" "nano_1001" "1000" 0));;
        autostop_timer 100) ex_created).
(** A third [charge create]; it starts listener 101. *)
Definition ex_reused : Sys := fst ((ex_create "c3";; charge_listen 101 true) ex_settled).

Definition no_listener : Listener := mkListener 0 (initial_processor (mkConfig None None None) 0) ∅ 0 [].
Definition the_listener (pid : Z) (s : Sys) : Listener := default no_listener (find_listener pid (sys_listeners s)).

(** Listener 100 started on no file: it holds no charge. *)
Definition ex_idle : Sys := fst (charge_listen 100 true ex_sys).
(** Listener 100 holding [c1], the clock past its deadline. *)
Definition ex_late : Sys := fst ((ex_create "c1";; charge_listen 100 true;; env (advance 2000000)) ex_sys).

(** A lost update between the listener and [charge create], shown on
    a run.  A charge created while the listener runs is written to the
    file by its command, but the listener never reads the file again and
    its own writes ([persistStateNow] after the sweep of another charge)
    replace the file with its memory: the new charge disappears from the
    file ([charge status] no longer finds it), together with its
    sub-account index.  The listener then stops, having no active charge.
    The next [charge create] derives the same sub-account again, and its
    listener's recovery scan credits the first customer's payment to the
    new charge, which is completed and swept with it. *)
Theorem listener_drops_created_charge :
  map ch_id (disk_charges ex_created) = ["c1"; "c2"] /\
  map (fun c => (ch_id c, ch_status c)) (disk_charges ex_settled) = [("c1", Swept)] /\
  sys_listeners ex_settled = [] /\ os_pidFile (cli_os (sys_cli ex_settled)) = None /\
  snd (command (in_world (charge_status "c2" true)) ex_settled) = Throw "Charge not found: c2" /\
  map (fun c => (ch_id c, ch_address c, ch_status c, map tx_hash (ch_transactions c))) (disk_charges ex_reused)
    = [("c1", "nano_1000", Swept, ["P1"]); ("c3", "nano_1001", Swept, ["P2"])].
Proof. split_and!; vm_compute; reflexivity. Qed.

Lemma idle_listener_stays_witness :
  exists s' l', (for_each [LExpiryTick; LPayment (payment "P1" "nano_1000" "1000" 0); LSaveTimer]
                   (listener_input 100);; autostop_timer 100) ex_idle = (s', Ret tt) /\
    cli_os (sys_cli s') = cli_os (sys_cli ex_idle) /\ find_listener 100 (sys_listeners s') = Some l'.
Proof.
  destruct (idle_listener_stays ex_idle 100 (the_listener 100 ex_idle)
    [LExpiryTick; LPayment (payment "P1" "nano_1000" "1000" 0); LSaveTimer]
    ltac:(vm_compute; reflexivity) ltac:(vm_compute; reflexivity) ltac:(vm_compute; reflexivity))
    as (s' & l' & E & Hos & Hf & _).
  exists s', l'. split_and!; [exact E|exact Hos|exact Hf].
Defined.

Lemma listener_stops_after_deadlines_witness :
  exists s', (listener_input 100 LExpiryTick;; autostop_timer 100) ex_late = (s', Ret tt) /\
    find_listener 100 (sys_listeners s') = None /\ os_pidFile (cli_os (sys_cli s')) = None.
Proof.
  destruct (listener_stops_after_deadlines ex_late 100 (the_listener 100 ex_late)
    ltac:(vm_compute; reflexivity)
    (inv_check_sound (enter (the_listener 100 ex_late) (cli_world (sys_cli ex_late)))
       ltac:(vm_compute; reflexivity))
    ltac:(vm_compute; reflexivity)
    ltac:(vm_compute; discriminate)
    ltac:(intros c Hc; vm_compute in Hc; apply list_elem_of_singleton in Hc as ->; vm_compute; reflexivity))
    as (s' & E & Hf & Hp & _).
  exists s'. split_and!; [exact E|exact Hf|exact Hp].
Defined.
End Examples.

