(* ===== verification/CliV1.v ===== *)
(** * The earlier revision of the [charge] commands ([src/unnamed/part_000], lines 1298-1588)

    The file holds a second, older copy of the command line.  Its
    [charge status], [charge list] and [charge cleanup] are the same text
    as in the current revision (lines 669-761, 762-787, 866-876), so the
    definitions of [Cli] model both.  Two commands differ:

    - [charge create] (lines 1302-1346) takes no webhook or metadata and
      starts no listener;
    - [charge sweep] (lines 1537-1577) only receives the pending blocks
      before [sweepCharge], where the current revision also reads the
      balance and the pending blocks before and after, for its
      [--verbose] output.

    The theorems relate the two revisions: the reads the current [charge
    sweep] adds change nothing (the key they derive is derived by
    [receivePending] anyway), and the current [charge create] is the older
    one followed by the listener's start.  [--qr] and [--output] print or
    write a QR code only and are not modelled; [charge listen] of this
    revision, a processor stopped only by [SIGINT], is not modelled
    either. *)

From S2P Require Import Prelude BigInt JsNumber JsMap Charge Ledger Wallet Processor Sweep Payment Expiry Recovery Lifecycle Cli.

Local Open Scope Z_scope.

(** The JSON of the older [charge create] (lines 1339-1345). *)
Record CreateJsonV1 : Type := mkCreateJsonV1 {
  cv_id : string;
  cv_address : string;
  cv_amount : string;
  cv_amountRaw : string;
  cv_expiresAt : Z;
}.

Section V1.
Context `{WalletLib}.

(** [charge create <amount> [-t minutes]] of the older revision.  As in
    [Cli.charge_create], a [NaN] timeout makes [toISOString()] throw
    before the debounced write, and the charge it would build is not
    modelled. *)
Definition charge_create_v1 (id amount timeout : string) : M World CreateJsonV1 :=
  if negb (js_parseFloat_positive amount) then throw "Invalid amount." else
  construct (mkConfig None None (Some true));;
  match js_parseInt timeout with
  | Some minutes =>
      chargeData ← createCharge id (mkCreateChargeOptions amount (Some (minutes * 60 * 1000)) None None);
      if date_valid (ch_expiresAt chargeData) then
        mret (mkCreateJsonV1 (ch_id chargeData) (ch_address chargeData) (ch_amountNano chargeData)
                (ch_amountRaw chargeData) (ch_expiresAt chargeData))
      else throw "RangeError: Invalid time value"
  | None => throw "RangeError: Invalid time value"
  end.

(** [charge sweep <id>] of the older revision. *)
Definition charge_sweep_v1 (id : string) : M World SweepJson :=
  construct (mkConfig None None None);;
  c ← getCharge id;
  match c with
  | None => throw "Charge not found"
  | Some charge =>
      wallet (receivePending (ch_accountIndex charge));;
      r ← sweepCharge id;
      match r with
      | Some (hash, amount) => a ← getMainAddress; mret (SweepDone hash (rawToNano amount) a)
      | None => mret NothingToSweep
      end
  end.
End V1.

(** The JSON of the current revision for the same charge, without webhook
    or metadata. *)
Definition json_of_v1 (j : CreateJsonV1) : CreateJson :=
  mkCreateJson (cv_id j) (cv_address j) (cv_amount j) (cv_amountRaw j) (cv_expiresAt j) None None.

Definition outcome_map {A B} (f : A -> B) (o : outcome A) : outcome B :=
  match o with Ret a => Ret (f a) | Throw e => Throw e end.

(** ** [charge sweep]: the reads of the current revision change nothing *)

Section Sweep.
Context `{WalletLib}.

(** [getBalance], [getPendingBlocks], [receivePending], [getBalance] on
    the sub-account [i] is [receivePending] alone. *)
Lemma sweep_reads {B} i (k : M World B) w :
  cache_ok (w_wallet w) ->
  (wallet (getBalance i);; wallet (getPendingBlocks i 10);; wallet (receivePending i);;
   wallet (getBalance i);; k) w = (wallet (receivePending i);; k) w.
Proof.
  destruct w as [p wl d t h ps ev]. cbn [w_wallet]. intros Hok.
  destruct (getBalance_spec i wl Hok) as (w1 & E1 & _).
  pose proof (getBalance_state i wl Hok) as S1. rewrite E1 in S1. cbn in S1. subst w1.
  pose proof (cache_of_ok i wl Hok) as Hok1.
  destruct (getPendingBlocks_spec i 10 (cache_of i wl) Hok1) as (w2 & E2 & _).
  pose proof (getPendingBlocks_state i 10 (cache_of i wl) Hok1) as S2.
  rewrite E2, cache_of_idem in S2. cbn in S2. subst w2.
  wallet_step E1. wallet_step E2. rewrite !wallet_bind_eval. w_simpl.
  rewrite receivePending_cached by done.
  destruct (receivePending i wl) as [wl3 [rs|e]] eqn:E3; w_simpl; [|done].
  destruct (cache_receivePending i (cache_of i wl) wl3 (Ret rs)) as [Hok3 Hsub];
    [by rewrite receivePending_cached|].
  specialize (Hok3 Hok1).
  assert (Hi : wl_accounts wl3 !! i = Some (derive_keys i)).
  { eapply lookup_weaken; [|exact Hsub]. cbn. apply lookup_insert_eq. }
  destruct (getBalance_spec i wl3 Hok3) as (w4 & E4 & _).
  pose proof (getBalance_state i wl3 Hok3) as S4. rewrite E4, cache_of_cached in S4 by done.
  cbn in S4. subst w4. wallet_step E4. done.
Qed.

Lemma charge_sweep_v1_eq id w : cache_ok (w_wallet w) -> charge_sweep_v1 id w = charge_sweep id w.
Proof.
  intros Hok. unfold charge_sweep_v1, charge_sweep.
  destruct (construct_frame (mkConfig None None None) w) as (w1 & E1 & _ & _ & W1 & _).
  rewrite !bind_eval, E1. cbn beta iota. unfold getCharge. rewrite !gets_bind_eval.
  destruct (jm_get id _) as [charge|]; [|done]. cbn beta iota zeta.
  symmetry. apply sweep_reads. by rewrite W1.
Qed.
End Sweep.

(** C28: The two revisions of [charge sweep] are the same command: run as
    a process on any state, they leave the same file, ledger, webhooks and
    events and print the same JSON or fail with the same error.  The
    balance and pending reads the current revision adds for its verbose
    output change nothing: they only cache the key [receivePending]
    derives anyway. *)
Theorem charge_sweep_revisions `{WalletLib} id w :
  in_new_process (charge_sweep_v1 id) w = in_new_process (charge_sweep id) w.
Proof.
  unfold in_new_process. rewrite !modify_bind_eval, !bind_eval, charge_sweep_v1_eq; [done|].
  apply cache_ok_empty.
Qed.

(** ** [charge create]: the current revision adds the listener *)

(** C29: With a valid amount and neither webhook nor metadata, the current
    [charge create] is the older one followed by the start of the
    listener: the same file, ledger, webhooks and events afterwards, the
    same JSON (with no webhook and no metadata) or the same error, and the
    processes of [ensure_listener], which runs even when the command then
    fails on its timeout. *)
Theorem charge_create_revisions `{WalletLib} json_ok id amount timeout c :
  js_parseFloat_positive amount = true ->
  let '(c', r) := cli_process (charge_create json_ok id amount timeout None None) c in
  let '(w', r') := in_new_process (charge_create_v1 id amount timeout) (cli_world c) in
  cli_world c' = w' /\ cli_os c' = fst (ensure_listener (cli_os c)) /\ r = outcome_map json_of_v1 r'.
Proof.
  intros Ha. destruct c as [w os].
  unfold cli_process, in_new_process, charge_create, charge_create_v1. rewrite Ha. cbn [negb truthy].
  cli_simp. destruct (construct_frame (mkConfig None None (Some true)) (restart_world w)) as (w1 & E1 & _).
  rewrite E1. cbn beta iota. rewrite (bind_eval (construct _)), E1. cbn beta iota.
  destruct (js_parseInt timeout) as [m|].
  - cli_simp. rewrite (bind_eval (createCharge _ _)).
    destruct (createCharge_run id (mkCreateChargeOptions amount (Some (m * 60 * 1000)) None None) w1)
      as (w2 & ch & E2 & _). rewrite E2. cbn beta iota.
    rewrite bind_eval, in_os_bind_eval, ensure_listener_eval. cbn [cli_world cli_os].
    rewrite bind_eval. destruct (date_valid _); cbn beta iota delta [mret M_ret]; [|done].
    rewrite in_world_bind_eval, bind_eval. cbn [cli_world cli_os].
    destruct (saveDebounceFire w2) as [w3 [[]|e]]; done.
  - cli_simp. rewrite ensure_listener_eval. cbn. by rewrite throw_bind_eval.
Qed.

Lemma charge_create_revisions_witness :
  let '(c', r) := cli_process (@charge_create example_lib (fun _ => true) "chg_x" "5" "30" None None)
                    (mkCli ex_cli_world ex_os) in
  let '(w', r') := in_new_process (@charge_create_v1 example_lib "chg_x" "5" "30") ex_cli_world in
  cli_world c' = w' /\ cli_os c' = fst (ensure_listener ex_os) /\ r = outcome_map json_of_v1 r'.
Proof.
  exact (@charge_create_revisions example_lib (fun _ => true) "chg_x" "5" "30"
           (mkCli ex_cli_world ex_os) eq_refl).
Defined.
