(* ===== verification/Termination.v ===== *)
(** * The command processes end by themselves

    A Node process exits when nothing keeps its event loop alive.  What a
    [PaymentProcessor] can leave behind is the debounce timer of
    [persistState] (500 ms), the expiry interval and the monitor's
    WebSocket, the latter two only started by [start()].  The [charge]
    commands ([src/unnamed/part_000]) never call [start()], and the process
    of [in_new_process] lets the debounce timer fire; the listener spawned
    by [charge create] is detached and [unref]'d (line 51), so it does not
    keep the command alive either.  Hence every [charge] command process
    either ends with no handle left, or fails with [process.exit(1)]. *)

From S2P Require Import Prelude BigInt JsNumber JsMap Charge Ledger Wallet Processor Sweep Payment Expiry Recovery Lifecycle Cli.

(** Nothing of the processor keeps the event loop alive. *)
Definition settled (p : Processor) : bool :=
  negb (pr_saveDebounceTimer p || pr_expiryCheckInterval p || pr_monitorRunning p).

(** The expiry interval and the monitor are off. *)
Definition calm (w : World) : Prop :=
  pr_expiryCheckInterval (w_proc w) = false /\ pr_monitorRunning (w_proc w) = false.

Definition Rcalm (w w' : World) : Prop := calm w -> calm w'.

#[export] Instance Rcalm_preorder : PreOrder Rcalm.
Proof. split; [intros w H; exact H|intros w1 w2 w3 H12 H23 H; auto]. Qed.

Lemma calm_modify f : (forall w, calm w -> calm (f w)) -> within Rcalm (modify f).
Proof. intros Hf. by apply within_modify. Qed.

Lemma calm_wallet {A} (m : M Wallet A) : within Rcalm (wallet m).
Proof. apply within_lift. intros w t H; exact H. Qed.

(** Walk a method with the rules of [within] at [Rcalm]; a state update
    must leave both flags as they were. *)
Ltac calm_walk :=
  repeat (cbn beta iota zeta;
    first
    [ apply (within_ret Rcalm) | apply (within_throw Rcalm) | apply (within_get Rcalm)
    | apply (within_gets Rcalm) | apply calm_wallet
    | apply calm_modify; intros ? ?; unfold calm in *; cbn in *; first [assumption|split; reflexivity]
    | apply (within_bind Rcalm); [|intros]
    | apply (within_try Rcalm); [|intros]
    | apply (within_for_each Rcalm); intros
    | match goal with
      | |- within _ (match ?x with _ => _ end) => destruct x
      | |- within _ (if ?x then _ else _) => destruct x
      | |- within _ (let '(_, _) := ?x in _) => destruct x
      end
    | progress unfold modify_proc, mutate, emit, monitor_add, monitor_remove, persistState,
        persistStateNow, now, getCharge, getChargeByAddress, bigint, balance_is_zero, callWebhook,
        getMainAddress ]).

Section Calm.
Context `{WalletLib}.

Lemma calm_sweepCharge id : within Rcalm (sweepCharge id).
Proof. unfold sweepCharge. calm_walk. Qed.

Lemma calm_cleanup_loop l n : within Rcalm (cleanup_loop l n).
Proof. revert n. induction l as [|[k c] l IH]; intros n; cbn [cleanup_loop]; calm_walk; apply IH. Qed.

Lemma calm_createCharge id o : within Rcalm (createCharge id o).
Proof. unfold createCharge. calm_walk. Qed.

Lemma calm_construct cfg : within Rcalm (construct cfg).
Proof. unfold construct. calm_walk. Qed.

Lemma calm_saveDebounceFire w :
  exists w', saveDebounceFire w = (w', Ret tt) /\ pr_saveDebounceTimer (w_proc w') = false /\ Rcalm w w'.
Proof.
  unfold saveDebounceFire, modify_proc. m_simp.
  destruct (pr_saveDebounceTimer (w_proc w)) eqn:T; m_simp; eexists;
    (split; [reflexivity|]); (split; [first [reflexivity|exact T]|intros C; exact C]).
Qed.

(** A process whose body keeps the interval and the monitor off ends
    with nothing left, or fails. *)
Lemma in_new_process_settles {A} (m : M World A) w :
  within Rcalm m ->
  let '(w', r) := in_new_process m w in settled (w_proc w') = true \/ exists e, r = Throw e.
Proof.
  intros Hm. unfold in_new_process. rewrite modify_bind_eval, bind_eval.
  destruct (m (restart_world w)) as [w1 [a|e]] eqn:E; [|right; by eexists].
  assert (C1 : calm w1) by (apply (Hm _ _ _ E); split; reflexivity).
  destruct (calm_saveDebounceFire w1) as (w2 & E2 & T2 & C2).
  rewrite bind_eval, E2. cbn. left. destruct (C2 C1) as [I2 M2].
  unfold settled. by rewrite T2, I2, M2.
Qed.
Lemma calm_charge_status id sweep : within Rcalm (charge_status id sweep).
Proof. unfold charge_status. calm_walk; try first [apply calm_construct|apply calm_sweepCharge]. Qed.

Lemma calm_charge_sweep id : within Rcalm (charge_sweep id).
Proof. unfold charge_sweep. calm_walk; try first [apply calm_construct|apply calm_sweepCharge]. Qed.

Lemma calm_charge_list st : within Rcalm (charge_list st).
Proof. unfold charge_list. calm_walk; try apply calm_construct. Qed.

Lemma calm_charge_cleanup : within Rcalm charge_cleanup.
Proof. unfold charge_cleanup, cleanupSweptCharges. calm_walk; try first [apply calm_construct|apply calm_cleanup_loop]. Qed.
End Calm.

(** The [charge] commands that run a processor on the file. *)
Inductive ChargeCommand : Type :=
| CmdStatus (id : string) (sweep : bool)
| CmdList (status : option string)
| CmdSweep (id : string)
| CmdCleanup.

Definition run_command `{WalletLib} (c : ChargeCommand) : M World unit :=
  match c with
  | CmdStatus id sweep => charge_status id sweep;; mret tt
  | CmdList status => charge_list status;; mret tt
  | CmdSweep id => charge_sweep id;; mret tt
  | CmdCleanup => charge_cleanup;; mret tt
  end.

(** C33: Termination of the command processes: [charge status], [charge
    list], [charge sweep] and [charge cleanup], each run as a process on
    any state, either fail (and [process.exit(1)] ends them) or end with
    no debounce timer pending, no expiry interval and no monitor
    connection, so that nothing keeps Node's event loop alive. *)
Theorem commands_terminate `{WalletLib} c w :
  let '(w', r) := in_new_process (run_command c) w in
  settled (w_proc w') = true \/ exists e, r = Throw e.
Proof.
  apply in_new_process_settles. destruct c; cbn [run_command];
    (apply (within_bind Rcalm); [|intros; apply (within_ret Rcalm)]);
    first [apply calm_charge_status|apply calm_charge_list|apply calm_charge_sweep|apply calm_charge_cleanup].
Qed.

