(* ===== verification/WalletCli.v ===== *)
(** * The wallet commands of the command line ([src/unnamed/part_000], lines 63-329)

    [getWallet] builds a [BerryPayWallet] on the seed of the store of
    [config.ts] (not under [src/]); the model assumes a seed is there, so a
    command is a fresh wallet (no key cached) on the node.  The commands
    [balance], [send] and [receive] and the helper [autoReceiveMain] are
    computations on that wallet.  [-i, --index] is read with [parseInt];
    the model takes the number it gives (a non-numeric index, which makes
    the library derive a key for [NaN], is not modelled).  The spinners
    and the console output other than the JSON printed are not modelled;
    [process.exit(1)] in a [catch] is the [Throw] of the error.  The older
    copy of [balance] and [send] (lines 1042-1129) has no auto-receive;
    [balance_revisions] relates the two revisions of [balance]. *)

From S2P Require Import Prelude BigInt JsNumber Ledger Wallet.

Local Open Scope Z_scope.

(** A command's process: [getWallet()] on the seed, a wallet with no key
    cached. *)
Definition wallet_process {A} (m : M Wallet A) (n : Node) : Node * outcome A :=
  let '(w, r) := m (mkWallet ∅ n) in (wl_node w, r).

Record BalanceJson : Type := mkBalanceJson {
  bj_address : string; bj_balance : string; bj_balanceRaw : string;
  bj_pending : string; bj_pendingRaw : string }.

Record SendJson : Type := mkSendJson {
  sdj_hash : string; sdj_to : string; sdj_amount : string; sdj_amountRaw : string }.

Record ReceivedJson : Type := mkReceivedJson {
  rj_hash : string; rj_amount : string; rj_amountRaw : string }.

Section Commands.
Context `{WalletLib}.
(** [BerryPayWallet.validateAddress], a function of the library. *)
Variable validateAddress : string -> bool.

(** [autoReceiveMain(wallet)] (lines 75-86): the pending blocks of the
    main account received, every error ignored. *)
Definition autoReceiveMain : M Wallet nat :=
  try! (pending ← getPendingBlocks 0 10;
        match pending with
        | [] => mret 0%nat
        | _ => received ← receivePending 0; mret (length received)
        end)
  catch! (fun _ => mret 0%nat).

(** The auto-receive step the current [balance] and [send] add on the
    main account (lines 192-201 and 255-260); the 500 ms wait after a
    receive is timing only. *)
Definition main_first (index : Z) : M Wallet unit :=
  if bool_decide (index = 0) then autoReceiveMain;; mret tt else mret tt.

(** [balance [-i index] [--json]] (lines 178-229). *)
Definition cmd_balance (index : Z) (json : bool) : M Wallet BalanceJson :=
  address ← getAddress index;
  main_first index;;
  bp ← getBalance index;
  (if json then mret tt else bigint bp.2;; mret tt);;
  mret (mkBalanceJson address (rawToNano bp.1) bp.1 (rawToNano bp.2) bp.2).

(** [send <address> <amount> [-i index] [-y]] (lines 231-287). *)
Definition cmd_send (address amount : string) (index : Z) (yes : bool) : M Wallet SendJson :=
  if negb (validateAddress address) then throw "Invalid Nano address." else
  if negb (js_parseFloat_positive amount) then throw "Invalid amount." else
  let amountRaw := nanoToRaw amount in
  main_first index;;
  (if yes then mret tt else getAddress index;; mret tt);;
  result ← send address amountRaw index;
  mret (mkSendJson (sr_hash result) address amount amountRaw).

(** [receive [-i index]] (lines 289-329). *)
Definition cmd_receive (index : Z) : M Wallet (list ReceivedJson) :=
  pending ← getPendingBlocks index 10;
  match pending with
  | [] => mret []
  | _ =>
      results ← receivePending index;
      mret ((fun r => mkReceivedJson (rr_hash r) (rawToNano (rr_amount r)) (rr_amount r)) <$> results)
  end.

(** [balance [-i index] [--json]] of the older copy (lines 1042-1079):
    no auto-receive, and the pending amount printed without a test. *)
Definition cmd_balance_v1 (index : Z) : M Wallet BalanceJson :=
  address ← getAddress index;
  bp ← getBalance index;
  mret (mkBalanceJson address (rawToNano bp.1) bp.1 (rawToNano bp.2) bp.2).

(** [send <address> <amount> [-i index] [-y]] of the older copy (lines
    1081-1129). *)
Definition cmd_send_v1 (address amount : string) (index : Z) (yes : bool) : M Wallet SendJson :=
  if negb (validateAddress address) then throw "Invalid Nano address." else
  if negb (js_parseFloat_positive amount) then throw "Invalid amount." else
  let amountRaw := nanoToRaw amount in
  (if yes then mret tt else getAddress index;; mret tt);;
  result ← send address amountRaw index;
  mret (mkSendJson (sr_hash result) address amount amountRaw).
End Commands.

(** ** The two revisions of [balance] and [send] *)

Section Revisions.
Context `{WalletLib}.

(** A computation that first derives the key [i] does not see whether the
    key was already cached. *)
Lemma getAddress_first {B} i (f : string -> M Wallet B) w :
  cache_ok w -> (getAddress i ≫= f) (cache_of i w) = (getAddress i ≫= f) w.
Proof.
  intros Hok. unfold getAddress. rewrite !bind_eval, !deriveAccount_cache by auto using cache_of_ok.
  by rewrite cache_of_idem.
Qed.

Lemma autoReceiveMain_cached w : cache_ok w -> autoReceiveMain (cache_of 0 w) = autoReceiveMain w.
Proof.
  intros Hok. unfold autoReceiveMain, try_catch, getPendingBlocks.
  by rewrite !bind_assoc_eval, getAddress_first.
Qed.

Lemma cache_autoReceiveMain : within Rcache autoReceiveMain.
Proof. unfold autoReceiveMain. cache_walk. apply cache_receive_each. Qed.

(** The rest of the current [balance] after the auto-receive: the
    [BigInt] test of the pending amount never throws, since the wallet
    answers a printed [bigint] or ["0"]. *)
Lemma balance_rest_eval (index : Z) (json : bool) (address : string) (w : Wallet) :
  cache_ok w ->
  exists w', (bp ← getBalance index; ((if json then mret tt else bigint bp.2;; mret tt) : M Wallet unit);;
              mret (mkBalanceJson address (rawToNano bp.1) bp.1 (rawToNano bp.2) bp.2)) w =
    (w', Ret (let bp := balance_view (wl_node w) (address_of index) in
              mkBalanceJson address (rawToNano bp.1) bp.1 (rawToNano bp.2) bp.2)) /\
    wl_node w' = wl_node w.
Proof.
  intros Hok. destruct (getBalance_spec index w Hok) as (w1 & E & _ & Hn). rewrite bind_eval, E.
  cbn beta iota. exists w1. split; [|done]. destruct json; [done|]. unfold bigint.
  destruct (balance_view_pending_parses (wl_node w) (address_of index)) as [z Hz]. by rewrite Hz.
Qed.

Lemma balance_v1_eval index w :
  cache_ok w ->
  exists w', cmd_balance_v1 index w =
    (w', Ret (let bp := balance_view (wl_node w) (address_of index) in
              mkBalanceJson (address_of index) (rawToNano bp.1) bp.1 (rawToNano bp.2) bp.2)) /\
    wl_node w' = wl_node w.
Proof.
  intros Hok. unfold cmd_balance_v1. rewrite bind_eval. unfold getAddress at 1.
  rewrite deriveAccount_cache by done. cbn beta iota.
  destruct (getBalance_spec index (cache_of index w) (cache_of_ok index w Hok)) as (w1 & E & _ & Hn).
  rewrite bind_eval, E. by exists w1.
Qed.
End Revisions.

(** ** Specifications *)

Section Specs.
Context `{WalletLib}.
Variable validateAddress : string -> bool.

(** [send] checks its arguments before it builds the wallet: an invalid
    address or amount fails with its message, and nothing reaches the
    node. *)
Theorem cmd_send_rejects address amount index yes n :
  validateAddress address = false \/ js_parseFloat_positive amount = false ->
  wallet_process (cmd_send validateAddress address amount index yes) n =
    (n, Throw (if validateAddress address then "Invalid amount." else "Invalid Nano address.")).
Proof.
  intros Hv. unfold wallet_process, cmd_send.
  destruct (validateAddress address); [|done]. destruct Hv as [Hv|Hv]; [done|]. by rewrite Hv.
Qed.
(** The current [send], on arguments both revisions accept, is the older
    one after the auto-receive of the main account. *)
Lemma cmd_send_revisions address amount index yes w :
  validateAddress address = true -> js_parseFloat_positive amount = true ->
  cmd_send validateAddress address amount index yes w =
    (main_first index;; cmd_send_v1 validateAddress address amount index yes) w.
Proof.
  intros Ha Hm. unfold cmd_send, cmd_send_v1. rewrite Ha, Hm. cbn [negb].
  rewrite !bind_eval. by destruct (main_first index w) as [w1 [[]|e]].
Qed.

(** C34: The current [balance] is the older one after the auto-receive of
    the main account: run as a process on any node, with or without
    [--json], both leave the same node and print the same JSON; on an
    account other than 0 they are the same command, since the [BigInt]
    test of the pending amount the current one adds never fails. *)
Theorem balance_revisions index json n :
  wallet_process (cmd_balance index json) n = wallet_process (main_first index;; cmd_balance_v1 index) n.
Proof.
  unfold wallet_process, cmd_balance. pose proof (cache_ok_empty n) as Hok.
  rewrite bind_eval. unfold getAddress at 1. rewrite deriveAccount_cache by done. cbn beta iota.
  rewrite !bind_eval. unfold main_first.
  destruct (bool_decide (index = 0)) eqn:Hi.
  - apply bool_decide_eq_true in Hi as ->. rewrite !bind_eval, autoReceiveMain_cached by done.
    destruct (autoReceiveMain (mkWallet ∅ n)) as [w2 [k|e]] eqn:E; cbn beta iota delta [mret M_ret]; [|done].
    pose proof (proj1 (cache_autoReceiveMain _ _ _ E) Hok) as Hok2.
    destruct (balance_rest_eval 0 json (address_of 0) w2 Hok2) as (w3 & -> & Hn3).
    destruct (balance_v1_eval 0 w2 Hok2) as (w4 & -> & Hn4). by rewrite Hn3, Hn4.
  - cbn beta iota delta [mret M_ret].
    destruct (balance_rest_eval index json (address_of index) _ (cache_of_ok index _ Hok)) as (w3 & -> & Hn3).
    destruct (balance_v1_eval index _ Hok) as (w4 & -> & Hn4). by rewrite Hn3, Hn4.
Qed.


(** C23: [balance] auto-receives on the main account only: on any other
    account it leaves the node as it was and reports the funds still
    receivable there as pending (the sum the node answers for
    [account_balance], or 0 when that action fails), although the
    command is described as auto-receiving pending funds. *)
Theorem balance_subaccount_reads index json n :
  index <> 0 ->
  wallet_process (cmd_balance index json) n =
    (n, Ret (let bp := balance_view n (address_of index) in
             mkBalanceJson (address_of index) (rawToNano bp.1) bp.1 (rawToNano bp.2) bp.2)).
Proof.
  intros Hi. unfold wallet_process, cmd_balance. pose proof (cache_ok_empty n) as Hok.
  rewrite bind_eval. unfold getAddress at 1. rewrite deriveAccount_cache by done. cbn beta iota.
  rewrite !bind_eval. unfold main_first. rewrite bool_decide_eq_false_2 by done.
  cbn beta iota delta [mret M_ret].
  destruct (balance_rest_eval index json (address_of index) _ (cache_of_ok index _ Hok)) as (w3 & -> & Hn3).
  by rewrite Hn3.
Qed.
End Specs.

(** ** Examples

    The main account [nano_0] and the account [nano_1] are opened with a
    balance of 1000 raw and a receivable block of 1000 raw each. *)
Section Examples.
Local Existing Instance example_lib.

Definition ex_account : NodeAccount := mkNodeAccount true 1000 "F0" "nano_rep" [mkPending "P1" 1000 "nano_payer"].
Definition ex_node : Node := example_node [("nano_0", ex_account); ("nano_1", ex_account)].
Definition any_address (_ : string) : bool := true.

(** [send] and [balance] receive the pending blocks first on the main
    account only: a send of 1500 raw succeeds from account 0, whose
    receivable 1000 is received first, and fails from account 1 in the
    same state; [balance] of account 1 still shows the block pending. *)
Theorem autoreceive_main_only :
  snd (wallet_process (cmd_send any_address "nano_dest" "1500" 0 true) ex_node) =
    Ret (mkSendJson "B1" "nano_dest" "1500" "1500") /\
  snd (wallet_process (cmd_send any_address "nano_dest" "1500" 1 true) ex_node) =
    Throw "Insufficient balance. Have: 1000 XNO" /\
  snd (wallet_process (cmd_balance 1 true) ex_node) = Ret (mkBalanceJson "nano_1" "1000" "1000" "1000" "1000") /\
  snd (wallet_process (cmd_balance 0 true) ex_node) = Ret (mkBalanceJson "nano_0" "2000" "2000" "0" "0").
Proof. split_and!; vm_compute; reflexivity. Qed.

Lemma cmd_send_rejects_witness :
  wallet_process (cmd_send (fun _ => false) "nano_x" "1" 0 true) ex_node = (ex_node, Throw "Invalid Nano address.").
Proof. apply (cmd_send_rejects (fun _ => false)). by left. Defined.
Lemma balance_subaccount_reads_witness :
  wallet_process (cmd_balance 1 true) ex_node =
    (ex_node, Ret (let bp := balance_view ex_node (address_of 1) in
                   mkBalanceJson (address_of 1) (rawToNano bp.1) bp.1 (rawToNano bp.2) bp.2)).
Proof. apply balance_subaccount_reads. discriminate. Defined.
End Examples.
