(* ===== verification/WalletConfig.v ===== *)
(** * The wallet management commands ([src/unnamed/part_000], lines 93-176 and 404-462)

    [init], [import], [address], [export], [delete] and [config] read and
    write the store of [src/config.ts], which is not under [src/]: it is
    modelled from the README ([src/README.md], "Environment Variables"):
    a file under [~/.berrypay/] with the seed and the node URLs, and the
    variables [BERRYPAY_SEED] ("overrides config file"), [BERRYPAY_RPC_URL]
    and [BERRYPAY_WS_URL], read first.  [hasSeed()] is read as "[getSeed()]
    gives a seed", and a URL that is set nowhere is [undefined] (the
    defaults of the library apply later).  The key derivation of
    [nanocurrency-web] is a function [seed_address] of the seed and the
    index; the seed [new BerryPayWallet()] generates is an input of
    [init].  A command is a computation on the store whose result is the
    JSON it prints; [process.exit(1)] is the [Throw] of its message.
    [--qr] and [--output] only print or write a QR code and are not
    modelled, nor is [configPath] of the [config] output. *)

From S2P Require Import Prelude BigInt JsMap Charge Ledger Wallet Processor Sweep.

(** ** The configuration store *)

Record ConfigFile : Type := mkConfigFile {
  cf_seed : option string;
  cf_rpcUrl : option string;
  cf_wsUrl : option string;
}.

(** [BERRYPAY_SEED], [BERRYPAY_RPC_URL], [BERRYPAY_WS_URL]. *)
Record Env : Type := mkEnv {
  env_seed : option string;
  env_rpcUrl : option string;
  env_wsUrl : option string;
}.

Record Store : Type := mkStore {
  st_file : ConfigFile;
  st_env : Env;
}.

Definition set_file (f : ConfigFile -> ConfigFile) (s : Store) : Store := mkStore (f (st_file s)) (st_env s).

Definition getSeed (s : Store) : option string :=
  match env_seed (st_env s) with Some x => Some x | None => cf_seed (st_file s) end.
Definition hasSeed (s : Store) : bool := match getSeed s with Some _ => true | None => false end.
Definition getRpcUrl (s : Store) : option string :=
  match env_rpcUrl (st_env s) with Some x => Some x | None => cf_rpcUrl (st_file s) end.
Definition getWsUrl (s : Store) : option string :=
  match env_wsUrl (st_env s) with Some x => Some x | None => cf_wsUrl (st_file s) end.

Definition saveSeed (seed : string) : M Store unit :=
  modify (set_file (fun f => mkConfigFile (Some seed) (cf_rpcUrl f) (cf_wsUrl f))).
Definition clearSeed : M Store unit :=
  modify (set_file (fun f => mkConfigFile None (cf_rpcUrl f) (cf_wsUrl f))).
Definition setRpcUrl (u : string) : M Store unit :=
  modify (set_file (fun f => mkConfigFile (cf_seed f) (Some u) (cf_wsUrl f))).
Definition setWsUrl (u : string) : M Store unit :=
  modify (set_file (fun f => mkConfigFile (cf_seed f) (cf_rpcUrl f) (Some u))).

(** ** Seeds as strings *)

(** [/^[0-9a-fA-F]+$/.test(seed)] *)
Definition is_hex_digit (a : Ascii.ascii) : bool :=
  let n := Ascii.nat_of_ascii a in
  ((48 <=? n) && (n <=? 57)) || ((65 <=? n) && (n <=? 70)) || ((97 <=? n) && (n <=? 102)).

Fixpoint all_hex (s : string) : bool :=
  match s with EmptyString => true | String a t => is_hex_digit a && all_hex t end.

Definition hex_regex (s : string) : bool := negb (String.eqb s "") && all_hex s.

(** [seed.toUpperCase()] on ASCII letters. *)
Definition ascii_upper (a : Ascii.ascii) : Ascii.ascii :=
  let n := Ascii.nat_of_ascii a in
  if (97 <=? n) && (n <=? 122) then Ascii.ascii_of_nat (n - 32) else a.

Fixpoint to_upper (s : string) : string :=
  match s with EmptyString => EmptyString | String a t => String (ascii_upper a) (to_upper t) end.

(** ** The commands *)

Inductive InitJson : Type :=
| InitExists (address : string)
| InitCreated (seed address : string).

Record AddressJson : Type := mkAddressJson { aj_address : string; aj_index : Z }.
Record ExportJson : Type := mkExportJson { ej_seed : string; ej_address : string }.

Inductive DeleteResult : Type := NoWalletToDelete | NotConfirmed | WalletDeleted.

Record ConfigJson : Type := mkConfigJson {
  cj_rpcUrl : option string; cj_wsUrl : option string; cj_hasWallet : bool }.

Section Commands.
(** [nanoWallet.accounts(seed, i, i)[0].address] *)
Variable seed_address : string -> Z -> string.

(** [init [--force]] (lines 93-121); [fresh] is the seed the library
    generates, also for [new BerryPayWallet({ seed: undefined })]. *)
Definition cmd_init (fresh : string) (force : bool) : M Store InitJson :=
  s ← get;
  if hasSeed s && negb force then
    match getSeed s with
    | Some seed => mret (InitExists (seed_address seed 0))
    | None => mret (InitExists (seed_address fresh 0))
    end
  else
    saveSeed fresh;;
    mret (InitCreated fresh (seed_address fresh 0)).

(** [import <seed>] (lines 123-141). *)
Definition cmd_import (seed : string) : M Store string :=
  if negb (Nat.eqb (String.length seed) 64) || negb (hex_regex seed)
  then throw "Invalid seed format. Must be 64 hex characters." else
  let address := seed_address (to_upper seed) 0 in
  saveSeed (to_upper seed);;
  mret address.

(** [getWallet()] (lines 63-72): the seed, or exit. *)
Definition getWallet : M Store string :=
  s ← get;
  match getSeed s with
  | Some seed => mret seed
  | None => throw "No wallet found."
  end.

(** [address [-i index]] (lines 143-176), without [--qr]. *)
Definition cmd_address (index : Z) : M Store AddressJson :=
  seed ← getWallet;
  mret (mkAddressJson (seed_address seed index) index).

(** [export] (lines 404-419). *)
Definition cmd_export : M Store ExportJson :=
  s ← get;
  match getSeed s with
  | Some seed => mret (mkExportJson seed (seed_address seed 0))
  | None => throw "No wallet found."
  end.

(** [delete [-y]] (lines 421-439). *)
Definition cmd_delete (yes : bool) : M Store DeleteResult :=
  s ← get;
  if negb (hasSeed s) then mret NoWalletToDelete else
  if negb yes then mret NotConfirmed else
  clearSeed;;
  mret WalletDeleted.

(** [config [--rpc url] [--ws url]] (lines 441-462). *)
Definition cmd_config (rpc ws : option string) : M Store ConfigJson :=
  (if truthy rpc then setRpcUrl (default "" rpc) else mret tt);;
  (if truthy ws then setWsUrl (default "" ws) else mret tt);;
  s ← get;
  mret (mkConfigJson (getRpcUrl s) (getWsUrl s) (hasSeed s)).
End Commands.

(** ** Specifications *)

(** What [import] accepts: 64 characters, all hexadecimal digits. *)
Definition valid_seed (s : string) : bool := Nat.eqb (String.length s) 64 && hex_regex s.

Definition with_seed (seed : string) (st : Store) : Store :=
  set_file (fun f => mkConfigFile (Some seed) (cf_rpcUrl f) (cf_wsUrl f)) st.

Lemma ascii_upper_hex a : is_hex_digit (ascii_upper a) = is_hex_digit a.
Proof. destruct a as [[] [] [] [] [] [] [] []]; reflexivity. Qed.

Lemma ascii_upper_idem a : ascii_upper (ascii_upper a) = ascii_upper a.
Proof. destruct a as [[] [] [] [] [] [] [] []]; reflexivity. Qed.

Lemma to_upper_length s : String.length (to_upper s) = String.length s.
Proof. induction s; simpl; auto. Qed.

Lemma to_upper_all_hex s : all_hex (to_upper s) = all_hex s.
Proof. induction s; simpl; [done|]. by rewrite ascii_upper_hex, IHs. Qed.

Lemma to_upper_idem s : to_upper (to_upper s) = to_upper s.
Proof. induction s; simpl; [done|]. by rewrite ascii_upper_idem, IHs. Qed.

Lemma to_upper_empty s : String.eqb (to_upper s) "" = String.eqb s "".
Proof. by destruct s. Qed.

Lemma valid_seed_upper s : valid_seed (to_upper s) = valid_seed s.
Proof. unfold valid_seed, hex_regex. by rewrite to_upper_length, to_upper_empty, to_upper_all_hex. Qed.

Section Specs.
Variable seed_address : string -> Z -> string.

(** [import] on every branch: a valid seed is stored in upper case and its
    address printed; anything else exits with the message and leaves the
    store. *)
Lemma cmd_import_spec s st :
  cmd_import seed_address s st =
    if valid_seed s then (with_seed (to_upper s) st, Ret (seed_address (to_upper s) 0))
    else (st, Throw "Invalid seed format. Must be 64 hex characters.").
Proof. unfold cmd_import, valid_seed. by destruct (Nat.eqb _ _), (hex_regex s). Qed.

Lemma getSeed_with_seed seed st : env_seed (st_env st) = None -> getSeed (with_seed seed st) = Some seed.
Proof. unfold getSeed. cbn. by intros ->. Qed.

(** C30: [import] then [export] is a round trip: with no [BERRYPAY_SEED], a
    valid seed imported is exported in upper case with the address
    [import] printed, and importing the exported seed again changes
    nothing and prints the same address; an invalid seed is refused and
    the store left as it was. *)
Theorem import_export_roundtrip s st :
  env_seed (st_env st) = None ->
  let '(st1, r1) := cmd_import seed_address s st in
  if valid_seed s then
    r1 = Ret (seed_address (to_upper s) 0) /\
    cmd_export seed_address st1 = (st1, Ret (mkExportJson (to_upper s) (seed_address (to_upper s) 0))) /\
    cmd_import seed_address (to_upper s) st1 = (st1, r1)
  else st1 = st /\ r1 = Throw "Invalid seed format. Must be 64 hex characters.".
Proof.
  intros He. rewrite cmd_import_spec. destruct (valid_seed s) eqn:Hv; [|done].
  split_and!; [done| |].
  - unfold cmd_export. rewrite get_bind_eval. by rewrite getSeed_with_seed.
  - rewrite cmd_import_spec, valid_seed_upper, Hv, to_upper_idem. unfold with_seed, set_file. by destruct st.
Qed.

(** C31: [init] without [--force] never replaces a seed: when the store has
    one, the store is left as it was and the address of that seed is
    printed. *)
Theorem init_keeps_seed fresh st seed :
  getSeed st = Some seed ->
  cmd_init seed_address fresh false st = (st, Ret (InitExists (seed_address seed 0))).
Proof. intros Hs. unfold cmd_init, hasSeed. rewrite get_bind_eval. by rewrite Hs. Qed.

(** [delete] on every branch: nothing without a wallet, nothing without
    [--yes], otherwise the seed of the file is removed. *)
Lemma cmd_delete_spec yes st :
  cmd_delete yes st =
    if negb (hasSeed st) then (st, Ret NoWalletToDelete)
    else if negb yes then (st, Ret NotConfirmed)
    else (set_file (fun f => mkConfigFile None (cf_rpcUrl f) (cf_wsUrl f)) st, Ret WalletDeleted).
Proof. unfold cmd_delete. rewrite get_bind_eval. by destruct (hasSeed st), yes. Qed.

(** C32: With [BERRYPAY_SEED] set, the commands keep using it whatever the
    file says: after a valid [import] of another seed the [address]
    command prints the address of the variable's seed, not the one
    [import] printed, and [delete --yes] answers "Wallet deleted." while
    [export] still prints the variable's seed. *)
Theorem env_seed_overrides e s st :
  env_seed (st_env st) = Some e -> valid_seed s = true ->
  let st1 := fst (cmd_import seed_address s st) in
  snd (cmd_import seed_address s st) = Ret (seed_address (to_upper s) 0) /\
  snd (cmd_address seed_address 0 st1) = Ret (mkAddressJson (seed_address e 0) 0) /\
  let '(st2, r2) := cmd_delete true st1 in
  r2 = Ret WalletDeleted /\ cmd_export seed_address st2 = (st2, Ret (mkExportJson e (seed_address e 0))).
Proof.
  intros He Hv. rewrite cmd_import_spec, Hv. cbn [fst snd]. split; [done|].
  assert (E : forall f, getSeed (set_file f st) = Some e) by (intros f; unfold getSeed; cbn; by rewrite He).
  split.
  - unfold cmd_address, getWallet, with_seed. rewrite bind_assoc_eval, get_bind_eval, E. done.
  - unfold with_seed. rewrite cmd_delete_spec. unfold hasSeed. rewrite E. cbn beta iota.
    split; [done|]. unfold cmd_export. rewrite get_bind_eval.
    assert (E2 : forall f g, getSeed (set_file f (set_file g st)) = Some e)
      by (intros f g; unfold getSeed; cbn; by rewrite He).
    by rewrite E2.
Qed.
End Specs.

(** ** Examples *)
Section Examples.
Definition ex_seed_address (seed : string) (i : Z) : string := ("nano_" ++ seed)%string.
Definition ex_seed : string := "00112233445566778899aabbccddeeff00112233445566778899aabbccddeeff".
Definition ex_store : Store := mkStore (mkConfigFile None None None) (mkEnv None None None).
Definition ex_env_store : Store := mkStore (mkConfigFile None None None) (mkEnv (Some "E5") None None).

Lemma import_export_roundtrip_witness :
  let '(st1, r1) := cmd_import ex_seed_address ex_seed ex_store in
  if valid_seed ex_seed then
    r1 = Ret (ex_seed_address (to_upper ex_seed) 0) /\
    cmd_export ex_seed_address st1 =
      (st1, Ret (mkExportJson (to_upper ex_seed) (ex_seed_address (to_upper ex_seed) 0))) /\
    cmd_import ex_seed_address (to_upper ex_seed) st1 = (st1, r1)
  else st1 = ex_store /\ r1 = Throw "Invalid seed format. Must be 64 hex characters.".
Proof. exact (import_export_roundtrip ex_seed_address ex_seed ex_store eq_refl). Defined.

Lemma init_keeps_seed_witness :
  cmd_init ex_seed_address "F1" false ex_env_store = (ex_env_store, Ret (InitExists (ex_seed_address "E5" 0))).
Proof. apply init_keeps_seed. reflexivity. Defined.

Lemma env_seed_overrides_witness :
  let st1 := fst (cmd_import ex_seed_address ex_seed ex_env_store) in
  snd (cmd_import ex_seed_address ex_seed ex_env_store) = Ret (ex_seed_address (to_upper ex_seed) 0) /\
  snd (cmd_address ex_seed_address 0 st1) = Ret (mkAddressJson (ex_seed_address "E5" 0) 0) /\
  let '(st2, r2) := cmd_delete true st1 in
  r2 = Ret WalletDeleted /\ cmd_export ex_seed_address st2 = (st2, Ret (mkExportJson "E5" (ex_seed_address "E5" 0))).
Proof. apply env_seed_overrides; vm_compute; reflexivity. Defined.
End Examples.
