(* ===== verification/WalletWatch.v ===== *)
(** * The [watch] command ([src/unnamed/part_000], lines 331-402)

    [watch [-i index]] receives what is already pending on the account,
    then subscribes the monitor ([monitor.ts], not under [src/]) to the
    address and, on each [payment] event, receives the block and prints
    one JSON line; a failed receive is printed and the watch goes on.
    The monitor's events are inputs.  The [payment] listener is an
    [async] callback the emitter does not await: two events that arrive
    within one RPC round trip run their handlers interleaved at the
    [await]s of [wallet.receive].  [receive_prepare] is [receive] up to
    the block it builds (its reads of [account_info] and [work_generate]),
    [receive_submit] the [process] call, and [receive_split] shows that
    in sequence they are [receive].  [SIGINT] and the console lines are
    not modelled. *)

From S2P Require Import Prelude BigInt JsNumber JsMap Charge Ledger Wallet Processor Sweep Payment WalletCli.

(** The JSON line of a payment (lines 383-389). *)
Record WatchJson : Type := mkWatchJson {
  wj_hash : string; wj_from : string; wj_amount : string; wj_amountRaw : string }.

Definition watch_json (payment : PaymentEvent) : WatchJson :=
  mkWatchJson (ev_hash payment) (ev_from payment) (ev_amountNano payment) (ev_amount payment).

(** A handler's own [try]: its outcome, never a rejection. *)
Definition attempt {S A} (m : M S A) : M S (outcome A) :=
  fun s => let '(s', o) := m s in (s', Ret o).

Section Watch.
Context `{WalletLib}.

(** Lines 336-351: the address, then the blocks already pending. *)
Definition watch_start (index : Z) : M Wallet (string * list ReceiveResult) :=
  address ← getAddress index;
  existingPending ← getPendingBlocks index 10;
  match existingPending with
  | [] => mret (address, [])
  | _ => received ← receivePending index; mret (address, received)
  end.

(** The [payment] handler (lines 368-390). *)
Definition watch_payment (index : Z) (payment : PaymentEvent) : M Wallet WatchJson :=
  (try! (receive (ev_hash payment) (ev_amount payment) index;; mret tt) catch! (fun _ => mret tt));;
  mret (watch_json payment).

(** Events handled one after the other. *)
Fixpoint watch_events (index : Z) (events : list PaymentEvent) : M Wallet (list WatchJson) :=
  match events with
  | [] => mret []
  | p :: rest => j ← watch_payment index p; js ← watch_events index rest; mret (j :: js)
  end.

(** [receive] up to the block it sends to [process], with its subtype. *)
Definition receive_prepare (pendingHash amountRaw : string) (accountIndex : Z) : M Wallet (string * Block) :=
  address ← getAddress accountIndex;
  _ ← getPrivateKey accountIndex;
  info ← getAccountInfo accountIndex;
  receiveBlock ←
    match info with
    | Some info =>
        work ← getWork (ai_frontier info);
        mret (ReceiveBlock (ai_balance info) address (ai_representative info)
                (ai_frontier info) pendingHash amountRaw work)
    | None =>
        w ← get;
        match wl_accounts w !! accountIndex with
        | None => throw "TypeError: Cannot read properties of undefined"
        | Some kp =>
            work ← getWork (kp_publicKey kp);
            mret (ReceiveBlock "0" address DEFAULT_REPRESENTATIVE zero_frontier
                    pendingHash amountRaw work)
        end
    end;
  mret (match info with Some _ => "receive" | None => "open" end, receiveBlock).

(** The [process] call that ends [receive]. *)
Definition receive_submit (amountRaw : string) (b : string * Block) : M Wallet ReceiveResult :=
  hash ← rpcCall "process" (node_process b.1 b.2);
  mret (mkReceiveResult hash amountRaw).

(** Two [payment] handlers interleaved: both build their block before
    either sends it. *)
Definition watch_two_interleaved (index : Z) (p1 p2 : PaymentEvent)
    : M Wallet (outcome ReceiveResult * outcome ReceiveResult) :=
  b1 ← receive_prepare (ev_hash p1) (ev_amount p1) index;
  b2 ← receive_prepare (ev_hash p2) (ev_amount p2) index;
  r1 ← attempt (receive_submit (ev_amount p1) b1);
  r2 ← attempt (receive_submit (ev_amount p2) b2);
  mret (r1, r2).
End Watch.

(** ** [receive] in two phases *)

Section Split.
Context `{WalletLib}.

(** Run the first action of both sides and go on with its result. *)
Ltac split_step :=
  rewrite ?bind_assoc_eval, ?bind_eval;
  lazymatch goal with
  | |- (let '(_, _) := ?m ?s in _) = _ => destruct (m s) as [? [?|?]]; cbn beta iota; [|reflexivity]
  end.

Lemma receive_split h a i w :
  receive h a i w = (receive_prepare h a i ≫= receive_submit a) w.
Proof.
  unfold receive, receive_prepare. do 4 split_step.
  rewrite mret_bind_eval. reflexivity.
Qed.
End Split.

(** ** The watch goes on after a failed receive *)

Lemma try_ignore_ret {S} (m : M S unit) s : exists s', (try! m catch! (fun _ => mret tt)) s = (s', Ret tt).
Proof. unfold try_catch. destruct (m s) as [s' [[]|e]]; by eexists. Qed.

Section Total.
Context `{WalletLib}.

End Total.

(** ** [receive] on an opened account *)

Lemma find_pending_remove_other h h' l :
  h' <> h -> find_pending h' (remove_pending h l) = find_pending h' l.
Proof.
  intros Hne. induction l as [|e l IH]; [done|]. unfold remove_pending in *.
  rewrite filter_cons. cbv beta. destruct (String.eqb_spec (pe_hash e) h) as [He|Hh]; simpl.
  - rewrite IH, He. by destruct (String.eqb_spec h h').
  - by rewrite IH.
Qed.

Lemma find_pending_remove_same h l : find_pending h (remove_pending h l) = None.
Proof.
  induction l as [|e l IH]; [done|]. unfold remove_pending in *.
  rewrite filter_cons. cbv beta. destruct (String.eqb_spec (pe_hash e) h) as [He|Hh]; simpl.
  - exact IH.
  - by destruct (String.eqb_spec (pe_hash e) h).
Qed.

Section ReceiveSpec.
Context `{WalletLib}.

(** The block [receive] builds on an opened account: on its frontier,
    with the balance and representative the node reports. *)
Definition receive_block (i : Z) (h amountRaw : string) (n : Node) : Block :=
  let acc := node_account n (address_of i) in
  ReceiveBlock (BigInt_to_string (na_balance acc)) (address_of i) (na_representative acc)
    (na_frontier acc) h amountRaw ("work:" +:+ na_frontier acc).

(** The node after it accepts that block for a pending entry of [x]. *)
Definition node_receive (a h : string) (x : Z) (n : Node) : Node :=
  let acc := node_account n a in
  bump (put_account a (mkNodeAccount true (na_balance acc + x) (fresh_hash n) (na_representative acc)
                         (remove_pending h (na_receivable acc))) n).

Lemma node_account_receive a h x n :
  node_account (node_receive a h x n) a =
  mkNodeAccount true (na_balance (node_account n a) + x) (fresh_hash n)
    (na_representative (node_account n a)) (remove_pending h (na_receivable (node_account n a))).
Proof. unfold node_receive, node_account at 1, bump, put_account. simpl. by rewrite lookup_insert, decide_True. Qed.

Lemma receive_prepare_opened h amountRaw i w :
  cache_ok w -> nd_failing (wl_node w) = [] ->
  na_opened (node_account (wl_node w) (address_of i)) = true ->
  exists w', receive_prepare h amountRaw i w = (w', Ret ("receive", receive_block i h amountRaw (wl_node w))) /\
             read_only w w'.
Proof.
  intros Hok Hf Hop.
  destruct (deriveAccount_spec i w Hok) as (w1 & Hd & [Hok1 Hn1] & _).
  destruct (getPrivateKey_spec i w1 Hok1) as (w2 & Hk & [Hok2 Hn2] & _).
  destruct (getAccountInfo_spec i w2 Hok2) as (w3 & Hi & [Hok3 Hn3]).
  unfold receive_prepare, getAddress. bind_step Hd. bind_step Hk. bind_step Hi.
  unfold info_view. rewrite Hn2, Hn1, Hf, Hop, bool_decide_eq_false_2 by set_solver.
  cbn beta iota delta [orb negb].
  assert (Hw : "work_generate" ∉ nd_failing (wl_node w3)) by (rewrite Hn3, Hn2, Hn1, Hf; set_solver).
  rewrite bind_assoc_eval, bind_eval, (getWork_spec _ _ Hw). cbn beta iota. rewrite mret_bind_eval.
  exists w3. split; [reflexivity|]. split; [done|]. by rewrite Hn3, Hn2, Hn1.
Qed.

Lemma receive_submit_eval amountRaw tag blk w :
  nd_failing (wl_node w) = [] ->
  receive_submit amountRaw (tag, blk) w =
    let '(n', r) := node_process tag blk (wl_node w) in
    (mkWallet (wl_accounts w) n',
     match r with inl hsh => Ret (mkReceiveResult hsh amountRaw) | inr e => Throw ("RPC error: " +:+ e) end).
Proof.
  intros Hf. unfold receive_submit, rpcCall. rewrite bind_eval. cbn beta.
  rewrite Hf, bool_decide_eq_false_2 by set_solver. by destruct (node_process _ _ _) as [n' [hsh|e]].
Qed.

(** The node accepts the block for a pending entry whose amount it carries. *)
Lemma node_process_receive_ok i h amountRaw e n :
  let acc := node_account n (address_of i) in
  na_opened acc = true -> find_pending h (na_receivable acc) = Some e ->
  BigInt_of_string amountRaw = Some (pe_amount e) ->
  node_process "receive" (receive_block i h amountRaw n) n =
    (node_receive (address_of i) h (pe_amount e) n, inl (fresh_hash n)).
Proof.
  intros acc Hop Hfind Hamt. unfold node_process, receive_block, node_receive. fold acc.
  rewrite BigInt_roundtrip, Hamt, Hfind, Hop. simpl. by rewrite String.eqb_refl, !Z.eqb_refl.
Qed.

(** A receive block whose previous block is not the frontier is a fork. *)
Lemma node_process_receive_fork a wb rep prev h amountRaw work e n :
  let acc := node_account n a in
  na_opened acc = true -> prev <> na_frontier acc -> find_pending h (na_receivable acc) = Some e ->
  is_Some (BigInt_of_string wb) -> is_Some (BigInt_of_string amountRaw) ->
  node_process "receive" (ReceiveBlock wb a rep prev h amountRaw work) n = (n, inr "Fork").
Proof.
  intros acc Hop Hprev Hfind [x Hx] [y Hy]. unfold node_process. fold acc.
  rewrite Hx, Hy, Hfind, Hop. simpl. by destruct (String.eqb_spec prev (na_frontier acc)).
Qed.

Lemma receive_opened h amountRaw i e w :
  cache_ok w -> nd_failing (wl_node w) = [] ->
  let acc := node_account (wl_node w) (address_of i) in
  na_opened acc = true -> find_pending h (na_receivable acc) = Some e ->
  BigInt_of_string amountRaw = Some (pe_amount e) ->
  exists w', receive h amountRaw i w = (w', Ret (mkReceiveResult (fresh_hash (wl_node w)) amountRaw)) /\
    cache_ok w' /\ wl_node w' = node_receive (address_of i) h (pe_amount e) (wl_node w).
Proof.
  intros Hok Hf acc Hop Hfind Hamt.
  destruct (receive_prepare_opened h amountRaw i w Hok Hf Hop) as (w1 & Hp & [Hok1 Hn1]).
  rewrite receive_split. bind_step Hp. rewrite receive_submit_eval by (by rewrite Hn1).
  rewrite Hn1, (node_process_receive_ok _ _ _ e) by done. eexists; split_and!; [reflexivity|done|done].
Qed.

Lemma watch_payment_ok i p w w' r :
  receive (ev_hash p) (ev_amount p) i w = (w', Ret r) -> watch_payment i p w = (w', Ret (watch_json p)).
Proof. intros Hr. unfold watch_payment, try_catch. rewrite bind_eval, bind_eval, Hr. reflexivity. Qed.
End ReceiveSpec.

(** ** Two payments in one round trip *)
Section Race.
Context `{WalletLib}.

(** C12: Two [payment] events for blocks [p1] and [p2] pending on an
    opened account (amounts as the node lists them, the node answering,
    its next hash not the account's frontier): handled one after the
    other, [watch] receives both (the balance grows by both amounts and
    neither stays receivable); with the two [async] handlers interleaved
    at the [await]s of [receive], both build their block on the same
    frontier, the first is accepted, the node rejects the second as a
    fork, and [p2] stays receivable although the watch printed both
    payments. *)
Theorem watch_race_loses_receive i p1 p2 e1 e2 w :
  cache_ok w -> nd_failing (wl_node w) = [] ->
  let n := wl_node w in let acc := node_account n (address_of i) in
  na_opened acc = true -> na_frontier acc <> fresh_hash n -> ev_hash p1 <> ev_hash p2 ->
  find_pending (ev_hash p1) (na_receivable acc) = Some e1 ->
  BigInt_of_string (ev_amount p1) = Some (pe_amount e1) ->
  find_pending (ev_hash p2) (na_receivable acc) = Some e2 ->
  BigInt_of_string (ev_amount p2) = Some (pe_amount e2) ->
  (exists w', watch_events i [p1; p2] w = (w', Ret [watch_json p1; watch_json p2]) /\
     let acc' := node_account (wl_node w') (address_of i) in
     na_balance acc' = (na_balance acc + pe_amount e1 + pe_amount e2)%Z /\
     find_pending (ev_hash p1) (na_receivable acc') = None /\
     find_pending (ev_hash p2) (na_receivable acc') = None) /\
  (exists w', watch_two_interleaved i p1 p2 w =
       (w', Ret (Ret (mkReceiveResult (fresh_hash n) (ev_amount p1)), Throw "RPC error: Fork")) /\
     let acc' := node_account (wl_node w') (address_of i) in
     na_balance acc' = (na_balance acc + pe_amount e1)%Z /\
     find_pending (ev_hash p1) (na_receivable acc') = None /\
     find_pending (ev_hash p2) (na_receivable acc') = Some e2).
Proof.
  intros Hok Hf n acc Hop Hfr Hne Hf1 Ha1 Hf2 Ha2. unfold acc in *; unfold n in *.
  destruct (receive_opened _ _ i e1 w Hok Hf Hop Hf1 Ha1) as (w1 & R1 & Hok1 & Hn1).
  assert (Hacc1 := node_account_receive (address_of i) (ev_hash p1) (pe_amount e1) (wl_node w)).
  split.
  - destruct (receive_opened (ev_hash p2) (ev_amount p2) i e2 w1 Hok1) as (w2 & R2 & _ & Hn2);
      [by rewrite Hn1|by rewrite Hn1, Hacc1|
       by rewrite Hn1, Hacc1; simpl; rewrite find_pending_remove_other by congruence|done|].
    cbn [watch_events]. rewrite bind_eval, (watch_payment_ok _ _ _ _ _ R1). cbn beta iota.
    rewrite bind_eval, bind_eval, (watch_payment_ok _ _ _ _ _ R2). cbn beta iota.
    eexists; split; [reflexivity|]. rewrite Hn2, node_account_receive, Hn1, Hacc1. simpl.
    rewrite find_pending_remove_other, find_pending_remove_same, find_pending_remove_same by done.
    split_and!; [lia|done|done].
  - destruct (receive_prepare_opened (ev_hash p1) (ev_amount p1) i w Hok Hf Hop) as (t1 & P1 & [Hokt1 Ht1]).
    destruct (receive_prepare_opened (ev_hash p2) (ev_amount p2) i t1 Hokt1) as (t2 & P2 & [_ Ht2]);
      [by rewrite Ht1|by rewrite Ht1|].
    unfold watch_two_interleaved. bind_step P1. bind_step P2.
    unfold attempt. rewrite bind_eval, receive_submit_eval by (by rewrite Ht2, Ht1).
    rewrite Ht2, Ht1, (node_process_receive_ok _ _ _ e1) by done. cbn beta iota.
    rewrite bind_eval, receive_submit_eval by done. cbn [wl_node]. unfold receive_block at 1.
    rewrite (node_process_receive_fork _ _ _ _ _ _ _ e2) by
      (rewrite ?Hacc1; simpl; rewrite ?find_pending_remove_other, ?BigInt_roundtrip by congruence;
       by eauto || congruence).
    cbn beta iota. eexists; split; [reflexivity|]. cbn [wl_node].
    rewrite Hacc1. simpl. rewrite find_pending_remove_same, find_pending_remove_other by congruence.
    split_and!; [lia|done|done].
Qed.
End Race.

(** The account [nano_0] with two receivable blocks, announced by the
    monitor as two [payment] events. *)
Definition race_account : NodeAccount :=
  mkNodeAccount true 1000 "F0" "nano_rep" [mkPending "P1" 1000 "nano_a"; mkPending "P2" 500 "nano_b"].
Definition race_node : Node := example_node [("nano_0", race_account)].
Definition race_e1 : PaymentEvent := mkPaymentEvent "nano_0" "nano_a" "P1" "1000" "1000" 0.
Definition race_e2 : PaymentEvent := mkPaymentEvent "nano_0" "nano_b" "P2" "500" "500" 0.

Lemma watch_race_loses_receive_witness :
  exists w', @watch_two_interleaved example_lib 0 race_e1 race_e2 (mkWallet ∅ race_node) =
    (w', Ret (Ret (mkReceiveResult "B0" "1000"), Throw "RPC error: Fork")).
Proof.
  destruct (@watch_race_loses_receive example_lib 0 race_e1 race_e2 (mkPending "P1" 1000 "nano_a")
    (mkPending "P2" 500 "nano_b") (mkWallet ∅ race_node) (cache_ok_empty _) eq_refl
    ltac:(vm_compute; reflexivity) ltac:(vm_compute; discriminate) ltac:(vm_compute; discriminate)
    ltac:(vm_compute; reflexivity) ltac:(vm_compute; reflexivity)
    ltac:(vm_compute; reflexivity) ltac:(vm_compute; reflexivity)) as [_ (w' & Hrun & _)].
  exists w'. exact Hrun.
Defined.
